(** * Miro: a shallow embedding of the backend pieces checked against the
    specification.

    The development follows the Python sources module by module:

    - [MessageHandler]  : [tv/lib/messagehandler.py], class [ViewTracker];
    - [Database]        : [tv/lib/database.py] ([BulkSQLManager],
                          [AttributeUpdateTracker], [DDBObject.signal_change])
                          and [tv/lib/storedatabase.py]
                          ([LiveStorage.update_obj]);
    - [Download]        : [tv/lib/dl_daemon/download.py];
    - [MovieData]       : [tv/lib/moviedata.py];
    - [CommandLine]     : [tv/lib/commandline.py].

    Python dictionaries and sets are stdpp finite maps and sets, Python
    integers are [Z], Python exceptions are the [Raise] case of [Result]. *)

From stdpp Require Import gmap strings list fin_maps pretty.
From Stdlib Require Import ZArith Lia Ascii.

(** ** Python exceptions and fallible computations *)

Inductive PyExn : Type :=
  | KeyError
  | ValueError
  | TypeError
  | IOError
  | OSError
  | AssertionError
  | ValidationError
  | DatabaseConstraintError
  | IndexError
  | AttributeError
  | RuntimeError.

Inductive Result (A : Type) : Type :=
  | Ok (a : A)
  | Raise (e : PyExn).
Arguments Ok {A} a.
Arguments Raise {A} e.

#[global] Instance PyExn_eq_dec : EqDecision PyExn.
Proof. solve_decision. Defined.

#[global] Instance Result_ret : MRet Result := fun _ a => Ok a.
#[global] Instance Result_bind : MBind Result :=
  fun _ _ f m => match m with Ok a => f a | Raise e => Raise e end.

Definition is_ok {A} (r : Result A) : bool :=
  match r with Ok _ => true | Raise _ => false end.

(** * The dispatcher-side view tracker ([messagehandler.ViewTracker]) *)

Module MessageHandler.

(** A tracked Python object: a reference (its identity) together with its
    [id] attribute, which never changes.  The remaining attributes live in
    the heap and are read when [info_factory] is called. *)
Record Obj : Type := { obj_ref : nat; obj_id : Z }.

#[global] Instance Obj_eq_dec : EqDecision Obj.
Proof. solve_decision. Defined.

Section view_tracker.
Context {Fields : Type} `{!EqDecision Fields}.

(** The attributes of every live object, by reference. *)
Definition Heap : Type := nat -> Fields.

(** What [info_factory] builds: the [__dict__] of an info object. *)
Record Info : Type := { info_id : Z; info_dict : Fields }.

#[global] Instance Info_eq_dec : EqDecision Info.
Proof. solve_decision. Defined.

Definition info_factory (h : Heap) (obj : Obj) : Info :=
  {| info_id := obj_id obj; info_dict := h (obj_ref obj) |}.

(** The message built by [make_changed_message]. *)
Record Message : Type :=
  { msg_added : list Info; msg_changed : list Info; msg_removed : list Z }.

Inductive Effect : Type :=
  | SendToFrontend (m : Message)
  | AddUrgentCall.

Record ViewTracker : Type :=
  { changed : gmap Z Obj;
    removed : gset Z;
    added : gmap Z Obj;
    added_order : list Obj;
    changes_pending : bool;
    tabs_being_reordered : bool;
    _last_sent_info : gmap Z Info }.

Definition set_last_sent_info (lsi : gmap Z Info) (vt : ViewTracker) :=
  {| changed := changed vt; removed := removed vt; added := added vt;
     added_order := added_order vt; changes_pending := changes_pending vt;
     tabs_being_reordered := tabs_being_reordered vt;
     _last_sent_info := lsi |}.

Definition set_buffers (c : gmap Z Obj) (r : gset Z) (a : gmap Z Obj)
    (ao : list Obj) (vt : ViewTracker) :=
  {| changed := c; removed := r; added := a; added_order := ao;
     changes_pending := changes_pending vt;
     tabs_being_reordered := tabs_being_reordered vt;
     _last_sent_info := _last_sent_info vt |}.

Definition set_changes_pending (b : bool) (vt : ViewTracker) :=
  {| changed := changed vt; removed := removed vt; added := added vt;
     added_order := added_order vt; changes_pending := b;
     tabs_being_reordered := tabs_being_reordered vt;
     _last_sent_info := _last_sent_info vt |}.

(** [ViewTracker.__init__] (the callbacks are wired by the caller). *)
Definition init : ViewTracker :=
  {| changed := ∅; removed := ∅; added := ∅; added_order := [];
     changes_pending := false; tabs_being_reordered := false;
     _last_sent_info := ∅ |}.

Definition reset_changes (vt : ViewTracker) : ViewTracker :=
  set_changes_pending false (set_buffers ∅ ∅ ∅ [] vt).

(** [[obj for obj in self.added_order if obj.id in self.added]] *)
Definition _get_added_objects (vt : ViewTracker) : list Obj :=
  filter (fun obj => is_Some (added vt !! obj_id obj)) (added_order vt).

Definition _make_new_info (h : Heap) (lsi : gmap Z Info) (obj : Obj)
    : gmap Z Info * Info :=
  let info := info_factory h obj in (<[obj_id obj := info]> lsi, info).

Fixpoint _make_added_list (h : Heap) (lsi : gmap Z Info) (objs : list Obj)
    : gmap Z Info * list Info :=
  match objs with
  | [] => (lsi, [])
  | obj :: rest =>
      let '(lsi1, info) := _make_new_info h lsi obj in
      let '(lsi2, infos) := _make_added_list h lsi1 rest in
      (lsi2, info :: infos)
  end.

Fixpoint _make_changed_list (h : Heap) (lsi : gmap Z Info) (objs : list Obj)
    : gmap Z Info * list Info :=
  match objs with
  | [] => (lsi, [])
  | obj :: rest =>
      let info := info_factory h obj in
      if bool_decide (lsi !! obj_id obj = None
                      \/ lsi !! obj_id obj <> Some info)
      then let '(lsi2, infos) :=
             _make_changed_list h (<[obj_id obj := info]> lsi) rest in
           (lsi2, info :: infos)
      else _make_changed_list h lsi rest
  end.

(** [del self._last_sent_info[id_]] for every removed id: a missing key
    raises [KeyError]. *)
Fixpoint del_all (lsi : gmap Z Info) (ids : list Z) : Result (gmap Z Info) :=
  match ids with
  | [] => Ok lsi
  | id_ :: rest =>
      match lsi !! id_ with
      | None => Raise KeyError
      | Some _ => del_all (delete id_ lsi) rest
      end
  end.

Definition _make_removed_list (lsi : gmap Z Info) (removed_set : gset Z)
    : Result (gmap Z Info * list Z) :=
  lsi' ← del_all lsi (elements removed_set);
  Ok (lsi', elements removed_set).

Definition values (m : gmap Z Obj) : list Obj := (map_to_list m).*2.

Definition message_nonempty (m : Message) : bool :=
  negb (bool_decide (msg_added m = [] /\ msg_changed m = []
                     /\ msg_removed m = [])).

Definition send_messages (h : Heap) (vt : ViewTracker)
    : Result (ViewTracker * list Effect) :=
  let '(lsi1, added_list) :=
    _make_added_list h (_last_sent_info vt) (_get_added_objects vt) in
  let '(lsi2, changed_list) :=
    _make_changed_list h lsi1 (values (changed vt)) in
  '(lsi3, removed_list) ← _make_removed_list lsi2 (removed vt);
  let message := {| msg_added := added_list; msg_changed := changed_list;
                    msg_removed := removed_list |} in
  Ok (reset_changes (set_last_sent_info lsi3 vt),
      if message_nonempty message then [SendToFrontend message] else []).

Definition schedule_send_messages (vt : ViewTracker)
    : ViewTracker * list Effect :=
  if changes_pending vt then (vt, [])
  else (set_changes_pending true vt, [AddUrgentCall]).

Definition on_object_added (h : Heap) (vt : ViewTracker) (obj : Obj)
    : Result (ViewTracker * list Effect) :=
  if tabs_being_reordered vt then
    Ok (set_last_sent_info (_make_new_info h (_last_sent_info vt) obj).1 vt,
        [])
  else
    '(vt1, out1) ← (if bool_decide (obj_id obj ∈ removed vt)
                     then send_messages h vt else Ok (vt, []));
    let vt2 := set_buffers (changed vt1) (removed vt1)
                 (<[obj_id obj := obj]> (added vt1))
                 (added_order vt1 ++ [obj]) vt1 in
    let '(vt3, out2) := schedule_send_messages vt2 in
    Ok (vt3, out1 ++ out2).

Definition on_object_id_removed (vt : ViewTracker) (id_ : Z)
    : Result (ViewTracker * list Effect) :=
  if tabs_being_reordered vt then
    match _last_sent_info vt !! id_ with
    | None => Raise KeyError
    | Some _ => Ok (set_last_sent_info (delete id_ (_last_sent_info vt)) vt,
                    [])
    end
  else
    let vt1 :=
      if bool_decide (is_Some (added vt !! id_)) then
        set_buffers (changed vt) (removed vt) (delete id_ (added vt))
          (added_order vt) vt
      else if bool_decide (is_Some (changed vt !! id_)) then
        set_buffers (delete id_ (changed vt)) ({[id_]} ∪ removed vt)
          (added vt) (added_order vt) vt
      else
        set_buffers (changed vt) ({[id_]} ∪ removed vt) (added vt)
          (added_order vt) vt in
    Ok (schedule_send_messages vt1).

Definition on_object_removed (vt : ViewTracker) (obj : Obj) :=
  on_object_id_removed vt (obj_id obj).

Definition on_object_changed (vt : ViewTracker) (obj : Obj)
    : Result (ViewTracker * list Effect) :=
  let vt1 :=
    if bool_decide (is_Some (added vt !! obj_id obj)) then
      set_buffers (changed vt) (removed vt)
        (<[obj_id obj := obj]> (added vt)) (added_order vt) vt
    else
      set_buffers (<[obj_id obj := obj]> (changed vt)) (removed vt)
        (added vt) (added_order vt) vt in
  Ok (schedule_send_messages vt1).

(** The signals a tracker delivers, and the event loop running the
    scheduled [send_messages]. *)
Inductive Event : Type :=
  | EvAdded (obj : Obj)
  | EvRemoved (id_ : Z)
  | EvChanged (obj : Obj)
  | EvFlush.

Definition handle (h : Heap) (vt : ViewTracker) (ev : Event)
    : Result (ViewTracker * list Effect) :=
  match ev with
  | EvAdded obj => on_object_added h vt obj
  | EvRemoved id_ => on_object_id_removed vt id_
  | EvChanged obj => on_object_changed vt obj
  | EvFlush => send_messages h vt
  end.

Fixpoint run (h : Heap) (vt : ViewTracker) (evs : list Event)
    : Result (ViewTracker * list Effect) :=
  match evs with
  | [] => Ok (vt, [])
  | ev :: rest =>
      '(vt1, out1) ← handle h vt ev;
      '(vt2, out2) ← run h vt1 rest;
      Ok (vt2, out1 ++ out2)
  end.

(** [on_bulk_added], [on_bulk_removed], [on_bulk_changed]: one call per
    object, in order. *)
Definition on_bulk_added (h : Heap) (vt : ViewTracker) (objs : list Obj) :=
  run h vt (EvAdded <$> objs).
Definition on_bulk_removed (h : Heap) (vt : ViewTracker) (objs : list Obj) :=
  run h vt ((fun o => EvRemoved (obj_id o)) <$> objs).
Definition on_bulk_changed (h : Heap) (vt : ViewTracker) (objs : list Obj) :=
  run h vt (EvChanged <$> objs).

(** The messages among the effects, in order. *)
Definition sent (out : list Effect) : list Message :=
  omap (fun e => match e with SendToFrontend m => Some m
                            | AddUrgentCall => None end) out.

(** The message the next flush sends after a handler ran. *)
Definition flush_after (h : Heap) (r : Result (ViewTracker * list Effect))
    : Result (list Message) :=
  '(vt1, _) ← r;
  '(_, out) ← send_messages h vt1;
  Ok (sent out).

(** [id_] occurs somewhere in the message. *)
Definition notified_in (m : Message) (id_ : Z) : Prop :=
  id_ ∈ (info_id <$> msg_added m) \/ id_ ∈ (info_id <$> msg_changed m)
  \/ id_ ∈ msg_removed m.

(** The message a flush of [vt] builds. *)
Definition flush_message (h : Heap) (vt : ViewTracker) : Message :=
  let lsi1 := (_make_added_list h (_last_sent_info vt)
                 (_get_added_objects vt)).1 in
  {| msg_added := info_factory h <$> _get_added_objects vt;
     msg_changed := (_make_changed_list h lsi1 (values (changed vt))).2;
     msg_removed := elements (removed vt) |}.


(** ** States reachable by tracker events

    A tracker is handed out by a reset; afterwards it only changes through
    its callbacks, the scheduled flush, and the reordering flag set by the
    tab handlers. *)
Definition set_tabs_being_reordered (b : bool) (vt : ViewTracker)
    : ViewTracker :=
  {| changed := changed vt; removed := removed vt; added := added vt;
     added_order := added_order vt; changes_pending := changes_pending vt;
     tabs_being_reordered := b; _last_sent_info := _last_sent_info vt |}.

Inductive buffered : ViewTracker -> Prop :=
  | buffered_reset vt : buffered (reset_changes vt)
  | buffered_tabs b vt : buffered vt -> buffered (set_tabs_being_reordered b vt)
  | buffered_handle h vt ev vt' out :
      buffered vt -> handle h vt ev = Ok (vt', out) -> buffered vt'.

Record buffers_wf (vt : ViewTracker) : Prop :=
  { wf_added_removed : forall i, is_Some (added vt !! i) -> i ∉ removed vt;
    wf_added_order : forall i, is_Some (added vt !! i) ->
                       exists o, o ∈ added_order vt /\ obj_id o = i;
    wf_changed_keys : forall i o, changed vt !! i = Some o -> obj_id o = i }.

Definition mk_vt c r a ao cp lsi : ViewTracker :=
  {| changed := c; removed := r; added := a; added_order := ao;
     changes_pending := cp; tabs_being_reordered := false;
     _last_sent_info := lsi |}.

End view_tracker.

Arguments Info : clear implicits.
Arguments Message : clear implicits.
Arguments Effect : clear implicits.
Arguments ViewTracker : clear implicits.
Arguments Heap : clear implicits.
Arguments Event : clear implicits.

(** A concrete run: object 1 was added and flushed, then changed; object 2
    was added after the flush. *)
Definition o1 : Obj := {| obj_ref := 1; obj_id := 1 |}.
Definition o2 : Obj := {| obj_ref := 2; obj_id := 2 |}.
Definition heap0 : Heap Z := fun r => Z.of_nat r.
Definition events0 : list Event :=
  [EvAdded o1; EvFlush; EvAdded o2; EvChanged o1].
Definition vt0 : ViewTracker Z :=
  match run heap0 init events0 with Ok (vt, _) => vt | Raise _ => init end.


End MessageHandler.

(** * The download daemon ([dl_daemon/download.py]) *)

Module Download.

Open Scope Z_scope.

(** The [state] attribute of a downloader. *)
Inductive DLState : Type :=
  | downloading | paused | stopped | failed | finished | offline
  | uploading | uploading_paused.

#[global] Instance DLState_eq_dec : EqDecision DLState.
Proof. solve_decision. Defined.

(** Retry times in seconds: 60 seconds, 5 minutes, ... *)
Definition RETRY_TIMES : list Z :=
  [60; 5 * 60; 10 * 60; 30 * 60; 60 * 60; 2 * 60 * 60; 6 * 60 * 60;
   24 * 60 * 60].

(** Python's [len] and tuple indexing (negative indices count from the
    end, anything out of range raises [IndexError]). *)
Definition len {A} (l : list A) : Z := Z.of_nat (length l).

Definition getitem {A} (l : list A) (i : Z) : Result A :=
  let j := if i <? 0 then i + len l else i in
  if j <? 0 then Raise IndexError
  else match l !! Z.to_nat j with
       | Some x => Ok x
       | None => Raise IndexError
       end.

(** ** The world around a downloader *)

(** What the event loop is asked to call back. *)
Inductive Callback : Type :=
  | retry_download_of (dlid : Z)
  | update_stats_of (dlid : Z).

(** A [DelayedCall] returned by [eventloop.add_timeout]. *)
Record DelayedCall : Type :=
  { dc_delay : Z; dc_callback : Callback; dc_name : string;
    dc_cancelled : bool }.

(** Calls into [httpclient]. *)
Inductive HttpCall : Type :=
  | GrabUrl (url write_file : string) (resume : bool)
  | CancelTransfer (url : string) (remove_file : bool).

(** Commands sent to the main process. *)
Inductive Command : Type :=
  | DuplicateTorrent (original_id duplicate_id : Z)
  | DownloaderErrorCommand (msg : string).

(** The file system (path to size in bytes; [undeletable] are the paths
    whose removal the operating system refuses), the event loop, the HTTP
    client, the status updater and the commands sent so far. *)
Record World : Type :=
  { files : gmap string Z;
    undeletable : gset string;
    timeouts : list DelayedCall;
    http_calls : list HttpCall;
    to_update : gset Z;
    commands : list Command }.

Definition with_files (f : gmap string Z) (w : World) : World :=
  {| files := f; undeletable := undeletable w; timeouts := timeouts w;
     http_calls := http_calls w; to_update := to_update w;
     commands := commands w |}.

Definition with_timeouts (t : list DelayedCall) (w : World) : World :=
  {| files := files w; undeletable := undeletable w; timeouts := t;
     http_calls := http_calls w; to_update := to_update w;
     commands := commands w |}.

Definition with_http_calls (c : list HttpCall) (w : World) : World :=
  {| files := files w; undeletable := undeletable w; timeouts := timeouts w;
     http_calls := c; to_update := to_update w; commands := commands w |}.

Definition with_to_update (u : gset Z) (w : World) : World :=
  {| files := files w; undeletable := undeletable w; timeouts := timeouts w;
     http_calls := http_calls w; to_update := u; commands := commands w |}.

Definition with_commands (c : list Command) (w : World) : World :=
  {| files := files w; undeletable := undeletable w; timeouts := timeouts w;
     http_calls := http_calls w; to_update := to_update w; commands := c |}.

(** [eventloop.add_timeout]: the new call is the last one; its handle is
    its position. *)
Definition add_timeout (delay : Z) (cb : Callback) (name : string)
    (w : World) : nat * World :=
  (length (timeouts w),
   with_timeouts (timeouts w ++ [{| dc_delay := delay; dc_callback := cb;
                                    dc_name := name;
                                    dc_cancelled := false |}]) w).

(** [DelayedCall.cancel] *)
Definition cancel_timeout (dc : nat) (w : World) : World :=
  with_timeouts
    (alter (fun c => {| dc_delay := dc_delay c; dc_callback := dc_callback c;
                        dc_name := dc_name c; dc_cancelled := true |})
       dc (timeouts w)) w.

(** [os.path.exists], [os.stat(...)[ST_SIZE]] *)
Definition path_exists (w : World) (path : string) : bool :=
  bool_decide (is_Some (files w !! path)).

(** [fileutil.remove]: raises [OSError] when the file is missing or the
    operating system refuses. *)
Definition fileutil_remove (path : string) (w : World) : Result World :=
  if bool_decide (path ∈ undeletable w) then Raise OSError
  else match files w !! path with
       | None => Raise OSError
       | Some _ => Ok (with_files (delete path (files w)) w)
       end.

(** [f = open(path, "ab"); f.truncate(size); f.close()]: appending mode
    creates a missing file; a negative size is an invalid argument. *)
Definition truncate_file (path : string) (size : Z) (w : World)
    : Result World :=
  if size <? 0 then Raise IOError
  else Ok (with_files (<[path := size]> (files w)) w).

(** ** [BGDownloader] *)

Record BGDownloader : Type :=
  { dlid : Z;
    url : string;
    startTime : Z;
    endTime : Z;
    shortFilename : string;
    filename : string;
    state : DLState;
    currentSize : Z;
    totalSize : Z;
    shortReasonFailed : string;
    reasonFailed : string;
    retryTime : option Z;
    retryCount : Z;
    rate : Z;
    retryDC : option nat;
    channelName : option string }.

(** [BGDownloader.__init__], after [pick_initial_filename] chose
    [filename]. *)
Definition new_downloader (url_ : string) (dlid_ : Z) (now : Z)
    (short filename_ : string) : BGDownloader :=
  {| dlid := dlid_; url := url_; startTime := now; endTime := now;
     shortFilename := short; filename := filename_; state := downloading;
     currentSize := 0; totalSize := -1; shortReasonFailed := "No Error";
     reasonFailed := "No Error"; retryTime := None; retryCount := -1;
     rate := 0; retryDC := None; channelName := None |}.

(** [update_client()]: queue a status update. *)
Definition update_client (d : BGDownloader) (w : World) : World :=
  with_to_update ({[dlid d]} ∪ to_update w) w.

Definition with_retry (count : Z) (dc : option nat) (d : BGDownloader)
    : BGDownloader :=
  {| dlid := dlid d; url := url d; startTime := startTime d;
     endTime := endTime d; shortFilename := shortFilename d;
     filename := filename d; state := state d; currentSize := currentSize d;
     totalSize := totalSize d; shortReasonFailed := shortReasonFailed d;
     reasonFailed := reasonFailed d; retryTime := retryTime d;
     retryCount := count; rate := rate d; retryDC := dc;
     channelName := channelName d |}.

Definition with_sizes (current total : Z) (d : BGDownloader) : BGDownloader :=
  {| dlid := dlid d; url := url d; startTime := startTime d;
     endTime := endTime d; shortFilename := shortFilename d;
     filename := filename d; state := state d; currentSize := current;
     totalSize := total; shortReasonFailed := shortReasonFailed d;
     reasonFailed := reasonFailed d; retryTime := retryTime d;
     retryCount := retryCount d; rate := rate d; retryDC := retryDC d;
     channelName := channelName d |}.

Definition with_state (st : DLState) (d : BGDownloader) : BGDownloader :=
  {| dlid := dlid d; url := url d; startTime := startTime d;
     endTime := endTime d; shortFilename := shortFilename d;
     filename := filename d; state := st; currentSize := currentSize d;
     totalSize := totalSize d; shortReasonFailed := shortReasonFailed d;
     reasonFailed := reasonFailed d; retryTime := retryTime d;
     retryCount := retryCount d; rate := rate d; retryDC := retryDC d;
     channelName := channelName d |}.

(** [BGDownloader.handle_temporary_error]; [now] is what
    [datetime.datetime.now()] returns, in seconds. *)
Definition handle_temporary_error (now : Z) (short_reason reason : string)
    (d : BGDownloader) (w : World) : Result (BGDownloader * World) :=
  let count1 := retryCount d + 1 in
  let count2 := if len RETRY_TIMES <=? count1 then len RETRY_TIMES - 1
                else count1 in
  delay ← getitem RETRY_TIMES count2;
  let '(dc, w1) :=
    add_timeout delay (retry_download_of (dlid d)) "Logarithmic retry" w in
  let d' :=
    {| dlid := dlid d; url := url d; startTime := 0; endTime := 0;
       shortFilename := shortFilename d; filename := filename d;
       state := offline; currentSize := currentSize d;
       totalSize := totalSize d; shortReasonFailed := short_reason;
       reasonFailed := reason; retryTime := Some (now + delay);
       retryCount := count2; rate := 0; retryDC := Some dc;
       channelName := channelName d |} in
  Ok (d', update_client d' w1).

(** [BGDownloader.handle_error] *)
Definition handle_error (short_reason reason : string) (d : BGDownloader)
    (w : World) : BGDownloader * World :=
  let d' :=
    {| dlid := dlid d; url := url d; startTime := startTime d;
       endTime := endTime d; shortFilename := shortFilename d;
       filename := filename d; state := failed;
       currentSize := currentSize d; totalSize := totalSize d;
       shortReasonFailed := short_reason; reasonFailed := reason;
       retryTime := retryTime d; retryCount := retryCount d; rate := rate d;
       retryDC := retryDC d; channelName := channelName d |} in
  (d', update_client d' w).

(** The preferences and the platform query [accept_download_size] reads. *)
Record Config : Type :=
  { PRESERVE_DISK_SPACE : bool;
    PRESERVE_X_GB_FREE : Z;
    get_available_bytes_for_movies : Z }.

(** [BGDownloader.accept_download_size] *)
Definition accept_download_size (cfg : Config) (size : Z) : bool :=
  if PRESERVE_DISK_SPACE cfg then
    let size := if size <? 0 then 0 else size in
    let preserved := PRESERVE_X_GB_FREE cfg * 1024 * 1024 * 1024 in
    let available := get_available_bytes_for_movies cfg - preserved in
    size <=? available
  else true.

(** ** Errors reported by [httpclient] *)

Inductive ErrorClass : Type :=
  | MalformedURL | UnknownHostError | AuthorizationFailed
  | ProxyAuthorizationFailed | UnexpectedStatusCode
  | OtherNetworkError       (* any other subclass of [NetworkError] *)
  | NotNetworkError.        (* not a [NetworkError] at all *)

Record Error : Type :=
  { error_class : ErrorClass;
    getFriendlyDescription : string;
    getLongDescription : string;
    error_str : string }.

(** ** [HTTPDownloader] *)

Record TransferStats : Type :=
  { status_code : Z; downloaded : Z; initial_size : Z; download_rate : Z }.

(** The client object [grab_url] returns; [get_stats] is what the transfer
    reports when asked. *)
Record HTTPClient : Type := { get_stats : TransferStats }.

Record HTTPDownloader : Type :=
  { base : BGDownloader;
    client : option HTTPClient;
    restartOnError : bool;
    expectedContentType : option string }.

Definition with_base (b : BGDownloader) (h : HTTPDownloader) : HTTPDownloader :=
  {| base := b; client := client h; restartOnError := restartOnError h;
     expectedContentType := expectedContentType h |}.

Definition with_client (c : option HTTPClient) (h : HTTPDownloader)
    : HTTPDownloader :=
  {| base := base h; client := c; restartOnError := restartOnError h;
     expectedContentType := expectedContentType h |}.

(** [CHECK_STATS_TIMEOUT = 1.0] *)
Definition CHECK_STATS_TIMEOUT : Z := 1.

(** [HTTPDownloader.update_stats] *)
Definition update_stats (h : HTTPDownloader) (w : World)
    : HTTPDownloader * World :=
  match client h with
  | None => (h, w)
  | Some c =>
      if bool_decide (state (base h) <> downloading) then (h, w)
      else
        let stats := get_stats c in
        let b := base h in
        let b1 :=
          if bool_decide (status_code stats = 200 \/ status_code stats = 206)
          then {| dlid := dlid b; url := url b; startTime := startTime b;
                  endTime := endTime b; shortFilename := shortFilename b;
                  filename := filename b; state := state b;
                  currentSize := downloaded stats + initial_size stats;
                  totalSize := totalSize b;
                  shortReasonFailed := shortReasonFailed b;
                  reasonFailed := reasonFailed b; retryTime := retryTime b;
                  retryCount := retryCount b; rate := download_rate stats;
                  retryDC := retryDC b; channelName := channelName b |}
          else b in
        let '(_, w1) :=
          add_timeout CHECK_STATS_TIMEOUT (update_stats_of (dlid b))
            "update http downloader stats" w in
        (with_base b1 h, update_client b1 w1)
  end.

(** [HTTPDownloader.destroy_client] *)
Definition destroy_client (h : HTTPDownloader) (w : World)
    : HTTPDownloader * World :=
  let '(h1, w1) := update_stats h w in (with_client None h1, w1).

(** [HTTPDownloader.cancel_request]; what the client does with the file
    when [remove_file] is set is recorded in the call. *)
Definition cancel_request (remove_file : bool) (h : HTTPDownloader)
    (w : World) : HTTPDownloader * World :=
  let '(h1, w1) :=
    match client h with
    | Some _ =>
        destroy_client h
          (with_http_calls
             (http_calls w ++ [CancelTransfer (url (base h)) remove_file]) w)
    | None => (h, w)
    end in
  match retryDC (base h1) with
  | Some dc =>
      (with_base (with_retry (retryCount (base h1)) None (base h1)) h1,
       cancel_timeout dc w1)
  | None => (h1, w1)
  end.

(** [HTTPDownloader.handle_error] *)
Definition HTTP_handle_error (short_reason reason : string)
    (h : HTTPDownloader) (w : World) : Result (HTTPDownloader * World) :=
  let '(b1, w1) := handle_error short_reason reason (base h) w in
  let '(h2, w2) := cancel_request false (with_base b1 h) w1 in
  w3 ← (if path_exists w2 (filename (base h2)) then
           match fileutil_remove (filename (base h2)) w2 with
           | Ok w' => Ok w'
           | Raise OSError => Ok w2
           | Raise e => Raise e
           end
         else Ok w2);
  Ok (with_base (with_sizes 0 (-1) (base h2)) h2, w3).

(** [HTTPDownloader.handle_temporary_error] *)
Definition HTTP_handle_temporary_error (now : Z)
    (short_reason reason : string) (h : HTTPDownloader) (w : World)
    : Result (HTTPDownloader * World) :=
  let '(h1, w1) := cancel_request false h w in
  '(b, w2) ← handle_temporary_error now short_reason reason (base h1) w1;
  Ok (with_base b h1, w2).

(** [BGDownloader.handle_network_error], on an [HTTPDownloader]. *)
Definition HTTP_handle_network_error (now : Z) (error : Error)
    (h : HTTPDownloader) (w : World) : Result (HTTPDownloader * World) :=
  match error_class error with
  | MalformedURL | UnknownHostError | AuthorizationFailed
  | ProxyAuthorizationFailed | UnexpectedStatusCode =>
      '(h1, w1) ← HTTP_handle_error (getFriendlyDescription error)
                    (getLongDescription error) h w;
      Ok (with_base (with_retry (-1) (retryDC (base h1)) (base h1)) h1, w1)
  | OtherNetworkError =>
      HTTP_handle_temporary_error now (getFriendlyDescription error)
        (getLongDescription error) h w
  | NotNetworkError =>
      HTTP_handle_error (error_str error) (error_str error) h w
  end.

(** [HTTPDownloader._resume_sanity_check] *)
Definition _resume_sanity_check (h : HTTPDownloader) (w : World)
    : Result (bool * World) :=
  match files w !! filename (base h) with
  | None => Ok (false, w)
  | Some file_size =>
      if currentSize (base h) <? file_size then
        w' ← truncate_file (filename (base h)) (currentSize (base h)) w;
        Ok (true, w')
      else if file_size <? currentSize (base h) then Ok (false, w)
      else Ok (true, w)
  end.

(** [HTTPDownloader.start_download]; [cl] is the client [grab_url]
    returns. *)
Definition start_download (resume : bool) (cl : HTTPClient)
    (h : HTTPDownloader) (w : World) : Result (HTTPDownloader * World) :=
  let '(h1, w1) :=
    match retryDC (base h) with
    | Some dc =>
        (with_base (with_retry (retryCount (base h)) None (base h)) h,
         cancel_timeout dc w)
    | None => (h, w)
    end in
  '(resume1, w2) ← (if resume then _resume_sanity_check h1 w1
                     else Ok (false, w1));
  let w3 :=
    with_http_calls
      (http_calls w2 ++ [GrabUrl (url (base h1)) (filename (base h1)) resume1])
      w2 in
  Ok (update_stats (with_client (Some cl) h1) w3).

(** [HTTPDownloader.start_new_download] *)
Definition start_new_download (cl : HTTPClient) (h : HTTPDownloader)
    (w : World) : Result (HTTPDownloader * World) :=
  start_download false cl (with_base (with_sizes 0 (-1) (base h)) h) w.

(** [HTTPDownloader.start] *)
Definition start (resume : bool) (cl : HTTPClient) (h : HTTPDownloader)
    (w : World) : Result (HTTPDownloader * World) :=
  if bool_decide (state (base h) = paused \/ state (base h) = stopped
                  \/ state (base h) = offline)
  then start_download resume cl (with_base (with_state downloading (base h)) h) w
  else Ok (h, w).

(** [BGDownloader.retry_download], on an [HTTPDownloader]. *)
Definition retry_download (cl : HTTPClient) (h : HTTPDownloader) (w : World)
    : Result (HTTPDownloader * World) :=
  start false cl
    (with_base (with_retry (retryCount (base h)) None (base h)) h) w.

(** ** Byte strings: hexadecimal and base32

    Python 2 [str] values are strings of bytes; the codecs below work on
    the list of their characters. *)

Definition code (c : ascii) : Z := Z.of_N (N_of_ascii c).
Definition chr (n : Z) : ascii := ascii_of_N (Z.to_N n).

(** The value of one digit in base 16, either case. *)
Definition hex_digit_value (c : ascii) : option Z :=
  let n := code c in
  if (48 <=? n) && (n <=? 57) then Some (n - 48)
  else if (97 <=? n) && (n <=? 102) then Some (n - 87)
  else if (65 <=? n) && (n <=? 70) then Some (n - 55)
  else None.

Fixpoint long_digits (acc : Z) (s : list ascii) : option Z :=
  match s with
  | [] => Some acc
  | c :: rest =>
      match hex_digit_value c with
      | Some v => long_digits (16 * acc + v) rest
      | None => None
      end
  end.

(** [long(s, 16)] on a string of hexadecimal digits; anything else raises
    [ValueError].  (Python also accepts blanks around the digits, a sign, a
    [0x] prefix and an [L] suffix; info hashes have none of them.) *)
Definition long16 (s : string) : Result Z :=
  match String.list_ascii_of_string s with
  | [] => Raise ValueError
  | l => match long_digits 0 l with
         | Some v => Ok v
         | None => Raise ValueError
         end
  end.

Definition hex_lower (n : Z) : ascii := chr (if n <? 10 then 48 + n else 87 + n).
Definition hex_upper (n : Z) : ascii := chr (if n <? 10 then 48 + n else 55 + n).

Definition hexlify_with (digit : Z -> ascii) (bytes : list ascii) : list ascii :=
  flat_map (fun b => [digit (code b / 16); digit (code b mod 16)]) bytes.

(** [base64.b16encode]: upper-case hexadecimal. *)
Definition b16encode (s : string) : string :=
  String.string_of_list_ascii (hexlify_with hex_upper (String.list_ascii_of_string s)).

(** [str] of libtorrent's [big_number]: lower-case hexadecimal. *)
Definition big_number_str (bytes : string) : string :=
  String.string_of_list_ascii (hexlify_with hex_lower (String.list_ascii_of_string bytes)).

(** [s] spells the bytes in hexadecimal, two digits a byte, every digit in
    either case. *)
Definition hex_digit_of (n : Z) (c : ascii) : bool :=
  bool_decide (c = hex_lower n) || bool_decide (c = hex_upper n).

Fixpoint hex_spells (bytes s : list ascii) : bool :=
  match bytes, s with
  | [], [] => true
  | b :: bytes, c1 :: c2 :: s =>
      hex_digit_of (code b / 16) c1 && hex_digit_of (code b mod 16) c2
      && hex_spells bytes s
  | _, _ => false
  end.

Definition hex_spelling_of (bytes s : string) : bool :=
  hex_spells (String.list_ascii_of_string bytes)
    (String.list_ascii_of_string s).

(** [base64._b32rev]: [A]..[Z] are 0..25 and [2]..[7] are 26..31. *)
Definition b32rev (c : ascii) : option Z :=
  let n := code c in
  if (65 <=? n) && (n <=? 90) then Some (n - 65)
  else if (50 <=? n) && (n <=? 55) then Some (n - 24)
  else None.

(** [binascii.unhexlify('%010x' % acc)]: the five bytes of a quantum. *)
Definition quantum_bytes (acc : Z) : list ascii :=
  [chr (Z.land (Z.shiftr acc 32) 255); chr (Z.land (Z.shiftr acc 24) 255);
   chr (Z.land (Z.shiftr acc 16) 255); chr (Z.land (Z.shiftr acc 8) 255);
   chr (Z.land acc 255)].

(** The decoding loop of [base64.b32decode]. *)
Fixpoint b32decode_loop (s : list ascii) (acc shift : Z) (parts : list ascii)
    : Result (list ascii * Z) :=
  match s with
  | [] => Ok (parts, acc)
  | c :: rest =>
      match b32rev c with
      | None => Raise TypeError
      | Some val =>
          let acc := acc + Z.shiftl val shift in
          let shift := shift - 5 in
          if shift <? 0
          then b32decode_loop rest 0 35 (parts ++ quantum_bytes acc)
          else b32decode_loop rest acc shift parts
      end
  end.

Fixpoint count_leading_pad (s : list ascii) : nat :=
  match s with
  | c :: rest => if Ascii.eqb c "="%char then S (count_leading_pad rest) else 0%nat
  | [] => 0%nat
  end.

(** [base64.b32decode(s)], with the default [casefold=False] and
    [map01=None]. *)
Definition b32decode_list (s : list ascii) : Result (list ascii) :=
  if negb (Nat.eqb (length s mod 8) 0) then Raise TypeError
  else
    let padchars := count_leading_pad (reverse s) in
    let s := take (length s - padchars) s in
    '(parts, acc) ← b32decode_loop s 0 35 [];
    let last := quantum_bytes acc in
    last ← match padchars with
            | 0%nat => Ok []
            | 1%nat => Ok (take 4 last)
            | 3%nat => Ok (take 3 last)
            | 4%nat => Ok (take 2 last)
            | 6%nat => Ok (take 1 last)
            | _ => Raise TypeError
            end;
    Ok (parts ++ last).

Definition b32decode (s : string) : Result string :=
  l ← b32decode_list (String.list_ascii_of_string s); Ok (String.string_of_list_ascii l).

(** The base32 alphabet, and the encoding of whole quanta of five bytes
    (RFC 4648); 20-byte info hashes are four quanta and need no padding. *)
Definition b32tab (v : Z) : ascii := chr (if v <? 26 then 65 + v else 24 + v).

Definition quantum_value (b0 b1 b2 b3 b4 : ascii) : Z :=
  Z.shiftl (code b0) 32 + Z.shiftl (code b1) 24 + Z.shiftl (code b2) 16
  + Z.shiftl (code b3) 8 + code b4.

Definition quantum_chars (v : Z) : list ascii :=
  [b32tab (Z.land (Z.shiftr v 35) 31); b32tab (Z.land (Z.shiftr v 30) 31);
   b32tab (Z.land (Z.shiftr v 25) 31); b32tab (Z.land (Z.shiftr v 20) 31);
   b32tab (Z.land (Z.shiftr v 15) 31); b32tab (Z.land (Z.shiftr v 10) 31);
   b32tab (Z.land (Z.shiftr v 5) 31); b32tab (Z.land v 31)].

Fixpoint b32encode_quanta (bytes : list ascii) : list ascii :=
  match bytes with
  | b0 :: b1 :: b2 :: b3 :: b4 :: rest =>
      quantum_chars (quantum_value b0 b1 b2 b3 b4) ++ b32encode_quanta rest
  | _ => []
  end.

Definition b32encode (bytes : string) : string :=
  String.string_of_list_ascii (b32encode_quanta (String.list_ascii_of_string bytes)).

(** The integer a byte string denotes, most significant byte first. *)
Definition bytes_value (bytes : list ascii) : Z :=
  fold_left (fun acc b => 256 * acc + code b) bytes 0.

(** ** The torrent session and [BTDownloader] *)

(** [info_hash_to_long], applied to what [str(info_hash)] gives. *)
Definition info_hash_to_long (info_hash : string) : Result Z :=
  long16 info_hash.

(** What the torrent engine knows about a torrent: its info hash (20 raw
    bytes) and its size. *)
Record TorrentInfo : Type :=
  { ti_info_hash : string; total_size : Z }.

(** A torrent handle of the engine. *)
Record TorrentHandle : Type := { th_info_hash : string }.

(** The engine and the helper of [miro.util] as this module uses them:
    [lt.torrent_info(lt.bdecode(metainfo))], [session.add_torrent],
    [lt.add_magnet_uri], and [info_hash_from_magnet]. *)
Record Engine : Type :=
  { lt_torrent_info : option string -> Result TorrentInfo;
    lt_add_torrent : TorrentInfo -> Result TorrentHandle;
    lt_add_magnet_uri : string -> Result TorrentHandle;
    info_hash_from_magnet : string -> option string }.

(** [TorrentSession]: the downloaders (by download id) and the registry
    from info hash to downloader. *)
Record TorrentSession : Type :=
  { torrents : gset Z;
    info_hash_to_downloader : gmap Z Z }.

(** [TorrentSession.find_duplicate_torrent] *)
Definition find_duplicate_torrent (ses : TorrentSession)
    (torrent_info : TorrentInfo) : Result (option Z) :=
  info_hash ← info_hash_to_long (big_number_str (ti_info_hash torrent_info));
  Ok (info_hash_to_downloader ses !! info_hash).

(** [TorrentSession.find_duplicate_torrent_from_magnet] *)
Definition find_duplicate_torrent_from_magnet (eng : Engine)
    (ses : TorrentSession) (magnet : string) : Result (option Z) :=
  match info_hash_from_magnet eng magnet with
  | None => Ok None
  | Some info_hash =>
      if bool_decide (info_hash = "") then Ok None
      else
        info_hash ←
          (if Nat.eqb (String.length info_hash) 32
           then decoded ← b32decode info_hash; Ok (b16encode decoded)
           else Ok info_hash);
        info_hash ← info_hash_to_long info_hash;
        Ok (info_hash_to_downloader ses !! info_hash)
  end.

(** [TorrentSession.add_torrent], for a downloader whose torrent is [th]. *)
Definition add_torrent (ses : TorrentSession) (dlid_ : Z) (th : TorrentHandle)
    : Result TorrentSession :=
  info_hash ← info_hash_to_long (big_number_str (th_info_hash th));
  Ok {| torrents := {[dlid_]} ∪ torrents ses;
        info_hash_to_downloader :=
          <[info_hash := dlid_]> (info_hash_to_downloader ses) |}.

(** [TorrentSession.remove_torrent]: the session it leaves, and the
    exception it raised, if any (no torrent handle, or no such key). *)
Definition remove_torrent (ses : TorrentSession) (dlid_ : Z)
    (torrent : option TorrentHandle) : TorrentSession * option PyExn :=
  if bool_decide (dlid_ ∈ torrents ses) then
    let ses1 := {| torrents := torrents ses ∖ {[dlid_]};
                   info_hash_to_downloader := info_hash_to_downloader ses |} in
    match torrent with
    | None => (ses1, Some AttributeError)
    | Some th =>
        match info_hash_to_long (big_number_str (th_info_hash th)) with
        | Raise e => (ses1, Some e)
        | Ok info_hash =>
            match info_hash_to_downloader ses !! info_hash with
            | None => (ses1, Some KeyError)
            | Some _ =>
                ({| torrents := torrents ses1;
                    info_hash_to_downloader :=
                      delete info_hash (info_hash_to_downloader ses) |}, None)
            end
        end
    end
  else (ses, None).

Record BTDownloader : Type :=
  { bt_base : BGDownloader;
    metainfo : option string;
    torrent : option TorrentHandle;
    magnet : option string;
    info_hash : option string;
    firstTime : bool }.

Definition bt_with_base (b : BGDownloader) (d : BTDownloader) : BTDownloader :=
  {| bt_base := b; metainfo := metainfo d; torrent := torrent d;
     magnet := magnet d; info_hash := info_hash d; firstTime := firstTime d |}.

Definition bt_with_torrent (t : option TorrentHandle) (ih : option string)
    (d : BTDownloader) : BTDownloader :=
  {| bt_base := bt_base d; metainfo := metainfo d; torrent := t;
     magnet := magnet d; info_hash := ih; firstTime := firstTime d |}.

(** [BTDownloader._shutdown_torrent]: every [StandardError] is logged and
    dropped; pausing the handle, saving the resume data and removing the
    handle from the engine leave the modelled state alone. *)
Definition _shutdown_torrent (d : BTDownloader) (ses : TorrentSession)
    : BTDownloader * TorrentSession :=
  match remove_torrent ses (dlid (bt_base d)) (torrent d) with
  | (ses1, Some _) => (d, ses1)
  | (ses1, None) =>
      match torrent d with
      | Some _ => (bt_with_torrent None (info_hash d) d, ses1)
      | None => (d, ses1)
      end
  end.

(** [BTDownloader.handle_error] and [BTDownloader.handle_temporary_error] *)
Definition BT_handle_error (short_reason reason : string) (d : BTDownloader)
    (ses : TorrentSession) (w : World)
    : BTDownloader * TorrentSession * World :=
  let '(d1, ses1) := _shutdown_torrent d ses in
  let '(b, w1) := handle_error short_reason reason (bt_base d1) w in
  (bt_with_base b d1, ses1, w1).

Definition BT_handle_temporary_error (now : Z) (short_reason reason : string)
    (d : BTDownloader) (ses : TorrentSession) (w : World)
    : Result (BTDownloader * TorrentSession * World) :=
  let '(d1, ses1) := _shutdown_torrent d ses in
  '(b, w1) ← handle_temporary_error now short_reason reason (bt_base d1) w;
  Ok (bt_with_base b d1, ses1, w1).

(** How the [try] block of [_start_torrent] ends. *)
Inductive Flow : Type :=
  | Completed              (* ran to its end: the [else] clause follows *)
  | Returned               (* left by [return] *)
  | Raised (e : PyExn).    (* the [except StandardError] clause follows *)

(** [if self.magnet:] *)
Definition truthy (s : option string) : option string :=
  match s with
  | Some m => if bool_decide (m = "") then None else Some m
  | None => None
  end.

(** What the torrent is added from. *)
Inductive TorrentSource : Type :=
  | FromMagnet (m : string)
  | FromInfo (torrent_info : TorrentInfo).

Definition not_enough_disk_space (total : Z) : string :=
  pretty (total / 2 ^ 20) +:+ " MB required to store this video".

(** The [try] block of [BTDownloader._start_torrent].  Building [params]
    and loading the fast-resume data leave the modelled state alone;
    [torrent.resume()] and [torrent.auto_managed(False)] are taken to
    succeed. *)
Definition _start_torrent_try (eng : Engine) (cfg : Config)
    (d : BTDownloader) (ses : TorrentSession) (w : World)
    : BTDownloader * TorrentSession * World * Flow :=
  let '(d1, lookup) :=
    match truthy (magnet d) with
    | Some m =>
        (d, duplicate ← find_duplicate_torrent_from_magnet eng ses m;
            Ok (FromMagnet m, duplicate))
    | None =>
        match lt_torrent_info eng (metainfo d) with
        | Raise e => (d, Raise e)
        | Ok torrent_info =>
            (bt_with_base (with_sizes (currentSize (bt_base d))
                             (total_size torrent_info) (bt_base d)) d,
             duplicate ← find_duplicate_torrent ses torrent_info;
             Ok (FromInfo torrent_info, duplicate))
        end
    end in
  match lookup with
  | Raise e => (d1, ses, w, Raised e)
  | Ok (_, Some duplicate) =>
      (d1, ses,
       with_commands
         (commands w ++ [DuplicateTorrent duplicate (dlid (bt_base d1))]) w,
       Returned)
  | Ok (source, None) =>
      if firstTime d1
         && negb (accept_download_size cfg (totalSize (bt_base d1)))
      then
        let '(d2, ses2, w2) :=
          BT_handle_error "Not enough disk space"
            (not_enough_disk_space (totalSize (bt_base d1))) d1 ses w in
        (d2, ses2, w2, Returned)
      else
        match match source with
              | FromMagnet m => lt_add_magnet_uri eng m
              | FromInfo torrent_info => lt_add_torrent eng torrent_info
              end with
        | Raise e => (d1, ses, w, Raised e)
        | Ok th =>
            (bt_with_torrent (Some th)
               (Some (big_number_str (th_info_hash th))) d1,
             ses, w, Completed)
        end
  end.

(** [BTDownloader._start_torrent] *)
Definition _start_torrent (eng : Engine) (cfg : Config) (d : BTDownloader)
    (ses : TorrentSession) (w : World)
    : Result (BTDownloader * TorrentSession * World) :=
  match _start_torrent_try eng cfg d ses w with
  | (d1, ses1, w1, Returned) => Ok (d1, ses1, w1)
  | (d1, ses1, w1, Raised _) =>
      Ok (BT_handle_error "BitTorrent failure" "BitTorrent failed to startup"
            d1 ses1 w1)
  | (d1, ses1, w1, Completed) =>
      match torrent d1 with
      | Some th =>
          ses2 ← add_torrent ses1 (dlid (bt_base d1)) th;
          Ok (d1, ses2, w1)
      | None => Raise AttributeError
      end
  end.

(** A downloader is registered in the session under an info hash. *)
Definition registered (ses : TorrentSession) (hash : string) (dlid_ : Z)
    : Prop :=
  info_hash_to_downloader ses
    !! bytes_value (String.list_ascii_of_string hash) = Some dlid_.

(** ** Consecutive failures, and the table as the specification words it *)

(** One temporary failure: when it is noticed, and how it is described. *)
Record Failure : Type :=
  { noticed_at : Z; short_reason_of : string; reason_of : string }.

(** Temporary failures in a row, with nothing in between that touches the
    retry counter. *)
Fixpoint consecutive_failures (fs : list Failure) (d : BGDownloader)
    (w : World) : Result (BGDownloader * World) :=
  match fs with
  | [] => Ok (d, w)
  | f :: rest =>
      '(d1, w1) ← handle_temporary_error (noticed_at f) (short_reason_of f)
                    (reason_of f) d w;
      consecutive_failures rest d1 w1
  end.

Fixpoint HTTP_consecutive_failures (fs : list Failure) (h : HTTPDownloader)
    (w : World) : Result (HTTPDownloader * World) :=
  match fs with
  | [] => Ok (h, w)
  | f :: rest =>
      '(h1, w1) ← HTTP_handle_temporary_error (noticed_at f)
                    (short_reason_of f) (reason_of f) h w;
      HTTP_consecutive_failures rest h1 w1
  end.

Fixpoint BT_consecutive_failures (fs : list Failure) (d : BTDownloader)
    (ses : TorrentSession) (w : World)
    : Result (BTDownloader * TorrentSession * World) :=
  match fs with
  | [] => Ok (d, ses, w)
  | f :: rest =>
      '(d1, ses1, w1) ← BT_handle_temporary_error (noticed_at f)
                          (short_reason_of f) (reason_of f) d ses w;
      BT_consecutive_failures rest d1 ses1 w1
  end.

(** The delay after the [n]-th failure in a row ([n] counted from 1), as
    the specification gives it: the [n]-th entry of the table
    60, 300, 600, 1800, 3600, 7200, 21600, 86400, and the last entry once
    [n] exceeds the length of the table. *)
Definition spec_retry_delay (n : nat) : Z :=
  match n with
  | 1%nat => 60
  | 2%nat => 300
  | 3%nat => 600
  | 4%nat => 1800
  | 5%nat => 3600
  | 6%nat => 7200
  | 7%nat => 21600
  | _ => 86400
  end.

(** The network errors [handle_network_error] treats as permanent. *)
Definition permanent (c : ErrorClass) : bool :=
  match c with
  | MalformedURL | UnknownHostError | AuthorizationFailed
  | ProxyAuthorizationFailed | UnexpectedStatusCode => true
  | OtherNetworkError | NotNetworkError => false
  end.

(** ** Sample data *)

Definition sample_base : BGDownloader :=
  with_sizes 100 1000
    (new_downloader "http://example.com/movie.mp4" 7 0 "movie.mp4"
       "/movies/Incomplete Downloads/movie.mp4.part").

Definition sample_http : HTTPDownloader :=
  {| base := sample_base; client := None; restartOnError := false;
     expectedContentType := None |}.

Definition sample_client : HTTPClient :=
  {| get_stats := {| status_code := 0; downloaded := 0; initial_size := 0;
                     download_rate := 0 |} |}.

(** The partial file holds more than was recorded. *)
Definition sample_world : World :=
  {| files := {["/movies/Incomplete Downloads/movie.mp4.part" := 500]};
     undeletable := ∅; timeouts := []; http_calls := []; to_update := ∅;
     commands := [] |}.

(** The same, with a partial file the operating system will not remove. *)
Definition locked_world : World :=
  {| files := {["/movies/Incomplete Downloads/movie.mp4.part" := 500]};
     undeletable := {["/movies/Incomplete Downloads/movie.mp4.part"]};
     timeouts := []; http_calls := []; to_update := ∅; commands := [] |}.

Definition sample_failure : Failure :=
  {| noticed_at := 1000; short_reason_of := "timeout";
     reason_of := "the connection timed out" |}.

Definition malformed_url : Error :=
  {| error_class := MalformedURL; getFriendlyDescription := "Invalid URL";
     getLongDescription := "The URL is malformed"; error_str := "MalformedURL" |}.

Definition sample_config : Config :=
  {| PRESERVE_DISK_SPACE := true; PRESERVE_X_GB_FREE := 1;
     get_available_bytes_for_movies := 5 * 1024 * 1024 * 1024 |}.

Definition sample_hash : string := "abcdefghijklmnopqrst".

Definition sample_engine : Engine :=
  {| lt_torrent_info :=
       fun _ => Ok {| ti_info_hash := sample_hash; total_size := 1000 |};
     lt_add_torrent := fun ti => Ok {| th_info_hash := ti_info_hash ti |};
     lt_add_magnet_uri := fun _ => Raise RuntimeError;
     info_hash_from_magnet :=
       fun m => Some (String.substring 20 (String.length m - 20) m) |}.

(** A session in which downloader 1 runs the sample torrent. *)
Definition sample_session : TorrentSession :=
  {| torrents := {[1]};
     info_hash_to_downloader :=
       {[bytes_value (String.list_ascii_of_string sample_hash) := 1]} |}.

Definition sample_torrent : BTDownloader :=
  {| bt_base := new_downloader "http://example.com/a.torrent" 2 0 "a.torrent"
                  "/movies/Incomplete Downloads/a.torrent.part";
     metainfo := Some "d4:infod6:lengthi1000eee"; torrent := None;
     magnet := None; info_hash := None; firstTime := true |}.

Definition sample_magnet : BTDownloader :=
  {| bt_base := new_downloader "" 3 0 "magnet"
                  "/movies/Incomplete Downloads/magnet.part";
     metainfo := None; torrent := None;
     magnet := Some "magnet:?xt=urn:btih:MFRGGZDFMZTWQ2LKNNWG23TPOBYXE43U";
     info_hash := None; firstTime := true |}.

(** The same magnet link with the base32 digits in lower case, and one
    with the hash in hexadecimal digits of mixed case. *)
Definition sample_magnet_lower : BTDownloader :=
  {| bt_base := new_downloader "" 3 0 "magnet"
                  "/movies/Incomplete Downloads/magnet.part";
     metainfo := None; torrent := None;
     magnet := Some "magnet:?xt=urn:btih:mfrggzdfmztwq2lknnwg23tpobyxe43u";
     info_hash := None; firstTime := true |}.

Definition sample_magnet_hex : BTDownloader :=
  {| bt_base := new_downloader "" 3 0 "magnet"
                  "/movies/Incomplete Downloads/magnet.part";
     metainfo := None; torrent := None;
     magnet :=
       Some "magnet:?xt=urn:btih:6162636465666768696A6b6C6d6E6f7071727374";
     info_hash := None; firstTime := true |}.

(** After the [n]-th failure in a row, noticed at [now]: the downloader is
    offline, and its retry is scheduled after the [n]-th delay and recorded
    in [retryTime]. *)
Definition retry_scheduled (n : nat) (now : Z) (d : BGDownloader) (w : World)
    : Prop :=
  state d = offline
  /\ retryCount d = Z.min (Z.of_nat n - 1) 7
  /\ retryTime d = Some (now + spec_retry_delay n)
  /\ exists dc,
       retryDC d = Some dc
       /\ timeouts w !! dc
          = Some {| dc_delay := spec_retry_delay n;
                    dc_callback := retry_download_of (dlid d);
                    dc_name := "Logarithmic retry"; dc_cancelled := false |}.

End Download.

(** * The object database ([database.py]) and its storage
    ([storedatabase.py]) *)

Module Database.

Section database.
Context {Value SqlValue SchemaItem World : Type} `{!EqDecision Value}.

(** ** Schemas *)

(** [isinstance(schema_item, schema.SchemaSimpleItem)],
    [schema_item.validate(value)] (false stands for [ValidationError]) and
    [self._converter.to_sql(obj_schema, name, schema_item, value)]. *)
Variable is_simple : SchemaItem -> bool.
Variable validate : SchemaItem -> Value -> bool.
Variable to_sql : string -> string -> SchemaItem -> Value -> SqlValue.

Record ObjectSchema : Type :=
  { table_name : string; fields : list (string * SchemaItem) }.

(** ** Objects *)

(** A [DDBObject]: its class, its [id], the rest of its [__dict__], the
    names changed since the last save, and whether [__init__] still runs.
    Equality on [Value] stands for Python's [==]. *)
Record DDBObject : Type :=
  { klass : string;
    id : Z;
    __dict__ : gmap string Value;
    changed_attributes : gset string;
    in_db_init : bool }.

#[global] Instance DDBObject_eq_dec : EqDecision DDBObject.
Proof. solve_decision. Defined.

(** The default of [instance.__dict__.get(self.name, "BOGUS VALUE FOO")]. *)
Variable BOGUS_VALUE_FOO : Value.

(** [AttributeUpdateTracker.__set__] *)
Definition __set__ (name : string) (instance : DDBObject) (value : Value)
    : DDBObject :=
  {| klass := klass instance; id := id instance;
     __dict__ := <[name := value]> (__dict__ instance);
     changed_attributes :=
       if bool_decide
            (default BOGUS_VALUE_FOO (__dict__ instance !! name) <> value)
       then {[name]} ∪ changed_attributes instance
       else changed_attributes instance;
     in_db_init := in_db_init instance |}.

(** [AttributeUpdateTracker.__get__] *)
Definition __get__ (name : string) (instance : DDBObject) : Result Value :=
  match __dict__ instance !! name with
  | Some v => Ok v
  | None => Raise AttributeError
  end.

(** [DDBObject.reset_changed_attributes] *)
Definition reset_changed_attributes (obj : DDBObject) : DDBObject :=
  {| klass := klass obj; id := id obj; __dict__ := __dict__ obj;
     changed_attributes := ∅; in_db_init := in_db_init obj |}.

(** [DDBObject._bulk_update_db_values] *)
Definition _bulk_update_db_values (dct : gmap string Value) (obj : DDBObject)
    : DDBObject :=
  {| klass := klass obj; id := id obj; __dict__ := dct ∪ __dict__ obj;
     changed_attributes := dom dct ∪ changed_attributes obj;
     in_db_init := in_db_init obj |}.

(** ** The bulk SQL manager *)

Record BulkSQLManager : Type :=
  { active : bool;
    to_insert : gmap string (list DDBObject);
    to_remove : gmap string (list DDBObject);
    pending_inserts : gset Z;
    pending_removes : gset Z }.

Definition new_manager : BulkSQLManager :=
  {| active := false; to_insert := ∅; to_remove := ∅; pending_inserts := ∅;
     pending_removes := ∅ |}.

(** ** The storage *)

(** The tables (table name, then row id, then column), the classes with
    their schemas, the objects in memory, and whether the user chose to
    quit after an operational error. *)
Record LiveStorage : Type :=
  { tables : gmap string (gmap Z (gmap string SqlValue));
    _schema_map : gmap string ObjectSchema;
    _object_map : gset (Z * string);
    _quitting_from_operational_error : bool }.

Definition with_tables (t : gmap string (gmap Z (gmap string SqlValue)))
    (db : LiveStorage) : LiveStorage :=
  {| tables := t; _schema_map := _schema_map db;
     _object_map := _object_map db;
     _quitting_from_operational_error :=
       _quitting_from_operational_error db |}.

(** The application: [app.db], [app.bulk_sql_manager], and everything else
    (view trackers, signal handlers, ...). *)
Record App : Type :=
  { db : LiveStorage; bulk_sql_manager : BulkSQLManager; world : World }.

Definition with_db (d : LiveStorage) (app : App) : App :=
  {| db := d; bulk_sql_manager := bulk_sql_manager app; world := world app |}.

Definition with_manager (m : BulkSQLManager) (app : App) : App :=
  {| db := db app; bulk_sql_manager := m; world := world app |}.

(** [LiveStorage.table_name(obj.__class__)] *)
Definition db_table_name (d : LiveStorage) (k : string) : Result string :=
  match _schema_map d !! k with
  | Some schema => Ok (table_name schema)
  | None => Raise KeyError
  end.

(** The loop of [update_obj] over the schema fields: the columns to set,
    in order. *)
Fixpoint setters_and_values (table : string)
    (fs : list (string * SchemaItem)) (obj : DDBObject)
    : Result (list (string * SqlValue)) :=
  match fs with
  | [] => Ok []
  | (name, schema_item) :: rest =>
      if is_simple schema_item
         && negb (bool_decide (name ∈ changed_attributes obj))
      then setters_and_values table rest obj
      else
        value ← __get__ name obj;
        if validate schema_item value then
          more ← setters_and_values table rest obj;
          Ok ((name, to_sql table name schema_item value) :: more)
        else Raise ValidationError
  end.

(** [UPDATE table SET ... WHERE id=...]: the row after the statement. *)
Definition apply_setters (sets : list (string * SqlValue))
    (row : gmap string SqlValue) : gmap string SqlValue :=
  foldl (fun r '(name, v) => <[name := v]> r) row sets.

(** [LiveStorage.update_obj]: [_execute] does nothing once the user chose
    to quit; otherwise the statement must hit exactly one row. *)
Definition update_obj (d : LiveStorage) (obj : DDBObject)
    : Result (LiveStorage * DDBObject) :=
  match _schema_map d !! klass obj with
  | None => Raise KeyError
  | Some obj_schema =>
      sets ← setters_and_values (table_name obj_schema) (fields obj_schema)
               obj;
      let obj := reset_changed_attributes obj in
      match sets with
      | [] => Ok (d, obj)
      | _ =>
          if _quitting_from_operational_error d then Ok (d, obj)
          else
            let rows := default ∅ (tables d !! table_name obj_schema) in
            match rows !! id obj with
            | None => Raise KeyError
            | Some row =>
                Ok (with_tables
                      (<[table_name obj_schema :=
                           <[id obj := apply_setters sets row]> rows]>
                         (tables d)) d,
                    obj)
            end
      end
  end.

(** [DDBObject.id_exists]: the object is in memory, or a row with its id
    is in the table of its class. *)
Definition id_exists (d : LiveStorage) (obj : DDBObject) : bool :=
  match _schema_map d !! klass obj with
  | None => false
  | Some obj_schema =>
      bool_decide ((id obj, table_name obj_schema) ∈ _object_map d)
      || bool_decide
           (is_Some (default ∅ (tables d !! table_name obj_schema) !! id obj))
  end.

(** [BulkSQLManager.will_insert], [will_remove] *)
Definition will_insert (m : BulkSQLManager) (id_ : Z) : bool :=
  bool_decide (id_ ∈ pending_inserts m).
Definition will_remove (m : BulkSQLManager) (id_ : Z) : bool :=
  bool_decide (id_ ∈ pending_removes m).

(** The hooks of [signal_change]: [check_constraints] (false stands for
    [DatabaseConstraintError]), [on_signal_change] (which may change the
    object), and the view tracker manager. *)
Variable check_constraints : DDBObject -> bool.
Variable on_signal_change : DDBObject -> App -> DDBObject * App.
Variable update_view_trackers : DDBObject -> App -> Result App.

(** [DDBObject.signal_change] *)
Definition signal_change (needs_save : bool) (obj : DDBObject) (app : App)
    : Result (App * DDBObject) :=
  if in_db_init obj then Ok (app, obj)
  else if negb (id_exists (db app) obj) then Raise DatabaseConstraintError
  else
    let '(obj, app) := on_signal_change obj app in
    if negb (check_constraints obj) then Raise DatabaseConstraintError
    else if will_insert (bulk_sql_manager app) (id obj) then Ok (app, obj)
    else
      '(app, obj) ← (if needs_save then
                        '(d, obj) ← update_obj (db app) obj;
                        Ok (with_db d app, obj)
                      else Ok (app, obj));
      app ← update_view_trackers obj app;
      Ok (app, obj).

(** Whether [update_obj] writes a column, and the columns it writes. *)
Definition written (obj : DDBObject) (name : string) (schema_item : SchemaItem)
    : bool :=
  negb (is_simple schema_item
        && negb (bool_decide (name ∈ changed_attributes obj))).

Definition expected_sets (table : string) (fs : list (string * SchemaItem))
    (obj : DDBObject) : list (string * SqlValue) :=
  omap (fun '(name, schema_item) =>
          if written obj name schema_item
          then (fun v => (name, to_sql table name schema_item v))
                 <$> (__dict__ obj !! name)
          else None) fs.

(** The row of an object in the storage. *)
Definition row_of (d : LiveStorage) (table : string) (id_ : Z)
    : option (gmap string SqlValue) :=
  rows ← tables d !! table; rows !! id_.

(** A live object that was saved: its constructor is over, it is not part
    of a pending bulk insert, nothing changed since the last save, its row
    is in the table of its class, and the attributes [update_obj] writes on
    every save are there and valid. *)
Record saved (app : App) (obj : DDBObject) (obj_schema : ObjectSchema)
    (row : gmap string SqlValue) : Prop :=
  { saved_live : in_db_init obj = false;
    saved_not_pending : will_insert (bulk_sql_manager app) (id obj) = false;
    saved_clean : changed_attributes obj = ∅;
    saved_schema : _schema_map (db app) !! klass obj = Some obj_schema;
    saved_columns : NoDup (fields obj_schema).*1;
    saved_row : row_of (db app) (table_name obj_schema) (id obj) = Some row;
    saved_compound :
      forall name schema_item,
        (name, schema_item) ∈ fields obj_schema ->
        is_simple schema_item = false ->
        exists v, __dict__ obj !! name = Some v
                  /\ validate schema_item v = true }.

(** ** [BulkSQLManager] *)

(** [BulkSQLManager.add_insert] *)
Definition add_insert (obj : DDBObject) (app : App) : Result App :=
  table ← db_table_name (db app) (klass obj);
  let m := bulk_sql_manager app in
  let inserts_for_table := default [] (to_insert m !! table) in
  Ok (with_manager
        {| active := active m;
           to_insert := <[table := inserts_for_table ++ [obj]]> (to_insert m);
           to_remove := to_remove m;
           pending_inserts := {[id obj]} ∪ pending_inserts m;
           pending_removes := pending_removes m |} app).

(** [list.remove(x)]: the first occurrence goes; none raises
    [ValueError]. *)
Fixpoint list_remove (x : DDBObject) (l : list DDBObject)
    : Result (list DDBObject) :=
  match l with
  | [] => Raise ValueError
  | y :: rest =>
      if bool_decide (y = x) then Ok rest
      else rest' ← list_remove x rest; Ok (y :: rest')
  end.

(** [BulkSQLManager.add_remove]; [app.db.forget_object] drops the object
    from the objects in memory. *)
Definition add_remove (obj : DDBObject) (app : App) : Result App :=
  table ← db_table_name (db app) (klass obj);
  let m := bulk_sql_manager app in
  if will_insert m (id obj) then
    match to_insert m !! table with
    | None => Raise KeyError
    | Some inserts =>
        inserts' ← list_remove obj inserts;
        Ok {| db := {| tables := tables (db app);
                       _schema_map := _schema_map (db app);
                       _object_map := _object_map (db app) ∖ {[(id obj, table)]};
                       _quitting_from_operational_error :=
                         _quitting_from_operational_error (db app) |};
              bulk_sql_manager :=
                {| active := active m;
                   to_insert := <[table := inserts']> (to_insert m);
                   to_remove := to_remove m;
                   pending_inserts := pending_inserts m ∖ {[id obj]};
                   pending_removes := pending_removes m |};
              world := world app |}
    end
  else
    let removes_for_table := default [] (to_remove m !! table) in
    Ok (with_manager
          {| active := active m;
             to_insert := to_insert m;
             to_remove := <[table := removes_for_table ++ [obj]]> (to_remove m);
             pending_inserts := pending_inserts m;
             pending_removes := {[id obj]} ∪ pending_removes m |} app).

(** What [_commit_sql] and [_update_view_trackers] call: the storage
    ([app.db.bulk_insert], [app.db.bulk_remove]), the objects
    ([obj.inserted_into_db()], [obj.removed_from_db()]) and the view
    tracker manager.  Each may do anything to the application, the manager
    included (this is how a flush enqueues more work), and may raise. *)
Variable db_bulk_insert : list DDBObject -> App -> Result App.
Variable db_bulk_remove : list DDBObject -> App -> Result App.
Variable inserted_into_db : DDBObject -> App -> Result App.
Variable removed_from_db : DDBObject -> App -> Result App.
Variable bulk_update_view_trackers : string -> App -> Result App.
Variable bulk_remove_from_view_trackers :
  string -> list DDBObject -> App -> Result App.

(** A [for] loop whose body may raise. *)
Fixpoint for_each {A} (body : A -> App -> Result App) (l : list A) (app : App)
    : Result App :=
  match l with
  | [] => Ok app
  | x :: rest => app' ← body x app; for_each body rest app'
  end.

(** [BulkSQLManager._commit_sql] *)
Definition _commit_sql (to_insert_ to_remove_ : gmap string (list DDBObject))
    (app : App) : Result App :=
  app ← for_each
          (fun '(_, objects) app =>
             app ← db_bulk_insert objects app;
             for_each inserted_into_db objects app)
          (map_to_list to_insert_) app;
  for_each
    (fun '(_, objects) app =>
       app ← db_bulk_remove objects app;
       for_each removed_from_db objects app)
    (map_to_list to_remove_) app.

(** [BulkSQLManager._update_view_trackers_by_object] *)
Definition _update_view_trackers_by_object (changed_objs : list DDBObject)
    (app : App) : Result App :=
  for_each update_view_trackers changed_objs app.

(** [BulkSQLManager._update_view_trackers_by_table] *)
Definition _update_view_trackers_by_table
    (to_insert_ to_remove_ : gmap string (list DDBObject)) (app : App)
    : Result App :=
  app ← for_each (fun '(table, _) app => bulk_update_view_trackers table app)
          (map_to_list to_insert_) app;
  for_each
    (fun '(table, objects) app =>
       if bool_decide (is_Some (to_insert_ !! table)) then Ok app
       else bulk_remove_from_view_trackers table objects app)
    (map_to_list to_remove_) app.

(** [BulkSQLManager._update_view_trackers]; the set of changed objects is
    the list of them without repetition. *)
Definition _update_view_trackers
    (to_insert_ to_remove_ : gmap string (list DDBObject)) (app : App)
    : Result App :=
  let changed_objs :=
    remove_dups (concat (map_to_list to_insert_).*2
                 ++ concat (map_to_list to_remove_).*2) in
  if bool_decide (length changed_objs < 100)%nat
  then _update_view_trackers_by_object changed_objs app
  else _update_view_trackers_by_table to_insert_ to_remove_ app.

(** One pass of the loop body of [commit], up to the test. *)
Definition commit_round (app : App) : Result App :=
  let m := bulk_sql_manager app in
  let to_insert_ := to_insert m in
  let to_remove_ := to_remove m in
  let app := with_manager
               {| active := active m; to_insert := ∅; to_remove := ∅;
                  pending_inserts := pending_inserts m;
                  pending_removes := pending_removes m |} app in
  app ← _commit_sql to_insert_ to_remove_ app;
  _update_view_trackers to_insert_ to_remove_ app.

(** [len(self.to_insert) == len(self.to_remove) == 0] *)
Definition nothing_pending (m : BulkSQLManager) : bool :=
  bool_decide (size (to_insert m) = 0%nat /\ size (to_remove m) = 0%nat).

(** How the [for x in range(...)] loop of [commit] ends. *)
Inductive LoopEnd : Type :=
  | Break (app : App)              (* left by [break] *)
  | Exhausted (app : App)          (* ran out: the [else] clause follows *)
  | Propagated (e : PyExn).        (* an exception from inside a round *)

(** The loop over the remaining [range], with the number of rounds run. *)
Fixpoint commit_loop (range : nat) (app : App) : nat * LoopEnd :=
  match range with
  | O => (O, Exhausted app)
  | S rest =>
      match commit_round app with
      | Raise e => (1%nat, Propagated e)
      | Ok app' =>
          if nothing_pending (bulk_sql_manager app') then (1%nat, Break app')
          else let '(n, e) := commit_loop rest app' in (S n, e)
      end
  end.

(** [BulkSQLManager.commit] *)
Definition commit (app : App) : Result App :=
  match (commit_loop 100 app).2 with
  | Break app' =>
      Ok (with_manager
            {| active := active (bulk_sql_manager app'); to_insert := ∅;
               to_remove := ∅; pending_inserts := ∅; pending_removes := ∅ |}
            app')
  | Exhausted _ => Raise AssertionError
  | Propagated e => Raise e
  end.

(** [BulkSQLManager.start] *)
Definition start (app : App) : Result App :=
  let m := bulk_sql_manager app in
  if active m then Raise ValueError
  else Ok (with_manager
             {| active := true; to_insert := to_insert m;
                to_remove := to_remove m;
                pending_inserts := pending_inserts m;
                pending_removes := pending_removes m |} app).

End database.

Arguments ObjectSchema : clear implicits.
Arguments DDBObject : clear implicits.
Arguments BulkSQLManager : clear implicits.
Arguments LiveStorage : clear implicits.
Arguments App : clear implicits.
Arguments LoopEnd : clear implicits.

(** ** Sample data: a table [item] with two simple columns *)

Definition sample_schema : ObjectSchema bool :=
  {| table_name := "item"; fields := [("a", true); ("b", true)] |}.

Definition sample_storage (quitting : bool) : LiveStorage Z bool :=
  {| tables := {["item" := {[1%Z := {["a" := 10%Z; "b" := 20%Z]}]}]};
     _schema_map := {["Item" := sample_schema]};
     _object_map := {[(1%Z, "item")]};
     _quitting_from_operational_error := quitting |}.

Definition sample_app (quitting : bool) : App Z Z bool unit :=
  {| db := sample_storage quitting; bulk_sql_manager := new_manager;
     world := tt |}.

Definition sample_object (constructing : bool) : DDBObject Z :=
  {| klass := "Item"; id := 1; __dict__ := {["a" := 10%Z; "b" := 20%Z]};
     changed_attributes := ∅; in_db_init := constructing |}.

(** The hooks of the base class: [check_constraints] and
    [on_signal_change] are [pass]; no view tracker is connected. *)
Definition sample_signal_change :=
  signal_change (World := unit) (fun simple : bool => simple)
    (fun _ (_ : Z) => true) (fun _ _ _ (v : Z) => v) (fun _ => true)
    (fun obj app => (obj, app)) (fun _ app => Ok app).

Definition sample_set_attr := __set__ (Value := Z) (-1)%Z.

(** One object waits in the insert buffer. *)
Definition sample_pending_app : App Z Z bool unit :=
  {| db := sample_storage false;
     bulk_sql_manager :=
       {| active := true; to_insert := {["item" := [sample_object false]]};
          to_remove := ∅; pending_inserts := {[1%Z]}; pending_removes := ∅ |};
     world := tt |}.

(** [commit] with a storage and objects that do nothing, and view trackers
    that do what [update_trackers] says for every changed object. *)
Definition sample_commit
    (update_trackers : DDBObject Z -> App Z Z bool unit
                       -> Result (App Z Z bool unit)) :=
  commit update_trackers (fun _ app => Ok app) (fun _ app => Ok app)
    (fun _ app => Ok app) (fun _ app => Ok app) (fun _ app => Ok app)
    (fun _ _ app => Ok app).

End Database.

(** * The metadata coordinator ([moviedata.py]) *)

Module MovieData.

(** [State]: what has been done about an item. *)
Inductive State : Type := UNSEEN | SKIPPED | RAN | FAILED.

(** The attributes of a library item the coordinator reads and writes. *)
Record Item : Type :=
  { item_id : Z;
    has_drm : option bool;
    file_type : option string;
    duration : option Z;
    mdp_state : State;
    get_filename : string }.

(** [if item.has_drm:] *)
Definition truth (b : option bool) : bool := default false b.

Record MovieDataUpdater : Type :=
  { in_shutdown : bool; in_progress : gset Z }.

(** [MovieDataUpdater.__init__] *)
Definition new_updater : MovieDataUpdater :=
  {| in_shutdown := false; in_progress := ∅ |}.

(** What [request_update] reads of the application: whether the
    attributes [in_unit_tests] and [testing_mdp] are set on [app], the icon
    cache directory, and what [util.random_string(5)] returns. *)
Record Env : Type :=
  { in_unit_tests : bool;
    testing_mdp : bool;
    ICON_CACHE_DIRECTORY : string;
    random_string : string }.

Inductive Effect : Type :=
  | RunMediaMetadataExtractor (video_path thumbnail_path : string)
  | SignalChange (id_ : Z)
  | PathProcessed (path : string).

(** [os.path.basename] (POSIX): what follows the last slash. *)
Fixpoint basename_from (l current : list ascii) : list ascii :=
  match l with
  | [] => current
  | c :: rest =>
      if Ascii.eqb c "/"%char then basename_from rest rest
      else basename_from rest current
  end.

Definition basename (p : string) : string :=
  let l := String.list_ascii_of_string p in
  String.string_of_list_ascii (basename_from l l).

(** [os.path.join] of a directory and a relative name (POSIX). *)
Definition join (dir name : string) : string :=
  if bool_decide (dir = "") then name
  else if String.prefix "/" (String.string_of_list_ascii
                               (reverse (String.list_ascii_of_string dir)))
       then dir +:+ name
       else dir +:+ "/" +:+ name.

(** [MovieDataInfo._make_thumbnail_path] *)
Definition _make_thumbnail_path (env : Env) (video_path : string) : string :=
  join (join (ICON_CACHE_DIRECTORY env) "extracted")
    (basename video_path +:+ "." +:+ random_string env +:+ ".png").

(** [MovieDataUpdater._should_process_item] *)
Definition _should_process_item (item : Item) : bool :=
  if truth (has_drm item) then true
  else
    bool_decide (file_type item = Some "video")
    || (bool_decide (file_type item = Some "audio")
        && bool_decide (duration item = None))
    || bool_decide (file_type item = None).

(** [MovieDataUpdater.update_skipped] *)
Definition update_skipped (item : Item) : Item * list Effect :=
  ({| item_id := item_id item; has_drm := has_drm item;
      file_type := file_type item; duration := duration item;
      mdp_state := SKIPPED; get_filename := get_filename item |},
   [SignalChange (item_id item)]).

(** [MovieDataUpdater.request_update] *)
Definition request_update (env : Env) (u : MovieDataUpdater) (item : Item)
    : MovieDataUpdater * Item * list Effect :=
  if in_unit_tests env && negb (testing_mdp env) then (u, item, [])
  else if in_shutdown u then (u, item, [])
  else if bool_decide (item_id item ∈ in_progress u) then (u, item, [])
  else if _should_process_item item then
    ({| in_shutdown := in_shutdown u;
        in_progress := {[item_id item]} ∪ in_progress u |},
     item,
     [RunMediaMetadataExtractor (get_filename item)
        (_make_thumbnail_path env (get_filename item))])
  else
    let '(item', out) := update_skipped item in
    (u, item', out ++ [PathProcessed (get_filename item)]).

(** [MovieDataUpdater.shutdown] *)
Definition shutdown (u : MovieDataUpdater) : MovieDataUpdater :=
  {| in_shutdown := true; in_progress := in_progress u |}.

(** The external tool was asked to run. *)
Definition dispatched (out : list Effect) : Prop :=
  exists video_path thumbnail_path,
    RunMediaMetadataExtractor video_path thumbnail_path ∈ out.

(** The policy in the words of the specification. *)
Definition spec_needs_extraction (item : Item) : Prop :=
  has_drm item = Some true
  \/ file_type item = Some "video"
  \/ (file_type item = Some "audio" /\ duration item = None)
  \/ file_type item = None.

(** ** Sample data *)

Definition sample_env : Env :=
  {| in_unit_tests := false; testing_mdp := false;
     ICON_CACHE_DIRECTORY := "/home/user/.miro/icon-cache";
     random_string := "a1b2c" |}.

Definition sample_video : Item :=
  {| item_id := 5; has_drm := Some false; file_type := Some "video";
     duration := None; mdp_state := UNSEEN;
     get_filename := "/movies/clip.avi" |}.

End MovieData.

(** * Command-line ingestion ([commandline.py]) *)

Module CommandLine.

Open Scope Z_scope.

(** ** Paths *)

(** [str.rfind] of a character: the last position, or -1. *)
Fixpoint rfind_from (c : ascii) (l : list ascii) (pos found : Z) : Z :=
  match l with
  | [] => found
  | x :: rest =>
      rfind_from c rest (pos + 1) (if Ascii.eqb x c then pos else found)
  end.

Definition rfind (c : ascii) (l : list ascii) : Z := rfind_from c l 0 (-1).

(** [os.path.splitext(p)[1]] (POSIX): from the last dot of the last
    component on, unless that component has nothing but dots before it. *)
Definition splitext_ext (p : string) : string :=
  let l := String.list_ascii_of_string p in
  let sepIndex := rfind "/"%char l in
  let dotIndex := rfind "."%char l in
  if sepIndex <? dotIndex then
    let before := take (Z.to_nat (dotIndex - (sepIndex + 1)))
                    (drop (Z.to_nat (sepIndex + 1)) l) in
    if existsb (fun c => negb (Ascii.eqb c "."%char)) before
    then String.string_of_list_ascii (drop (Z.to_nat dotIndex) l)
    else ""
  else "".

(** [str.lower], on the letters A to Z. *)
Definition lower_char (c : ascii) : ascii :=
  let n := N_of_ascii c in
  if ((65 <=? n) && (n <=? 90))%N then ascii_of_N (n + 32) else c.

Definition lower (s : string) : string :=
  String.string_of_list_ascii (lower_char <$> String.list_ascii_of_string s).

Definition startswith (s pre : string) : bool := String.prefix pre s.

(** [s[len(prefix):]] *)
Definition strip_prefix (pre s : string) : string :=
  String.substring (String.length pre) (String.length s - String.length pre) s.

(** ** The domain *)

(** The downloader of an item: the [infohash] entry of its status, and
    [get_state()]. *)
Record Downloader : Type :=
  { infohash : option string; get_state : string }.

(** An item of the manual feed. *)
Record FeedItem : Type :=
  { feed_item_id : Z; downloader : option Downloader }.

(** What ingestion asks of the rest of the application. *)
Inductive Action : Type :=
  | AddSubscriptionUrl (pre expected_content_type url : string)
  | SingleclickAddDownload (url : string)
  | AddFeedFromFile (path : string)
  | ImportSubscriptions (path : string) (show_summary : bool)
  | AddVideo (path : string)
  | Download (feed_item : Z)          (* [i.download()] on an existing item *)
  | NewItemDownload (path : string)   (* a new item of the manual feed *)
  | InvalidTorrentDialog (filename : string)
  | FileErrorDialog (filename : string)
  | LogInfo (path : string)
  | LogWarning (arg : string)
  | ResetCommandLineView
  | PlayMovie.

(** The environment: the paths that exist, [get_torrent_info_hash],
    [is_magnet_uri], [download_utils.get_file_url_path],
    [filename_to_unicode], the items of the manual feed, and the
    preference. *)
Record Env : Type :=
  { exists_ : string -> bool;
    get_torrent_info_hash : string -> Result string;
    is_magnet_uri : string -> bool;
    get_file_url_path : string -> string;
    filename_to_unicode : string -> string;
    manual_feed_items : list FeedItem;
    PLAY_IN_MIRO : bool }.

(** [add_torrent]: the first item of the manual feed whose downloader has
    the info hash stops the search. *)
Fixpoint add_torrent_in (items : list FeedItem) (path : string)
    (torrent_info_hash : string) : list Action :=
  match items with
  | [] => [NewItemDownload path]
  | i :: rest =>
      match downloader i with
      | Some dl =>
          if bool_decide (infohash dl = Some torrent_info_hash) then
            LogInfo path
            :: (if bool_decide (get_state dl = "paused"
                                \/ get_state dl = "stopped")
                then [Download (feed_item_id i)] else [])
          else add_torrent_in rest path torrent_info_hash
      | None => add_torrent_in rest path torrent_info_hash
      end
  end.

Definition add_torrent (env : Env) (path torrent_info_hash : string)
    : list Action :=
  add_torrent_in (manual_feed_items env) path torrent_info_hash.

(** The module state: [_started_up] and [_command_line_args]. *)
Record Module_ : Type :=
  { _started_up : bool; _command_line_args : list string }.

(** What the body of the [for arg in args] loop does with one argument:
    the actions, and whether [added_videos] is set.  An exception of
    [get_torrent_info_hash] other than the three caught ones goes on. *)
Definition classify (env : Env) (arg : string) : Result (list Action * bool) :=
  if startswith arg "file://" then Ok ([], false)
  else if startswith arg "miro:"
  then Ok ([AddSubscriptionUrl "miro:" "application/x-miro" arg], false)
  else if startswith arg "democracy:"
  then Ok ([AddSubscriptionUrl "democracy:" "application/x-democracy" arg],
           false)
  else if startswith arg "http:" || startswith arg "https:"
          || startswith arg "feed:" || startswith arg "feeds:"
          || is_magnet_uri env arg
  then Ok ([SingleclickAddDownload (filename_to_unicode env arg)], false)
  else if exists_ env arg then
    let ext := lower (splitext_ext arg) in
    if bool_decide (ext = ".torrent" \/ ext = ".tor") then
      match get_torrent_info_hash env arg with
      | Ok torrent_infohash => Ok (add_torrent env arg torrent_infohash, false)
      | Raise ValueError =>
          Ok ([InvalidTorrentDialog (MovieData.basename arg)], false)
      | Raise IOError | Raise OSError =>
          Ok ([FileErrorDialog (MovieData.basename arg)], false)
      | Raise e => Raise e
      end
    else if bool_decide (ext = ".rss" \/ ext = ".rdf" \/ ext = ".atom"
                         \/ ext = ".ato")
    then Ok ([AddFeedFromFile arg], false)
    else if bool_decide (ext = ".miro" \/ ext = ".democracy" \/ ext = ".dem"
                         \/ ext = ".opml")
    then Ok ([ImportSubscriptions arg false], false)
    else Ok ([AddVideo arg], true)
  else Ok ([LogWarning arg], false).

(** The [for arg in args] loop. *)
Fixpoint classify_all (env : Env) (args : list string)
    : Result (list Action * bool) :=
  match args with
  | [] => Ok ([], false)
  | arg :: rest =>
      '(out1, v1) ← classify env arg;
      '(out2, v2) ← classify_all env rest;
      Ok (out1 ++ out2, v1 || v2)
  end.

(** [parse_command_line_args] *)
Definition parse_command_line_args (env : Env) (m : Module_)
    (args : list string) : Result (Module_ * list Action) :=
  if negb (_started_up m) then
    Ok ({| _started_up := _started_up m;
           _command_line_args := _command_line_args m ++ args |}, [])
  else
    let args :=
      (fun arg => if startswith arg "file://"
                  then strip_prefix "file://" arg else arg) <$> args in
    '(out, added_videos) ← classify_all env args;
    Ok (m, ResetCommandLineView :: out
           ++ (if added_videos && PLAY_IN_MIRO env then [PlayMovie] else [])).

(** [startup]; the pending arguments are dropped once they were parsed. *)
Definition startup (env : Env) (m : Module_) : Result (Module_ * list Action) :=
  '(m1, out) ← parse_command_line_args env
                 {| _started_up := true;
                    _command_line_args := _command_line_args m |}
                 (_command_line_args m);
  Ok ({| _started_up := true; _command_line_args := [] |}, out).

(** An action that changes the library, the feeds or the downloads. *)
Definition mutates_domain (a : Action) : bool :=
  match a with
  | AddSubscriptionUrl _ _ _ | SingleclickAddDownload _ | AddFeedFromFile _
  | ImportSubscriptions _ _ | AddVideo _ | Download _ | NewItemDownload _ =>
      true
  | InvalidTorrentDialog _ | FileErrorDialog _ | LogInfo _ | LogWarning _
  | ResetCommandLineView | PlayMovie => false
  end.

(** The argument is not taken by one of the schemes tested first. *)
Definition no_scheme (env : Env) (arg : string) : Prop :=
  startswith arg "file://" = false /\ startswith arg "miro:" = false
  /\ startswith arg "democracy:" = false /\ startswith arg "http:" = false
  /\ startswith arg "https:" = false /\ startswith arg "feed:" = false
  /\ startswith arg "feeds:" = false /\ is_magnet_uri env arg = false.

(** The extension the dispatch looks at. *)
Definition extension (arg : string) : string := lower (splitext_ext arg).

Definition torrent_ext (e : string) : Prop := e = ".torrent" \/ e = ".tor".
Definition feed_ext (e : string) : Prop :=
  e = ".rss" \/ e = ".rdf" \/ e = ".atom" \/ e = ".ato".
Definition opml_ext (e : string) : Prop :=
  e = ".miro" \/ e = ".democracy" \/ e = ".dem" \/ e = ".opml".

(** An item of the manual feed downloads the torrent with this hash. *)
Definition downloads_hash (hash : string) (i : FeedItem) : Prop :=
  exists dl, downloader i = Some dl /\ infohash dl = Some hash.

#[global] Instance downloads_hash_dec hash i : Decision (downloads_hash hash i).
Proof.
  unfold downloads_hash. destruct (downloader i) as [dl|].
  - destruct (decide (infohash dl = Some hash)) as [H|H].
    + left. by exists dl.
    + right. intros (dl' & [= <-] & ?). done.
  - right. by intros (dl' & ? & ?).
Defined.

(** ** Sample data *)

Definition sample_env : Env :=
  {| exists_ := fun p => bool_decide (p ∈ ["/tmp/a.torrent"; "/tmp/list.opml";
                                           "/tmp/feed.RSS"; "/tmp/clip.avi"]);
     get_torrent_info_hash := fun _ => Ok "0123456789abcdef0123456789abcdef01234567";
     is_magnet_uri := fun s => String.prefix "magnet:" s;
     get_file_url_path := fun s => s;
     filename_to_unicode := fun s => s;
     manual_feed_items :=
       [{| feed_item_id := 1; downloader := None |};
        {| feed_item_id := 2;
           downloader :=
             Some {| infohash := Some "0123456789abcdef0123456789abcdef01234567";
                     get_state := "paused" |} |}];
     PLAY_IN_MIRO := true |}.

Definition started : Module_ :=
  {| _started_up := true; _command_line_args := [] |}.

End CommandLine.

(** * Signal streams of one view, as the dispatcher-side tracker sees them *)

Module SignalStreams.
Import MessageHandler.

Section streams.
Context {Fields : Type} `{!EqDecision Fields}.

(** None of the three buffers holds anything. *)
Definition nothing_buffered (vt : ViewTracker Fields) : Prop :=
  changed vt = ∅ /\ removed vt = ∅ /\ added vt = ∅.

(** The tracker and what it has done to the outside world since its
    buffers were last reset ([__init__] and every [send_messages] end with
    [reset_changes]): the callbacks run, each returning, and the tab
    handlers set and clear the reordering flag.  The scheduled flush is not
    among the steps: once it has run, the buffers are reset again. *)
Inductive since_reset : ViewTracker Fields -> list (Effect Fields) -> Prop :=
  | since_reset_start vt : since_reset (reset_changes vt) []
  | since_reset_tabs b vt out :
      since_reset vt out -> since_reset (set_tabs_being_reordered b vt) out
  | since_reset_handle h vt ev vt' out out' :
      since_reset vt out -> ev <> EvFlush ->
      handle h vt ev = Ok (vt', out') -> since_reset vt' (out ++ out').

(** What one database view emits (see [database.ViewTracker]): [added]
    only for an id that is not in the view, [removed] and [changed] only
    for an id that is.  [cur] is the set of ids in the view; the flushes of
    the event loop come in between. *)
Fixpoint wf_stream (cur : gset Z) (evs : list Event) : Prop :=
  match evs with
  | [] => True
  | EvAdded obj :: rest =>
      (obj_id obj ∉ cur) /\ wf_stream ({[obj_id obj]} ∪ cur) rest
  | EvRemoved id_ :: rest => id_ ∈ cur /\ wf_stream (cur ∖ {[id_]}) rest
  | EvChanged obj :: rest => obj_id obj ∈ cur /\ wf_stream cur rest
  | EvFlush :: rest => wf_stream cur rest
  end.

(** The ids in the view after the stream. *)
Fixpoint view_after (cur : gset Z) (evs : list Event) : gset Z :=
  match evs with
  | [] => cur
  | EvAdded obj :: rest => view_after ({[obj_id obj]} ∪ cur) rest
  | EvRemoved id_ :: rest => view_after (cur ∖ {[id_]}) rest
  | EvChanged _ :: rest | EvFlush :: rest => view_after cur rest
  end.

(** The tracker agrees with a view holding the ids [cur]: the frontend was
    told about an id (and not yet that it is gone) or is about to be told,
    exactly when the id is in the view. *)
Record in_sync (vt : ViewTracker Fields) (cur : gset Z) : Prop :=
  { sync_wf : buffers_wf vt;
    sync_flag : tabs_being_reordered vt = false;
    sync_removed : forall i, i ∈ removed vt -> is_Some (_last_sent_info vt !! i);
    sync_cur : forall i,
        i ∈ cur <-> is_Some (added vt !! i)
                    \/ (is_Some (_last_sent_info vt !! i) /\ i ∉ removed vt);
    sync_added : forall i,
        is_Some (added vt !! i) -> _last_sent_info vt !! i = None;
    sync_changed : forall i,
        is_Some (changed vt !! i) ->
        is_Some (_last_sent_info vt !! i) /\ i ∉ removed vt }.

End streams.

End SignalStreams.

(** * Database view trackers ([database.ViewTracker]) *)

Module DatabaseViews.
Import MessageHandler.

(** The signals of a view tracker, with what they carry. *)
Inductive Signal : Type :=
  | SigAdded (obj : Obj)
  | SigRemoved (obj : Obj)
  | SigChanged (obj : Obj)
  | SigBulkAdded (objects : list Obj)
  | SigBulkRemoved (objects : list Obj)
  | SigBulkChanged (objects : list Obj).

(** A [ViewObjectFetcher] that hands out objects. *)
Record Fetcher : Type :=
  { fetch_obj : Z -> Obj;
    fetch_obj_for_ddb_object : Obj -> Obj;
    prepare_objects : list Z -> list Z }.

(** [DDBObjectFetcher]: [app.db.get_obj_by_id], [app.db.id_alive] and
    [app.db.ensure_objects_loaded] are the storage's.  The test
    [len(new_id_list) < id_list] compares a number with a list, which
    Python 2 takes to hold, so the list is always replaced. *)
Definition DDBObjectFetcher (get_obj_by_id : Z -> Obj)
    (ensure_objects_loaded : list Z -> bool) (id_alive : Z -> bool)
    : Fetcher :=
  {| fetch_obj := get_obj_by_id;
     fetch_obj_for_ddb_object := fun ddb_object => ddb_object;
     prepare_objects := fun id_list =>
       if ensure_objects_loaded id_list
       then filter (fun i => id_alive i = true) id_list
       else id_list |}.

(** The tracker: the ids it believes to be in the view, and the mode. *)
Record ViewTracker : Type :=
  { current_ids : gset Z; bulk_mode : bool }.

Definition with_current_ids (ids : gset Z) (t : ViewTracker) : ViewTracker :=
  {| current_ids := ids; bulk_mode := bulk_mode t |}.

(** [ViewTracker.set_bulk_mode] *)
Definition set_bulk_mode (b : bool) (t : ViewTracker) : ViewTracker :=
  {| current_ids := current_ids t; bulk_mode := b |}.

Section tracker.
Variable fetcher : Fetcher.

(** [ViewTracker.remove_object] *)
Definition remove_object (t : ViewTracker) (obj : Obj)
    : ViewTracker * list Signal :=
  if bool_decide (obj_id obj ∈ current_ids t) then
    (with_current_ids (current_ids t ∖ {[obj_id obj]}) t,
     [SigRemoved (fetch_obj_for_ddb_object fetcher obj)])
  else (t, []).

(** The loop of [remove_objects]: [set.remove] raises [KeyError] when the
    id is gone already. *)
Fixpoint remove_each (t : ViewTracker) (objs : list Obj)
    : Result (ViewTracker * list Signal) :=
  match objs with
  | [] => Ok (t, [])
  | obj :: rest =>
      if bool_decide (obj_id obj ∈ current_ids t) then
        '(t', out) ← remove_each
                       (with_current_ids (current_ids t ∖ {[obj_id obj]}) t)
                       rest;
        Ok (t', SigRemoved (fetch_obj_for_ddb_object fetcher obj) :: out)
      else Raise KeyError
  end.

(** [ViewTracker.remove_objects]: the objects to go are picked first. *)
Definition remove_objects (t : ViewTracker) (objects : list Obj)
    : Result (ViewTracker * list Signal) :=
  remove_each t (filter (fun o => obj_id o ∈ current_ids t) objects).

(** [ViewTracker.check_object]; [now] is what [_obj_in_view] finds in the
    database at the time of the call. *)
Definition check_object (now : bool) (t : ViewTracker) (obj : Obj)
    : ViewTracker * list Signal :=
  let before := bool_decide (obj_id obj ∈ current_ids t) in
  if before && negb now then
    (with_current_ids (current_ids t ∖ {[obj_id obj]}) t,
     [SigRemoved (fetch_obj_for_ddb_object fetcher obj)])
  else if now && negb before then
    (with_current_ids ({[obj_id obj]} ∪ current_ids t) t,
     [SigAdded (fetch_obj_for_ddb_object fetcher obj)])
  else if before && now then
    (t, [SigChanged (fetch_obj_for_ddb_object fetcher obj)])
  else (t, []).

(** [ViewTracker.object_changed] *)
Definition object_changed (now : bool) (t : ViewTracker) (obj : Obj) :=
  check_object now t obj.

(** [ViewTracker._emit_for_objects] *)
Definition _emit_for_objects (t : ViewTracker)
    (bulk : list Obj -> Signal) (single : Obj -> Signal)
    (objects : list Obj) : list Signal :=
  if bulk_mode t then [bulk objects] else single <$> objects.

(** [ViewTracker._update_current_ids] *)
Definition _update_current_ids (t : ViewTracker) (new_ids : gset Z)
    : ViewTracker * list Signal :=
  if bool_decide (new_ids = current_ids t) then (t, [])
  else
    let added_ids :=
      prepare_objects fetcher (elements (new_ids ∖ current_ids t)) in
    let removed_ids :=
      prepare_objects fetcher (elements (current_ids t ∖ new_ids)) in
    let t' := with_current_ids new_ids t in
    (t', _emit_for_objects t' SigBulkAdded SigAdded
           (fetch_obj fetcher <$> added_ids)
         ++ _emit_for_objects t' SigBulkRemoved SigRemoved
              (fetch_obj fetcher <$> removed_ids)).

(** [ViewTracker.check_all_objects]; [view_object_ids] is what
    [_view_object_ids] finds in the database. *)
Definition check_all_objects (view_object_ids : gset Z) (t : ViewTracker)
    : ViewTracker * list Signal :=
  let old_ids := current_ids t in
  let '(t', out) := _update_current_ids t view_object_ids in
  let changed_ids :=
    prepare_objects fetcher (elements (old_ids ∩ current_ids t')) in
  (t', out ++ _emit_for_objects t' SigBulkChanged SigChanged
                (fetch_obj fetcher <$> changed_ids)).

(** [ViewTracker.__len__] *)
Definition len (t : ViewTracker) : nat := size (current_ids t).

(** What a dispatcher-side tracker connected to the signals is called
    with: [removed] goes to [on_object_removed], which passes the id on,
    and the bulk signals to the loops of [on_bulk_added] and the like. *)
Definition events_of_signal (s : Signal) : list Event :=
  match s with
  | SigAdded obj => [EvAdded obj]
  | SigRemoved obj => [EvRemoved (obj_id obj)]
  | SigChanged obj => [EvChanged obj]
  | SigBulkAdded objects => EvAdded <$> objects
  | SigBulkRemoved objects => (fun o => EvRemoved (obj_id o)) <$> objects
  | SigBulkChanged objects => EvChanged <$> objects
  end.

Definition events_of (out : list Signal) : list Event :=
  out ≫= events_of_signal.

(** The calls the view tracker manager makes for single objects. *)
Inductive Call : Type :=
  | CheckObject (now : bool) (obj : Obj)
  | RemoveObject (obj : Obj).

Definition call (t : ViewTracker) (c : Call) : ViewTracker * list Signal :=
  match c with
  | CheckObject now obj => check_object now t obj
  | RemoveObject obj => remove_object t obj
  end.

Fixpoint calls (t : ViewTracker) (cs : list Call)
    : ViewTracker * list Signal :=
  match cs with
  | [] => (t, [])
  | c :: rest =>
      let '(t1, out1) := call t c in
      let '(t2, out2) := calls t1 rest in
      (t2, out1 ++ out2)
  end.

(** A dispatcher-side tracker connected to the signals of this tracker:
    every call is followed by the handlers of what it emitted; the flushes
    of the event loop come in between. *)
Inductive Step : Type :=
  | DoCall (c : Call)
  | DoFlush.

Fixpoint connected {Fields : Type} `{!EqDecision Fields} (h : Heap Fields)
    (t : ViewTracker) (vt : MessageHandler.ViewTracker Fields)
    (steps : list Step)
    : Result (ViewTracker * MessageHandler.ViewTracker Fields
              * list (Effect Fields)) :=
  match steps with
  | [] => Ok (t, vt, [])
  | DoCall c :: rest =>
      let '(t1, signals) := call t c in
      '(vt1, out1) ← run h vt (events_of signals);
      '(t2, vt2, out2) ← connected h t1 vt1 rest;
      Ok (t2, vt2, out1 ++ out2)
  | DoFlush :: rest =>
      '(vt1, out1) ← send_messages h vt;
      '(t2, vt2, out2) ← connected h t vt1 rest;
      Ok (t2, vt2, out1 ++ out2)
  end.

(** The fetcher hands out the object of the id asked for. *)
Definition keeps_ids : Prop :=
  (forall i, obj_id (fetch_obj fetcher i) = i)
  /\ (forall o, obj_id (fetch_obj_for_ddb_object fetcher o) = obj_id o).

End tracker.

(** ** Sample data *)

Definition sample_fetcher : Fetcher :=
  DDBObjectFetcher (fun i => {| obj_ref := Z.to_nat i; obj_id := i |})
    (fun _ => false) (fun _ => true).

Definition sample_tracker : ViewTracker :=
  {| current_ids := {[1%Z; 2%Z]}; bulk_mode := true |}.

End DatabaseViews.

(** * More of the storage ([storedatabase.py]) *)

Module Storage.
Import Database.

(** [xrange(0, stop, step)] for a positive step. *)
Definition xrange (stop step : nat) : list nat :=
  (fun k => k * step)%nat <$> seq 0 ((stop + step - 1) / step)%nat.

(** The slices [value_list[start:start+size]] for [start] in
    [xrange(0, len(value_list), size)]. *)
Definition chunks {A} (size : nat) (value_list : list A) : list (list A) :=
  (fun start => take size (drop start value_list))
    <$> xrange (length value_list) size.

Definition CHUNK_SIZE : nat := 990.

(** [split_values_for_sqlite] *)
Definition split_values_for_sqlite {A} (value_list : list A)
    : list (list A) :=
  chunks CHUNK_SIZE value_list.

Section storage.
Context {SqlValue SchemaItem : Type} `{!EqDecision SchemaItem}.
Local Abbreviation Storage := (LiveStorage SqlValue SchemaItem).

#[global] Instance ObjectSchema_eq_dec : EqDecision (ObjectSchema SchemaItem).
Proof. solve_decision. Defined.

Definition with_object_map (m : gset (Z * string)) (d : Storage) : Storage :=
  {| tables := tables d; _schema_map := _schema_map d; _object_map := m;
     _quitting_from_operational_error :=
       _quitting_from_operational_error d |}.

(** [LiveStorage.remember_object], [forget_object], [id_alive]; a key that
    is not there is logged by [forget_object], not raised. *)
Definition remember_object (d : Storage) (klass_ : string) (id_ : Z)
    : Result Storage :=
  table ← db_table_name d klass_;
  Ok (with_object_map ({[(id_, table)]} ∪ _object_map d) d).

Definition forget_object (d : Storage) (klass_ : string) (id_ : Z)
    : Result Storage :=
  table ← db_table_name d klass_;
  Ok (with_object_map (_object_map d ∖ {[(id_, table)]}) d).

Definition id_alive (d : Storage) (id_ : Z) (klass_ : string) : Result bool :=
  table ← db_table_name d klass_;
  Ok (bool_decide ((id_, table) ∈ _object_map d)).

(** [_execute] of [DELETE FROM table WHERE id IN (...)]: nothing once the
    user chose to quit after an operational error. *)
Definition execute_delete (d : Storage) (table : string) (ids : list Z)
    : Storage :=
  if _quitting_from_operational_error d then d
  else with_tables
         (alter (fun rows => foldr delete rows ids) table (tables d)) d.

(** [LiveStorage.remove_obj] *)
Definition remove_obj (d : Storage) (klass_ : string) (id_ : Z)
    : Result Storage :=
  match _schema_map d !! klass_ with
  | None => Raise KeyError
  | Some schema =>
      forget_object (execute_delete d (table_name schema) [id_]) klass_ id_
  end.

(** The first loop of [bulk_remove] (and of [bulk_insert]): every object
    must use the schema of the first. *)
Fixpoint check_same_schema (d : Storage) (obj_schema : ObjectSchema SchemaItem)
    (classes : list string) : Result unit :=
  match classes with
  | [] => Ok tt
  | k :: rest =>
      match _schema_map d !! k with
      | None => Raise KeyError
      | Some s =>
          if bool_decide (obj_schema <> s) then Raise ValueError
          else check_same_schema d obj_schema rest
      end
  end.

Fixpoint forget_all (d : Storage) (objects : list (string * Z))
    : Result Storage :=
  match objects with
  | [] => Ok d
  | (k, i) :: rest => d' ← forget_object d k i; forget_all d' rest
  end.

(** [LiveStorage.bulk_remove]; an object is given by its class and id. *)
Definition bulk_remove (d : Storage) (objects : list (string * Z))
    : Result Storage :=
  match objects with
  | [] => Ok d
  | (k0, _) :: _ =>
      match _schema_map d !! k0 with
      | None => Raise KeyError
      | Some obj_schema =>
          _ ← check_same_schema d obj_schema objects.*1;
          let d1 :=
            foldl (fun d objects_chunk =>
                     execute_delete d (table_name obj_schema) objects_chunk.*2)
              d (split_values_for_sqlite objects) in
          forget_all d1 objects
      end
  end.

End storage.

End Storage.

(** * More of the objects ([database.py]) *)

Module DDBObjects.
Import Database Storage.

Section objects.
Context {Value SqlValue SchemaItem World : Type} `{!EqDecision Value}
  `{!EqDecision SchemaItem}.
Local Abbreviation App' := (App Value SqlValue SchemaItem World).

(** The hooks of [remove]: the handlers of the ['removed'] signal and the
    view tracker manager. *)
Variable removed_from_db : DDBObject Value -> App' -> Result App'.
Variable remove_from_view_trackers : DDBObject Value -> App' -> Result App'.

(** [DDBObject.remove] *)
Definition remove (obj : DDBObject Value) (app : App') : Result App' :=
  if negb (active (bulk_sql_manager app)) then
    d ← remove_obj (db app) (klass obj) (id obj);
    app ← removed_from_db obj (with_db d app);
    remove_from_view_trackers obj app
  else add_remove obj app.

End objects.

End DDBObjects.

(** * Controlling an HTTP download ([download.py]) *)

Module HTTPControl.
Import Download.

Open Scope Z_scope.

(** The errors [on_download_error] tells apart, in the order of its
    [isinstance] tests. *)
Inductive DownloadError : Type :=
  | ResumeFailed
  | AuthorizationCanceled
  | OtherError (error : Error).

(** The headers [on_headers] reads: [info['total-size']] when present,
    [info['filename']] and [info.get('content-type')]. *)
Record Headers : Type :=
  { hdr_total_size : option Z;
    hdr_filename : option string;
    hdr_content_type : option string }.

Definition with_restartOnError (r : bool) (h : HTTPDownloader)
    : HTTPDownloader :=
  {| base := base h; client := client h; restartOnError := r;
     expectedContentType := expectedContentType h |}.

Definition with_endTime (t : Z) (d : BGDownloader) : BGDownloader :=
  {| dlid := dlid d; url := url d; startTime := startTime d;
     endTime := t; shortFilename := shortFilename d;
     filename := filename d; state := state d; currentSize := currentSize d;
     totalSize := totalSize d; shortReasonFailed := shortReasonFailed d;
     reasonFailed := reasonFailed d; retryTime := retryTime d;
     retryCount := retryCount d; rate := rate d; retryDC := retryDC d;
     channelName := channelName d |}.

Definition with_shortFilename (name : string) (d : BGDownloader)
    : BGDownloader :=
  {| dlid := dlid d; url := url d; startTime := startTime d;
     endTime := endTime d; shortFilename := name;
     filename := filename d; state := state d; currentSize := currentSize d;
     totalSize := totalSize d; shortReasonFailed := shortReasonFailed d;
     reasonFailed := reasonFailed d; retryTime := retryTime d;
     retryCount := retryCount d; rate := rate d; retryDC := retryDC d;
     channelName := channelName d |}.

(** [HTTPDownloader.pause] *)
Definition pause (h : HTTPDownloader) (w : World) : HTTPDownloader * World :=
  if bool_decide (state (base h) <> stopped) then
    let '(h1, w1) := cancel_request false h w in
    let b := with_state paused (base h1) in
    (with_base b h1, update_client b w1)
  else (h, w).

(** [HTTPDownloader.stop]; [isdir] and [rmtree] are [fileutil.isdir] and
    [fileutil.rmtree]. *)
Definition stop (isdir : World -> string -> bool)
    (rmtree : string -> World -> Result World) (delete : bool)
    (h : HTTPDownloader) (w : World) : Result (HTTPDownloader * World) :=
  '(h1, w1) ←
    (if bool_decide (state (base h) = finished) then
       if delete then
         match (if isdir w (filename (base h))
                then rmtree (filename (base h)) w
                else fileutil_remove (filename (base h)) w) with
         | Ok w' => Ok (h, w')
         | Raise OSError => Ok (h, w)
         | Raise e => Raise e
         end
       else Ok (h, w)
     else Ok (cancel_request true h w));
  let b := with_state stopped
             (with_sizes 0 (totalSize (base h1)) (base h1)) in
  Ok (with_base b h1, update_client b w1).

(** [HTTPDownloader.shutdown] *)
Definition shutdown (h : HTTPDownloader) (w : World)
    : HTTPDownloader * World :=
  let '(h1, w1) := cancel_request false h w in
  (h1, update_client (base h1) w1).

(** [HTTPDownloader.on_download_error]; [cl] is the client [grab_url]
    returns if the download is started again. *)
Definition on_download_error (isdir : World -> string -> bool)
    (rmtree : string -> World -> Result World) (now : Z) (cl : HTTPClient)
    (error : DownloadError) (h : HTTPDownloader) (w : World)
    : Result (HTTPDownloader * World) :=
  match error with
  | ResumeFailed =>
      start_new_download cl (with_base (with_sizes 0 (-1) (base h)) h) w
  | AuthorizationCanceled =>
      let '(h1, w1) := destroy_client h w in stop isdir rmtree false h1 w1
  | OtherError e =>
      if restartOnError h then
        start_download true cl (with_restartOnError false h) w
      else
        let '(h1, w1) := destroy_client h w in
        HTTP_handle_network_error now e h1 w1
  end.

(** [HTTPDownloader.on_download_finished]; [clock_] is what [clock()]
    returns, [no_content] the error
    [httpclient.PossiblyTemporaryError(_("no content"))], and
    [move_to_movies_directory] the method of [BGDownloader]. *)
Definition on_download_finished
    (move_to_movies_directory :
       BGDownloader -> World -> Result (BGDownloader * World))
    (clock_ now : Z) (no_content : Error) (h : HTTPDownloader) (w : World)
    : Result (HTTPDownloader * World) :=
  let '(h1, w1) := destroy_client h w in
  let h2 := with_base (with_endTime clock_ (with_state finished (base h1))) h1 in
  '(h3, w3) ←
    (if currentSize (base h2) =? 0 then
       HTTP_handle_network_error now no_content h2 w1
     else
       let h2 :=
         if totalSize (base h2) =? -1
         then with_base (with_sizes (currentSize (base h2))
                           (currentSize (base h2)) (base h2)) h2
         else h2 in
       match move_to_movies_directory (base h2) w1 with
       | Ok (b, w2) => Ok (with_base b h2, w2)
       | Raise OSError | Raise IOError =>
           HTTP_handle_error "Error" "Error moving to movies directory" h2 w1
       | Raise e => Raise e
       end);
  Ok (h3, update_client (base h3) w3).

(** [HTTPDownloader.on_headers]; [clean_filename] and
    [check_filename_extension] are those of [download_utils]. *)
Definition on_headers (clean_filename : string -> string)
    (check_filename_extension : string -> option string -> string)
    (cfg : Config) (info : Headers) (h : HTTPDownloader) (w : World)
    : Result (HTTPDownloader * World) :=
  let h :=
    match hdr_total_size info with
    | Some total =>
        with_base (with_sizes (currentSize (base h)) total (base h)) h
    | None => h
    end in
  if negb (accept_download_size cfg (totalSize (base h))) then
    HTTP_handle_error "Not enough disk space"
      (not_enough_disk_space (totalSize (base h))) h w
  else
    match hdr_filename info with
    | None => Raise KeyError
    | Some name =>
        let ext_content_type :=
          match expectedContentType h with
          | Some t => Some t
          | None => hdr_content_type info
          end in
        Ok (with_base
              (with_shortFilename
                 (check_filename_extension (clean_filename name)
                    ext_content_type) (base h))
              (with_restartOnError false h), w)
    end.

(** Sample data: a running download with a transfer in progress, and a
    client that has got 300 bytes. *)
Definition running_client : HTTPClient :=
  {| get_stats := {| status_code := 200; downloaded := 200;
                     initial_size := 100; download_rate := 10 |} |}.

Definition running_http : HTTPDownloader :=
  {| base := sample_base; client := Some running_client;
     restartOnError := true; expectedContentType := None |}.

Definition empty_client : HTTPClient :=
  {| get_stats := {| status_code := 200; downloaded := 0;
                     initial_size := 0; download_rate := 0 |} |}.

Definition no_content_error : Error :=
  {| error_class := OtherNetworkError;
     getFriendlyDescription := "Error"; getLongDescription := "no content";
     error_str := "no content" |}.

End HTTPControl.

(** * The answers of the metadata extractor ([moviedata.py]) *)

Module MovieDataCallbacks.
Import MovieData.

Open Scope Z_scope.

(** An item with the attribute only the callbacks write. *)
Record Media : Type := { item : Item; screenshot : option string }.

(** [MovieDataInfo]: the item (a reference, given here by its id) and the
    two paths computed when the request was made. *)
Record MovieDataInfo : Type :=
  { mdi_item : Z; video_path : string; thumbnail_path : string }.

(** [MovieDataInfo.__init__] *)
Definition new_info (env : Env) (it : Item) : MovieDataInfo :=
  {| mdi_item := item_id it; video_path := get_filename it;
     thumbnail_path := _make_thumbnail_path env (get_filename it) |}.

(** What the callbacks ask of the application: [item.id_exists()],
    [fileutil.exists], and whether [app] has the attribute
    [metadata_progress_updater]. *)
Record World : Type :=
  { id_exists : Z -> bool;
    file_exists : string -> bool;
    metadata_progress_updater : bool }.

(** [unicode(mediatype)], for a string or [None]. *)
Definition unicode (mediatype : option string) : string :=
  default "None" mediatype.

Definition with_in_progress (s : gset Z) (u : MovieDataUpdater)
    : MovieDataUpdater :=
  {| in_shutdown := in_shutdown u; in_progress := s |}.

(** [MovieDataUpdater._path_processed] *)
Definition _path_processed (w : World) (mdi : MovieDataInfo) : list Effect :=
  if metadata_progress_updater w then [PathProcessed (video_path mdi)] else [].

(** [MovieDataUpdater.update_failed]; [set.remove] raises [KeyError] for
    an id that is not in progress. *)
Definition update_failed (w : World) (u : MovieDataUpdater) (m : Media)
    : Result (MovieDataUpdater * Media * list Effect) :=
  let it := item m in
  if bool_decide (item_id it ∈ in_progress u) then
    let u := with_in_progress (in_progress u ∖ {[item_id it]}) u in
    if id_exists w (item_id it) then
      Ok (u,
          {| item :=
               {| item_id := item_id it; has_drm := has_drm it;
                  file_type := if truth (has_drm it) then Some "other"
                               else file_type it;
                  duration := duration it; mdp_state := FAILED;
                  get_filename := get_filename it |};
             screenshot := screenshot m |},
          [SignalChange (item_id it)])
    else Ok (u, m, [])
  else Raise KeyError.

(** [MovieDataUpdater.update_finished] *)
Definition update_finished (w : World) (u : MovieDataUpdater) (m : Media)
    (duration_ : option Z) (screenshot_ : option string)
    (mediatype : option string)
    : Result (MovieDataUpdater * Media * list Effect) :=
  let it := item m in
  if bool_decide (item_id it ∈ in_progress u) then
    let u := with_in_progress (in_progress u ∖ {[item_id it]}) u in
    if id_exists w (item_id it) then
      let has_drm1 :=
        match duration_ with
        | Some d => if bool_decide (d <> -1) then Some false else has_drm it
        | None => has_drm it
        end in
      Ok (u,
          {| item :=
               {| item_id := item_id it; has_drm := has_drm1;
                  file_type :=
                    if truth has_drm1 then Some "other"
                    else match mediatype with
                         | Some t => Some t
                         | None => file_type it
                         end;
                  duration := match duration_ with
                              | Some d => Some d
                              | None => duration it
                              end;
                  mdp_state := RAN; get_filename := get_filename it |};
             screenshot := screenshot_ |},
          [SignalChange (item_id it)])
    else Ok (u, m, [])
  else Raise KeyError.

(** [MovieDataUpdater.callback]; [m] is the item [mdi.item] refers to, as
    it is when the answer arrives. *)
Definition callback (w : World) (u : MovieDataUpdater)
    (result : option string * option Z * bool) (mdi : MovieDataInfo)
    (m : Media) : Result (MovieDataUpdater * Media * list Effect) :=
  let '(mediatype, duration_, got_screenshot) := result in
  let mediatype := unicode mediatype in
  let mediatype :=
    if bool_decide (CommandLine.splitext_ext (video_path mdi) = ".flv")
    then "video" else mediatype in
  let screenshot_ :=
    if file_exists w (thumbnail_path mdi) && got_screenshot
    then Some (thumbnail_path mdi) else None in
  '(u, m, out) ← update_finished w u m duration_ screenshot_ (Some mediatype);
  Ok (u, m, out ++ _path_processed w mdi).

(** [MovieDataUpdater.errback] *)
Definition errback (w : World) (u : MovieDataUpdater) (mdi : MovieDataInfo)
    (m : Media) : Result (MovieDataUpdater * Media * list Effect) :=
  '(u, m, out) ← update_failed w u m;
  Ok (u, m, out ++ _path_processed w mdi).

Definition sample_world : World :=
  {| id_exists := fun _ => true; file_exists := fun _ => true;
     metadata_progress_updater := true |}.

End MovieDataCallbacks.

(** * More of the command line ([commandline.py]) *)

Module CommandLineQueue.
Import CommandLine.

(** [set_command_line_args] *)
Definition set_command_line_args (args : list string) (m : Module_)
    : Module_ :=
  {| _started_up := _started_up m;
     _command_line_args := _command_line_args m ++ args |}.

Definition is_add_video (a : Action) : bool :=
  match a with AddVideo _ => true | _ => false end.

Definition is_play_movie (a : Action) : bool :=
  match a with PlayMovie => true | _ => false end.

End CommandLineQueue.

(** * The tracker of a hand-picked list of items ([messagehandler.py]) *)

Module ItemTrackers.
Import MessageHandler.

Section manual.
Context {Fields : Type} `{!EqDecision Fields}.

(** [ManualItemTracker]: the tracker it extends, the ids it was given, the
    views (each by the ids of its [id in (...)] clause), and
    [sent_initial_list].  The item infos are objects of the heap;
    [info_factory], the identity here, reads them. *)
Record ManualItemTracker : Type :=
  { tracker : ViewTracker Fields;
    id_list : list Z;
    views : list (list Z);
    sent_initial_list : bool }.

(** [ManualItemTracker.__init__] *)
Definition manual_init (h : Heap Fields) (info_list : list Obj)
    : ManualItemTracker :=
  let id_list := obj_id <$> info_list in
  {| tracker :=
       set_last_sent_info (_make_added_list h ∅ info_list).1 init;
     id_list := id_list;
     views := Storage.chunks 950 id_list;
     sent_initial_list := false |}.

(** What [source.fetch_all()] returns for the view of a list of ids. *)
Variable fetch_all : list Z -> list Obj.

Definition fetched (t : ManualItemTracker) : list Obj :=
  concat (fetch_all <$> views t).

(** [ManualItemTracker.send_initial_list] *)
Definition manual_send_initial_list (h : Heap Fields) (t : ManualItemTracker)
    : Result (ManualItemTracker * list (Effect Fields)) :=
  let infos := fetched t in
  let '(lsi1, changed_) :=
    _make_changed_list h (_last_sent_info (tracker t)) infos in
  let removed_set : gset Z :=
    list_to_set (id_list t) ∖ list_to_set (obj_id <$> infos) in
  '(lsi2, removed_) ← _make_removed_list lsi1 removed_set;
  Ok ({| tracker := set_last_sent_info lsi2 (tracker t);
         id_list := id_list t; views := views t;
         sent_initial_list := true |},
      if bool_decide (changed_ <> [] \/ removed_ <> [])
      then [SendToFrontend {| msg_added := []; msg_changed := changed_;
                              msg_removed := removed_ |}]
      else []).

End manual.

Arguments ManualItemTracker : clear implicits.

End ItemTrackers.

(** * String sets in the storage ([storedatabase.py]) *)

Module StringSets.

(** [s.startswith(pre)], on lists of characters. *)
Fixpoint starts_with (pre s : list ascii) : bool :=
  match pre, s with
  | [], _ => true
  | _ :: _, [] => false
  | a :: pre', b :: s' => Ascii.eqb a b && starts_with pre' s'
  end.

(** [str.split(sep)] for a non-empty separator: the pieces between the
    occurrences of [sep], found from the left; [skip] characters of an
    occurrence are still to be passed over, [cur] is the piece so far,
    reversed. *)
Fixpoint split_from (sep : list ascii) (skip : nat) (s cur : list ascii)
    : list (list ascii) :=
  match s with
  | [] => [reverse cur]
  | c :: rest =>
      match skip with
      | S k => split_from sep k rest cur
      | O =>
          if starts_with sep s
          then reverse cur :: split_from sep (length sep - 1) rest []
          else split_from sep 0 rest (c :: cur)
      end
  end.

(** [value.split(delimiter)]: an empty separator raises [ValueError]. *)
Definition split (delimiter value : string) : Result (list string) :=
  if bool_decide (delimiter = "") then Raise ValueError
  else Ok (String.string_of_list_ascii
             <$> split_from (String.list_ascii_of_string delimiter) 0
                   (String.list_ascii_of_string value) []).

(** [delimiter.join(value)] *)
Fixpoint join (delimiter : string) (value : list string) : string :=
  match value with
  | [] => ""
  | [x] => x
  | x :: rest => x +:+ delimiter +:+ join delimiter rest
  end.

(** [SQLiteConverter._string_set_to_sql]; [value] is the set in the order
    its iteration gives. *)
Definition _string_set_to_sql (delimiter : string) (value : list string)
    : string :=
  join delimiter value.

(** [SQLiteConverter._string_set_from_sql] *)
Definition _string_set_from_sql (delimiter value : string)
    : Result (gset string) :=
  pieces ← split delimiter value; Ok (list_to_set pieces).

(** Joining lists of characters with one character. *)
Fixpoint joinl (d : ascii) (ls : list (list ascii)) : list ascii :=
  match ls with
  | [] => []
  | [x] => x
  | x :: rest => x ++ d :: joinl d rest
  end.

(** The character occurs in the string. *)
Definition contains (c : ascii) (s : string) : Prop :=
  c ∈ String.list_ascii_of_string s.

End StringSets.

(** * The tab lists ([messagehandler.py]) *)

Module TabTrackers.
Import MessageHandler.

(** A tab as [send_initial_list] reads it: the object, the id of
    [get_folder()] if any, whether it is a [FolderBase], and
    [get_expanded()]. *)
Record Tab : Type :=
  { tab_obj : Obj;
    get_folder : option Z;
    is_folder : bool;
    get_expanded : bool }.

Section tabs.
Context {Fields : Type} `{!EqDecision Fields}.

(** The calls on the [TabList] response. *)
Inductive TabListCall : Type :=
  | Append (info : Info Fields)
  | ExpandFolder (id_ : Z)
  | AppendChild (folder_id : Z) (info : Info Fields).

(** What a [TabTracker] sends: the whole list, or a message of changes. *)
Inductive TabEffect : Type :=
  | SendTabList (root_expanded : bool) (calls : list TabListCall)
  | Changes (e : Effect Fields).

(** The loop of [send_initial_list] over [get_all_tabs()]. *)
Fixpoint tab_list_loop (h : Heap Fields) (lsi : gmap Z (Info Fields))
    (current_folder_id : option Z) (tabs : list Tab)
    : Result (gmap Z (Info Fields) * list TabListCall) :=
  match tabs with
  | [] => Ok (lsi, [])
  | obj :: rest =>
      let '(lsi1, info) := _make_new_info h lsi (tab_obj obj) in
      match get_folder obj with
      | None =>
          let calls :=
            Append info
            :: (if is_folder obj && get_expanded obj
                then [ExpandFolder (obj_id (tab_obj obj))] else []) in
          let current_folder_id :=
            if is_folder obj then Some (obj_id (tab_obj obj)) else None in
          '(lsi2, more) ← tab_list_loop h lsi1 current_folder_id rest;
          Ok (lsi2, calls ++ more)
      | Some folder_id =>
          match current_folder_id with
          | None => Raise AssertionError
          | Some current =>
              if bool_decide (folder_id <> current) then Raise AssertionError
              else
                '(lsi2, more) ← tab_list_loop h lsi1 current_folder_id rest;
                Ok (lsi2, AppendChild current info :: more)
          end
      end
  end.

(** [TabTracker]: the tracker it extends and [send_whole_list]. *)
Record TabTracker : Type :=
  { tracker : ViewTracker Fields; send_whole_list : bool }.

(** [TabTracker.send_initial_list]; [root_expanded] is what the root tab
    says, [tabs] what [get_tab_order().get_all_tabs()] gives. *)
Definition tab_send_initial_list (h : Heap Fields) (root_expanded : bool)
    (tabs : list Tab) (t : TabTracker) : Result (TabTracker * list TabEffect) :=
  '(lsi, calls) ← tab_list_loop h (_last_sent_info (tracker t)) None tabs;
  Ok ({| tracker := set_last_sent_info lsi (tracker t);
         send_whole_list := send_whole_list t |},
      [SendTabList root_expanded calls]).

(** [TabTracker.send_messages] *)
Definition tab_send_messages (h : Heap Fields) (root_expanded : bool)
    (tabs : list Tab) (t : TabTracker) : Result (TabTracker * list TabEffect) :=
  if send_whole_list t then
    match tab_send_initial_list h root_expanded tabs t with
    | Ok (t1, out) =>
        Ok ({| tracker := reset_changes (tracker t1);
               send_whole_list := false |}, out)
    | Raise e => Raise e
    end
  else
    match send_messages h (tracker t) with
    | Ok (vt, out) =>
        Ok ({| tracker := vt; send_whole_list := false |}, Changes <$> out)
    | Raise e => Raise e
    end.

(** The info and the place of a tab in the response. *)
Definition call_info (c : TabListCall) : option (Info Fields) :=
  match c with
  | Append info | AppendChild _ info => Some info
  | ExpandFolder _ => None
  end.

End tabs.

Arguments TabListCall : clear implicits.
Arguments TabEffect : clear implicits.
Arguments TabTracker : clear implicits.

(** A tab outside any folder; a tab inside one. *)
Definition top_level (t : Tab) : Prop := get_folder t = None.
Definition child (t : Tab) : Prop := get_folder t <> None.

(** The order [send_initial_list] insists on: every tab of a folder comes
    after that folder, with nothing but tabs of folders in between.
    [current] is the folder that is open at the start, if any. *)
Definition ordered_from (current : option Z) (tabs : list Tab) : Prop :=
  forall pre t post f,
    tabs = pre ++ t :: post -> get_folder t = Some f ->
    (Forall child pre /\ current = Some f)
    \/ exists pre' folder kids,
         pre = pre' ++ folder :: kids /\ top_level folder
         /\ is_folder folder = true /\ obj_id (tab_obj folder) = f
         /\ Forall child kids.

Definition sample_tabs : list Tab :=
  [{| tab_obj := o1; get_folder := None; is_folder := true;
      get_expanded := true |};
   {| tab_obj := o2; get_folder := Some 1%Z; is_folder := false;
      get_expanded := false |}].

End TabTrackers.

(** * Pausing and resuming a torrent ([download.py]) *)

Module BTControl.
Import Download.

Open Scope Z_scope.

(** A [BTDownloader] with its attribute [restarting]. *)
Record BTControlled : Type := { bt : BTDownloader; restarting : bool }.

(** [BTDownloader._pause_torrent]: every [StandardError] is logged and
    dropped; pausing the handle leaves the modelled state alone. *)
Definition _pause_torrent (d : BTDownloader) (ses : TorrentSession)
    : TorrentSession :=
  (remove_torrent ses (dlid (bt_base d)) (torrent d)).1.

(** [BTDownloader._resume_torrent]; [torrent.resume()] is taken to
    succeed, and an error of [add_torrent] is logged after the downloader
    was put among the torrents. *)
Definition _resume_torrent (eng : Engine) (cfg : Config) (d : BTDownloader)
    (ses : TorrentSession) (w : World)
    : Result (BTDownloader * TorrentSession * World) :=
  match torrent d with
  | None => _start_torrent eng cfg d ses w
  | Some th =>
      match add_torrent ses (dlid (bt_base d)) th with
      | Ok ses' => Ok (d, ses', w)
      | Raise _ =>
          Ok (d, {| torrents := {[dlid (bt_base d)]} ∪ torrents ses;
                    info_hash_to_downloader := info_hash_to_downloader ses |},
              w)
      end
  end.

(** [BTDownloader.pause] *)
Definition BT_pause (c : BTControlled) (ses : TorrentSession) (w : World)
    : BTControlled * TorrentSession * World :=
  let d := bt_with_base (with_state paused (bt_base (bt c))) (bt c) in
  ({| bt := d; restarting := true |}, _pause_torrent d ses,
   update_client (bt_base d) w).

End BTControl.

(** * Properties of the embedded code *)

Module ViewTrackerFacts.
Import MessageHandler.

Section facts.
Context {Fields : Type} `{!EqDecision Fields}.
Implicit Types (vt : ViewTracker Fields) (h : Heap Fields) (obj : Obj).
Implicit Types (lsi : gmap Z (Info Fields)).
Local Abbreviation mkv := (mk_vt (Fields := Fields)).

Lemma make_added_list_infos h lsi objs :
  (_make_added_list h lsi objs).2 = info_factory h <$> objs.
Proof.
  revert lsi. induction objs as [|o objs IH]; intros lsi; simpl; [done|].
  specialize (IH (<[obj_id o := info_factory h o]> lsi)).
  destruct (_make_added_list h _ objs) as [l2 is2]. simpl in *. by f_equal.
Qed.

Lemma make_added_list_grows h lsi objs k :
  is_Some (lsi !! k) -> is_Some ((_make_added_list h lsi objs).1 !! k).
Proof.
  revert lsi. induction objs as [|o objs IH]; intros lsi Hk; simpl; [done|].
  specialize (IH (<[obj_id o := info_factory h o]> lsi)).
  destruct (_make_added_list h _ objs) as [l2 is2]. simpl in *.
  apply IH. rewrite lookup_insert_is_Some. destruct (decide (obj_id o = k)); auto.
Qed.

Lemma make_changed_list_grows h lsi objs k :
  is_Some (lsi !! k) -> is_Some ((_make_changed_list h lsi objs).1 !! k).
Proof.
  revert lsi. induction objs as [|o objs IH]; intros lsi Hk; simpl; [done|].
  case_bool_decide; [|by apply IH].
  specialize (IH (<[obj_id o := info_factory h o]> lsi)).
  destruct (_make_changed_list h _ objs) as [l2 is2]. simpl in *.
  apply IH. rewrite lookup_insert_is_Some. destruct (decide (obj_id o = k)); auto.
Qed.

Lemma make_changed_list_from h lsi objs i :
  i ∈ (_make_changed_list h lsi objs).2 ->
  exists o, o ∈ objs /\ i = info_factory h o.
Proof.
  revert lsi. induction objs as [|o objs IH]; intros lsi; simpl.
  - by intros ?%elem_of_nil.
  - case_bool_decide.
    + specialize (IH (<[obj_id o := info_factory h o]> lsi)).
      destruct (_make_changed_list h _ objs) as [l2 is2]. simpl in *.
      intros [->|Hi]%elem_of_cons.
      * exists o. split; [left|done].
      * destruct (IH Hi) as (o' & ? & ?). exists o'. split; [by right|done].
    + intros Hi. destruct (IH _ Hi) as (o' & ? & ?).
      exists o'. split; [by right|done].
Qed.

Lemma del_all_ok lsi ids :
  NoDup ids -> (forall i, i ∈ ids -> is_Some (lsi !! i)) ->
  exists lsi', del_all lsi ids = Ok lsi'.
Proof.
  revert lsi. induction ids as [|i ids IH]; intros lsi Hnd Hin; simpl.
  - by eexists.
  - apply NoDup_cons in Hnd as [Hni Hnd].
    destruct (Hin i) as [x Hx]; [left|]. rewrite Hx.
    apply IH; [done|]. intros j Hj.
    rewrite lookup_delete_ne; [apply Hin; by right|].
    intros ->. done.
Qed.

Lemma send_messages_ok h vt :
  (forall i, i ∈ removed vt -> is_Some (_last_sent_info vt !! i)) ->
  exists vt',
    send_messages h vt
    = Ok (vt', if message_nonempty (flush_message h vt)
               then [SendToFrontend (flush_message h vt)] else []).
Proof.
  intros Hrem. unfold send_messages, flush_message.
  pose proof (make_added_list_infos h (_last_sent_info vt)
                (_get_added_objects vt)) as Hadd.
  pose proof (fun k => make_added_list_grows h (_last_sent_info vt)
                (_get_added_objects vt) k) as Hg1.
  destruct (_make_added_list h _ _) as [lsi1 added_list]. simpl in *.
  pose proof (fun k => make_changed_list_grows h lsi1
                (values (changed vt)) k) as Hg2.
  destruct (_make_changed_list h lsi1 _) as [lsi2 changed_list]. simpl in *.
  unfold _make_removed_list.
  destruct (del_all_ok lsi2 (elements (removed vt))) as [lsi3 ->].
  { apply NoDup_elements. }
  { intros i Hi%elem_of_elements. auto. }
  simpl. subst added_list. by eexists.
Qed.

Lemma flush_after_ok h vt out :
  (forall i, i ∈ removed vt -> is_Some (_last_sent_info vt !! i)) ->
  flush_after h (Ok (vt, out))
  = Ok (if message_nonempty (flush_message h vt)
        then [flush_message h vt] else []).
Proof.
  intros Hrem. unfold flush_after. simpl.
  destruct (send_messages_ok h vt Hrem) as [vt' ->]. simpl.
  by destruct (message_nonempty _).
Qed.

Lemma reset_changes_wf vt : buffers_wf (reset_changes vt).
Proof.
  split; simpl.
  - intros i [x Hx]. by rewrite lookup_empty in Hx.
  - intros i [x Hx]. by rewrite lookup_empty in Hx.
  - intros i o Hx. by rewrite lookup_empty in Hx.
Qed.

Lemma schedule_send_messages_buffers vt :
  let vt' := (schedule_send_messages vt).1 in
  changed vt' = changed vt /\ removed vt' = removed vt
  /\ added vt' = added vt /\ added_order vt' = added_order vt
  /\ _last_sent_info vt' = _last_sent_info vt
  /\ tabs_being_reordered vt' = tabs_being_reordered vt.
Proof. unfold schedule_send_messages. by destruct (changes_pending vt). Qed.

Lemma buffers_wf_ext vt vt' :
  changed vt' = changed vt -> removed vt' = removed vt ->
  added vt' = added vt -> added_order vt' = added_order vt ->
  buffers_wf vt -> buffers_wf vt'.
Proof.
  intros Hc Hr Ha Ho [H1 H2 H3].
  split; rewrite ?Hc, ?Hr, ?Ha, ?Ho; auto.
Qed.

Lemma send_messages_resets h vt vt' out :
  send_messages h vt = Ok (vt', out) -> exists vt0, vt' = reset_changes vt0.
Proof.
  unfold send_messages.
  destruct (_make_added_list h _ _) as [lsi1 al].
  destruct (_make_changed_list h _ _) as [lsi2 cl].
  destruct (_make_removed_list lsi2 _) as [[lsi3 rl]|e]; simpl; [|done].
  intros [= <- _]. by eexists.
Qed.

Lemma insert_added_wf vt obj :
  buffers_wf vt -> obj_id obj ∉ removed vt ->
  buffers_wf (set_buffers (changed vt) (removed vt)
                (<[obj_id obj := obj]> (added vt))
                (added_order vt ++ [obj]) vt).
Proof.
  intros [H1 H2 H3] Hnr. split; simpl; [| |done].
  - intros i [Hi|Hi]%lookup_insert_is_Some'; [by subst|auto].
  - intros i [Hi|Hi]%lookup_insert_is_Some'.
    + exists obj. split; [|done]. apply elem_of_app. right. left.
    + destruct (H2 i Hi) as (o & ? & ?). exists o.
      split; [|done]. apply elem_of_app. by left.
Qed.

Lemma handle_wf h vt ev vt' out :
  buffers_wf vt -> handle h vt ev = Ok (vt', out) -> buffers_wf vt'.
Proof.
  intros Hwf. destruct ev as [obj|id_|obj|]; simpl.
  - unfold on_object_added. destruct (tabs_being_reordered vt).
    { intros [= <- _]. by apply (buffers_wf_ext vt). }
    case_bool_decide as Hrem.
    + destruct (send_messages h vt) as [[vt1 out1]|e] eqn:Hs; simpl; [|done].
      apply send_messages_resets in Hs as [vt0 ->].
      pose proof (schedule_send_messages_buffers
        (set_buffers (changed (reset_changes vt0)) (removed (reset_changes vt0))
           (<[obj_id obj := obj]> (added (reset_changes vt0)))
           (added_order (reset_changes vt0) ++ [obj]) (reset_changes vt0)))
        as (Hc & Hr & Ha & Ho & _).
      destruct (schedule_send_messages _) as [vt3 out2]. intros [= <- _].
      eapply buffers_wf_ext; [done..|].
      apply insert_added_wf; [apply reset_changes_wf|]. simpl. set_solver.
    + simpl.
      pose proof (schedule_send_messages_buffers
        (set_buffers (changed vt) (removed vt)
           (<[obj_id obj := obj]> (added vt))
           (added_order vt ++ [obj]) vt)) as (Hc & Hr & Ha & Ho & _).
      destruct (schedule_send_messages _) as [vt3 out2]. intros [= <- _].
      eapply buffers_wf_ext; [done..|]. by apply insert_added_wf.
  - unfold on_object_id_removed. destruct (tabs_being_reordered vt).
    { destruct (_last_sent_info vt !! id_); [|done].
      intros [= <- _]. by apply (buffers_wf_ext vt). }
    match goal with |- Ok (schedule_send_messages ?v) = _ -> _ =>
      pose proof (schedule_send_messages_buffers v) as (Hc & Hr & Ha & Ho & _);
      destruct (schedule_send_messages v) as [vt3 out2] end.
    intros [= <- _]. simpl in *.
    eapply buffers_wf_ext; [done..|]. destruct Hwf as [H1 H2 H3].
    case_bool_decide as Ha'; [|case_bool_decide as Hc']; split; simpl.
    + intros i [Hne Hi]%lookup_delete_is_Some. auto.
    + intros i [Hne Hi]%lookup_delete_is_Some. auto.
    + done.
    + intros i Hi. apply not_elem_of_union. split; [|by apply H1].
      apply not_elem_of_singleton. by intros ->.
    + done.
    + intros i o [Hne Hi]%lookup_delete_Some. eauto.
    + intros i Hi. apply not_elem_of_union. split; [|by apply H1].
      apply not_elem_of_singleton. by intros ->.
    + done.
    + done.
  - unfold on_object_changed.
    match goal with |- Ok (schedule_send_messages ?v) = _ -> _ =>
      pose proof (schedule_send_messages_buffers v) as (Hc & Hr & Ha & Ho & _);
      destruct (schedule_send_messages v) as [vt3 out2] end.
    intros [= <- _]. simpl in *.
    eapply buffers_wf_ext; [done..|]. destruct Hwf as [H1 H2 H3].
    case_bool_decide as Ha'; split; simpl; try done.
    + intros i [Hi|Hi]%lookup_insert_is_Some'; [by subst; auto|auto].
    + intros i [Hi|Hi]%lookup_insert_is_Some'; [subst; auto|auto].
    + intros i o [[<- <-]|[Hne Hi]]%lookup_insert_Some; eauto.
  - intros Hs. apply send_messages_resets in Hs as [vt0 ->].
    apply reset_changes_wf.
Qed.

Lemma buffered_wf vt : buffered vt -> buffers_wf vt.
Proof.
  induction 1 as [vt|b vt _ IH|h vt ev vt' out _ IH Hh].
  - apply reset_changes_wf.
  - by apply (buffers_wf_ext vt).
  - by eapply handle_wf.
Qed.

Lemma changed_ids_in_buffer h vt i :
  buffers_wf vt -> i ∈ msg_changed (flush_message h vt) ->
  is_Some (changed vt !! info_id i).
Proof.
  intros Hwf. simpl. intros (o & Ho & ->)%make_changed_list_from.
  unfold values in Ho. apply list_elem_of_fmap in Ho as ([k o'] & -> & Hk).
  apply elem_of_map_to_list in Hk. simpl.
  rewrite (wf_changed_keys _ Hwf _ _ Hk). by eexists.
Qed.

Lemma not_in_changed_message h vt id_ :
  buffers_wf vt -> changed vt !! id_ = None ->
  id_ ∉ (info_id <$> msg_changed (flush_message h vt)).
Proof.
  intros Hwf Hc (i & -> & Hi)%list_elem_of_fmap.
  apply (changed_ids_in_buffer h vt i Hwf) in Hi as [x Hx]. congruence.
Qed.

Lemma not_in_added_message h vt id_ :
  added vt !! id_ = None -> id_ ∉ (info_id <$> msg_added (flush_message h vt)).
Proof.
  intros Ha (i & -> & Hi)%list_elem_of_fmap. simpl in Hi.
  apply list_elem_of_fmap in Hi as (o & -> & Ho).
  apply list_elem_of_filter in Ho as [[x Hx] _]. simpl in Ha. congruence.
Qed.

Lemma in_added_message h vt obj :
  obj ∈ added_order vt -> is_Some (added vt !! obj_id obj) ->
  info_factory h obj ∈ msg_added (flush_message h vt).
Proof.
  intros Ho Ha. simpl. apply list_elem_of_fmap. exists obj.
  split; [done|]. by apply list_elem_of_filter.
Qed.

Lemma message_nonempty_added (m : Message Fields) x :
  x ∈ msg_added m -> message_nonempty m = true.
Proof.
  intros Hx. unfold message_nonempty. case_bool_decide as H; [|done].
  destruct H as (H & _). rewrite H in Hx. by apply elem_of_nil in Hx.
Qed.

Lemma message_nonempty_removed (m : Message Fields) x :
  x ∈ msg_removed m -> message_nonempty m = true.
Proof.
  intros Hx. unfold message_nonempty. case_bool_decide as H; [|done].
  destruct H as (_ & _ & H). rewrite H in Hx. by apply elem_of_nil in Hx.
Qed.

(** *** The three reconciliation rules, one lemma each *)

Lemma added_then_removed h vt id_ :
  buffers_wf vt -> tabs_being_reordered vt = false ->
  (forall i, i ∈ removed vt -> is_Some (_last_sent_info vt !! i)) ->
  is_Some (added vt !! id_) -> changed vt !! id_ = None ->
  exists ms, flush_after h (on_object_id_removed vt id_) = Ok ms
             /\ forall m, m ∈ ms -> ~ notified_in m id_.
Proof.
  intros Hwf Ht Hsent Ha Hc. unfold on_object_id_removed. rewrite Ht.
  rewrite bool_decide_eq_true_2 by done. cbv beta iota zeta.
  set (vt1 := set_buffers _ _ _ _ vt).
  destruct (schedule_send_messages_buffers vt1) as (Hc' & Hr' & Ha' & Ho' & Hl' & _).
  destruct (schedule_send_messages vt1) as [vt2 out] eqn:Hsch.
  simpl in Hc', Hr', Ha', Ho', Hl'.
  assert (buffers_wf vt2) as Hwf2.
  { apply (handle_wf h vt (EvRemoved id_) vt2 out Hwf). simpl.
    unfold on_object_id_removed. rewrite Ht.
    rewrite bool_decide_eq_true_2 by done. cbv beta iota zeta.
    fold vt1. by rewrite Hsch. }
  rewrite flush_after_ok by (rewrite Hr', Hl'; exact Hsent).
  eexists. split; [done|]. intros m Hm.
  assert (m = flush_message h vt2) as ->.
  { destruct (message_nonempty _); [by apply list_elem_of_singleton in Hm|].
    by apply elem_of_nil in Hm. }
  intros [Hin|[Hin|Hin]].
  - revert Hin. apply not_in_added_message. rewrite Ha'. apply lookup_delete_eq.
  - revert Hin. apply not_in_changed_message; [done|]. by rewrite Hc'.
  - simpl in Hin. apply elem_of_elements in Hin. rewrite Hr' in Hin.
    by apply (wf_added_removed _ Hwf id_).
Qed.

(** The added entries a flush builds for one id: one for every time the id
    is listed in the arrival order, as long as the id is buffered as
    added. *)
Lemma filter_filter_implied {A} (P Q : A -> Prop)
    `{!forall x, Decision (P x)} `{!forall x, Decision (Q x)} (l : list A) :
  (forall x, P x -> Q x) -> filter P (filter Q l) = filter P l.
Proof.
  intros HPQ. induction l as [|x l IH]; [done|].
  rewrite !(filter_cons _ x). destruct (decide (Q x)) as [HQ|HQ].
  - rewrite filter_cons. by rewrite IH.
  - destruct (decide (P x)) as [HP|HP]; [by destruct HQ; auto|done].
Qed.

Lemma filter_fmap_id (i : Z) h (l : list Obj) :
  filter (fun x : Info Fields => info_id x = i) (info_factory h <$> l)
  = info_factory h <$> filter (fun o => obj_id o = i) l.
Proof.
  induction l as [|o l IH]; [done|].
  rewrite fmap_cons, !filter_cons. simpl.
  destruct (decide (obj_id o = i)); [rewrite fmap_cons|]; by rewrite IH.
Qed.

Lemma added_entries_of_id h vt i :
  is_Some (added vt !! i) ->
  filter (fun x : Info Fields => info_id x = i) (msg_added (flush_message h vt))
  = info_factory h <$> filter (fun o => obj_id o = i) (added_order vt).
Proof.
  intros Ha. cbn [flush_message msg_added]. rewrite filter_fmap_id.
  f_equal. unfold _get_added_objects.
  apply filter_filter_implied. by intros o ->.
Qed.

Lemma added_then_changed h vt obj o :
  buffers_wf vt ->
  (forall i, i ∈ removed vt -> is_Some (_last_sent_info vt !! i)) ->
  is_Some (added vt !! obj_id obj) -> changed vt !! obj_id obj = None ->
  filter (fun x => obj_id x = obj_id obj) (added_order vt) = [o] ->
  exists vt1 out m,
    on_object_changed vt obj = Ok (vt1, out)
    /\ added vt1 !! obj_id obj = Some obj
    /\ flush_after h (Ok (vt1, out)) = Ok [m]
    /\ filter (fun x => info_id x = obj_id obj) (msg_added m)
       = [info_factory h o]
    /\ (obj_id obj ∉ (info_id <$> msg_changed m))
    /\ obj_id obj ∉ msg_removed m.
Proof.
  intros Hwf Hsent Ha Hc Hone. unfold on_object_changed.
  rewrite bool_decide_eq_true_2 by done. cbv beta iota zeta.
  set (vt1 := set_buffers _ _ _ _ vt).
  destruct (schedule_send_messages_buffers vt1) as (Hc' & Hr' & Ha' & Ho' & Hl' & _).
  destruct (schedule_send_messages vt1) as [vt2 out] eqn:Hsch.
  simpl in Hc', Hr', Ha', Ho', Hl'.
  assert (buffers_wf vt2) as Hwf2.
  { apply (handle_wf h vt (EvChanged obj) vt2 out Hwf). simpl.
    unfold on_object_changed.
    rewrite bool_decide_eq_true_2 by done. cbv beta iota zeta.
    fold vt1. by rewrite Hsch. }
  assert (is_Some (added vt2 !! obj_id obj)) as Ha2.
  { rewrite Ha', lookup_insert_eq. by eexists. }
  destruct (wf_added_order _ Hwf _ Ha) as (o0 & Ho0 & Hid0).
  assert (info_factory h o0 ∈ msg_added (flush_message h vt2)) as Hin0.
  { apply in_added_message; [by rewrite Ho'|by rewrite Hid0]. }
  exists vt2, out, (flush_message h vt2). split; [done|].
  split; [by rewrite Ha', lookup_insert_eq|].
  split.
  { rewrite flush_after_ok by (rewrite Hr', Hl'; exact Hsent).
    by rewrite (message_nonempty_added _ _ Hin0). }
  split.
  { rewrite (added_entries_of_id h vt2 _ Ha2), Ho', Hone. done. }
  split.
  { apply not_in_changed_message; [done|]. by rewrite Hc'. }
  simpl. rewrite elem_of_elements, Hr'. by apply (wf_added_removed _ Hwf).
Qed.

Lemma changed_then_removed h vt id_ :
  buffers_wf vt -> tabs_being_reordered vt = false ->
  (forall i, i ∈ removed vt -> is_Some (_last_sent_info vt !! i)) ->
  is_Some (_last_sent_info vt !! id_) ->
  added vt !! id_ = None -> is_Some (changed vt !! id_) ->
  exists vt1 out m,
    on_object_id_removed vt id_ = Ok (vt1, out)
    /\ changed vt1 !! id_ = None
    /\ flush_after h (Ok (vt1, out)) = Ok [m]
    /\ id_ ∈ msg_removed m
    /\ (id_ ∉ (info_id <$> msg_added m))
    /\ id_ ∉ (info_id <$> msg_changed m).
Proof.
  intros Hwf Ht Hsent Hid Ha Hc. unfold on_object_id_removed. rewrite Ht.
  rewrite bool_decide_eq_false_2 by (rewrite Ha; by intros [? ?]).
  rewrite bool_decide_eq_true_2 by done. cbv beta iota zeta.
  set (vt1 := set_buffers _ _ _ _ vt).
  destruct (schedule_send_messages_buffers vt1) as (Hc' & Hr' & Ha' & Ho' & Hl' & _).
  destruct (schedule_send_messages vt1) as [vt2 out] eqn:Hsch.
  simpl in Hc', Hr', Ha', Ho', Hl'.
  assert (buffers_wf vt2) as Hwf2.
  { apply (handle_wf h vt (EvRemoved id_) vt2 out Hwf). simpl.
    unfold on_object_id_removed. rewrite Ht.
    rewrite bool_decide_eq_false_2 by (rewrite Ha; by intros [? ?]).
    rewrite bool_decide_eq_true_2 by done. cbv beta iota zeta.
    fold vt1. by rewrite Hsch. }
  assert (id_ ∈ msg_removed (flush_message h vt2)) as Hin.
  { simpl. rewrite elem_of_elements, Hr'. apply elem_of_union_l.
    by apply elem_of_singleton. }
  exists vt2, out, (flush_message h vt2). split; [done|].
  split; [by rewrite Hc', lookup_delete_eq|].
  split.
  { rewrite flush_after_ok.
    - by rewrite (message_nonempty_removed _ _ Hin).
    - rewrite Hr', Hl'. intros i [->%elem_of_singleton|Hi]%elem_of_union; auto. }
  split; [done|]. split.
  - apply not_in_added_message. by rewrite Ha'.
  - apply not_in_changed_message; [done|]. by rewrite Hc', lookup_delete_eq.
Qed.

Lemma run_buffered h vt evs vt' out :
  buffered vt -> run h vt evs = Ok (vt', out) -> buffered vt'.
Proof.
  revert vt out. induction evs as [|ev evs IH]; intros vt out Hb; simpl.
  - by intros [= <- _].
  - destruct (handle h vt ev) as [[vt1 out1]|e] eqn:Hh; simpl; [|done].
    destruct (run h vt1 evs) as [[vt2 out2]|e] eqn:Hr; simpl; [|done].
    intros [= <- _]. eapply IH; [|done]. by eapply buffered_handle.
Qed.

Lemma init_buffered : buffered (init (Fields := Fields)).
Proof. exact (buffered_reset init). Qed.

(** *** The two scenarios of the flush-coalescing property *)

Lemma send_messages_only_added h obj cp lsi :
  send_messages h (mkv ∅ ∅ {[obj_id obj := obj]} [obj] cp lsi)
  = Ok (mkv ∅ ∅ ∅ [] false (<[obj_id obj := info_factory h obj]> lsi),
        [SendToFrontend {| msg_added := [info_factory h obj];
                           msg_changed := []; msg_removed := [] |}]).
Proof.
  unfold send_messages, _get_added_objects. simpl.
  rewrite filter_cons_True by (rewrite lookup_singleton_eq; by eexists).
  rewrite ?filter_nil. simpl. unfold values, _make_removed_list.
  rewrite map_to_list_empty, elements_empty. reflexivity.
Qed.

Lemma send_messages_nothing h obj cp lsi :
  send_messages h (mkv ∅ ∅ ∅ [obj] cp lsi)
  = Ok (mkv ∅ ∅ ∅ [] false lsi, []).
Proof.
  unfold send_messages, _get_added_objects. simpl.
  rewrite filter_cons_False by (rewrite lookup_empty; by intros [? ?]).
  rewrite ?filter_nil. simpl. unfold values, _make_removed_list.
  rewrite map_to_list_empty, elements_empty. reflexivity.
Qed.

Lemma send_messages_only_removed h id_ cp lsi info :
  lsi !! id_ = Some info ->
  send_messages h (mkv ∅ {[id_]} ∅ [] cp lsi)
  = Ok (mkv ∅ ∅ ∅ [] false (delete id_ lsi),
        [SendToFrontend {| msg_added := []; msg_changed := [];
                           msg_removed := [id_] |}]).
Proof.
  intros Hl. unfold send_messages, _get_added_objects. simpl.
  rewrite ?filter_nil. simpl. unfold values, _make_removed_list.
  rewrite map_to_list_empty, elements_singleton. simpl. rewrite Hl.
  reflexivity.
Qed.

Lemma run_cons h vt ev evs vt1 out1 vt2 out2 out :
  handle h vt ev = Ok (vt1, out1) -> run h vt1 evs = Ok (vt2, out2) ->
  out = out1 ++ out2 -> run h vt (ev :: evs) = Ok (vt2, out).
Proof. intros H1 H2 ->. simpl. rewrite H1. simpl. by rewrite H2. Qed.

(** Added and removed before any flush: the flush sends nothing. *)
Lemma add_remove_sends_nothing h obj :
  exists vt, run h init [EvAdded obj; EvRemoved (obj_id obj); EvFlush]
             = Ok (vt, [AddUrgentCall]).
Proof.
  assert (on_object_added h init obj
          = Ok (mkv ∅ ∅ {[obj_id obj := obj]} [obj] true ∅,
                [AddUrgentCall])) as E1.
  { unfold on_object_added. simpl.
    rewrite bool_decide_eq_false_2 by apply not_elem_of_empty. done. }
  assert (on_object_id_removed
            (mkv ∅ ∅ {[obj_id obj := obj]} [obj] true ∅) (obj_id obj)
          = Ok (mkv ∅ ∅ ∅ [obj] true ∅, [])) as E2.
  { unfold on_object_id_removed. simpl.
    rewrite bool_decide_eq_true_2 by (rewrite lookup_singleton_eq; by eexists).
    simpl. by rewrite delete_singleton_eq. }
  eexists.
  eapply run_cons; [exact E1| |reflexivity].
  eapply run_cons; [exact E2| |reflexivity].
  eapply run_cons; [apply send_messages_nothing|reflexivity|reflexivity].
Qed.

(** Added, flushed, then changed and removed before the next flush: the
    second message holds the removal alone. *)
Lemma add_flush_change_remove h obj :
  exists vt,
    run h init [EvAdded obj; EvFlush; EvChanged obj;
                EvRemoved (obj_id obj); EvFlush]
    = Ok (vt, [AddUrgentCall;
               SendToFrontend {| msg_added := [info_factory h obj];
                                 msg_changed := []; msg_removed := [] |};
               AddUrgentCall;
               SendToFrontend {| msg_added := []; msg_changed := [];
                                 msg_removed := [obj_id obj] |}]).
Proof.
  set (lsi := <[obj_id obj := info_factory h obj]> (∅ : gmap Z (Info Fields))).
  assert (on_object_added h init obj
          = Ok (mkv ∅ ∅ {[obj_id obj := obj]} [obj] true ∅,
                [AddUrgentCall])) as E1.
  { unfold on_object_added. simpl.
    rewrite bool_decide_eq_false_2 by apply not_elem_of_empty. done. }
  assert (on_object_changed (mkv ∅ ∅ ∅ [] false lsi) obj
          = Ok (mkv {[obj_id obj := obj]} ∅ ∅ [] true lsi,
                [AddUrgentCall])) as E3.
  { unfold on_object_changed. simpl.
    rewrite bool_decide_eq_false_2 by (rewrite lookup_empty; by intros [? ?]).
    done. }
  assert (on_object_id_removed
            (mkv {[obj_id obj := obj]} ∅ ∅ [] true lsi) (obj_id obj)
          = Ok (mkv ∅ {[obj_id obj]} ∅ [] true lsi, [])) as E4.
  { unfold on_object_id_removed. simpl.
    rewrite bool_decide_eq_false_2 by (rewrite lookup_empty; by intros [? ?]).
    rewrite bool_decide_eq_true_2 by (rewrite lookup_singleton_eq; by eexists).
    simpl. by rewrite delete_singleton_eq, union_empty_r_L. }
  eexists.
  eapply run_cons; [exact E1| |reflexivity].
  eapply run_cons; [apply send_messages_only_added| |reflexivity].
  eapply run_cons; [exact E3| |reflexivity].
  eapply run_cons; [exact E4| |reflexivity].
  eapply run_cons;
    [apply (send_messages_only_removed h _ _ lsi (info_factory h obj));
     apply lookup_insert_eq
    |reflexivity|reflexivity].
Qed.

End facts.

(** ** C1 *)

(** Why the amended claim asks for a snapshot of every id buffered as
    removed: object 7 enters two views of one tracker and leaves both
    before anything is sent.  The second removal buffers the id as removed
    although the frontend never heard of it, and the flush fails on
    [del self._last_sent_info[id_]]. *)
Lemma unsent_removal_raises :
  let obj := {| obj_ref := 1; obj_id := 7 |} in
  let h : Heap Z := fun _ => 0%Z in
  exists vt,
    run h init [EvAdded obj; EvAdded obj; EvRemoved 7; EvRemoved 7]
    = Ok (vt, [AddUrgentCall])
    /\ removed vt = {[7%Z]}
    /\ _last_sent_info vt !! 7%Z = None
    /\ send_messages h vt = Raise KeyError.
Proof.
  intros obj h. eexists. split; [vm_compute; reflexivity|].
  split; [reflexivity|]. split; [reflexivity|]. vm_compute. reflexivity.
Qed.

(** Why the amended claim asks for an id listed once in the arrival order:
    object 7 is added, removed, added again and changed before the flush.
    [added_order] keeps both arrivals, so the message lists the object
    twice. *)
Lemma readded_id_has_two_entries :
  let obj := {| obj_ref := 1; obj_id := 7 |} in
  let h : Heap Z := fun _ => 0%Z in
  exists vt,
    run h init [EvAdded obj; EvRemoved 7; EvAdded obj; EvChanged obj]
    = Ok (vt, [AddUrgentCall])
    /\ added_order vt = [obj; obj]
    /\ flush_after h (Ok (vt, []))
       = Ok [{| msg_added := [info_factory h obj; info_factory h obj];
                msg_changed := []; msg_removed := [] |}].
Proof.
  intros obj h. eexists. split; [vm_compute; reflexivity|].
  split; [reflexivity|]. vm_compute. reflexivity.
Qed.

(** C1 (as amended).  In every state reached by tracker events, outside a
    tab reordering, and with a last-sent snapshot for every id already
    buffered as removed:
    - a removal of an id buffered as added and not also buffered as changed
      leaves no entry for it in the next flushed message;
    - a change of an object whose id is buffered as added, listed once in
      the arrival order (by the object [o]) and not buffered as changed
      replaces the buffered added entry; the added entries of the flushed
      message with this id are exactly one, the entry built at flush time
      from [o] (from the changed object itself when it is the one listed),
      and the id is in none of the changed or removed entries;
    - a removal of an id buffered as changed and not as added, with a
      last-sent snapshot, discards the changed entry: the flushed message
      lists the id among the removed ids only. *)
Theorem C1_flush_reconciliation
    {Fields : Type} `{!EqDecision Fields}
    (h : Heap Fields) (vt : ViewTracker Fields) :
  buffered vt ->
  tabs_being_reordered vt = false ->
  (forall i, i ∈ removed vt -> is_Some (_last_sent_info vt !! i)) ->
  (forall id_,
      is_Some (added vt !! id_) -> changed vt !! id_ = None ->
      exists ms, flush_after h (on_object_id_removed vt id_) = Ok ms
                 /\ forall m, m ∈ ms -> ~ notified_in m id_)
  /\ (forall obj o,
      is_Some (added vt !! obj_id obj) -> changed vt !! obj_id obj = None ->
      filter (fun x => obj_id x = obj_id obj) (added_order vt) = [o] ->
      exists vt1 out m,
        on_object_changed vt obj = Ok (vt1, out)
        /\ added vt1 !! obj_id obj = Some obj
        /\ flush_after h (Ok (vt1, out)) = Ok [m]
        /\ filter (fun x => info_id x = obj_id obj) (msg_added m)
           = [info_factory h o]
        /\ (obj ∈ added_order vt -> o = obj)
        /\ (obj_id obj ∉ (info_id <$> msg_changed m))
        /\ obj_id obj ∉ msg_removed m)
  /\ (forall id_,
      is_Some (_last_sent_info vt !! id_) ->
      added vt !! id_ = None -> is_Some (changed vt !! id_) ->
      exists vt1 out m,
        on_object_id_removed vt id_ = Ok (vt1, out)
        /\ changed vt1 !! id_ = None
        /\ flush_after h (Ok (vt1, out)) = Ok [m]
        /\ id_ ∈ msg_removed m
        /\ (id_ ∉ (info_id <$> msg_added m))
        /\ id_ ∉ (info_id <$> msg_changed m)).
Proof.
  intros Hb Ht Hsent. pose proof (buffered_wf vt Hb) as Hwf.
  split; [|split].
  - intros id_. by apply added_then_removed.
  - intros obj o Ha Hc Hone.
    destruct (added_then_changed h vt obj o Hwf Hsent Ha Hc Hone)
      as (vt1 & out & m & E1 & E2 & E3 & E4 & E5 & E6).
    exists vt1, out, m. repeat (split; [done|]). split; [|done].
    intros Hin.
    assert (obj ∈ filter (fun x => obj_id x = obj_id obj) (added_order vt))
      as Hf by (by apply list_elem_of_filter).
    rewrite Hone in Hf. by apply list_elem_of_singleton in Hf.
  - intros id_. by apply changed_then_removed.
Qed.

Lemma vt0_run : exists out, run heap0 init events0 = Ok (vt0, out).
Proof. eexists. vm_compute. reflexivity. Defined.

Lemma C1_flush_reconciliation_witness :
  (exists ms, flush_after heap0 (on_object_id_removed vt0 2) = Ok ms
              /\ forall m, m ∈ ms -> ~ notified_in m 2)
  /\ (exists vt1 out m,
        on_object_changed vt0 o2 = Ok (vt1, out)
        /\ flush_after heap0 (Ok (vt1, out)) = Ok [m]
        /\ filter (fun x => info_id x = 2%Z) (msg_added m)
           = [info_factory heap0 o2])
  /\ (exists vt1 out m,
        on_object_id_removed vt0 1 = Ok (vt1, out)
        /\ flush_after heap0 (Ok (vt1, out)) = Ok [m]
        /\ 1%Z ∈ msg_removed m
        /\ 1%Z ∉ (info_id <$> msg_changed m)).
Proof.
  assert (buffered vt0) as Hb.
  { destruct vt0_run as [out Hrun].
    exact (run_buffered heap0 init events0 vt0 out init_buffered Hrun). }
  assert (tabs_being_reordered vt0 = false) as Ht by reflexivity.
  assert (forall i, i ∈ removed vt0 -> is_Some (_last_sent_info vt0 !! i))
    as Hsent.
  { intros i Hi. exfalso. revert Hi. vm_compute. intros Hi.
    apply (not_elem_of_empty (C := gset Z) i). exact Hi. }
  destruct (C1_flush_reconciliation heap0 vt0 Hb Ht Hsent) as (H1 & H2 & H3).
  split; [|split].
  - apply (H1 2%Z); [by eexists|reflexivity].
  - destruct (H2 o2 o2) as (vt1 & out & m & E1 & _ & E2 & E3 & _);
      [by eexists|reflexivity|reflexivity|].
    by exists vt1, out, m.
  - destruct (H3 1%Z) as (vt1 & out & m & E1 & _ & E2 & E3 & _ & E4);
      [by eexists|reflexivity|by eexists|].
    by exists vt1, out, m.
Defined.

(** C1 as stated fails: object 7 is reported changed, then added (it
    entered a second view of the same tracker); its removal while it is
    buffered as added leaves the buffered change in place, and the flush
    sends it. *)
Lemma C1_removed_while_added_counterexample :
  let obj := {| obj_ref := 1; obj_id := 7 |} in
  let h : Heap Z := fun _ => 0%Z in
  exists vt m,
    run h init [EvChanged obj; EvAdded obj] = Ok (vt, [AddUrgentCall])
    /\ buffered vt
    /\ tabs_being_reordered vt = false
    /\ is_Some (added vt !! 7%Z)
    /\ is_Some (changed vt !! 7%Z)
    /\ flush_after h (on_object_id_removed vt 7) = Ok [m]
    /\ m = {| msg_added := []; msg_changed := [info_factory h obj];
              msg_removed := [] |}
    /\ notified_in m 7.
Proof.
  intros obj h.
  destruct (run h init [EvChanged obj; EvAdded obj]) as [[vt out]|e] eqn:Hrun;
    [|by vm_compute in Hrun].
  exists vt. eexists.
  assert (buffered vt) as Hb by exact (run_buffered _ _ _ _ _ init_buffered Hrun).
  vm_compute in Hrun. injection Hrun as <- <-.
  split; [reflexivity|]. split; [exact Hb|]. split; [reflexivity|].
  split; [by eexists|]. split; [by eexists|].
  split; [vm_compute; reflexivity|]. split; [reflexivity|].
  right. left. simpl. apply list_elem_of_here.
Qed.

End ViewTrackerFacts.

Module DownloadFacts.
Import Download.
Open Scope Z_scope.

(** ** The retry schedule *)

Lemma RETRY_TIMES_values :
  RETRY_TIMES = [60; 300; 600; 1800; 3600; 7200; 21600; 86400].
Proof. reflexivity. Qed.

Lemma getitem_RETRY_TIMES (k : nat) :
  (k < 8)%nat -> getitem RETRY_TIMES (Z.of_nat k) = Ok (spec_retry_delay (S k)).
Proof.
  intros Hk. do 8 (destruct k as [|k]; [reflexivity|]). lia.
Qed.

(** One failure, from a counter in range. *)
Lemma handle_temporary_error_step now short reason d w :
  -1 <= retryCount d <= 7 ->
  let k := Z.to_nat (Z.min (retryCount d + 1) 7) in
  let delay := spec_retry_delay (S k) in
  handle_temporary_error now short reason d w
  = Ok ({| dlid := dlid d; url := url d; startTime := 0; endTime := 0;
           shortFilename := shortFilename d; filename := filename d;
           state := offline; currentSize := currentSize d;
           totalSize := totalSize d; shortReasonFailed := short;
           reasonFailed := reason; retryTime := Some (now + delay);
           retryCount := Z.of_nat k; rate := 0;
           retryDC := Some (length (timeouts w));
           channelName := channelName d |},
        with_to_update ({[dlid d]} ∪ to_update w)
          (with_timeouts
             (timeouts w ++ [{| dc_delay := delay;
                                dc_callback := retry_download_of (dlid d);
                                dc_name := "Logarithmic retry";
                                dc_cancelled := false |}]) w)).
Proof.
  intros Hrc k delay. unfold handle_temporary_error.
  assert ((if len RETRY_TIMES <=? retryCount d + 1
           then len RETRY_TIMES - 1 else retryCount d + 1) = Z.of_nat k) as ->.
  { unfold k. change (len RETRY_TIMES) with 8.
    destruct (Z.leb_spec 8 (retryCount d + 1)); lia. }
  rewrite getitem_RETRY_TIMES by (unfold k; lia).
  reflexivity.
Qed.

Lemma consecutive_failures_count fs d w :
  -1 <= retryCount d <= 7 ->
  exists d' w',
    consecutive_failures fs d w = Ok (d', w')
    /\ retryCount d' = Z.min (retryCount d + len fs) 7
    /\ dlid d' = dlid d.
Proof.
  revert d w. induction fs as [|f fs IH]; intros d w Hrc.
  - exists d, w. unfold len. simpl. split; [done|]. split; [lia|done].
  - simpl. rewrite handle_temporary_error_step by done.
    simpl. match goal with |- context [consecutive_failures fs ?d1 ?w1] =>
      destruct (IH d1 w1) as (d' & w' & -> & Hc & Hid) end.
    { simpl. lia. }
    exists d', w'. split; [done|]. simpl in Hc, Hid.
    split; [|done]. rewrite Hc. unfold len. simpl length. lia.
Qed.

Lemma consecutive_failures_app fs1 fs2 d w :
  consecutive_failures (fs1 ++ fs2) d w
  = '(d1, w1) ← consecutive_failures fs1 d w; consecutive_failures fs2 d1 w1.
Proof.
  revert d w. induction fs1 as [|f fs1 IH]; intros d w; simpl; [done|].
  destruct (handle_temporary_error _ _ _ d w) as [[d1 w1]|e]; simpl; [|done].
  apply IH.
Qed.

Lemma spec_retry_delay_capped (n : nat) :
  spec_retry_delay (S (Nat.min n 7)) = spec_retry_delay (S n).
Proof. do 8 (destruct n as [|n]; [reflexivity|]). reflexivity. Qed.

Lemma lookup_last_app {A} (l : list A) (x : A) : (l ++ [x]) !! length l = Some x.
Proof. by rewrite lookup_app_r, Nat.sub_diag. Qed.

(** One more failure after [k] failures in a row. *)
Lemma handle_temporary_error_scheduled (k : nat) f d w :
  retryCount d = Z.min (Z.of_nat k - 1) 7 ->
  exists d' w',
    handle_temporary_error (noticed_at f) (short_reason_of f) (reason_of f) d w
    = Ok (d', w')
    /\ dlid d' = dlid d
    /\ retry_scheduled (S k) (noticed_at f) d' w'.
Proof.
  intros Hrc. rewrite handle_temporary_error_step by lia.
  assert (Z.to_nat (Z.min (retryCount d + 1) 7) = Nat.min k 7) as -> by lia.
  rewrite spec_retry_delay_capped.
  eexists _, _. split; [reflexivity|]. split; [reflexivity|].
  unfold retry_scheduled. simpl.
  split; [done|]. split; [lia|]. split; [done|].
  eexists. split; [done|]. apply lookup_last_app.
Qed.

Lemma update_stats_keeps h w :
  let '(h', w') := update_stats h w in
  retryCount (base h') = retryCount (base h) /\ dlid (base h') = dlid (base h)
  /\ retryDC (base h') = retryDC (base h)
  /\ filename (base h') = filename (base h)
  /\ state (base h') = state (base h)
  /\ client h' = client h
  /\ files w' = files w /\ undeletable w' = undeletable w
  /\ http_calls w' = http_calls w /\ commands w' = commands w.
Proof.
  unfold update_stats. destruct (client h) eqn:Hc; simpl; [|by rewrite Hc].
  case_bool_decide; simpl; [by rewrite Hc|]. by case_bool_decide.
Qed.

Lemma cancel_request_keeps remove_file h w :
  let '(h', w') := cancel_request remove_file h w in
  retryCount (base h') = retryCount (base h) /\ dlid (base h') = dlid (base h)
  /\ filename (base h') = filename (base h)
  /\ state (base h') = state (base h)
  /\ client h' = None
  /\ files w' = files w /\ undeletable w' = undeletable w
  /\ commands w' = commands w.
Proof.
  unfold cancel_request. destruct (client h) as [c|] eqn:Hc.
  - unfold destroy_client.
    pose proof (update_stats_keeps h
      (with_http_calls
         (http_calls w ++ [CancelTransfer (url (base h)) remove_file]) w)) as H.
    destruct (update_stats h _) as [h1 w1].
    destruct H as (H1 & H2 & H3 & H4 & H5 & H6 & H7 & H8 & H9 & H10).
    simpl in *. destruct (retryDC (base h1)); simpl; by rewrite ?H1, ?H2, ?H4, ?H5.
  - destruct (retryDC (base h)); simpl; by rewrite ?Hc.
Qed.

Lemma HTTP_consecutive_failures_count fs h w :
  -1 <= retryCount (base h) <= 7 ->
  exists h' w',
    HTTP_consecutive_failures fs h w = Ok (h', w')
    /\ retryCount (base h') = Z.min (retryCount (base h) + len fs) 7.
Proof.
  revert h w. induction fs as [|f fs IH]; intros h w Hrc.
  - exists h, w. unfold len. simpl. split; [done|lia].
  - simpl. unfold HTTP_handle_temporary_error.
    pose proof (cancel_request_keeps false h w) as Hk.
    destruct (cancel_request false h w) as [h1 w1].
    destruct Hk as (Hk1 & _).
    rewrite handle_temporary_error_step by lia. simpl.
    match goal with |- context [HTTP_consecutive_failures fs ?h2 ?w2] =>
      destruct (IH h2 w2) as (h' & w' & -> & Hc) end.
    { simpl. lia. }
    exists h', w'. split; [done|]. simpl in Hc. rewrite Hc.
    unfold len. simpl length. lia.
Qed.

Lemma HTTP_consecutive_failures_app fs1 fs2 h w :
  HTTP_consecutive_failures (fs1 ++ fs2) h w
  = '(h1, w1) ← HTTP_consecutive_failures fs1 h w;
    HTTP_consecutive_failures fs2 h1 w1.
Proof.
  revert h w. induction fs1 as [|f fs1 IH]; intros h w; simpl; [done|].
  destruct (HTTP_handle_temporary_error _ _ _ h w) as [[h1 w1]|e]; simpl;
    [|done].
  apply IH.
Qed.

Lemma shutdown_torrent_base d ses :
  bt_base (_shutdown_torrent d ses).1 = bt_base d.
Proof.
  unfold _shutdown_torrent.
  destruct (remove_torrent ses _ _) as [ses1 [e|]]; [done|].
  by destruct (torrent d).
Qed.

Lemma BT_consecutive_failures_count fs d ses w :
  -1 <= retryCount (bt_base d) <= 7 ->
  exists d' ses' w',
    BT_consecutive_failures fs d ses w = Ok (d', ses', w')
    /\ retryCount (bt_base d') = Z.min (retryCount (bt_base d) + len fs) 7.
Proof.
  revert d ses w. induction fs as [|f fs IH]; intros d ses w Hrc.
  - exists d, ses, w. unfold len. simpl. split; [done|lia].
  - simpl. unfold BT_handle_temporary_error.
    pose proof (shutdown_torrent_base d ses) as Hb.
    destruct (_shutdown_torrent d ses) as [d1 ses1]. simpl in Hb.
    rewrite handle_temporary_error_step by (rewrite Hb; lia). simpl.
    match goal with |- context [BT_consecutive_failures fs ?d2 ?s2 ?w2] =>
      destruct (IH d2 s2 w2) as (d' & ses' & w' & -> & Hc) end.
    { simpl. rewrite Hb. lia. }
    exists d', ses', w'. split; [done|]. simpl in Hc. rewrite Hc, Hb.
    unfold len. simpl length. lia.
Qed.

Lemma BT_consecutive_failures_app fs1 fs2 d ses w :
  BT_consecutive_failures (fs1 ++ fs2) d ses w
  = '(d1, ses1, w1) ← BT_consecutive_failures fs1 d ses w;
    BT_consecutive_failures fs2 d1 ses1 w1.
Proof.
  revert d ses w. induction fs1 as [|f fs1 IH]; intros d ses w; simpl; [done|].
  destruct (BT_handle_temporary_error _ _ _ d ses w) as [[[d1 ses1] w1]|e];
    simpl; [|done].
  apply IH.
Qed.


(** ** Hexadecimal and base32 *)

Lemma code_range c : 0 <= code c < 256.
Proof.
  unfold code. pose proof (N_ascii_bounded c). lia.
Qed.

Lemma code_chr n : 0 <= n < 256 -> code (chr n) = n.
Proof.
  intros Hn. unfold code, chr. rewrite N_ascii_embedding by lia. lia.
Qed.

Lemma chr_code c : chr (code c) = c.
Proof. unfold code, chr. rewrite N2Z.id. apply ascii_N_embedding. Qed.

Lemma hex_digit_value_lower n :
  0 <= n < 16 -> hex_digit_value (hex_lower n) = Some n.
Proof.
  intros Hn. unfold hex_digit_value, hex_lower.
  destruct (Z.ltb_spec n 10); rewrite code_chr by lia.
  - replace ((48 <=? 48 + n) && (48 + n <=? 57)) with true
      by (symmetry; apply andb_true_intro; split; lia).
    f_equal. lia.
  - replace ((48 <=? 87 + n) && (87 + n <=? 57)) with false
      by (symmetry; apply andb_false_intro2; lia).
    replace ((97 <=? 87 + n) && (87 + n <=? 102)) with true
      by (symmetry; apply andb_true_intro; split; lia).
    f_equal. lia.
Qed.

Lemma hex_digit_value_upper n :
  0 <= n < 16 -> hex_digit_value (hex_upper n) = Some n.
Proof.
  intros Hn. unfold hex_digit_value, hex_upper.
  destruct (Z.ltb_spec n 10); rewrite code_chr by lia.
  - replace ((48 <=? 48 + n) && (48 + n <=? 57)) with true
      by (symmetry; apply andb_true_intro; split; lia).
    f_equal. lia.
  - replace ((48 <=? 55 + n) && (55 + n <=? 57)) with false
      by (symmetry; apply andb_false_intro2; lia).
    replace ((97 <=? 55 + n) && (55 + n <=? 102)) with false
      by (symmetry; apply andb_false_intro1; lia).
    replace ((65 <=? 55 + n) && (55 + n <=? 70)) with true
      by (symmetry; apply andb_true_intro; split; lia).
    f_equal. lia.
Qed.

(** Parsing the hexadecimal form of a byte string gives its value. *)
Lemma long_digits_hexlify digit bytes acc :
  (forall n, 0 <= n < 16 -> hex_digit_value (digit n) = Some n) ->
  long_digits acc (hexlify_with digit bytes)
  = Some (fold_left (fun a b => 256 * a + code b) bytes acc).
Proof.
  intros Hd. revert acc. induction bytes as [|b bytes IH]; intros acc; [done|].
  pose proof (code_range b) as Hb. simpl.
  rewrite Hd by (split; [apply Z.div_pos|apply Z.div_lt_upper_bound]; lia).
  rewrite Hd by (apply Z.mod_pos_bound; lia).
  rewrite IH. do 2 f_equal. pose proof (Z.div_mod (code b) 16). lia.
Qed.

Lemma hex_digit_of_value n c :
  0 <= n < 16 -> hex_digit_of n c = true -> hex_digit_value c = Some n.
Proof.
  intros Hn [H|H]%orb_prop; apply bool_decide_eq_true in H; subst c.
  - by apply hex_digit_value_lower.
  - by apply hex_digit_value_upper.
Qed.

(** Parsing any hexadecimal spelling of a byte string gives its value. *)
Lemma long_digits_spells bytes s acc :
  hex_spells bytes s = true ->
  long_digits acc s
  = Some (fold_left (fun a b => 256 * a + code b) bytes acc).
Proof.
  revert s acc. induction bytes as [|b bytes IH]; intros s acc.
  - destruct s; [done|discriminate].
  - destruct s as [|c1 [|c2 s]]; [discriminate..|].
    cbn [hex_spells].
    intros [[H1 H2]%andb_prop H3]%andb_prop.
    pose proof (code_range b) as Hb.
    cbn [long_digits].
    assert (0 <= code b / 16 < 16) as Hhi
      by (split; [apply Z.div_pos|apply Z.div_lt_upper_bound]; lia).
    assert (0 <= code b mod 16 < 16) as Hlo
      by (apply Z.mod_pos_bound; lia).
    rewrite (hex_digit_of_value _ c1 Hhi H1).
    rewrite (hex_digit_of_value _ c2 Hlo H2).
    rewrite (IH s _ H3). cbn [fold_left]. do 2 f_equal.
    pose proof (Z.div_mod (code b) 16). lia.
Qed.

Lemma hex_spells_length bytes s :
  hex_spells bytes s = true -> length s = (2 * length bytes)%nat.
Proof.
  revert s. induction bytes as [|b bytes IH]; intros s.
  - destruct s; [done|discriminate].
  - destruct s as [|c1 [|c2 s]]; [discriminate..|].
    cbn [hex_spells]. intros [_ H3]%andb_prop.
    cbn [length]. rewrite (IH s H3). lia.
Qed.

Lemma hex_spells_hexlify digit bytes :
  (forall n, digit n = hex_lower n \/ digit n = hex_upper n) ->
  hex_spells bytes (hexlify_with digit bytes) = true.
Proof.
  intros Hd. induction bytes as [|b bytes IH]; [done|].
  cbn [hexlify_with flat_map app hex_spells].
  fold (hexlify_with digit bytes). rewrite IH.
  assert (forall n, hex_digit_of n (digit n) = true) as Hdig.
  { intros n. unfold hex_digit_of. apply orb_true_intro.
    destruct (Hd n) as [->| ->]; [left|right]; by apply bool_decide_eq_true. }
  by rewrite !Hdig.
Qed.

Lemma long16_spelling bytes s :
  bytes <> "" -> hex_spelling_of bytes s = true ->
  long16 s = Ok (bytes_value (String.list_ascii_of_string bytes)).
Proof.
  intros Hne Hs. unfold long16, hex_spelling_of in *.
  pose proof (long_digits_spells _ _ 0 Hs) as Hv.
  destruct (String.list_ascii_of_string s) as [|c l] eqn:El.
  - destruct bytes as [|b bytes]; [done|discriminate].
  - by rewrite Hv.
Qed.

Lemma hexlify_nonempty digit b bytes :
  hexlify_with digit (b :: bytes) <> [].
Proof. done. Qed.

Lemma long16_hexlify digit bytes :
  (forall n, 0 <= n < 16 -> hex_digit_value (digit n) = Some n) ->
  bytes <> "" ->
  long16 (String.string_of_list_ascii
            (hexlify_with digit (String.list_ascii_of_string bytes)))
  = Ok (bytes_value (String.list_ascii_of_string bytes)).
Proof.
  intros Hd Hne. unfold long16.
  rewrite String.list_ascii_of_string_of_list_ascii.
  destruct bytes as [|b bytes]; [done|].
  change (String.list_ascii_of_string (String b bytes))
    with (b :: String.list_ascii_of_string bytes).
  pose proof (long_digits_hexlify digit
                (b :: String.list_ascii_of_string bytes) 0 Hd) as H.
  unfold hexlify_with in *. cbn [flat_map app] in *. by rewrite H.
Qed.

Lemma info_hash_to_long_big_number bytes :
  bytes <> "" ->
  info_hash_to_long (big_number_str bytes)
  = Ok (bytes_value (String.list_ascii_of_string bytes)).
Proof. apply long16_hexlify, hex_digit_value_lower. Qed.

Lemma info_hash_to_long_b16encode bytes :
  bytes <> "" ->
  info_hash_to_long (b16encode bytes)
  = Ok (bytes_value (String.list_ascii_of_string bytes)).
Proof. apply long16_hexlify, hex_digit_value_upper. Qed.

Lemma b32rev_b32tab k : 0 <= k < 32 -> b32rev (b32tab k) = Some k.
Proof.
  intros Hk. unfold b32rev, b32tab.
  destruct (Z.ltb_spec k 26); rewrite code_chr by lia.
  - replace ((65 <=? 65 + k) && (65 + k <=? 90)) with true
      by (symmetry; apply andb_true_intro; split; lia).
    f_equal. lia.
  - replace ((65 <=? 24 + k) && (24 + k <=? 90)) with false
      by (symmetry; apply andb_false_intro1; lia).
    replace ((50 <=? 24 + k) && (24 + k <=? 55)) with true
      by (symmetry; apply andb_true_intro; split; lia).
    f_equal. lia.
Qed.

Lemma b32tab_not_pad k : 0 <= k < 32 -> Ascii.eqb (b32tab k) "="%char = false.
Proof.
  intros Hk. apply Ascii.eqb_neq. intros Heq.
  apply (f_equal code) in Heq. unfold b32tab in Heq.
  change (code "="%char) with 61 in Heq.
  destruct (Z.ltb_spec k 26); rewrite code_chr in Heq by lia; lia.
Qed.

Lemma land_31_range v : 0 <= Z.land v 31 < 32.
Proof.
  change 31 with (Z.ones 5). rewrite Z.land_ones by lia.
  apply Z.mod_pos_bound. lia.
Qed.

Lemma quantum_value_range b0 b1 b2 b3 b4 :
  0 <= quantum_value b0 b1 b2 b3 b4 < 2 ^ 40.
Proof.
  unfold quantum_value. rewrite !Z.shiftl_mul_pow2 by lia.
  pose proof (code_range b0). pose proof (code_range b1).
  pose proof (code_range b2). pose proof (code_range b3).
  pose proof (code_range b4). lia.
Qed.

(** The eight digits of a quantum, shifted back into place, give the
    quantum. *)
Lemma quantum_digits_sum v :
  0 <= v < 2 ^ 40 ->
  0 + Z.shiftl (Z.land (Z.shiftr v 35) 31) 35
    + Z.shiftl (Z.land (Z.shiftr v 30) 31) 30
    + Z.shiftl (Z.land (Z.shiftr v 25) 31) 25
    + Z.shiftl (Z.land (Z.shiftr v 20) 31) 20
    + Z.shiftl (Z.land (Z.shiftr v 15) 31) 15
    + Z.shiftl (Z.land (Z.shiftr v 10) 31) 10
    + Z.shiftl (Z.land (Z.shiftr v 5) 31) 5
    + Z.shiftl (Z.land v 31) 0 = v.
Proof.
  intros Hv. change 31 with (Z.ones 5).
  rewrite !Z.land_ones, !Z.shiftr_div_pow2, !Z.shiftl_mul_pow2 by lia.
  change (2 ^ 35) with 34359738368. change (2 ^ 30) with 1073741824.
  change (2 ^ 25) with 33554432. change (2 ^ 20) with 1048576.
  change (2 ^ 15) with 32768. change (2 ^ 10) with 1024.
  change (2 ^ 5) with 32. change (2 ^ 0) with 1.
  change (2 ^ 40) with 1099511627776 in Hv.
  Z.div_mod_to_equations. lia.
Qed.

Lemma quantum_bytes_value b0 b1 b2 b3 b4 :
  quantum_bytes (quantum_value b0 b1 b2 b3 b4) = [b0; b1; b2; b3; b4].
Proof.
  unfold quantum_bytes, quantum_value.
  pose proof (code_range b0). pose proof (code_range b1).
  pose proof (code_range b2). pose proof (code_range b3).
  pose proof (code_range b4).
  change 255 with (Z.ones 8).
  rewrite !Z.land_ones, !Z.shiftr_div_pow2, !Z.shiftl_mul_pow2 by lia.
  change (2 ^ 32) with 4294967296. change (2 ^ 24) with 16777216.
  change (2 ^ 16) with 65536. change (2 ^ 8) with 256.
  repeat f_equal; (etransitivity; [|apply chr_code]); f_equal;
    Z.div_mod_to_equations; lia.
Qed.

Lemma b32decode_loop_digit k rest acc shift shift' parts :
  0 <= k < 32 -> shift' = shift - 5 -> 0 <= shift' ->
  b32decode_loop (b32tab k :: rest) acc shift parts
  = b32decode_loop rest (acc + Z.shiftl k shift) shift' parts.
Proof.
  intros Hk -> Hs. cbn [b32decode_loop]. rewrite b32rev_b32tab by done.
  destruct (Z.ltb_spec (shift - 5) 0); [lia|done].
Qed.

Lemma b32decode_loop_last_digit k rest acc parts :
  0 <= k < 32 ->
  b32decode_loop (b32tab k :: rest) acc 0 parts
  = b32decode_loop rest 0 35 (parts ++ quantum_bytes (acc + Z.shiftl k 0)).
Proof.
  intros Hk. cbn [b32decode_loop]. rewrite b32rev_b32tab by done. done.
Qed.

(** Decoding the eight characters of a quantum appends its five bytes. *)
Lemma b32decode_loop_quantum b0 b1 b2 b3 b4 rest parts :
  b32decode_loop (quantum_chars (quantum_value b0 b1 b2 b3 b4) ++ rest)
    0 35 parts
  = b32decode_loop rest 0 35 (parts ++ [b0; b1; b2; b3; b4]).
Proof.
  pose proof (quantum_value_range b0 b1 b2 b3 b4) as Hv.
  pose proof (quantum_digits_sum _ Hv) as Hsum.
  pose proof (quantum_bytes_value b0 b1 b2 b3 b4) as Hbytes.
  set (v := quantum_value b0 b1 b2 b3 b4) in *.
  unfold quantum_chars. cbn [app].
  rewrite (b32decode_loop_digit _ _ _ 35 30) by (try apply land_31_range; lia).
  rewrite (b32decode_loop_digit _ _ _ 30 25) by (try apply land_31_range; lia).
  rewrite (b32decode_loop_digit _ _ _ 25 20) by (try apply land_31_range; lia).
  rewrite (b32decode_loop_digit _ _ _ 20 15) by (try apply land_31_range; lia).
  rewrite (b32decode_loop_digit _ _ _ 15 10) by (try apply land_31_range; lia).
  rewrite (b32decode_loop_digit _ _ _ 10 5) by (try apply land_31_range; lia).
  rewrite (b32decode_loop_digit _ _ _ 5 0) by (try apply land_31_range; lia).
  rewrite b32decode_loop_last_digit by apply land_31_range.
  by rewrite Hsum, Hbytes.
Qed.

Lemma quantum_chars_length v : length (quantum_chars v) = 8%nat.
Proof. reflexivity. Qed.

Lemma string_length_list s :
  String.length s = length (String.list_ascii_of_string s).
Proof. induction s as [|c s IH]; simpl; [done|by f_equal]. Qed.

Lemma string_of_list_length l :
  String.length (String.string_of_list_ascii l) = length l.
Proof. induction l as [|c l IH]; simpl; [done|by f_equal]. Qed.

(** Twenty bytes, spelled out. *)
Lemma twenty_bytes (l : list ascii) :
  length l = 20%nat ->
  exists a0 a1 a2 a3 a4 b0 b1 b2 b3 b4 c0 c1 c2 c3 c4 d0 d1 d2 d3 d4,
    l = [a0; a1; a2; a3; a4; b0; b1; b2; b3; b4;
         c0; c1; c2; c3; c4; d0; d1; d2; d3; d4].
Proof.
  intros Hl.
  do 20 (destruct l as [|? l]; [done|]). destruct l; [|done].
  by repeat eexists.
Qed.

(** The base32 form of a 20-byte hash decodes to the hash. *)
Lemma b32decode_b32encode hash :
  String.length hash = 20%nat -> b32decode (b32encode hash) = Ok hash.
Proof.
  intros Hlen. unfold b32decode, b32encode.
  rewrite String.list_ascii_of_string_of_list_ascii.
  rewrite string_length_list in Hlen.
  destruct (twenty_bytes _ Hlen)
    as (a0&a1&a2&a3&a4&b0&b1&b2&b3&b4&c0&c1&c2&c3&c4&d0&d1&d2&d3&d4&Hl).
  rewrite <- (String.string_of_list_ascii_of_string hash) at 2.
  rewrite Hl. cbn [b32encode_quanta].
  set (qa := quantum_value a0 a1 a2 a3 a4).
  set (qb := quantum_value b0 b1 b2 b3 b4).
  set (qc := quantum_value c0 c1 c2 c3 c4).
  set (qd := quantum_value d0 d1 d2 d3 d4).
  unfold b32decode_list.
  assert (length (quantum_chars qa ++ quantum_chars qb ++ quantum_chars qc
                    ++ quantum_chars qd ++ []) = 32%nat) as Hlen32
    by reflexivity.
  rewrite Hlen32. cbn [Nat.modulo Nat.divmod Nat.eqb negb fst snd Nat.sub].
  assert (count_leading_pad
            (reverse (quantum_chars qa ++ quantum_chars qb ++ quantum_chars qc
                        ++ quantum_chars qd ++ [])) = 0%nat) as ->.
  { unfold quantum_chars. cbn [app]. rewrite !reverse_cons, reverse_nil.
    cbn [app count_leading_pad].
    by rewrite b32tab_not_pad by apply land_31_range. }
  rewrite Nat.sub_0_r, <- Hlen32, firstn_all.
  unfold qa, qb, qc, qd. rewrite !b32decode_loop_quantum.
  cbn [b32decode_loop app]. reflexivity.
Qed.

Lemma b32encode_length hash :
  String.length hash = 20%nat -> String.length (b32encode hash) = 32%nat.
Proof.
  intros Hlen. unfold b32encode. rewrite string_of_list_length.
  rewrite string_length_list in Hlen.
  destruct (twenty_bytes _ Hlen)
    as (a0&a1&a2&a3&a4&b0&b1&b2&b3&b4&c0&c1&c2&c3&c4&d0&d1&d2&d3&d4&->).
  reflexivity.
Qed.

Lemma hexlify_length digit l :
  length (hexlify_with digit l) = (2 * length l)%nat.
Proof. induction l as [|b l IH]; simpl; [done|]. rewrite IH. lia. Qed.

(** ** Resuming an HTTP download *)

Lemma start_download_resume cl h w :
  exists h1 w1,
    filename (base h1) = filename (base h)
    /\ currentSize (base h1) = currentSize (base h)
    /\ url (base h1) = url (base h)
    /\ files w1 = files w /\ http_calls w1 = http_calls w
    /\ start_download true cl h w
       = '(resume1, w2) ← _resume_sanity_check h1 w1;
         Ok (update_stats (with_client (Some cl) h1)
               (with_http_calls
                  (http_calls w2 ++ [GrabUrl (url (base h1))
                                       (filename (base h1)) resume1]) w2)).
Proof.
  unfold start_download. destruct (retryDC (base h)) as [dc|].
  - by exists (with_base (with_retry (retryCount (base h)) None (base h)) h),
              (cancel_timeout dc w).
  - by exists h, w.
Qed.

(** C4.  On a resume attempt ([start_download] with [resume] set) of a
    download whose recorded byte count is not negative: a partial file
    larger than [currentSize] is truncated to exactly [currentSize] and the
    transfer is requested with [resume] set; a partial file smaller than
    [currentSize], or a missing one, is left as it is and the transfer is
    requested without [resume], that is from byte zero. *)
Theorem C4_resume_sanity_check (cl : HTTPClient) (h : HTTPDownloader)
    (w : World) :
  0 <= currentSize (base h) ->
  let path := filename (base h) in
  let recorded := currentSize (base h) in
  (forall size,
      files w !! path = Some size -> recorded < size ->
      exists h' w',
        start_download true cl h w = Ok (h', w')
        /\ files w' = <[path := recorded]> (files w)
        /\ http_calls w'
           = http_calls w ++ [GrabUrl (url (base h)) path true])
  /\ (forall size,
      files w !! path = Some size -> size < recorded ->
      exists h' w',
        start_download true cl h w = Ok (h', w')
        /\ files w' = files w
        /\ http_calls w'
           = http_calls w ++ [GrabUrl (url (base h)) path false])
  /\ (files w !! path = None ->
      exists h' w',
        start_download true cl h w = Ok (h', w')
        /\ files w' = files w
        /\ http_calls w'
           = http_calls w ++ [GrabUrl (url (base h)) path false]).
Proof.
  intros Hpos path recorded.
  destruct (start_download_resume cl h w)
    as (h1 & w1 & Hf & Hc & Hu & Hfiles & Hcalls & ->).
  unfold _resume_sanity_check. rewrite Hf, Hc, Hu, Hfiles.
  fold path recorded.
  split; [|split].
  - intros size -> Hlt.
    destruct (Z.ltb_spec recorded size); [|lia].
    unfold truncate_file. destruct (Z.ltb_spec recorded 0); [lia|]. simpl.
    match goal with |- context [update_stats ?a ?b] =>
      pose proof (update_stats_keeps a b) as Hk;
      destruct (update_stats a b) as [h' w'] end.
    destruct Hk as (_ & _ & _ & _ & _ & _ & Hk1 & _ & Hk2 & _).
    exists h', w'. split; [done|]. simpl in Hk1, Hk2.
    by rewrite Hk1, Hk2, Hfiles, Hcalls.
  - intros size -> Hlt.
    destruct (Z.ltb_spec recorded size); [lia|].
    destruct (Z.ltb_spec size recorded); [|lia]. simpl.
    match goal with |- context [update_stats ?a ?b] =>
      pose proof (update_stats_keeps a b) as Hk;
      destruct (update_stats a b) as [h' w'] end.
    destruct Hk as (_ & _ & _ & _ & _ & _ & Hk1 & _ & Hk2 & _).
    exists h', w'. split; [done|]. simpl in Hk1, Hk2.
    by rewrite Hk1, Hk2, Hfiles, Hcalls.
  - intros ->. simpl.
    match goal with |- context [update_stats ?a ?b] =>
      pose proof (update_stats_keeps a b) as Hk;
      destruct (update_stats a b) as [h' w'] end.
    destruct Hk as (_ & _ & _ & _ & _ & _ & Hk1 & _ & Hk2 & _).
    exists h', w'. split; [done|]. simpl in Hk1, Hk2.
    by rewrite Hk1, Hk2, Hfiles, Hcalls.
Qed.

(** ** Disk space *)

(** C10.  [accept_download_size] accepts every size when the preference is
    off; when it is on, with [margin] the available bytes minus the reserved
    gigabytes, a negative (unknown) size is accepted exactly when
    [0 <= margin], and a known size exactly when it is at most [margin]. *)
Theorem C10_accept_download_size (cfg : Config) (size : Z) :
  let margin := get_available_bytes_for_movies cfg
                - PRESERVE_X_GB_FREE cfg * 1024 * 1024 * 1024 in
  (PRESERVE_DISK_SPACE cfg = false -> accept_download_size cfg size = true)
  /\ (PRESERVE_DISK_SPACE cfg = true -> size < 0 ->
      (accept_download_size cfg size = true <-> 0 <= margin))
  /\ (PRESERVE_DISK_SPACE cfg = true -> 0 <= size ->
      (accept_download_size cfg size = true <-> size <= margin)).
Proof.
  intros margin. unfold accept_download_size. fold margin.
  split; [|split].
  - by intros ->.
  - intros -> Hneg. destruct (Z.ltb_spec size 0); [|lia].
    apply Z.leb_le.
  - intros -> Hpos. destruct (Z.ltb_spec size 0); [lia|].
    apply Z.leb_le.
Qed.

(** ** Permanent failures of an HTTP download *)

Lemma HTTP_handle_error_spec short reason h w :
  exists h' w',
    HTTP_handle_error short reason h w = Ok (h', w')
    /\ state (base h') = failed
    /\ currentSize (base h') = 0
    /\ totalSize (base h') = -1
    /\ retryCount (base h') = retryCount (base h)
    /\ dlid (base h') = dlid (base h)
    /\ filename (base h') = filename (base h)
    /\ undeletable w' = undeletable w
    /\ (filename (base h) ∉ undeletable w ->
        files w' = delete (filename (base h)) (files w))
    /\ (filename (base h) ∈ undeletable w -> files w' = files w).
Proof.
  unfold HTTP_handle_error. simpl.
  match goal with |- context [cancel_request false ?a ?b] =>
    pose proof (cancel_request_keeps false a b) as Hk;
    destruct (cancel_request false a b) as [h2 w2] end.
  simpl in Hk. destruct Hk as (Hrc & Hid & Hfn & Hst & _ & Hfiles & Hund & _).
  rewrite Hfn. unfold path_exists, fileutil_remove. rewrite Hfiles, Hund.
  case_bool_decide as Hex.
  - case_bool_decide as Hlock.
    + eexists _, _. split; [reflexivity|]. simpl.
      repeat split; rewrite ?Hfiles; done.
    + destruct Hex as [size Hsize]. rewrite Hsize.
      eexists _, _. split; [reflexivity|]. simpl.
      repeat split; rewrite ?Hfiles; done.
  - eexists _, _. split; [reflexivity|]. simpl.
    repeat split; rewrite ?Hfiles; try done.
    intros _. symmetry. apply delete_id.
    by destruct (files w !! filename (base h)) eqn:E; [destruct Hex; eauto|].
Qed.

(** C9 (as amended).  A permanent failure of an HTTP download
    ([handle_error]) ends in the failed state with [currentSize] 0 and
    [totalSize] -1, and leaves the retry counter alone; the partial file is
    gone afterwards unless the operating system refuses its removal, in
    which case the files are as before.  A permanent network error does
    all this and resets the retry counter to -1, so that the next temporary
    failure schedules its retry after the first entry of the table, 60
    seconds. *)
Theorem C9_permanent_failure (short reason : string) (h : HTTPDownloader)
    (w : World) :
  let path := filename (base h) in
  (exists h' w',
      HTTP_handle_error short reason h w = Ok (h', w')
      /\ state (base h') = failed
      /\ currentSize (base h') = 0 /\ totalSize (base h') = -1
      /\ retryCount (base h') = retryCount (base h)
      /\ (path ∉ undeletable w -> files w' !! path = None)
      /\ (path ∈ undeletable w -> files w' = files w))
  /\ (forall now error,
      permanent (error_class error) = true ->
      exists h' w',
        HTTP_handle_network_error now error h w = Ok (h', w')
        /\ state (base h') = failed
        /\ currentSize (base h') = 0 /\ totalSize (base h') = -1
        /\ retryCount (base h') = -1
        /\ (path ∉ undeletable w -> files w' !! path = None)
        /\ (path ∈ undeletable w -> files w' = files w)
        /\ forall f,
             exists h'' w'',
               HTTP_handle_temporary_error (noticed_at f) (short_reason_of f)
                 (reason_of f) h' w' = Ok (h'', w'')
               /\ retry_scheduled 1 (noticed_at f) (base h'') w''
               /\ spec_retry_delay 1 = 60).
Proof.
  intros path. split.
  - destruct (HTTP_handle_error_spec short reason h w)
      as (h' & w' & E & H1 & H2 & H3 & H4 & _ & _ & _ & H5 & H6).
    exists h', w'. repeat split; try done.
    intros Hn. rewrite (H5 Hn). apply lookup_delete_eq.
  - intros now error Hperm. unfold HTTP_handle_network_error.
    destruct (HTTP_handle_error_spec (getFriendlyDescription error)
                (getLongDescription error) h w)
      as (h' & w' & E & H1 & H2 & H3 & H4 & _ & _ & _ & H5 & H6).
    destruct (error_class error); try discriminate Hperm; rewrite E; simpl;
      (eexists _, _; split; [reflexivity|]; simpl;
       split; [done|]; split; [done|]; split; [done|]; split; [done|];
       split; [intros Hn; rewrite (H5 Hn); apply lookup_delete_eq|];
       split; [done|];
       intros f; unfold HTTP_handle_temporary_error;
       match goal with |- context [cancel_request false ?a ?b] =>
         pose proof (cancel_request_keeps false a b) as Hk;
         destruct (cancel_request false a b) as [h2 w2] end;
       simpl in Hk; destruct Hk as (Hrc & _);
       destruct (handle_temporary_error_scheduled 0 f (base h2) w2)
         as (d' & w'' & -> & _ & Hs); [by rewrite Hrc|];
       simpl; by eexists _, _).
Qed.

(** C9 as stated fails: when the operating system refuses to remove the
    partial file, the error is swallowed and the file stays. *)
Lemma C9_undeletable_file_counterexample :
  exists h' w',
    HTTP_handle_network_error 0 malformed_url sample_http locked_world
    = Ok (h', w')
    /\ state (base h') = failed
    /\ files w' !! filename (base sample_http) = Some 500.
Proof.
  eexists _, _. split; [vm_compute; reflexivity|]. split; reflexivity.
Qed.

(** ** Duplicate torrents *)

Lemma length_20_nonempty hash : String.length hash = 20%nat -> hash <> "".
Proof. by intros Hl ->. Qed.

Lemma b16encode_length hash :
  String.length (b16encode hash) = (2 * String.length hash)%nat.
Proof.
  unfold b16encode.
  by rewrite string_of_list_length, hexlify_length, string_length_list.
Qed.

Lemma big_number_str_length hash :
  String.length (big_number_str hash) = (2 * String.length hash)%nat.
Proof.
  unfold big_number_str.
  by rewrite string_of_list_length, hexlify_length, string_length_list.
Qed.

(** [base64.b16encode] and libtorrent's [str] give hexadecimal
    spellings. *)
Lemma b16encode_spelling hash : hex_spelling_of hash (b16encode hash) = true.
Proof.
  unfold hex_spelling_of, b16encode.
  rewrite String.list_ascii_of_string_of_list_ascii.
  apply hex_spells_hexlify. by right.
Qed.

Lemma big_number_str_spelling hash :
  hex_spelling_of hash (big_number_str hash) = true.
Proof.
  unfold hex_spelling_of, big_number_str.
  rewrite String.list_ascii_of_string_of_list_ascii.
  apply hex_spells_hexlify. by left.
Qed.

(** The base32 spelling of a 20-byte hash in a magnet link, and every
    hexadecimal spelling, lead to the registry entry of the hash. *)
Lemma find_duplicate_from_magnet eng ses m ih hash original :
  String.length hash = 20%nat ->
  registered ses hash original ->
  info_hash_from_magnet eng m = Some ih ->
  ih = b32encode hash \/ hex_spelling_of hash ih = true ->
  find_duplicate_torrent_from_magnet eng ses m = Ok (Some original).
Proof.
  intros Hlen Hreg Hih Hcases. unfold find_duplicate_torrent_from_magnet.
  rewrite Hih. pose proof (length_20_nonempty _ Hlen) as Hne.
  destruct Hcases as [-> | Hhex].
  - pose proof (b32encode_length _ Hlen) as H32.
    rewrite bool_decide_eq_false_2
      by (intros E; rewrite E in H32; discriminate H32).
    rewrite H32. simpl. rewrite b32decode_b32encode by done. simpl.
    rewrite info_hash_to_long_b16encode by done. simpl. by rewrite Hreg.
  - assert (String.length ih = 40%nat) as H40.
    { rewrite string_length_list. unfold hex_spelling_of in Hhex.
      rewrite (hex_spells_length _ _ Hhex), <- string_length_list, Hlen.
      done. }
    rewrite bool_decide_eq_false_2
      by (intros E; rewrite E in H40; discriminate H40).
    rewrite H40. simpl. unfold info_hash_to_long.
    rewrite (long16_spelling hash ih) by done. simpl. by rewrite Hreg.
Qed.




Lemma C9_permanent_failure_witness :
  exists h' w',
    HTTP_handle_network_error 0 malformed_url sample_http sample_world
    = Ok (h', w')
    /\ state (base h') = failed
    /\ currentSize (base h') = 0 /\ totalSize (base h') = -1
    /\ retryCount (base h') = -1
    /\ files w' !! filename (base sample_http) = None
    /\ exists h'' w'',
         HTTP_handle_temporary_error 1000 "timeout" "the connection timed out"
           h' w' = Ok (h'', w'')
         /\ retry_scheduled 1 1000 (base h'') w''.
Proof.
  destruct (C9_permanent_failure "" "" sample_http sample_world) as [_ H].
  destruct (H 0 malformed_url eq_refl)
    as (h' & w' & E & Hs & Hc & Ht & Hr & Hf & _ & Hnext).
  exists h', w'. repeat (split; [done|]).
  split; [apply Hf; apply not_elem_of_empty|].
  destruct (Hnext sample_failure) as (h'' & w'' & E' & Hsched & _).
  by exists h'', w''.
Defined.

Lemma C10_accept_download_size_witness :
  accept_download_size sample_config (-1) = true
  /\ accept_download_size sample_config (4 * 1024 * 1024 * 1024) = true
  /\ accept_download_size sample_config (4 * 1024 * 1024 * 1024 + 1) <> true.
Proof.
  split; [|split].
  - destruct (C10_accept_download_size sample_config (-1)) as (_ & H & _).
    apply (H eq_refl); [lia|]. vm_compute. discriminate.
  - destruct (C10_accept_download_size sample_config (4 * 1024 * 1024 * 1024))
      as (_ & _ & H).
    apply (H eq_refl); [lia|]. vm_compute. discriminate.
  - destruct (C10_accept_download_size sample_config
                (4 * 1024 * 1024 * 1024 + 1)) as (_ & _ & H).
    intros Hacc. apply (H eq_refl) in Hacc; [|lia].
    revert Hacc. vm_compute. intros Hle. by apply Hle.
Defined.

Lemma C4_resume_sanity_check_witness :
  exists h' w',
    start_download true sample_client sample_http sample_world = Ok (h', w')
    /\ files w'
       = <[filename (base sample_http) := 100]> (files sample_world)
    /\ http_calls w'
       = [GrabUrl "http://example.com/movie.mp4"
            "/movies/Incomplete Downloads/movie.mp4.part" true].
Proof.
  assert (0 <= currentSize (base sample_http)) as Hpos by (vm_compute; discriminate).
  destruct (C4_resume_sanity_check sample_client sample_http sample_world Hpos)
    as (H & _ & _).
  apply (H 500); [vm_compute; reflexivity|vm_compute; reflexivity].
Defined.


End DownloadFacts.

Module DatabaseFacts.
Import Database.

Section bulk.
Context {Value SqlValue SchemaItem World : Type} `{!EqDecision Value}.
Local Abbreviation App' := (App Value SqlValue SchemaItem World).
Variable update_view_trackers : DDBObject Value -> App' -> Result App'.
Variable db_bulk_insert : list (DDBObject Value) -> App' -> Result App'.
Variable db_bulk_remove : list (DDBObject Value) -> App' -> Result App'.
Variable inserted_into_db : DDBObject Value -> App' -> Result App'.
Variable removed_from_db : DDBObject Value -> App' -> Result App'.
Variable bulk_update_view_trackers : string -> App' -> Result App'.
Variable bulk_remove_from_view_trackers :
  string -> list (DDBObject Value) -> App' -> Result App'.

Local Abbreviation loop :=
  (commit_loop update_view_trackers db_bulk_insert db_bulk_remove
     inserted_into_db removed_from_db bulk_update_view_trackers
     bulk_remove_from_view_trackers).
Local Abbreviation commit' :=
  (commit update_view_trackers db_bulk_insert db_bulk_remove
     inserted_into_db removed_from_db bulk_update_view_trackers
     bulk_remove_from_view_trackers).

(** The loop over a range of [n] runs at most [n] rounds; it breaks only
    with nothing pending and runs out only with something pending. *)
Lemma commit_loop_spec (n : nat) (app : App') :
  let '(rounds, e) := loop n app in
  (rounds <= n)%nat
  /\ match e with
     | Break app' =>
         (1 <= rounds)%nat /\ nothing_pending (bulk_sql_manager app') = true
     | Exhausted app' =>
         rounds = n /\ (n = 0%nat -> app' = app)
         /\ ((1 <= n)%nat -> nothing_pending (bulk_sql_manager app') = false)
     | Propagated _ => (1 <= rounds)%nat
     end.
Proof.
  revert app. induction n as [|n IH]; intros app; simpl.
  - split; [lia|]. split; [done|]. split; [done|lia].
  - destruct (commit_round _ _ _ _ _ _ _ app) as [app1|exn]; [|split; lia].
    destruct (nothing_pending (bulk_sql_manager app1)) eqn:Hp.
    + split; [lia|]. split; [lia|done].
    + specialize (IH app1). destruct (loop n app1) as [k e].
      destruct IH as [Hk He]. split; [lia|].
      destruct e as [app2|app2|exn].
      * destruct He. split; [lia|done].
      * destruct He as (-> & H0 & H1). split; [done|]. split; [lia|].
        intros _. destruct n as [|n']; [by rewrite H0|apply H1; lia].
      * lia.
Qed.


End bulk.

Section change_tracking.
Context {Value SqlValue SchemaItem World : Type} `{!EqDecision Value}.
Local Abbreviation App' := (App Value SqlValue SchemaItem World).
Local Abbreviation Storage := (LiveStorage SqlValue SchemaItem).
Variable is_simple : SchemaItem -> bool.
Variable validate : SchemaItem -> Value -> bool.
Variable to_sql : string -> string -> SchemaItem -> Value -> SqlValue.
Variable BOGUS_VALUE_FOO : Value.
Variable check_constraints : DDBObject Value -> bool.
Variable on_signal_change : DDBObject Value -> App' -> DDBObject Value * App'.
Variable update_view_trackers : DDBObject Value -> App' -> Result App'.

Local Abbreviation setters := (setters_and_values is_simple validate to_sql).
Local Abbreviation expected := (expected_sets is_simple to_sql).
Local Abbreviation set_attr := (__set__ BOGUS_VALUE_FOO).
Local Abbreviation update := (update_obj is_simple validate to_sql).
Local Abbreviation signal :=
  (signal_change is_simple validate to_sql check_constraints on_signal_change
     update_view_trackers).
Implicit Types (obj : DDBObject Value) (row : gmap string SqlValue).
Implicit Types (fs : list (string * SchemaItem)).

Lemma setters_expected table fs obj :
  (forall name item,
      (name, item) ∈ fs -> written is_simple obj name item = true ->
      exists v, __dict__ obj !! name = Some v /\ validate item v = true) ->
  setters table fs obj = Ok (expected table fs obj).
Proof.
  induction fs as [|[name item] fs IH]; intros Hw; simpl; [done|].
  assert (setters table fs obj = Ok (expected table fs obj)) as IH'.
  { apply IH. intros n i Hin. apply Hw. by right. }
  unfold written at 1.
  destruct (is_simple item && negb (bool_decide (name ∈ changed_attributes obj)))
    eqn:Hskip; simpl.
  - done.
  - destruct (Hw name item) as (v & Hv & Hval); [left|by unfold written; rewrite Hskip|].
    unfold __get__. rewrite Hv. simpl. rewrite Hval, IH'. done.
Qed.

Lemma expected_names table fs obj k :
  k ∈ (expected table fs obj).*1 ->
  exists item, (k, item) ∈ fs /\ written is_simple obj k item = true.
Proof.
  induction fs as [|[name item] fs IH]; simpl.
  - by intros ?%elem_of_nil.
  - destruct (written is_simple obj name item) eqn:Hw.
    + destruct (__dict__ obj !! name) as [v|]; simpl.
      * intros [->|Hin]%elem_of_cons.
        { exists item. split; [left|done]. }
        destruct (IH Hin) as (i & ? & ?). exists i. split; [by right|done].
      * intros Hin. destruct (IH Hin) as (i & ? & ?).
        exists i. split; [by right|done].
    + intros Hin. destruct (IH Hin) as (i & ? & ?).
      exists i. split; [by right|done].
Qed.

Lemma expected_nodup table fs obj :
  NoDup fs.*1 -> NoDup (expected table fs obj).*1.
Proof.
  induction fs as [|[name item] fs IH]; simpl; [done|].
  intros [Hni Hnd]%NoDup_cons.
  destruct (written is_simple obj name item); [|by apply IH].
  destruct (__dict__ obj !! name) as [v|]; simpl; [|by apply IH].
  apply NoDup_cons. split; [|by apply IH].
  intros (i & Hin & _)%expected_names. apply Hni.
  apply list_elem_of_fmap. by exists (name, i).
Qed.

Lemma expected_member table fs obj k item v :
  (k, item) ∈ fs -> written is_simple obj k item = true ->
  __dict__ obj !! k = Some v ->
  (k, to_sql table k item v) ∈ expected table fs obj.
Proof.
  intros Hin Hw Hv. unfold expected_sets. apply list_elem_of_omap.
  exists (k, item). split; [done|]. simpl. by rewrite Hw, Hv.
Qed.

Lemma apply_setters_notin (sets : list (string * SqlValue)) row k :
  k ∉ sets.*1 -> apply_setters sets row !! k = row !! k.
Proof.
  revert row. induction sets as [|[n v] sets IH]; intros row Hk; [done|].
  simpl in *. apply not_elem_of_cons in Hk as [Hne Hk].
  unfold apply_setters in *. simpl. rewrite IH by done.
  by apply lookup_insert_ne.
Qed.

Lemma apply_setters_in (sets : list (string * SqlValue)) row k v :
  NoDup sets.*1 -> (k, v) ∈ sets -> apply_setters sets row !! k = Some v.
Proof.
  revert row. induction sets as [|[n v'] sets IH]; intros row Hnd Hin.
  - by apply elem_of_nil in Hin.
  - simpl in Hnd. apply NoDup_cons in Hnd as [Hni Hnd].
    apply elem_of_cons in Hin as [[= <- <-]|Hin].
    + change (apply_setters ((k, v) :: sets) row)
        with (apply_setters sets (<[k := v]> row)).
      rewrite apply_setters_notin by done. apply lookup_insert_eq.
    + change (apply_setters ((n, v') :: sets) row)
        with (apply_setters sets (<[n := v']> row)).
      by apply IH.
Qed.

Lemma fields_functional fs name (item1 item2 : SchemaItem) :
  NoDup fs.*1 -> (name, item1) ∈ fs -> (name, item2) ∈ fs -> item1 = item2.
Proof.
  induction fs as [|[n i] fs IH]; simpl.
  - by intros _ ?%elem_of_nil.
  - intros [Hni Hnd]%NoDup_cons H1 H2.
    apply elem_of_cons in H1 as [H1|H1];
      apply elem_of_cons in H2 as [H2|H2].
    + congruence.
    + injection H1 as -> ->. destruct Hni. apply list_elem_of_fmap.
      by exists (n, item2).
    + injection H2 as -> ->. destruct Hni. apply list_elem_of_fmap.
      by exists (n, item1).
    + by apply IH.
Qed.

Lemma set_attr_changed a obj v :
  changed_attributes obj = ∅ ->
  default BOGUS_VALUE_FOO (__dict__ obj !! a) <> v ->
  changed_attributes (set_attr a obj v) = {[a]}.
Proof.
  intros Hc Hne. simpl. rewrite bool_decide_eq_true_2 by done.
  rewrite Hc. apply union_empty_r_L.
Qed.

Lemma written_after_set a obj v name item :
  changed_attributes (set_attr a obj v) = {[a]} ->
  written is_simple (set_attr a obj v) name item = true ->
  is_simple item = false \/ name = a.
Proof.
  intros Hc. unfold written. rewrite Hc.
  destruct (is_simple item); [|by left]. simpl.
  case_bool_decide as Hin; [|done]. right. by apply elem_of_singleton in Hin.
Qed.


End change_tracking.

Lemma sample_saved :
  saved (fun simple : bool => simple) (fun _ (_ : Z) => true)
    (sample_app false) (sample_object false) sample_schema
    {["a" := 10%Z; "b" := 20%Z]}.
Proof.
  split; try reflexivity.
  - apply NoDup_cons. split; [|apply NoDup_singleton].
    intros H%list_elem_of_singleton. discriminate H.
  - intros name item Hin Hs. exfalso.
    apply elem_of_cons in Hin as [Hin|Hin]; [by injection Hin as -> ->|].
    apply elem_of_cons in Hin as [Hin|Hin]; [by injection Hin as -> ->|].
    by apply elem_of_nil in Hin.
Defined.



(** Two runs of [commit]: trackers that do nothing let the first round
    end the loop; trackers that enqueue every changed object again keep
    the buffer full for 100 rounds. *)
Example commit_settles :
  exists final,
    sample_commit (fun _ app => Ok app) sample_pending_app = Ok final
    /\ to_insert (bulk_sql_manager final) = ∅.
Proof. eexists. split; [vm_compute; reflexivity|reflexivity]. Qed.

Example commit_circular :
  sample_commit (fun obj app => add_insert obj app) sample_pending_app
  = Raise AssertionError.
Proof. vm_compute. reflexivity. Qed.

End DatabaseFacts.

Module MovieDataFacts.
Import MovieData.

Lemma should_process_item_spec item :
  _should_process_item item = true <-> spec_needs_extraction item.
Proof.
  unfold _should_process_item, spec_needs_extraction, truth.
  destruct (has_drm item) as [[]|]; simpl.
  - split; [by left|done].
  - rewrite !orb_true_iff, andb_true_iff, !bool_decide_eq_true.
    split; [intros [[?|?]|?]; auto|intros [?|[?|[?|?]]]; auto; done].
  - rewrite !orb_true_iff, andb_true_iff, !bool_decide_eq_true.
    split; [intros [[?|?]|?]; auto|intros [?|[?|[?|?]]]; auto; done].
Qed.

(** C7 (as amended).  For an item submitted while the coordinator is not
    shut down, is not silenced by the unit-test switch, and does not
    already have an extraction in flight for this item: the external tool
    is run exactly when the item is flagged as possibly DRM-protected, or
    is a video, or is audio of unknown duration, or has no kind at all
    (and the item is then recorded as in flight); any other item is marked
    skipped, its change is signalled and its path reported as processed,
    and the tool is not run. *)
Theorem C7_request_update (env : Env) (u : MovieDataUpdater) (item : Item) :
  in_unit_tests env && negb (testing_mdp env) = false ->
  in_shutdown u = false ->
  item_id item ∉ in_progress u ->
  let '(u', item', out) := request_update env u item in
  (dispatched out <-> spec_needs_extraction item)
  /\ (spec_needs_extraction item ->
      out = [RunMediaMetadataExtractor (get_filename item)
               (_make_thumbnail_path env (get_filename item))]
      /\ item' = item /\ item_id item ∈ in_progress u')
  /\ (~ spec_needs_extraction item ->
      mdp_state item' = SKIPPED
      /\ out = [SignalChange (item_id item);
                PathProcessed (get_filename item)]
      /\ u' = u).
Proof.
  intros Htest Hshut Hprog. unfold request_update.
  rewrite Htest, Hshut. rewrite bool_decide_eq_false_2 by done.
  pose proof (should_process_item_spec item) as Hspec.
  destruct (_should_process_item item) eqn:Hp; simpl.
  - assert (spec_needs_extraction item) as Hs by by apply Hspec.
    split; [|split].
    + split; [done|]. intros _. eexists _, _. apply list_elem_of_here.
    + intros _. split; [done|]. split; [done|].
      apply elem_of_union_l. by apply elem_of_singleton.
    + done.
  - assert (~ spec_needs_extraction item) as Hs
      by (intros Hs; apply Hspec in Hs; discriminate Hs).
    split; [|split].
    + split; [|done]. intros (v & t & Hin).
      apply elem_of_cons in Hin as [Hin|Hin]; [discriminate Hin|].
      apply elem_of_cons in Hin as [Hin|Hin]; [discriminate Hin|].
      by apply elem_of_nil in Hin.
    + done.
    + done.
Qed.

Lemma C7_request_update_witness :
  let '(u', item', out) := request_update sample_env new_updater sample_video in
  out = [RunMediaMetadataExtractor "/movies/clip.avi"
           "/home/user/.miro/icon-cache/extracted/clip.avi.a1b2c.png"]
  /\ item' = sample_video /\ item_id sample_video ∈ in_progress u'.
Proof.
  pose proof (C7_request_update sample_env new_updater sample_video
                eq_refl eq_refl (not_elem_of_empty _)) as H.
  destruct (request_update sample_env new_updater sample_video)
    as [[u' item'] out].
  destruct H as (_ & H & _).
  destruct H as (Hout & Hitem & Hin); [right; left; reflexivity|].
  split; [|by split]. rewrite Hout. vm_compute. reflexivity.
Defined.

(** C7 as stated fails: after [shutdown], or while an extraction for the
    same item is in flight, a video is submitted and nothing happens: the
    tool is not run and the item is not marked. *)
Lemma C7_guards_counterexample :
  spec_needs_extraction sample_video
  /\ request_update sample_env (shutdown new_updater) sample_video
     = (shutdown new_updater, sample_video, [])
  /\ request_update sample_env
       {| in_shutdown := false; in_progress := {[5%Z]} |} sample_video
     = ({| in_shutdown := false; in_progress := {[5%Z]} |}, sample_video, []).
Proof.
  split; [right; left; reflexivity|]. split; reflexivity.
Qed.

End MovieDataFacts.

Module CommandLineFacts.
Import CommandLine.

(** ** [add_torrent]: one download per info hash in the manual feed *)

Lemma add_torrent_in_new items path hash :
  Forall (fun i => ~ downloads_hash hash i) items ->
  add_torrent_in items path hash = [NewItemDownload path].
Proof.
  induction 1 as [|i items Hi _ IH]; simpl; [done|].
  destruct (downloader i) as [dl|] eqn:Hd; [|done].
  rewrite bool_decide_eq_false_2; [done|].
  intros Hh. apply Hi. by exists dl.
Qed.

Lemma add_torrent_in_existing items path hash :
  Exists (downloads_hash hash) items ->
  exists i dl,
    i ∈ items /\ downloader i = Some dl /\ infohash dl = Some hash
    /\ add_torrent_in items path hash
       = LogInfo path
         :: (if bool_decide (get_state dl = "paused" \/ get_state dl = "stopped")
             then [Download (feed_item_id i)] else []).
Proof.
  induction items as [|i items IH]; intros Hex.
  - by apply Exists_nil in Hex.
  - simpl. destruct (decide (downloads_hash hash i)) as [(dl & Hd & Hh)|Hn].
    + exists i, dl. rewrite Hd. rewrite (bool_decide_eq_true_2 _ Hh).
      split; [left|done].
    + apply Exists_cons in Hex as [Hex|Hex]; [done|].
      destruct (IH Hex) as (i' & dl' & Hin & Hd' & Hh' & Heq).
      exists i', dl'. split; [by right|]. split; [done|]. split; [done|].
      destruct (downloader i) as [dl|] eqn:Hd; [|done].
      rewrite bool_decide_eq_false_2; [done|].
      intros Hh. apply Hn. by exists dl.
Qed.

Lemma classify_no_scheme env arg :
  no_scheme env arg ->
  classify env arg
  = if exists_ env arg then
      let ext := extension arg in
      if bool_decide (torrent_ext ext) then
        match get_torrent_info_hash env arg with
        | Ok torrent_infohash => Ok (add_torrent env arg torrent_infohash, false)
        | Raise ValueError =>
            Ok ([InvalidTorrentDialog (MovieData.basename arg)], false)
        | Raise IOError | Raise OSError =>
            Ok ([FileErrorDialog (MovieData.basename arg)], false)
        | Raise e => Raise e
        end
      else if bool_decide (feed_ext ext) then Ok ([AddFeedFromFile arg], false)
      else if bool_decide (opml_ext ext)
      then Ok ([ImportSubscriptions arg false], false)
      else Ok ([AddVideo arg], true)
    else Ok ([LogWarning arg], false).
Proof.
  intros (H1 & H2 & H3 & H4 & H5 & H6 & H7 & H8). unfold classify.
  by rewrite H1, H2, H3, H4, H5, H6, H7, H8.
Qed.

Lemma parse_one env m arg :
  _started_up m = true -> startswith arg "file://" = false ->
  parse_command_line_args env m [arg]
  = '(out, added_videos) ← classify env arg;
    Ok (m, ResetCommandLineView :: out
           ++ (if added_videos && PLAY_IN_MIRO env then [PlayMovie] else [])).
Proof.
  intros Hs Hf. unfold parse_command_line_args. rewrite Hs. simpl.
  rewrite Hf. destruct (classify env arg) as [[out v]|e]; simpl; [|done].
  by rewrite app_nil_r, orb_false_r.
Qed.

(** Arguments given before the application has started are kept, and
    [startup] runs them through the same loop. *)
Lemma startup_replays env m args :
  _started_up m = false ->
  exists m1,
    parse_command_line_args env m args = Ok (m1, [])
    /\ _command_line_args m1 = _command_line_args m ++ args
    /\ startup env m1
       = '(_, out) ← parse_command_line_args env started
                       (_command_line_args m ++ args);
         Ok (started, out).
Proof.
  intros Hs. unfold parse_command_line_args at 1. rewrite Hs. simpl.
  eexists. split; [reflexivity|]. split; [reflexivity|].
  unfold startup, started, parse_command_line_args. simpl.
  by destruct (classify_all env) as [[out v]|e].
Qed.



End CommandLineFacts.

(** * More about the dispatcher-side view tracker *)

Module ViewTrackerFlush.
Import MessageHandler ViewTrackerFacts SignalStreams.

Section flush.
Context {Fields : Type} `{!EqDecision Fields}.
Implicit Types (vt : ViewTracker Fields) (h : Heap Fields) (obj : Obj).
Implicit Types (lsi : gmap Z (Info Fields)).

Lemma send_messages_after_reset h vt :
  send_messages h (reset_changes vt) = Ok (reset_changes vt, []).
Proof.
  unfold send_messages, _get_added_objects. simpl.
  unfold values, _make_removed_list.
  rewrite map_to_list_empty, elements_empty. reflexivity.
Qed.

Lemma schedule_send_messages_pending vt :
  changes_pending (schedule_send_messages vt).1 = true.
Proof.
  unfold schedule_send_messages. by destruct (changes_pending vt) eqn:E.
Qed.

Lemma handle_pending h vt ev vt' out :
  (nothing_buffered vt \/ changes_pending vt = true) ->
  handle h vt ev = Ok (vt', out) ->
  nothing_buffered vt' \/ changes_pending vt' = true.
Proof.
  intros Hinv. destruct ev as [obj|id_|obj|]; simpl.
  - unfold on_object_added. destruct (tabs_being_reordered vt).
    { intros [= <- _]. exact Hinv. }
    destruct (if bool_decide (obj_id obj ∈ removed vt)
              then send_messages h vt else Ok (vt, [])) as [[vt1 out1]|e];
      simpl; [|done].
    match goal with |- context [schedule_send_messages ?v] =>
      pose proof (schedule_send_messages_pending v) as Hp;
      destruct (schedule_send_messages v) as [vt3 out2] end.
    intros [= <- _]. by right.
  - unfold on_object_id_removed. destruct (tabs_being_reordered vt).
    { destruct (_last_sent_info vt !! id_); [|done].
      intros [= <- _]. exact Hinv. }
    match goal with |- Ok (schedule_send_messages ?v) = _ -> _ =>
      pose proof (schedule_send_messages_pending v) as Hp;
      destruct (schedule_send_messages v) as [vt3 out2] end.
    intros [= <- _]. by right.
  - unfold on_object_changed.
    match goal with |- Ok (schedule_send_messages ?v) = _ -> _ =>
      pose proof (schedule_send_messages_pending v) as Hp;
      destruct (schedule_send_messages v) as [vt3 out2] end.
    intros [= <- _]. by right.
  - intros Hs. apply send_messages_resets in Hs as [vt0 ->]. by left.
Qed.

Lemma schedule_send_messages_cases vt :
  (schedule_send_messages vt = (vt, []) /\ changes_pending vt = true)
  \/ (schedule_send_messages vt = (set_changes_pending true vt, [AddUrgentCall])
      /\ changes_pending vt = false).
Proof.
  unfold schedule_send_messages. destruct (changes_pending vt); auto.
Qed.

(** A callback either does nothing to the outside world and leaves
    [changes_pending] as it is, or ends by handing the flush to the event
    loop. *)
Lemma handle_effects h vt ev vt' out :
  ev <> EvFlush -> handle h vt ev = Ok (vt', out) ->
  (out = [] /\ changes_pending vt' = changes_pending vt)
  \/ (last out = Some AddUrgentCall /\ changes_pending vt' = true).
Proof.
  intros Hev. destruct ev as [obj|id_|obj|]; [| | |done]; simpl.
  - unfold on_object_added. destruct (tabs_being_reordered vt).
    { intros [= <- <-]. by left. }
    case_bool_decide as Hrem.
    + destruct (send_messages h vt) as [[vt1 out1]|e] eqn:Hs; simpl; [|done].
      apply send_messages_resets in Hs as [vt0 ->].
      unfold schedule_send_messages. simpl. intros [= <- <-]. right.
      split; [|done]. by rewrite last_snoc.
    + simpl.
      match goal with |- context [schedule_send_messages ?v] =>
        destruct (schedule_send_messages_cases v) as [[-> Hp]|[-> Hp]] end;
        intros [= <- <-]; simpl in *; [left|right]; done.
  - unfold on_object_id_removed. destruct (tabs_being_reordered vt).
    { destruct (_last_sent_info vt !! id_); [|done].
      intros [= <- <-]. by left. }
    match goal with |- context [schedule_send_messages ?v] =>
      destruct (schedule_send_messages_cases v) as [[-> Hp]|[-> Hp]] end;
      intros [= <- <-]; [left|right]; [|done].
    split; [done|]. rewrite Hp.
    by repeat case_bool_decide.
  - unfold on_object_changed.
    match goal with |- context [schedule_send_messages ?v] =>
      destruct (schedule_send_messages_cases v) as [[-> Hp]|[-> Hp]] end;
      intros [= <- <-]; [left|right]; [|done].
    split; [done|]. rewrite Hp.
    by repeat case_bool_decide.
Qed.

Lemma since_reset_invariant vt out :
  since_reset vt out ->
  (nothing_buffered vt \/ changes_pending vt = true)
  /\ (changes_pending vt = true -> last out = Some AddUrgentCall).
Proof.
  induction 1 as [vt|b vt out _ IH|h vt ev vt' out out' _ [IH1 IH2] Hev Hh].
  - split; [by left|]. simpl. discriminate.
  - exact IH.
  - split; [by eapply handle_pending|].
    destruct (handle_effects h vt ev vt' out' Hev Hh) as [[-> Hp]|[Hl Hp]].
    + rewrite app_nil_r, Hp. exact IH2.
    + intros _. rewrite last_app, Hl. done.
Qed.

Lemma run_since_reset h vt out evs vt' out' :
  since_reset vt out -> EvFlush ∉ evs ->
  run h vt evs = Ok (vt', out') -> since_reset vt' (out ++ out').
Proof.
  revert vt out out'. induction evs as [|ev evs IH]; intros vt out out' Hs Hnf.
  - simpl. intros [= <- <-]. by rewrite app_nil_r.
  - simpl. apply not_elem_of_cons in Hnf as [Hne Hnf].
    destruct (handle h vt ev) as [[vt1 out1]|e] eqn:Hh; simpl; [|done].
    destruct (run h vt1 evs) as [[vt2 out2]|e] eqn:Hr; simpl; [|done].
    intros [= <- <-]. rewrite app_assoc. eapply IH; [|done|done].
    eapply since_reset_handle; [done| |done]. by intros ->.
Qed.

(** Every state the tracker reaches is covered. *)
Lemma buffered_since_reset vt : buffered vt -> exists out, since_reset vt out.
Proof.
  induction 1 as [vt|b vt _ [out IH]|h vt ev vt' out' _ [out IH] Hh].
  - exists []. apply since_reset_start.
  - exists out. by apply since_reset_tabs.
  - destruct ev as [obj|id_|obj|];
      [exists (out ++ out');
       (eapply since_reset_handle; [exact IH| |exact Hh]); discriminate..|].
    simpl in Hh. apply send_messages_resets in Hh as [vt0 ->].
    exists []. apply since_reset_start.
Qed.

(** ** When the flush returns *)

Lemma del_all_raises lsi ids i :
  i ∈ ids -> lsi !! i = None -> del_all lsi ids = Raise KeyError.
Proof.
  revert lsi. induction ids as [|j ids IH]; intros lsi Hi Hn; simpl.
  - by apply elem_of_nil in Hi.
  - destruct (lsi !! j) as [x|] eqn:E; [|done].
    apply elem_of_cons in Hi as [->|Hi]; [congruence|].
    apply IH; [done|]. rewrite lookup_delete_ne; [done|]. congruence.
Qed.

(** ** What the three list builders do to the snapshots *)

Lemma make_added_list_lookup h lsi objs i :
  i ∉ (obj_id <$> objs) -> (_make_added_list h lsi objs).1 !! i = lsi !! i.
Proof.
  revert lsi. induction objs as [|o objs IH]; intros lsi Hi; simpl; [done|].
  apply not_elem_of_cons in Hi as [Hne Hi].
  specialize (IH (<[obj_id o := info_factory h o]> lsi) Hi).
  destruct (_make_added_list h _ objs) as [l2 is2]. simpl in *.
  rewrite IH. by apply lookup_insert_ne.
Qed.

Lemma make_added_list_dom h lsi objs i :
  is_Some ((_make_added_list h lsi objs).1 !! i)
  <-> is_Some (lsi !! i) \/ i ∈ (obj_id <$> objs).
Proof.
  revert lsi. induction objs as [|o objs IH]; intros lsi; simpl.
  - split; [by left|]. intros [?|?%elem_of_nil]; done.
  - specialize (IH (<[obj_id o := info_factory h o]> lsi)).
    destruct (_make_added_list h _ objs) as [l2 is2]. simpl in *.
    rewrite IH, lookup_insert_is_Some, elem_of_cons.
    destruct (decide (obj_id o = i)); naive_solver.
Qed.

Lemma make_changed_list_lookup h lsi objs i :
  i ∉ (obj_id <$> objs) -> (_make_changed_list h lsi objs).1 !! i = lsi !! i.
Proof.
  revert lsi. induction objs as [|o objs IH]; intros lsi Hi; simpl; [done|].
  apply not_elem_of_cons in Hi as [Hne Hi].
  case_bool_decide; [|by apply IH].
  specialize (IH (<[obj_id o := info_factory h o]> lsi) Hi).
  destruct (_make_changed_list h _ objs) as [l2 is2]. simpl in *.
  rewrite IH. by apply lookup_insert_ne.
Qed.

Lemma make_changed_list_dom h lsi objs i :
  is_Some ((_make_changed_list h lsi objs).1 !! i)
  <-> is_Some (lsi !! i) \/ i ∈ (obj_id <$> objs).
Proof.
  revert lsi. induction objs as [|o objs IH]; intros lsi; simpl.
  - split; [by left|]. intros [?|?%elem_of_nil]; done.
  - case_bool_decide as Hd.
    + specialize (IH (<[obj_id o := info_factory h o]> lsi)).
      destruct (_make_changed_list h _ objs) as [l2 is2]. simpl in *.
      rewrite IH, lookup_insert_is_Some, elem_of_cons.
      destruct (decide (obj_id o = i)); naive_solver.
    + rewrite IH, elem_of_cons.
      assert (is_Some (lsi !! obj_id o)) as Hs.
      { destruct (lsi !! obj_id o) eqn:E; [by eexists|].
        exfalso. apply Hd. by left. }
      split; [naive_solver|]. intros [?|[->|?]]; auto.
Qed.

(** An object of the changed buffer is put in the message exactly when its
    description differs from the one sent last. *)
Lemma make_changed_list_member h lsi objs o :
  NoDup (obj_id <$> objs) -> o ∈ objs ->
  info_factory h o ∈ (_make_changed_list h lsi objs).2
  <-> lsi !! obj_id o <> Some (info_factory h o).
Proof.
  revert lsi. induction objs as [|o' objs IH]; intros lsi Hnd Ho.
  { by apply elem_of_nil in Ho. }
  rewrite fmap_cons in Hnd. apply NoDup_cons in Hnd as [Hni Hnd].
  assert (forall o2, o2 ∈ objs -> info_factory h o2 <> info_factory h o') as Hdiff.
  { intros o2 Ho2 Heq. apply Hni. apply list_elem_of_fmap. exists o2.
    split; [|done]. by injection Heq as ->. }
  simpl. apply elem_of_cons in Ho as [->|Ho].
  - case_bool_decide as Hd.
    + destruct (_make_changed_list h _ objs) as [l2 is2]. simpl.
      split; [|intros _; left].
      intros _. destruct Hd as [Hd|Hd]; [by rewrite Hd|done].
    + split.
      * intros (o2 & Ho2 & Heq)%make_changed_list_from.
        exfalso. by apply (Hdiff o2).
      * intros Hne. exfalso. apply Hd. by right.
  - assert (obj_id o <> obj_id o') as Hne.
    { intros Heq. apply Hni. rewrite <- Heq. apply list_elem_of_fmap. eauto. }
    case_bool_decide as Hd.
    + specialize (IH (<[obj_id o' := info_factory h o']> lsi) Hnd Ho).
      destruct (_make_changed_list h _ objs) as [l2 is2]. simpl in *.
      rewrite elem_of_cons, IH, lookup_insert_ne by done.
      split; [|by right]. intros [Heq|?]; [|done].
      exfalso. by apply (Hdiff o).
    + by apply IH.
Qed.

(** Afterwards the snapshot of every object of the changed buffer is its
    present description. *)
Lemma make_changed_list_snapshot h lsi objs o :
  NoDup (obj_id <$> objs) -> o ∈ objs ->
  (_make_changed_list h lsi objs).1 !! obj_id o = Some (info_factory h o).
Proof.
  revert lsi. induction objs as [|o' objs IH]; intros lsi Hnd Ho.
  { by apply elem_of_nil in Ho. }
  rewrite fmap_cons in Hnd. apply NoDup_cons in Hnd as [Hni Hnd].
  simpl. apply elem_of_cons in Ho as [->|Ho].
  - case_bool_decide as Hd.
    + pose proof (make_changed_list_lookup h
                    (<[obj_id o' := info_factory h o']> lsi) objs _ Hni) as Hl.
      destruct (_make_changed_list h _ objs) as [l2 is2]. simpl in *.
      rewrite Hl. apply lookup_insert_eq.
    + rewrite make_changed_list_lookup by done.
      destruct (lsi !! obj_id o') as [i|] eqn:E.
      * destruct (decide (i = info_factory h o')) as [->|Hne]; [done|].
        exfalso. apply Hd. right. congruence.
      * exfalso. apply Hd. by left.
  - case_bool_decide as Hd; [|by apply IH].
    specialize (IH (<[obj_id o' := info_factory h o']> lsi) Hnd Ho).
    by destruct (_make_changed_list h _ objs) as [l2 is2].
Qed.

Lemma del_all_lookup lsi ids lsi' i :
  del_all lsi ids = Ok lsi' -> i ∉ ids -> lsi' !! i = lsi !! i.
Proof.
  revert lsi. induction ids as [|j ids IH]; intros lsi; simpl.
  - by intros [= ->].
  - destruct (lsi !! j) eqn:E; [|done]. intros Hd Hi.
    apply not_elem_of_cons in Hi as [Hne Hi].
    rewrite (IH _ Hd Hi). by apply lookup_delete_ne.
Qed.

Lemma del_all_gone lsi ids lsi' i :
  del_all lsi ids = Ok lsi' -> i ∈ ids -> lsi' !! i = None.
Proof.
  revert lsi. induction ids as [|j ids IH]; intros lsi; simpl.
  - by intros _ ?%elem_of_nil.
  - destruct (lsi !! j) eqn:E; [|done]. intros Hd Hi.
    destruct (decide (i ∈ ids)) as [Hin|Hnin]; [by eapply IH|].
    apply elem_of_cons in Hi as [->|?]; [|done].
    rewrite (del_all_lookup _ _ _ _ Hd Hnin). apply lookup_delete_eq.
Qed.

Lemma values_ids (m : gmap Z Obj) :
  (forall i o, m !! i = Some o -> obj_id o = i) ->
  obj_id <$> values m = (map_to_list m).*1.
Proof.
  intros Hk. unfold values. rewrite <- list_fmap_compose.
  apply Forall_fmap_ext, Forall_forall.
  intros [i o] Hin%elem_of_map_to_list. simpl. by apply Hk.
Qed.

Lemma values_NoDup (m : gmap Z Obj) :
  (forall i o, m !! i = Some o -> obj_id o = i) -> NoDup (obj_id <$> values m).
Proof. intros Hk. rewrite (values_ids m Hk). apply NoDup_fst_map_to_list. Qed.

Lemma values_member (m : gmap Z Obj) i o :
  m !! i = Some o -> o ∈ values m.
Proof.
  intros Hm. unfold values. apply list_elem_of_fmap. exists (i, o).
  split; [done|]. by apply elem_of_map_to_list.
Qed.

Lemma values_id_member (m : gmap Z Obj) i :
  (forall i o, m !! i = Some o -> obj_id o = i) ->
  i ∈ (obj_id <$> values m) <-> is_Some (m !! i).
Proof.
  intros Hk. rewrite (values_ids m Hk). rewrite list_elem_of_fmap. split.
  - intros ([j o] & -> & Hin%elem_of_map_to_list). by eexists.
  - intros [o Ho]. exists (i, o). split; [done|]. by apply elem_of_map_to_list.
Qed.

Lemma message_nonempty_changed (m : Message Fields) x :
  x ∈ msg_changed m -> message_nonempty m = true.
Proof.
  intros Hx. unfold message_nonempty. case_bool_decide as H; [|done].
  destruct H as (_ & H & _). rewrite H in Hx. by apply elem_of_nil in Hx.
Qed.

Lemma added_object_ids vt i :
  buffers_wf vt ->
  i ∈ (obj_id <$> _get_added_objects vt) <-> is_Some (added vt !! i).
Proof.
  intros Hwf. unfold _get_added_objects. rewrite list_elem_of_fmap. split.
  - intros (o & -> & [Ha _]%list_elem_of_filter). done.
  - intros Ha. destruct (wf_added_order _ Hwf i Ha) as (o & Ho & <-).
    exists o. split; [done|]. by apply list_elem_of_filter.
Qed.

(** The flush returns when every id buffered as removed has a snapshot by
    the time the removed list is built, that is, one it had before or one
    the changed list gives it; it raises [KeyError] when one has none. *)
Lemma send_messages_returns h vt :
  buffers_wf vt ->
  (forall i, i ∈ removed vt ->
     is_Some (_last_sent_info vt !! i) \/ is_Some (changed vt !! i)) ->
  exists vt',
    send_messages h vt
    = Ok (vt', if message_nonempty (flush_message h vt)
               then [SendToFrontend (flush_message h vt)] else []).
Proof.
  intros Hwf Hrem. unfold send_messages, flush_message.
  pose proof (make_added_list_infos h (_last_sent_info vt)
                (_get_added_objects vt)) as Hadd.
  pose proof (fun k => make_added_list_grows h (_last_sent_info vt)
                (_get_added_objects vt) k) as Hg1.
  destruct (_make_added_list h _ _) as [lsi1 added_list]. simpl in *.
  pose proof (fun k => make_changed_list_dom h lsi1
                (values (changed vt)) k) as Hg2.
  destruct (_make_changed_list h lsi1 _) as [lsi2 changed_list]. simpl in *.
  unfold _make_removed_list.
  destruct (del_all_ok lsi2 (elements (removed vt))) as [lsi3 ->].
  { apply NoDup_elements. }
  { intros i Hi%elem_of_elements. apply Hg2.
    destruct (Hrem i Hi) as [Hs|Hc]; [left; by apply Hg1|right].
    apply values_id_member; [apply Hwf|done]. }
  simpl. subst added_list. by eexists.
Qed.

Lemma send_messages_raises h vt i :
  buffers_wf vt ->
  i ∈ removed vt -> _last_sent_info vt !! i = None -> changed vt !! i = None ->
  send_messages h vt = Raise KeyError.
Proof.
  intros Hwf Hi Hl Hc. unfold send_messages.
  assert (i ∉ (obj_id <$> _get_added_objects vt)) as Hna.
  { rewrite added_object_ids by done. intros Ha.
    by apply (wf_added_removed _ Hwf i Ha). }
  assert (i ∉ (obj_id <$> values (changed vt))) as Hnc.
  { rewrite values_id_member by apply Hwf. rewrite Hc. by intros [? ?]. }
  pose proof (make_added_list_lookup h (_last_sent_info vt)
                (_get_added_objects vt) i Hna) as H1.
  destruct (_make_added_list h _ _) as [lsi1 added_list]. simpl in H1.
  pose proof (make_changed_list_lookup h lsi1 (values (changed vt)) i Hnc)
    as H2.
  destruct (_make_changed_list h lsi1 _) as [lsi2 changed_list]. simpl in H2.
  unfold _make_removed_list.
  rewrite (del_all_raises lsi2 (elements (removed vt)) i);
    [done|by apply elem_of_elements|congruence].
Qed.

(** ** Adding a run of objects *)

Lemma filter_keeps_all {A} (P : A -> Prop) `{!forall x, Decision (P x)}
    (l : list A) :
  Forall P l -> filter P l = l.
Proof.
  induction 1 as [|x l Hx _ IH]; [done|].
  rewrite filter_cons_True by done. by rewrite IH.
Qed.

Lemma run_app h vt evs1 evs2 :
  run h vt (evs1 ++ evs2)
  = '(vt1, out1) ← run h vt evs1;
    '(vt2, out2) ← run h vt1 evs2;
    Ok (vt2, out1 ++ out2).
Proof.
  revert vt. induction evs1 as [|ev evs1 IH]; intros vt; simpl.
  - by destruct (run h vt evs2) as [[vt2 out2]|e].
  - destruct (handle h vt ev) as [[vt1 out1]|e]; simpl; [|done].
    rewrite IH. destruct (run h vt1 evs1) as [[vt2 out2]|e]; simpl; [|done].
    destruct (run h vt2 evs2) as [[vt3 out3]|e]; simpl; [|done].
    by rewrite app_assoc.
Qed.

Lemma bulk_added_run h vt objs :
  tabs_being_reordered vt = false -> removed vt = ∅ ->
  exists vt',
    run h vt (EvAdded <$> objs)
    = Ok (vt', if changes_pending vt then []
               else match objs with [] => [] | _ => [AddUrgentCall] end)
    /\ changed vt' = changed vt /\ removed vt' = ∅
    /\ added_order vt' = added_order vt ++ objs
    /\ tabs_being_reordered vt' = false
    /\ _last_sent_info vt' = _last_sent_info vt
    /\ (changes_pending vt' = changes_pending vt || negb (bool_decide (objs = [])))
    /\ forall i, is_Some (added vt' !! i)
                 <-> is_Some (added vt !! i) \/ i ∈ (obj_id <$> objs).
Proof.
  revert vt. induction objs as [|o objs IH]; intros vt Ht Hr.
  - exists vt. simpl. split; [by destruct (changes_pending vt)|].
    rewrite app_nil_r, orb_false_r. repeat (split; [done|]).
    intros i. split; [by left|]. intros [?|?%elem_of_nil]; done.
  - simpl. unfold on_object_added. rewrite Ht, Hr.
    rewrite bool_decide_eq_false_2 by apply not_elem_of_empty. simpl.
    set (vt2 := set_buffers _ _ _ _ vt).
    destruct (schedule_send_messages_buffers vt2)
      as (Hc & Hr' & Ha & Ho & Hl & Ht').
    pose proof (schedule_send_messages_pending vt2) as Hp.
    assert ((schedule_send_messages vt2).2
            = if changes_pending vt then [] else [AddUrgentCall]) as Hout.
    { unfold schedule_send_messages. simpl. by destruct (changes_pending vt). }
    destruct (schedule_send_messages vt2) as [vt3 out2]. simpl in *.
    destruct (IH vt3) as (vt' & Hrun & Hc' & Hr'' & Ho' & Ht'' & Hl' & Hp' & Ha');
      [by rewrite Ht'|by rewrite Hr'|].
    change (list_fmap Obj Event EvAdded objs) with (EvAdded <$> objs).
    change (list_fmap Obj Z obj_id objs) with (obj_id <$> objs).
    exists vt'. rewrite Hrun. simpl. rewrite Hp. subst out2.
    split; [by destruct (changes_pending vt); rewrite ?app_nil_r|].
    split; [by rewrite Hc', Hc|]. split; [done|].
    split; [by rewrite Ho', Ho, <- app_assoc|]. split; [done|].
    split; [by rewrite Hl', Hl|].
    split; [by rewrite Hp', Hp, orb_true_r|].
    intros i. rewrite Ha', Ha, lookup_insert_is_Some, elem_of_cons.
    destruct (decide (obj_id o = i)); naive_solver.
Qed.

(** ** Trackers fed by one view *)

Lemma in_sync_schedule vt cur :
  in_sync vt cur -> in_sync (schedule_send_messages vt).1 cur.
Proof.
  intros [Hwf Hf Hr Hc Ha Hch].
  destruct (schedule_send_messages_buffers vt) as (E1 & E2 & E3 & E4 & E5 & E6).
  split; rewrite ?E1, ?E2, ?E3, ?E4, ?E5, ?E6; try done.
  by apply (buffers_wf_ext vt).
Qed.

Lemma schedule_wf_back vt :
  buffers_wf (schedule_send_messages vt).1 -> buffers_wf vt.
Proof.
  destruct (schedule_send_messages_buffers vt) as (E1 & E2 & E3 & E4 & _).
  by apply buffers_wf_ext.
Qed.

Lemma init_in_sync : in_sync (init (Fields := Fields)) ∅.
Proof.
  split; simpl.
  - apply (reset_changes_wf init).
  - done.
  - intros i Hi. by apply not_elem_of_empty in Hi.
  - intros i. rewrite !lookup_empty. split.
    + intros Hi. by apply not_elem_of_empty in Hi.
    + intros [[? ?]|[[? ?] _]]; done.
  - intros i [? Hi]. by rewrite lookup_empty in Hi.
  - intros i [? Hi]. by rewrite lookup_empty in Hi.
Qed.

Lemma flush_in_sync h vt cur :
  in_sync vt cur ->
  exists vt' out, send_messages h vt = Ok (vt', out) /\ in_sync vt' cur.
Proof.
  intros [Hwf Hf Hr Hc Ha Hch]. unfold send_messages.
  pose proof (make_added_list_dom h (_last_sent_info vt)
                (_get_added_objects vt)) as Hd1.
  destruct (_make_added_list h _ _) as [lsi1 added_list]. simpl in Hd1.
  pose proof (make_changed_list_dom h lsi1 (values (changed vt))) as Hd2.
  destruct (_make_changed_list h lsi1 _) as [lsi2 changed_list]. simpl in Hd2.
  unfold _make_removed_list.
  destruct (del_all_ok lsi2 (elements (removed vt))) as [lsi3 Hdel].
  { apply NoDup_elements. }
  { intros i Hi%elem_of_elements. apply Hd2. left. apply Hd1. left. auto. }
  rewrite Hdel. simpl. eexists _, _. split; [reflexivity|].
  split; simpl.
  - apply (reset_changes_wf (set_last_sent_info lsi3 vt)).
  - done.
  - intros i Hi. by apply not_elem_of_empty in Hi.
  - intros i. rewrite lookup_empty. rewrite Hc. split.
    + intros Hi. right. split; [|apply not_elem_of_empty].
      assert (i ∉ removed vt) as Hnr.
      { destruct Hi as [Hi|[_ Hi]]; [|done].
        by apply (wf_added_removed _ Hwf). }
      rewrite (del_all_lookup _ _ _ i Hdel) by by rewrite elem_of_elements.
      apply Hd2. left. apply Hd1.
      destruct Hi as [Hi|[Hi _]]; [right|by left].
      by apply added_object_ids.
    + intros [[? ?]|[Hi _]]; [done|].
      destruct (decide (i ∈ removed vt)) as [Hin|Hnr].
      { rewrite (del_all_gone _ _ _ i Hdel) in Hi by by rewrite elem_of_elements.
        by destruct Hi. }
      rewrite (del_all_lookup _ _ _ i Hdel) in Hi by by rewrite elem_of_elements.
      apply Hd2 in Hi as [Hi|Hi].
      * apply Hd1 in Hi as [Hi|Hi]; [by right|].
        left. by apply added_object_ids.
      * apply (values_id_member _ _ (wf_changed_keys _ Hwf)) in Hi.
        right. split; [|done]. by apply Hch.
  - intros i [? Hi]. by rewrite lookup_empty in Hi.
  - intros i [? Hi]. by rewrite lookup_empty in Hi.
Qed.

Lemma handle_in_sync h vt cur ev :
  in_sync vt cur -> wf_stream cur [ev] ->
  exists vt' out,
    handle h vt ev = Ok (vt', out) /\ in_sync vt' (view_after cur [ev]).
Proof.
  intros Hs Hev.
  assert (forall vt' out, handle h vt ev = Ok (vt', out) -> buffers_wf vt')
    as Hwf'.
  { intros vt' out. apply handle_wf. apply Hs. }
  destruct ev as [obj|id_|obj|]; simpl in *.
  - destruct Hev as [Hnew _]. revert Hwf'. unfold on_object_added.
    rewrite (sync_flag _ _ Hs).
    assert (exists vt1 out1,
               (if bool_decide (obj_id obj ∈ removed vt)
                then send_messages h vt else Ok (vt, [])) = Ok (vt1, out1)
               /\ in_sync vt1 cur /\ obj_id obj ∉ removed vt1)
      as (vt1 & out1 & -> & Hs1 & Hnr).
    { case_bool_decide as Hrem.
      - destruct (flush_in_sync h vt cur Hs) as (vt1 & out1 & E & Hs1).
        exists vt1, out1. split; [done|]. split; [done|].
        apply send_messages_resets in E as [vt0 ->]. apply not_elem_of_empty.
      - by exists vt, []. }
    simpl. set (vt2 := set_buffers _ _ _ _ vt1). intros Hwf'.
    pose proof (in_sync_schedule vt2 ({[obj_id obj]} ∪ cur)) as Hsch.
    destruct (schedule_send_messages vt2) as [vt3 out2] eqn:Esch.
    exists vt3, (out1 ++ out2). split; [done|]. apply Hsch.
    destruct Hs1 as [Hwf1 Hf1 Hr1 Hc1 Ha1 Hch1]. split; simpl; try done.
    + specialize (Hwf' vt3 (out1 ++ out2) eq_refl).
      apply schedule_wf_back. by rewrite Esch.
    + intros i. rewrite elem_of_union, elem_of_singleton, Hc1,
        lookup_insert_is_Some.
      destruct (decide (obj_id obj = i)) as [<-|Hne]; [naive_solver|].
      naive_solver.
    + intros i [<-|[Hne Hi]]%lookup_insert_is_Some.
      * destruct (_last_sent_info vt1 !! obj_id obj) eqn:E; [|done].
        exfalso. apply Hnew. apply Hc1. right. split; [by eexists|done].
      * by apply Ha1.
  - destruct Hev as [Hin _]. revert Hwf'. unfold on_object_id_removed.
    rewrite (sync_flag _ _ Hs).
    match goal with |- context [schedule_send_messages ?v] => set (vt1 := v) end.
    intros Hwf'.
    pose proof (in_sync_schedule vt1 (cur ∖ {[id_]})) as Hsch.
    destruct (schedule_send_messages vt1) as [vt3 out2] eqn:Esch.
    exists vt3, out2. split; [done|]. apply Hsch.
    assert (buffers_wf vt1) as Hwf1.
    { specialize (Hwf' vt3 out2 eq_refl).
      apply schedule_wf_back. by rewrite Esch. }
    clear Hsch Hwf' Esch. revert Hwf1. unfold vt1. clear vt1.
    destruct Hs as [Hwf Hf Hr Hc Ha Hch].
    case_bool_decide as Hadd; [|case_bool_decide as Hchg]; intros Hwf1;
      split; simpl; try done.
    + intros i. rewrite elem_of_difference, elem_of_singleton, Hc,
        lookup_delete_is_Some.
      destruct (decide (id_ = i)) as [<-|Hne]; [|naive_solver].
      rewrite (Ha id_ Hadd). split; [naive_solver|].
      intros [[? _]|[[? ?] _]]; done.
    + intros i [Hne Hi]%lookup_delete_is_Some. by apply Ha.
    + intros i [->%elem_of_singleton|Hi]%elem_of_union; [|by apply Hr].
      by apply Hch.
    + intros i. rewrite elem_of_difference, elem_of_singleton, Hc,
        not_elem_of_union, not_elem_of_singleton.
      destruct (decide (id_ = i)) as [<-|Hne]; naive_solver.
    + intros i [Hne Hi]%lookup_delete_is_Some.
      destruct (Hch i Hi) as [? ?]. split; [done|].
      apply not_elem_of_union. split; [|done].
      by apply not_elem_of_singleton.
    + intros i [->%elem_of_singleton|Hi]%elem_of_union; [|by apply Hr].
      apply Hc in Hin as [?|[? _]]; done.
    + intros i. rewrite elem_of_difference, elem_of_singleton, Hc,
        not_elem_of_union, not_elem_of_singleton.
      destruct (decide (id_ = i)) as [<-|Hne]; naive_solver.
    + intros i Hi. destruct (Hch i Hi) as [? ?]. split; [done|].
      apply not_elem_of_union. split; [|done].
      apply not_elem_of_singleton. by intros ->.
  - destruct Hev as [Hin _]. revert Hwf'. unfold on_object_changed.
    match goal with |- context [schedule_send_messages ?v] => set (vt1 := v) end.
    intros Hwf'.
    pose proof (in_sync_schedule vt1 cur) as Hsch.
    destruct (schedule_send_messages vt1) as [vt3 out2] eqn:Esch.
    exists vt3, out2. split; [done|]. apply Hsch.
    assert (buffers_wf vt1) as Hwf1.
    { specialize (Hwf' vt3 out2 eq_refl).
      apply schedule_wf_back. by rewrite Esch. }
    clear Hsch Hwf' Esch. revert Hwf1. unfold vt1. clear vt1.
    destruct Hs as [Hwf Hf Hr Hc Ha Hch].
    case_bool_decide as Hadd; intros Hwf1; split; simpl; try done.
    + intros i. rewrite Hc, lookup_insert_is_Some.
      destruct (decide (obj_id obj = i)) as [<-|Hne]; naive_solver.
    + intros i [<-|[Hne Hi]]%lookup_insert_is_Some; by apply Ha.
    + intros i [<-|[Hne Hi]]%lookup_insert_is_Some; [|by apply Hch].
      apply Hc in Hin as [?|?]; done.
  - apply flush_in_sync. exact Hs.
Qed.

Lemma wf_stream_cons cur ev evs :
  wf_stream cur (ev :: evs)
  <-> wf_stream cur [ev] /\ wf_stream (view_after cur [ev]) evs.
Proof. destruct ev; simpl; tauto. Qed.

Lemma view_after_cons cur ev evs :
  view_after cur (ev :: evs) = view_after (view_after cur [ev]) evs.
Proof. by destruct ev. Qed.

End flush.

(** X1.  A flush empties the tracker: whatever was buffered, after
    [send_messages] returned the three buffers and the arrival order are
    empty and no flush is pending, and running [send_messages] again sends
    nothing and leaves the tracker as it is. *)
Theorem flush_is_idempotent {Fields : Type} `{!EqDecision Fields}
    (h : Heap Fields) (vt vt' : ViewTracker Fields)
    (out : list (Effect Fields)) :
  send_messages h vt = Ok (vt', out) ->
  changed vt' = ∅ /\ removed vt' = ∅ /\ added vt' = ∅ /\ added_order vt' = []
  /\ changes_pending vt' = false
  /\ send_messages h vt' = Ok (vt', []).
Proof.
  intros Hs. apply send_messages_resets in Hs as [vt0 ->].
  repeat (split; [reflexivity|]).
  pose proof (send_messages_after_reset h vt0) as H2.
  rewrite H2. reflexivity.
Qed.

Lemma flush_is_idempotent_witness :
  exists vt' m,
    send_messages heap0 vt0 = Ok (vt', [SendToFrontend m])
    /\ added vt' = ∅ /\ send_messages heap0 vt' = Ok (vt', []).
Proof.
  destruct (send_messages heap0 vt0) as [[vt' out]|e] eqn:Hs;
    [|by vm_compute in Hs].
  destruct (flush_is_idempotent heap0 vt0 vt' out Hs)
    as (_ & _ & Ha & _ & _ & H2).
  assert (exists m, out = [SendToFrontend m]) as [m ->].
  { vm_compute in Hs. injection Hs as _ <-. by eexists. }
  by exists vt', m.
Defined.

(** X2.  What is buffered has a flush on its way.  Take the tracker at
    any point after its buffers were last reset, the callbacks having
    returned and the reordering flag having been set or cleared any number
    of times since, and [out] what it did to the outside world meanwhile.
    If one of the three buffers holds something, then [changes_pending] is
    set and the last thing in [out] is the [add_urgent_call] that hands
    [send_messages] to the event loop: it was asked for after every
    message already sent. *)
Theorem buffered_changes_are_scheduled {Fields : Type} `{!EqDecision Fields}
    (vt : ViewTracker Fields) (out : list (Effect Fields)) :
  since_reset vt out ->
  changed vt <> ∅ \/ removed vt <> ∅ \/ added vt <> ∅ ->
  changes_pending vt = true /\ last out = Some AddUrgentCall.
Proof.
  intros Hs Hne.
  destruct (since_reset_invariant vt out Hs) as [[Hn|Hp] Hlast].
  - destruct Hn as (Hc & Hr & Ha). destruct Hne as [?|[?|?]]; done.
  - split; [done|]. by apply Hlast.
Qed.

Lemma buffered_changes_are_scheduled_witness :
  exists vt out,
    run heap0 (reset_changes init) [EvAdded o2; EvChanged o1] = Ok (vt, out)
    /\ added vt = {[2%Z := o2]}
    /\ changes_pending vt = true /\ last out = Some AddUrgentCall.
Proof.
  destruct (run heap0 (reset_changes init) [EvAdded o2; EvChanged o1])
    as [[vt out]|e] eqn:Hrun; [|by vm_compute in Hrun].
  assert (since_reset vt ([] ++ out)) as Hs.
  { apply (run_since_reset heap0 (reset_changes init) []
             [EvAdded o2; EvChanged o1]); [apply since_reset_start| |done].
    intros Hin. repeat (apply elem_of_cons in Hin as [Hin|Hin]; [done|]).
    by apply elem_of_nil in Hin. }
  assert (added vt <> ∅) as Hne.
  { intros Hempty.
    assert (added vt !! 2%Z = None) as Hn by (rewrite Hempty; apply lookup_empty).
    vm_compute in Hrun. injection Hrun as <- _. vm_compute in Hn.
    discriminate Hn. }
  destruct (buffered_changes_are_scheduled vt ([] ++ out) Hs) as [Hp Hl];
    [by right; right|].
  exists vt, out. split; [reflexivity|].
  split; [|split; [exact Hp|exact Hl]].
  vm_compute in Hrun. injection Hrun as <- _. reflexivity.
Defined.

(** X3.  A change is passed on only if it shows: for an object in the
    changed buffer (and not in the added one), the flush puts its
    description in the [changed] list of the message exactly when it
    differs from the description sent last for that id (or none was sent);
    and unless the id is also being removed, the description is the
    snapshot kept for the id afterwards. *)
Theorem unchanged_info_is_not_resent {Fields : Type} `{!EqDecision Fields}
    (h : Heap Fields) (vt vt' : ViewTracker Fields)
    (out : list (Effect Fields)) (obj : Obj) :
  buffered vt ->
  changed vt !! obj_id obj = Some obj ->
  added vt !! obj_id obj = None ->
  send_messages h vt = Ok (vt', out) ->
  let info := info_factory h obj in
  ((exists m, SendToFrontend m ∈ out /\ info ∈ msg_changed m)
   <-> _last_sent_info vt !! obj_id obj <> Some info)
  /\ (obj_id obj ∉ removed vt ->
      _last_sent_info vt' !! obj_id obj = Some info).
Proof.
  intros Hb Hc Ha Hs info. pose proof (buffered_wf vt Hb) as Hwf.
  pose proof (wf_changed_keys _ Hwf) as Hkeys.
  pose proof (values_NoDup (changed vt) Hkeys) as Hnd.
  pose proof (values_member (changed vt) _ _ Hc) as Hin.
  assert (obj_id obj ∉ (obj_id <$> _get_added_objects vt)) as Hnotadded.
  { rewrite (added_object_ids vt _ Hwf), Ha. by intros [? ?]. }
  revert Hs. unfold send_messages.
  pose proof (make_added_list_lookup h (_last_sent_info vt)
                (_get_added_objects vt) _ Hnotadded) as Hl1.
  destruct (_make_added_list h _ _) as [lsi1 added_list]. simpl in Hl1.
  pose proof (make_changed_list_member h lsi1 _ obj Hnd Hin) as Hmem.
  pose proof (make_changed_list_snapshot h lsi1 _ obj Hnd Hin) as Hsnap.
  destruct (_make_changed_list h lsi1 _) as [lsi2 changed_list].
  simpl in Hmem, Hsnap. unfold _make_removed_list.
  destruct (del_all lsi2 _) as [lsi3|e] eqn:Hdel; simpl; [|done].
  intros [= <- <-]. rewrite Hl1 in Hmem. subst info. split.
  - rewrite <- Hmem. split.
    + intros (m & Hm & Hi). revert Hm.
      match goal with |- context [message_nonempty ?x] =>
        destruct (message_nonempty x) end; [|by intros ?%elem_of_nil].
      intros Hm%list_elem_of_singleton. injection Hm as ->. exact Hi.
    + intros Hi.
      exists {| msg_added := added_list; msg_changed := changed_list;
                msg_removed := elements (removed vt) |}.
      split; [|exact Hi].
      rewrite (message_nonempty_changed _ (info_factory h obj)) by exact Hi.
      apply list_elem_of_here.
  - intros Hnr. simpl. rewrite (del_all_lookup _ _ _ _ Hdel); [done|].
    by rewrite elem_of_elements.
Qed.

Lemma unchanged_info_is_not_resent_witness :
  exists vt' m,
    send_messages heap0 vt0 = Ok (vt', [SendToFrontend m])
    /\ ~ info_factory heap0 o1 ∈ msg_changed m
    /\ _last_sent_info vt' !! 1%Z = Some (info_factory heap0 o1).
Proof.
  destruct (send_messages heap0 vt0) as [[vt' out]|e] eqn:Hs;
    [|by vm_compute in Hs].
  assert (buffered vt0) as Hb.
  { destruct vt0_run as [out0 Hrun].
    exact (run_buffered heap0 init events0 vt0 out0 init_buffered Hrun). }
  destruct (unchanged_info_is_not_resent heap0 vt0 vt' out o1 Hb)
    as [Hiff Hsnap]; [reflexivity|reflexivity|exact Hs|].
  assert (exists m, out = [SendToFrontend m]) as [m ->].
  { vm_compute in Hs. injection Hs as _ <-. by eexists. }
  exists vt', m. split; [done|]. split.
  - intros Hin. apply Hiff; [|reflexivity].
    exists m. split; [apply list_elem_of_here|exact Hin].
  - apply Hsnap.
    assert (removed vt0 = ∅) as -> by (vm_compute; reflexivity).
    apply not_elem_of_empty.
Defined.

(** X4.  An id that comes back is first reported gone.  When an object is
    added whose id is in the removed buffer, outside a tab reordering, the
    tracker flushes before anything else.  If every id in the removed
    buffer has a last-sent snapshot or a buffered change, the pending
    changes are sent at once, with the id among the removed ones and not
    among the added ones; only then is the object buffered as added
    (alone), and a new flush is scheduled.  If an id in the removed buffer
    has neither, the call raises [KeyError]. *)
Theorem removal_is_sent_before_readding {Fields : Type} `{!EqDecision Fields}
    (h : Heap Fields) (vt : ViewTracker Fields) (obj : Obj) :
  buffered vt ->
  tabs_being_reordered vt = false ->
  obj_id obj ∈ removed vt ->
  ((forall i, i ∈ removed vt ->
      is_Some (_last_sent_info vt !! i) \/ is_Some (changed vt !! i)) ->
   exists vt1 m,
     on_object_added h vt obj = Ok (vt1, [SendToFrontend m; AddUrgentCall])
     /\ obj_id obj ∈ msg_removed m
     /\ (obj_id obj ∉ (info_id <$> msg_added m))
     /\ added vt1 = {[obj_id obj := obj]} /\ added_order vt1 = [obj]
     /\ removed vt1 = ∅ /\ changed vt1 = ∅
     /\ changes_pending vt1 = true
     /\ _last_sent_info vt1 !! obj_id obj = None)
  /\ (forall i,
       i ∈ removed vt -> _last_sent_info vt !! i = None ->
       changed vt !! i = None ->
       on_object_added h vt obj = Raise KeyError).
Proof.
  intros Hb Ht Hrem. pose proof (buffered_wf vt Hb) as Hwf.
  split.
  - intros Hsent. unfold on_object_added. rewrite Ht.
    rewrite bool_decide_eq_true_2 by done.
    destruct (send_messages_returns h vt Hwf Hsent) as [vt' Hs].
    assert (obj_id obj ∈ msg_removed (flush_message h vt)) as Hin.
    { simpl. by rewrite elem_of_elements. }
    rewrite (message_nonempty_removed _ _ Hin) in Hs.
    assert (_last_sent_info vt' !! obj_id obj = None) as Hgone.
    { revert Hs. unfold send_messages.
      destruct (_make_added_list h _ _) as [lsi1 al].
      destruct (_make_changed_list h lsi1 _) as [lsi2 cl].
      unfold _make_removed_list.
      destruct (del_all lsi2 _) as [lsi3|e] eqn:Hdel; simpl; [|done].
      intros [= <- _]. simpl. apply (del_all_gone _ _ _ _ Hdel).
      by rewrite elem_of_elements. }
    rewrite Hs. simpl.
    pose proof Hs as Hreset. apply send_messages_resets in Hreset as [vt0 ->].
    eexists _, _. split; [reflexivity|]. simpl.
    split; [by rewrite elem_of_elements|].
    split.
    { intros (o & Ho & Hin')%list_elem_of_fmap.
      apply list_elem_of_fmap in Hin' as (o' & -> & Ho').
      apply list_elem_of_filter in Ho' as [Ha _]. simpl in Ho.
      apply (wf_added_removed _ Hwf (obj_id o')); [done|]. by rewrite <- Ho. }
    split; [by rewrite insert_empty|]. repeat (split; [done|]). exact Hgone.
  - intros i Hi Hl Hc. unfold on_object_added. rewrite Ht.
    rewrite bool_decide_eq_true_2 by done.
    by rewrite (send_messages_raises h vt i).
Qed.

Lemma removal_is_sent_before_readding_witness :
  let vt := {| changed := ∅; removed := {[1%Z]}; added := ∅; added_order := [];
               changes_pending := true; tabs_being_reordered := false;
               _last_sent_info := {[1%Z := info_factory heap0 o1]} |} in
  let vt' := {| changed := ∅; removed := {[2%Z]}; added := ∅;
                added_order := [o2; o2]; changes_pending := true;
                tabs_being_reordered := false; _last_sent_info := ∅ |} in
  (exists vt1,
     on_object_added heap0 vt o1
     = Ok (vt1, [SendToFrontend {| msg_added := []; msg_changed := [];
                                   msg_removed := [1%Z] |}; AddUrgentCall])
     /\ added vt1 = {[1%Z := o1]})
  /\ run heap0 init [EvAdded o2; EvAdded o2; EvRemoved 2; EvRemoved 2]
     = Ok (vt', [AddUrgentCall])
  /\ on_object_added heap0 vt' o2 = Raise KeyError.
Proof.
  intros vt vt'. split; [|split; [vm_compute; reflexivity|]].
  - assert (buffered vt) as Hb.
    { apply (buffered_handle heap0
               (reset_changes
                  (set_last_sent_info {[1%Z := info_factory heap0 o1]} init))
               (EvRemoved 1) vt [AddUrgentCall]); [apply buffered_reset|].
      vm_compute. reflexivity. }
    assert (obj_id o1 ∈ removed vt) as Hin
      by (simpl; by apply elem_of_singleton).
    destruct (removal_is_sent_before_readding heap0 vt o1 Hb eq_refl Hin)
      as [H _].
    destruct H as (vt1 & m & Hadd & _ & _ & Ha & _).
    { intros i Hi. simpl in Hi. apply elem_of_singleton in Hi as ->.
      left. simpl. rewrite lookup_singleton_eq. by eexists. }
    exists vt1. split; [|exact Ha]. rewrite Hadd.
    assert (on_object_added heap0 vt o1
            = Ok (vt1, [SendToFrontend m; AddUrgentCall])) as Hadd' by exact Hadd.
    vm_compute in Hadd'. injection Hadd' as _ <-. reflexivity.
  - assert (buffered vt') as Hb.
    { apply (run_buffered heap0 init
               [EvAdded o2; EvAdded o2; EvRemoved 2; EvRemoved 2] vt'
               [AddUrgentCall] init_buffered).
      vm_compute. reflexivity. }
    assert (obj_id o2 ∈ removed vt') as Hin
      by (simpl; by apply elem_of_singleton).
    destruct (removal_is_sent_before_readding heap0 vt' o2 Hb eq_refl Hin)
      as [_ H].
    apply (H 2%Z); [exact Hin|reflexivity|reflexivity].
Defined.

(** X5.  A bulk addition keeps the order.  Take a tracker as a reset
    leaves it (the three buffers and the arrival order empty, no flush
    pending) and not reordering tabs.  After [on_bulk_added] with objects
    of distinct ids, exactly one flush has been scheduled, and that flush
    sends one message whose [added] list holds the descriptions of the
    objects in the order they came, and nothing else. *)
Theorem bulk_added_keeps_order {Fields : Type} `{!EqDecision Fields}
    (h : Heap Fields) (vt : ViewTracker Fields) (objs : list Obj) :
  nothing_buffered vt ->
  added_order vt = [] ->
  changes_pending vt = false ->
  tabs_being_reordered vt = false ->
  NoDup (obj_id <$> objs) ->
  objs <> [] ->
  exists vt1 vt2,
    on_bulk_added h vt objs = Ok (vt1, [AddUrgentCall])
    /\ send_messages h vt1
       = Ok (vt2, [SendToFrontend {| msg_added := info_factory h <$> objs;
                                     msg_changed := []; msg_removed := [] |}]).
Proof.
  intros (Hc0 & Hr0 & Ha0) Ho0 Hp0 Ht Hnd Hne.
  assert (vt = reset_changes vt) as Hreset.
  { destruct vt. simpl in *. by subst. }
  rewrite Hreset. clear Hc0 Hr0 Ha0 Ho0 Hp0 Hreset. unfold on_bulk_added.
  destruct (bulk_added_run h (reset_changes vt) objs)
    as (vt1 & Hrun & Hc & Hr & Ho & Ht1 & Hl & Hp & Ha); [done|done|].
  simpl in *. exists vt1.
  assert (_get_added_objects vt1 = objs) as Hobjs.
  { unfold _get_added_objects. rewrite Ho.
    apply filter_keeps_all. apply Forall_forall. intros o Hin.
    apply Ha. right. apply list_elem_of_fmap. eauto. }
  unfold send_messages. rewrite Hobjs, Hc, Hr.
  pose proof (make_added_list_infos h (_last_sent_info vt1) objs) as Hinfos.
  destruct (_make_added_list h _ objs) as [lsi1 al]. simpl in Hinfos.
  subst al. unfold values, _make_removed_list.
  rewrite map_to_list_empty, elements_empty. simpl.
  eexists. split.
  - rewrite Hrun. by destruct objs.
  - assert (message_nonempty
              {| msg_added := info_factory h <$> objs; msg_changed := [];
                 msg_removed := ([] : list Z) |} = true) as ->; [|done].
    destruct objs as [|o objs']; [done|].
    apply (message_nonempty_added _ (info_factory h o)). simpl. left.
Qed.

Lemma bulk_added_keeps_order_witness :
  exists vt1 vt2,
    on_bulk_added heap0 init [o2; o1] = Ok (vt1, [AddUrgentCall])
    /\ send_messages heap0 vt1
       = Ok (vt2, [SendToFrontend
                     {| msg_added := [info_factory heap0 o2;
                                      info_factory heap0 o1];
                        msg_changed := []; msg_removed := [] |}]).
Proof.
  apply (bulk_added_keeps_order heap0 init [o2; o1]);
    [done|reflexivity|reflexivity|reflexivity| |done].
  apply NoDup_cons. split; [|apply NoDup_singleton].
  intros H%list_elem_of_singleton. discriminate H.
Defined.



End ViewTrackerFlush.

(** * Database view trackers *)

Module DatabaseViewsFacts.
Import MessageHandler SignalStreams DatabaseViews ViewTrackerFlush.

Section removal.
Variable fetcher : Fetcher.

(** ** [remove_objects] *)

Lemma remove_each_spec t objs :
  NoDup (obj_id <$> objs) ->
  Forall (fun o => obj_id o ∈ current_ids t) objs ->
  exists t',
    remove_each fetcher t objs
    = Ok (t', (fun o => SigRemoved (fetch_obj_for_ddb_object fetcher o)) <$> objs)
    /\ current_ids t' = current_ids t ∖ list_to_set (obj_id <$> objs)
    /\ bulk_mode t' = bulk_mode t.
Proof.
  revert t. induction objs as [|o objs IH]; intros t Hnd Hall.
  - exists t. simpl. split; [done|]. split; [set_solver|done].
  - rewrite fmap_cons in Hnd. apply NoDup_cons in Hnd as [Hni Hnd].
    apply Forall_cons in Hall as [Ho Hall]. simpl.
    rewrite bool_decide_eq_true_2 by done.
    destruct (IH (with_current_ids (current_ids t ∖ {[obj_id o]}) t) Hnd)
      as (t' & -> & Hc & Hb).
    { apply Forall_forall. intros o' Ho'. simpl.
      apply elem_of_difference. split.
      - by eapply Forall_forall in Hall.
      - apply not_elem_of_singleton. intros Heq. apply Hni. rewrite <- Heq.
        apply list_elem_of_fmap. eauto. }
    exists t'. simpl. split; [done|]. split; [|done].
    rewrite Hc. simpl. set_solver.
Qed.

Lemma remove_each_missing t objs o :
  o ∈ objs -> obj_id o ∉ current_ids t ->
  remove_each fetcher t objs = Raise KeyError.
Proof.
  revert t. induction objs as [|o' objs IH]; intros t Ho Hnin.
  { by apply elem_of_nil in Ho. }
  simpl. case_bool_decide as Hin; [|done].
  apply elem_of_cons in Ho as [->|Ho]; [done|].
  rewrite (IH (with_current_ids (current_ids t ∖ {[obj_id o']}) t)); [done|done|].
  simpl. set_solver.
Qed.

Lemma remove_each_dup t objs :
  Forall (fun o => obj_id o ∈ current_ids t) objs ->
  ~ NoDup (obj_id <$> objs) ->
  remove_each fetcher t objs = Raise KeyError.
Proof.
  revert t. induction objs as [|o objs IH]; intros t Hall Hdup.
  { exfalso. apply Hdup. constructor. }
  apply Forall_cons in Hall as [Ho Hall]. simpl.
  rewrite bool_decide_eq_true_2 by done.
  destruct (decide (obj_id o ∈ (obj_id <$> objs))) as [Hin|Hnin].
  - apply list_elem_of_fmap in Hin as (o' & Heq & Ho').
    rewrite (remove_each_missing _ objs o'); [done|done|].
    simpl. rewrite <- Heq. set_solver.
  - rewrite IH; [done| |].
    + apply Forall_forall. intros o' Ho'. simpl.
      apply elem_of_difference. split.
      * by eapply Forall_forall in Hall.
      * apply not_elem_of_singleton. intros Heq. apply Hnin. rewrite <- Heq.
        apply list_elem_of_fmap. eauto.
    + intros Hnd. apply Hdup. rewrite fmap_cons. by apply NoDup_cons.
Qed.

End removal.

Section facts.
Variable fetcher : Fetcher.
Hypothesis Hids : keeps_ids fetcher.

Local Abbreviation wf := wf_stream.
Local Abbreviation after := view_after.

Lemma wf_stream_app cur evs1 evs2 :
  wf cur (evs1 ++ evs2) <-> wf cur evs1 /\ wf (after cur evs1) evs2.
Proof.
  revert cur. induction evs1 as [|ev evs1 IH]; intros cur; simpl.
  - tauto.
  - destruct ev; rewrite ?IH; tauto.
Qed.

Lemma view_after_app cur evs1 evs2 :
  after cur (evs1 ++ evs2) = after (after cur evs1) evs2.
Proof.
  revert cur. induction evs1 as [|ev evs1 IH]; intros cur; simpl; [done|].
  by destruct ev.
Qed.

Lemma events_of_app out1 out2 :
  events_of (out1 ++ out2) = events_of out1 ++ events_of out2.
Proof. unfold events_of. apply bind_app. Qed.

Lemma call_wf t c :
  let '(t', out) := call fetcher t c in
  wf (current_ids t) (events_of out)
  /\ after (current_ids t) (events_of out) = current_ids t'.
Proof.
  destruct Hids as [_ Hfor].
  destruct c as [now obj|obj]; simpl.
  - unfold check_object.
    destruct (bool_decide_reflect (obj_id obj ∈ current_ids t)) as [Hin|Hnin];
      destruct now; simpl; rewrite ?Hfor; auto.
  - unfold remove_object.
    destruct (bool_decide_reflect (obj_id obj ∈ current_ids t)) as [Hin|Hnin];
      simpl; rewrite ?Hfor; auto.
Qed.

(** ** [check_all_objects] *)

Lemma events_of_emit_added t objs :
  events_of (_emit_for_objects t SigBulkAdded SigAdded objs) = EvAdded <$> objs.
Proof.
  unfold _emit_for_objects, events_of. destruct (bulk_mode t); simpl.
  - apply app_nil_r.
  - induction objs as [|o objs IH]; [done|].
    rewrite !fmap_cons, bind_cons. cbn [events_of_signal app]. by rewrite IH.
Qed.

Lemma events_of_emit_removed t objs :
  events_of (_emit_for_objects t SigBulkRemoved SigRemoved objs)
  = (fun o => EvRemoved (obj_id o)) <$> objs.
Proof.
  unfold _emit_for_objects, events_of. destruct (bulk_mode t); simpl.
  - apply app_nil_r.
  - induction objs as [|o objs IH]; [done|].
    rewrite !fmap_cons, bind_cons. cbn [events_of_signal app]. by rewrite IH.
Qed.

Lemma events_of_emit_changed t objs :
  events_of (_emit_for_objects t SigBulkChanged SigChanged objs)
  = EvChanged <$> objs.
Proof.
  unfold _emit_for_objects, events_of. destruct (bulk_mode t); simpl.
  - apply app_nil_r.
  - induction objs as [|o objs IH]; [done|].
    rewrite !fmap_cons, bind_cons. cbn [events_of_signal app]. by rewrite IH.
Qed.

Lemma wf_adds cur ids :
  NoDup ids -> (forall i, i ∈ ids -> i ∉ cur) ->
  wf cur (EvAdded <$> (fetch_obj fetcher <$> ids))
  /\ after cur (EvAdded <$> (fetch_obj fetcher <$> ids))
     = list_to_set ids ∪ cur.
Proof.
  destruct Hids as [Hfetch _].
  revert cur. induction ids as [|i ids IH]; intros cur Hnd Hnew.
  - simpl. split; [done|set_solver].
  - apply NoDup_cons in Hnd as [Hni Hnd].
    rewrite !fmap_cons. cbn [wf_stream view_after]. rewrite Hfetch.
    destruct (IH ({[i]} ∪ cur) Hnd) as [Hw Ha].
    { intros j Hj. apply not_elem_of_union. split.
      - apply not_elem_of_singleton. by intros ->.
      - apply Hnew. by right. }
    split; [split; [apply Hnew; left|done]|]. rewrite Ha. set_solver.
Qed.

Lemma wf_removes cur ids :
  NoDup ids -> (forall i, i ∈ ids -> i ∈ cur) ->
  wf cur ((fun o => EvRemoved (obj_id o)) <$> (fetch_obj fetcher <$> ids))
  /\ after cur ((fun o => EvRemoved (obj_id o)) <$> (fetch_obj fetcher <$> ids))
     = cur ∖ list_to_set ids.
Proof.
  destruct Hids as [Hfetch _].
  revert cur. induction ids as [|i ids IH]; intros cur Hnd Hold.
  - simpl. split; [done|set_solver].
  - apply NoDup_cons in Hnd as [Hni Hnd].
    rewrite !fmap_cons. cbn [wf_stream view_after]. rewrite Hfetch.
    destruct (IH (cur ∖ {[i]}) Hnd) as [Hw Ha].
    { intros j Hj. apply elem_of_difference. split.
      - apply Hold. by right.
      - apply not_elem_of_singleton. by intros ->. }
    split; [split; [apply Hold; left|done]|]. rewrite Ha. set_solver.
Qed.

Lemma wf_changes cur ids :
  (forall i, i ∈ ids -> i ∈ cur) ->
  wf cur (EvChanged <$> (fetch_obj fetcher <$> ids))
  /\ after cur (EvChanged <$> (fetch_obj fetcher <$> ids)) = cur.
Proof.
  destruct Hids as [Hfetch _].
  induction ids as [|i ids IH]; intros Hold; [done|].
  rewrite !fmap_cons. cbn [wf_stream view_after].
  rewrite Hfetch. destruct IH as [Hw Ha].
  { intros j Hj. apply Hold. by right. }
  split; [split; [apply Hold; left|done]|done].
Qed.

End facts.

(** X7.  The signals of a view tracker are well formed.  Whatever the
    database says at each call, a run of [check_object] and
    [remove_object] calls emits [added] only for an id the tracker did not
    hold, [removed] and [changed] only for an id it held, and the ids held
    at the end are those held at the start as the signals changed them (so
    a dispatcher-side tracker that listens can follow the view). *)
Theorem view_tracker_signals_are_well_formed (fetcher : Fetcher)
    (t : ViewTracker) (cs : list Call) :
  keeps_ids fetcher ->
  let '(t', out) := calls fetcher t cs in
  wf_stream (current_ids t) (events_of out)
  /\ view_after (current_ids t) (events_of out) = current_ids t'.
Proof.
  intros Hids. revert t. induction cs as [|c cs IH]; intros t; simpl.
  - done.
  - pose proof (call_wf fetcher Hids t c) as Hc.
    destruct (call fetcher t c) as [t1 out1]. destruct Hc as [Hw1 Ha1].
    specialize (IH t1). destruct (calls fetcher t1 cs) as [t2 out2].
    destruct IH as [Hw2 Ha2]. rewrite events_of_app.
    rewrite wf_stream_app, view_after_app, Ha1. done.
Qed.

Lemma view_tracker_signals_are_well_formed_witness :
  calls sample_fetcher sample_tracker
    [CheckObject true {| obj_ref := 3; obj_id := 3 |};
     CheckObject false {| obj_ref := 1; obj_id := 1 |};
     RemoveObject {| obj_ref := 1; obj_id := 1 |};
     CheckObject true {| obj_ref := 2; obj_id := 2 |}]
  = ({| current_ids := {[2%Z; 3%Z]}; bulk_mode := true |},
     [SigAdded {| obj_ref := 3; obj_id := 3 |};
      SigRemoved {| obj_ref := 1; obj_id := 1 |};
      SigChanged {| obj_ref := 2; obj_id := 2 |}])
  /\ wf_stream {[1%Z; 2%Z]}
       [EvAdded {| obj_ref := 3; obj_id := 3 |}; EvRemoved 1;
        EvChanged {| obj_ref := 2; obj_id := 2 |}].
Proof.
  assert (keeps_ids sample_fetcher) as Hids by (split; done).
  pose proof (view_tracker_signals_are_well_formed sample_fetcher
                sample_tracker
                [CheckObject true {| obj_ref := 3; obj_id := 3 |};
                 CheckObject false {| obj_ref := 1; obj_id := 1 |};
                 RemoveObject {| obj_ref := 1; obj_id := 1 |};
                 CheckObject true {| obj_ref := 2; obj_id := 2 |}] Hids) as H.
  assert (calls sample_fetcher sample_tracker
            [CheckObject true {| obj_ref := 3; obj_id := 3 |};
             CheckObject false {| obj_ref := 1; obj_id := 1 |};
             RemoveObject {| obj_ref := 1; obj_id := 1 |};
             CheckObject true {| obj_ref := 2; obj_id := 2 |}]
          = ({| current_ids := {[2%Z; 3%Z]}; bulk_mode := true |},
             [SigAdded {| obj_ref := 3; obj_id := 3 |};
              SigRemoved {| obj_ref := 1; obj_id := 1 |};
              SigChanged {| obj_ref := 2; obj_id := 2 |}])) as E
    by (vm_compute; reflexivity).
  rewrite E in H. destruct H as [Hw _]. split; [exact E|exact Hw].
Defined.



(** X9.  [check_all_objects] reports every id once.  With a fetcher that
    leaves the id lists as they are, the tracker afterwards holds exactly
    the ids the database reports; the ids that came are signalled as added,
    those that went as removed, those that stayed as changed, in this
    order and each id once, in bulk mode as in single mode; the signals
    are well formed for the ids held before. *)
Theorem check_all_objects_partitions (fetcher : Fetcher) (t : ViewTracker)
    (view_object_ids : gset Z) :
  keeps_ids fetcher ->
  (forall id_list, prepare_objects fetcher id_list = id_list) ->
  let '(t', out) := check_all_objects fetcher view_object_ids t in
  let old := current_ids t in
  current_ids t' = view_object_ids
  /\ events_of out
     = (EvAdded <$> (fetch_obj fetcher <$> elements (view_object_ids ∖ old)))
       ++ ((fun o => EvRemoved (obj_id o))
             <$> (fetch_obj fetcher <$> elements (old ∖ view_object_ids)))
       ++ (EvChanged
             <$> (fetch_obj fetcher <$> elements (old ∩ view_object_ids)))
  /\ wf_stream old (events_of out)
  /\ view_after old (events_of out) = view_object_ids.
Proof.
  intros Hids Hprep. unfold check_all_objects, _update_current_ids.
  rewrite !Hprep.
  assert (forall new_ids : gset Z,
             let old := current_ids t in
             let evs :=
               (EvAdded <$> (fetch_obj fetcher <$> elements (new_ids ∖ old)))
               ++ ((fun o => EvRemoved (obj_id o))
                     <$> (fetch_obj fetcher <$> elements (old ∖ new_ids)))
               ++ (EvChanged
                     <$> (fetch_obj fetcher <$> elements (old ∩ new_ids))) in
             wf_stream old evs /\ view_after old evs = new_ids) as Hwf.
  { intros new_ids old evs. unfold evs.
    destruct (wf_adds fetcher Hids old (elements (new_ids ∖ old)))
      as [Hw1 Ha1]; [apply NoDup_elements|set_solver|].
    destruct (wf_removes fetcher Hids (list_to_set (elements (new_ids ∖ old)) ∪ old)
                (elements (old ∖ new_ids)))
      as [Hw2 Ha2]; [apply NoDup_elements|set_solver|].
    destruct (wf_changes fetcher Hids
                ((list_to_set (elements (new_ids ∖ old)) ∪ old)
                   ∖ list_to_set (elements (old ∖ new_ids)))
                (elements (old ∩ new_ids)))
      as [Hw3 Ha3]; [set_solver|].
    rewrite !wf_stream_app, !view_after_app, Ha1, Ha2, Ha3.
    split; [done|].
    apply set_eq. intros i.
    rewrite elem_of_difference, elem_of_union, !elem_of_list_to_set,
      !elem_of_elements, !elem_of_difference.
    destruct (decide (i ∈ new_ids)); destruct (decide (i ∈ old)); naive_solver. }
  case_bool_decide as Heq.
  - rewrite Hprep. simpl. specialize (Hwf view_object_ids). simpl in Hwf.
    rewrite events_of_emit_changed.
    rewrite Heq in *.
    assert (current_ids t ∖ current_ids t = (∅ : gset Z)) as Hempty by set_solver.
    rewrite Hempty, elements_empty in *. simpl in *.
    split; [done|]. split; [done|]. exact Hwf.
  - rewrite Hprep. simpl.
    rewrite !events_of_app, events_of_emit_added, events_of_emit_removed,
      events_of_emit_changed.
    rewrite <- app_assoc. split; [done|]. split; [done|].
    apply (Hwf view_object_ids).
Qed.

Lemma check_all_objects_partitions_witness :
  check_all_objects sample_fetcher {[2%Z; 3%Z]} sample_tracker
  = ({| current_ids := {[2%Z; 3%Z]}; bulk_mode := true |},
     [SigBulkAdded [{| obj_ref := 3; obj_id := 3 |}];
      SigBulkRemoved [{| obj_ref := 1; obj_id := 1 |}];
      SigBulkChanged [{| obj_ref := 2; obj_id := 2 |}]])
  /\ wf_stream {[1%Z; 2%Z]}
       [EvAdded {| obj_ref := 3; obj_id := 3 |}; EvRemoved 1;
        EvChanged {| obj_ref := 2; obj_id := 2 |}].
Proof.
  assert (keeps_ids sample_fetcher) as Hids by (split; done).
  pose proof (check_all_objects_partitions sample_fetcher sample_tracker
                {[2%Z; 3%Z]} Hids (fun _ => eq_refl)) as H.
  assert (check_all_objects sample_fetcher {[2%Z; 3%Z]} sample_tracker
          = ({| current_ids := {[2%Z; 3%Z]}; bulk_mode := true |},
             [SigBulkAdded [{| obj_ref := 3; obj_id := 3 |}];
              SigBulkRemoved [{| obj_ref := 1; obj_id := 1 |}];
              SigBulkChanged [{| obj_ref := 2; obj_id := 2 |}]])) as E
    by (vm_compute; reflexivity).
  rewrite E in H. destruct H as (_ & _ & Hw & _). split; [exact E|exact Hw].
Defined.

(** X10.  [remove_objects] drops what it holds, once.  If the objects of
    the list that the tracker holds have distinct ids, each of them is
    signalled as removed, in the order of the list, and none of the listed
    ids is held afterwards; if one of them comes twice, the second
    [set.remove] raises [KeyError]. *)
Theorem remove_objects_drops_tracked (fetcher : Fetcher) (t : ViewTracker)
    (objects : list Obj) :
  let tracked := filter (fun o => obj_id o ∈ current_ids t) objects in
  (NoDup (obj_id <$> tracked) ->
   exists t',
     remove_objects fetcher t objects
     = Ok (t', (fun o => SigRemoved (fetch_obj_for_ddb_object fetcher o))
                 <$> tracked)
     /\ current_ids t' = current_ids t ∖ list_to_set (obj_id <$> objects)
     /\ bulk_mode t' = bulk_mode t)
  /\ (~ NoDup (obj_id <$> tracked) ->
      remove_objects fetcher t objects = Raise KeyError).
Proof.
  intros tracked.
  assert (Forall (fun o => obj_id o ∈ current_ids t) tracked) as Hall.
  { apply Forall_forall. intros o Ho.
    by apply list_elem_of_filter in Ho as [? _]. }
  split.
  - intros Hnd.
    destruct (remove_each_spec fetcher t tracked Hnd Hall) as (t' & E & Hc & Hb).
    exists t'. split; [exact E|]. split; [|done]. rewrite Hc.
    apply set_eq. intros i. rewrite !elem_of_difference, !elem_of_list_to_set,
      !list_elem_of_fmap.
    split; intros [Hi Hn]; (split; [done|]); intros (o & -> & Ho); apply Hn;
      exists o; (split; [done|]).
    + by apply list_elem_of_filter.
    + by apply list_elem_of_filter in Ho as [_ ?].
  - intros Hdup. by apply remove_each_dup.
Qed.

Lemma remove_objects_drops_tracked_witness :
  remove_objects sample_fetcher sample_tracker
    [{| obj_ref := 2; obj_id := 2 |}; {| obj_ref := 7; obj_id := 7 |};
     {| obj_ref := 1; obj_id := 1 |}]
  = Ok ({| current_ids := ∅; bulk_mode := true |},
        [SigRemoved {| obj_ref := 2; obj_id := 2 |};
         SigRemoved {| obj_ref := 1; obj_id := 1 |}])
  /\ remove_objects sample_fetcher sample_tracker
       [{| obj_ref := 2; obj_id := 2 |}; {| obj_ref := 2; obj_id := 2 |}]
     = Raise KeyError.
Proof.
  split.
  - vm_compute. reflexivity.
  - apply (remove_objects_drops_tracked sample_fetcher sample_tracker).
    vm_compute. intros Hnd. apply NoDup_cons in Hnd as [Hni _].
    apply Hni. left.
Defined.

End DatabaseViewsFacts.

(** * The storage: chunks and bulk removal *)

Module StorageFacts.
Import Database Storage.

Section chunks.
Context {A : Type}.
Implicit Types l : list A.

Lemma xrange_step stop step :
  (0 < step)%nat -> (0 < stop)%nat ->
  xrange stop step
  = 0%nat :: ((fun start => step + start)%nat <$> xrange (stop - step) step).
Proof.
  intros Hs Hn. unfold xrange.
  assert (((stop + step - 1) / step)%nat
          = S ((stop - step + step - 1) / step)) as ->.
  { destruct (decide (stop <= step)%nat) as [Hle|Hgt].
    - replace (stop - step)%nat with 0%nat by lia. simpl.
      rewrite (Nat.div_small (step - 1) step) by lia.
      symmetry. apply (Nat.div_unique _ _ 1 (stop - 1)); lia.
    - replace (stop + step - 1)%nat
        with ((stop - step + step - 1) + 1 * step)%nat by lia.
      rewrite Nat.div_add by lia. lia. }
  cbn [seq fmap list_fmap]. f_equal.
  change (list_fmap nat nat ?f ?l) with (f <$> l).
  rewrite <- fmap_S_seq, <- !list_fmap_compose.
  apply list_fmap_ext. intros _ k _. simpl. lia.
Qed.

Lemma chunks_nil size : chunks size ([] : list A) = [].
Proof.
  unfold chunks, xrange. simpl.
  destruct size as [|size]; [done|].
  replace (S size - 1)%nat with size by lia.
  by rewrite Nat.div_small by lia.
Qed.

Lemma chunks_unfold size l :
  (0 < size)%nat -> l <> [] ->
  chunks size l = take size l :: chunks size (drop size l).
Proof.
  intros Hs Hl. unfold chunks.
  rewrite xrange_step; [|done|destruct l; simpl; [done|lia]].
  rewrite fmap_cons, drop_0. f_equal.
  rewrite length_drop, <- list_fmap_compose.
  apply list_fmap_ext. intros _ k _. simpl. by rewrite drop_drop.
Qed.

Lemma chunks_spec size l :
  (0 < size)%nat ->
  concat (chunks size l) = l
  /\ Forall (fun c => (0 < length c <= size)%nat) (chunks size l)
  /\ (length (chunks size l) * size < length l + size)%nat.
Proof.
  intros Hs. remember (length l) as n eqn:Hn.
  revert l Hn. induction (lt_wf n) as [n _ IH]. intros l Hn.
  destruct (decide (l = [])) as [->|Hne].
  - rewrite chunks_nil. simpl in *. subst n. split; [done|]. split; [done|lia].
  - rewrite chunks_unfold by done.
    assert (0 < length l)%nat as Hpos by (destruct l; simpl; [done|lia]).
    destruct (IH (length (drop size l))) with (l := drop size l)
      as (Hc & Hf & Hlen).
    { rewrite length_drop. lia. }
    { done. }
    split; [|split].
    + simpl. rewrite Hc. apply take_drop.
    + constructor; [|done]. rewrite length_take. lia.
    + rewrite length_drop in Hlen. cbn [length]. subst n.
      generalize dependent (length (chunks size (drop size l))). intros c Hlen.
      destruct (decide (length l <= size)%nat) as [Hle|Hgt].
      * replace (length l - size)%nat with 0%nat in Hlen by lia.
        destruct c as [|c]; simpl in *; lia.
      * simpl. lia.
Qed.

End chunks.

Section bulk_remove.
Context {SqlValue SchemaItem : Type} `{!EqDecision SchemaItem}.
Local Abbreviation Storage := (LiveStorage SqlValue SchemaItem).
Implicit Types (d : Storage) (objects : list (string * Z)).

Lemma check_same_schema_ok d obj_schema classes :
  Forall (fun k => _schema_map d !! k = Some obj_schema) classes ->
  check_same_schema d obj_schema classes = Ok tt.
Proof.
  induction 1 as [|k classes Hk _ IH]; simpl; [done|].
  rewrite Hk. by rewrite bool_decide_eq_false_2 by (intros Hne; by apply Hne).
Qed.

Lemma check_same_schema_mixed d obj_schema classes k s :
  Forall (fun k => is_Some (_schema_map d !! k)) classes ->
  k ∈ classes -> _schema_map d !! k = Some s -> s <> obj_schema ->
  check_same_schema d obj_schema classes = Raise ValueError.
Proof.
  intros Hall Hk Hs Hne. induction Hall as [|k' classes [s' Hk'] _ IH].
  { by apply elem_of_nil in Hk. }
  simpl. rewrite Hk'. case_bool_decide as Hd; [done|].
  apply elem_of_cons in Hk as [->|Hk]; [|by apply IH].
  exfalso. apply Hne. rewrite Hs in Hk'. injection Hk' as <-.
  destruct (decide (obj_schema = s)) as [->|Hn]; [done|]. by destruct Hd.
Qed.

Lemma execute_delete_facts d table ids :
  _quitting_from_operational_error d = false ->
  let d' := execute_delete d table ids in
  _schema_map d' = _schema_map d /\ _object_map d' = _object_map d
  /\ _quitting_from_operational_error d' = false
  /\ (forall t, t <> table -> tables d' !! t = tables d !! t)
  /\ (forall i, row_of d' table i
                = if bool_decide (i ∈ ids) then None else row_of d table i).
Proof.
  intros Hq. unfold execute_delete. rewrite Hq. simpl.
  repeat (split; [done|]). split.
  - intros t Hne. by apply lookup_alter_ne.
  - intros i. unfold row_of. simpl. rewrite lookup_alter_eq.
    destruct (tables d !! table) as [rows|]; simpl; [|by case_bool_decide].
    induction ids as [|j ids IH]; simpl.
    + done.
    + destruct (decide (i = j)) as [->|Hne].
      * rewrite lookup_delete_eq.
        by rewrite bool_decide_eq_true_2 by apply list_elem_of_here.
      * rewrite lookup_delete_ne by done. rewrite IH.
        case_bool_decide as H1; case_bool_decide as H2; try done.
        -- exfalso. apply H2. by right.
        -- exfalso. apply H1. by apply elem_of_cons in H2 as [?|?].
Qed.

Lemma delete_chunks d table (cs : list (list (string * Z))) :
  _quitting_from_operational_error d = false ->
  let d' := foldl (fun d c => execute_delete d table c.*2) d cs in
  _schema_map d' = _schema_map d /\ _object_map d' = _object_map d
  /\ (forall t, t <> table -> tables d' !! t = tables d !! t)
  /\ (forall i, row_of d' table i
                = if bool_decide (i ∈ (concat cs).*2) then None
                  else row_of d table i).
Proof.
  revert d. induction cs as [|c cs IH]; intros d Hq; simpl.
  - done.
  - destruct (execute_delete_facts d table c.*2 Hq) as (E1 & E2 & E3 & E4 & E5).
    destruct (IH (execute_delete d table c.*2) E3) as (F1 & F2 & F3 & F4).
    split; [by rewrite F1|]. split; [by rewrite F2|]. split.
    + intros t Hne. by rewrite F3, E4.
    + intros i. rewrite F4, E5, fmap_app.
      repeat case_bool_decide; try done; exfalso; set_solver.
Qed.

Lemma forget_all_facts d objects table :
  Forall (fun o => db_table_name d o.1 = Ok table) objects ->
  exists d',
    forget_all d objects = Ok d'
    /\ tables d' = tables d /\ _schema_map d' = _schema_map d
    /\ _object_map d'
       = _object_map d ∖ list_to_set ((fun o => (o.2, table)) <$> objects).
Proof.
  revert d. induction objects as [|[k i] objects IH]; intros d Hall.
  - exists d. simpl. repeat (split; [done|]). set_solver.
  - apply Forall_cons in Hall as [Hk Hall]. simpl in Hk.
    simpl. unfold forget_object at 1. rewrite Hk. simpl.
    destruct (IH (with_object_map (_object_map d ∖ {[(i, table)]}) d))
      as (d' & -> & E1 & E2 & E3); [done|].
    exists d'. split; [done|]. split; [done|]. split; [done|].
    rewrite E3. simpl. set_solver.
Qed.

End bulk_remove.

(** X11.  The chunks cover the list.  [split_values_for_sqlite] cuts a
    list into pieces that, put together again, give the list back; every
    piece holds between 1 and 990 values, below the 999 values one SQLite
    statement takes, and no more pieces are made than needed (the empty
    list gives no piece). *)
Theorem split_values_for_sqlite_covers {A : Type} (value_list : list A) :
  let pieces := split_values_for_sqlite value_list in
  concat pieces = value_list
  /\ Forall (fun piece => (1 <= length piece <= 990)%nat) pieces
  /\ (length pieces * 990 < length value_list + 990)%nat.
Proof.
  intros pieces. unfold pieces, split_values_for_sqlite, CHUNK_SIZE.
  destruct (chunks_spec 990 value_list) as (Hc & Hf & Hl); [lia|].
  split; [exact Hc|]. split; [|exact Hl].
  eapply Forall_impl; [exact Hf|]. intros c Hlen. simpl in Hlen. lia.
Qed.

(** X12.  [bulk_remove] removes the rows of the objects and nothing else.
    For a non-empty list of objects that all use the schema of the first
    one, in a storage that is not quitting after an operational error: the
    call returns, the table of the schema holds no row for any of the ids
    and every other row as before, the other tables are untouched, and
    none of the objects is remembered any more.  If some object of the list
    uses another schema than the first, the call raises [ValueError]. *)
Theorem bulk_remove_deletes_rows {SqlValue SchemaItem : Type}
    `{!EqDecision SchemaItem} (d : LiveStorage SqlValue SchemaItem)
    (k0 : string) (i0 : Z) (rest : list (string * Z))
    (obj_schema : ObjectSchema SchemaItem) :
  let objects := (k0, i0) :: rest in
  let table := table_name obj_schema in
  _quitting_from_operational_error d = false ->
  _schema_map d !! k0 = Some obj_schema ->
  (Forall (fun o => _schema_map d !! o.1 = Some obj_schema) objects ->
   exists d',
     bulk_remove d objects = Ok d'
     /\ (forall i, row_of d' table i
                   = if bool_decide (i ∈ objects.*2) then None
                     else row_of d table i)
     /\ (forall t, t <> table -> tables d' !! t = tables d !! t)
     /\ _object_map d'
        = _object_map d ∖ list_to_set ((fun o => (o.2, table)) <$> objects))
  /\ (forall k s,
        Forall (fun o => is_Some (_schema_map d !! o.1)) objects ->
        k ∈ objects.*1 -> _schema_map d !! k = Some s -> s <> obj_schema ->
        bulk_remove d objects = Raise ValueError).
Proof.
  intros objects table Hq Hk0. unfold objects. split.
  - intros Hall. unfold bulk_remove. rewrite Hk0.
    rewrite check_same_schema_ok
      by (apply Forall_fmap; eapply Forall_impl; [exact Hall|done]).
    cbn -[forget_all split_values_for_sqlite execute_delete].
    destruct (delete_chunks d table
                (split_values_for_sqlite ((k0, i0) :: rest)) Hq)
      as (E1 & E2 & E3 & E4).
    destruct (chunks_spec CHUNK_SIZE ((k0, i0) :: rest)) as (Hc & _);
      [unfold CHUNK_SIZE; lia|].
    fold (split_values_for_sqlite ((k0, i0) :: rest)) in Hc.
    rewrite Hc in E4.
    set (d1 := foldl _ d _) in *.
    destruct (forget_all_facts d1 ((k0, i0) :: rest) table)
      as (d' & -> & F1 & F2 & F3).
    { eapply Forall_impl; [exact Hall|]. intros o Ho. simpl in Ho.
      unfold db_table_name. by rewrite E1, Ho. }
    exists d'. split; [done|]. split; [|split].
    + intros i. unfold row_of. rewrite F1. apply E4.
    + intros t Hne. rewrite F1. by apply E3.
    + by rewrite F3, E2.
  - intros k s Hall Hk Hs Hne. unfold bulk_remove. rewrite Hk0.
    rewrite (check_same_schema_mixed d obj_schema _ k s); [done| |done|done|done].
    by apply Forall_fmap.
Qed.

Lemma bulk_remove_deletes_rows_witness :
  exists d',
    bulk_remove (sample_storage false) [("Item", 1%Z)] = Ok d'
    /\ row_of d' "item" 1 = None
    /\ _object_map d' = ∅.
Proof.
  destruct (bulk_remove_deletes_rows (sample_storage false) "Item" 1 []
              sample_schema eq_refl eq_refl) as [H _].
  destruct H as (d' & E & Hrow & _ & Hmap).
  - repeat constructor.
  - exists d'. split; [exact E|]. split.
    + rewrite Hrow. reflexivity.
    + rewrite Hmap. apply set_eq. intros x. set_solver.
Defined.

End StorageFacts.

(** * Objects: pending inserts, unchanged values, removal *)

Module DDBObjectsFacts.
Import Database DatabaseFacts Storage StorageFacts DDBObjects.

Section queue.
Context {Value SqlValue SchemaItem World : Type} `{!EqDecision Value}.
Local Abbreviation App' := (App Value SqlValue SchemaItem World).

Lemma list_remove_last (x : DDBObject Value) l :
  exists l', list_remove x (l ++ [x]) = Ok l' /\ l' ≡ₚ l /\ (x ∉ l -> l' = l).
Proof.
  induction l as [|y l (l' & IH & Hp & Hn)]; simpl.
  - exists []. by rewrite bool_decide_eq_true_2.
  - case_bool_decide as Hy.
    + subst y. exists (l ++ [x]). split; [done|]. split.
      * by rewrite <- Permutation_cons_append.
      * intros Hx. exfalso. apply Hx. left.
    + rewrite IH. simpl. exists (y :: l'). split; [done|]. split.
      * by rewrite Hp.
      * intros Hx. rewrite Hn; [done|]. intros Hin. apply Hx. by right.
Qed.

(** X13.  An insert that is still pending is cancelled by the removal.
    When an object of a known class is queued with [add_insert] and then
    given to [add_remove] before the commit, both calls return, the object
    is taken out of the insert queue of its table again (the queue holds
    the entries it held, and is the same list when the object was not
    queued before), its id is no longer pending, nothing is queued for
    removal, no table of the storage is touched, and the object is
    forgotten. *)
Theorem pending_insert_is_cancelled_by_remove
    (obj : DDBObject Value) (app : App') (table : string) :
  db_table_name (db app) (klass obj) = Ok table ->
  let m := bulk_sql_manager app in
  let queue := default [] (to_insert m !! table) in
  exists app1 app2 queue',
    add_insert obj app = Ok app1
    /\ add_remove obj app1 = Ok app2
    /\ to_insert (bulk_sql_manager app2) !! table = Some queue'
    /\ queue' ≡ₚ queue /\ (obj ∉ queue -> queue' = queue)
    /\ (forall t, t <> table ->
          to_insert (bulk_sql_manager app2) !! t = to_insert m !! t)
    /\ will_insert (bulk_sql_manager app2) (id obj) = false
    /\ pending_inserts (bulk_sql_manager app2) = pending_inserts m ∖ {[id obj]}
    /\ to_remove (bulk_sql_manager app2) = to_remove m
    /\ pending_removes (bulk_sql_manager app2) = pending_removes m
    /\ tables (db app2) = tables (db app)
    /\ _object_map (db app2) = _object_map (db app) ∖ {[(id obj, table)]}.
Proof.
  intros Ht m queue.
  destruct (list_remove_last obj queue) as (queue' & Hrm & Hp & Hn).
  unfold add_insert. rewrite Ht. cbn [mbind Result_bind].
  eexists. exists
    {| db := {| tables := tables (db app);
                _schema_map := _schema_map (db app);
                _object_map := _object_map (db app) ∖ {[(id obj, table)]};
                _quitting_from_operational_error :=
                  _quitting_from_operational_error (db app) |};
       bulk_sql_manager :=
         {| active := active m;
            to_insert := <[table := queue']> (to_insert m);
            to_remove := to_remove m;
            pending_inserts := pending_inserts m ∖ {[id obj]};
            pending_removes := pending_removes m |};
       world := world app |}, queue'.
  split; [reflexivity|]. split.
  { unfold add_remove. simpl. rewrite Ht. cbn [mbind Result_bind].
    unfold will_insert. simpl.
    rewrite bool_decide_eq_true_2 by set_solver.
    rewrite lookup_insert_eq. fold m. fold queue. rewrite Hrm.
    cbn [mbind Result_bind]. f_equal. f_equal. f_equal.
    - by rewrite insert_insert_eq.
    - set_solver. }
  simpl. split; [by rewrite lookup_insert_eq|]. split; [done|].
  split; [done|]. split.
  { intros t Hne. by rewrite lookup_insert_ne. }
  split; [|done].
  unfold will_insert. simpl. apply bool_decide_eq_false. set_solver.
Qed.

End queue.

Section facts.
Context {Value SqlValue SchemaItem World : Type} `{!EqDecision Value}
  `{!EqDecision SchemaItem}.
Local Abbreviation App' := (App Value SqlValue SchemaItem World).
Variable is_simple : SchemaItem -> bool.
Variable validate : SchemaItem -> Value -> bool.
Variable to_sql : string -> string -> SchemaItem -> Value -> SqlValue.
Variable BOGUS_VALUE_FOO : Value.
Variable check_constraints : DDBObject Value -> bool.
Variable on_signal_change : DDBObject Value -> App' -> DDBObject Value * App'.
Variable update_view_trackers : DDBObject Value -> App' -> Result App'.
Variable removed_from_db : DDBObject Value -> App' -> Result App'.
Variable remove_from_view_trackers : DDBObject Value -> App' -> Result App'.

Local Abbreviation signal :=
  (signal_change is_simple validate to_sql check_constraints on_signal_change
     update_view_trackers).
Local Abbreviation set_attr := (__set__ BOGUS_VALUE_FOO).

Lemma unchanged_sets obj fs table :
  changed_attributes obj = ∅ ->
  forall b, b ∈ (expected_sets is_simple to_sql table fs obj).*1 ->
            exists item, (b, item) ∈ fs /\ is_simple item = false.
Proof.
  intros Hclean b Hb.
  apply expected_names in Hb as (item & Hin & Hw).
  exists item. split; [done|]. unfold written in Hw. rewrite Hclean in Hw.
  destruct (is_simple item); [|done]. simpl in Hw.
  by rewrite bool_decide_eq_false_2 in Hw by apply not_elem_of_empty.
Qed.

Lemma reset_clean (obj : DDBObject Value) :
  changed_attributes obj = ∅ -> reset_changed_attributes obj = obj.
Proof. destruct obj. simpl. by intros ->. Qed.

Lemma set_attr_same a (obj : DDBObject Value) v :
  __dict__ obj !! a = Some v -> set_attr a obj v = obj.
Proof.
  intros Ha. destruct obj as [k i dict ch init]. unfold __set__. simpl in *.
  rewrite Ha. simpl. rewrite bool_decide_eq_false_2 by (intros H; by apply H).
  by rewrite insert_id.
Qed.

Lemma saved_id_exists (app : App') obj obj_schema row :
  saved is_simple validate app obj obj_schema row ->
  id_exists (db app) obj = true.
Proof.
  intros [_ _ _ Hschema _ Hrow _]. unfold id_exists. rewrite Hschema.
  apply orb_true_iff. right. apply bool_decide_eq_true.
  unfold row_of in Hrow.
  destruct (tables (db app) !! table_name obj_schema) as [rows|]; [|done].
  simpl in *. by rewrite Hrow.
Qed.

(** X14.  Assigning the value an attribute already has writes nothing.
    For a saved object, assigning to a tracked attribute the value it
    holds leaves the object as it is ([changed_attributes] stays empty),
    and [signal_change] then leaves every column of a simple schema item
    of its row as it was; when all columns of the schema are simple, no
    UPDATE is issued and the storage is untouched.  The view trackers are
    told all the same. *)
Theorem unchanged_assignment_writes_nothing
    (app : App') (obj : DDBObject Value) (obj_schema : ObjectSchema SchemaItem)
    (row : gmap string SqlValue) (a : string) (v : Value) :
  let table := table_name obj_schema in
  saved is_simple validate app obj obj_schema row ->
  on_signal_change obj app = (obj, app) ->
  check_constraints obj = true ->
  __dict__ obj !! a = Some v ->
  set_attr a obj v = obj
  /\ exists d',
       signal true (set_attr a obj v) app
       = (app' ← update_view_trackers obj (with_db d' app); Ok (app', obj))
       /\ (forall b item_b,
             (b, item_b) ∈ fields obj_schema -> is_simple item_b = true ->
             exists row', row_of d' table (id obj) = Some row'
                          /\ row' !! b = row !! b)
       /\ ((forall b item_b, (b, item_b) ∈ fields obj_schema ->
                             is_simple item_b = true) ->
           d' = db app).
Proof.
  intros table Hsaved Hhook Hcheck Ha.
  pose proof (saved_id_exists _ _ _ _ Hsaved) as Hex.
  destruct Hsaved as [Hlive Hnp Hclean Hschema Hnd Hrow Hcomp].
  rewrite (set_attr_same a obj v Ha). split; [done|].
  assert (setters_and_values is_simple validate to_sql table
            (fields obj_schema) obj
          = Ok (expected_sets is_simple to_sql table (fields obj_schema) obj))
    as Hsets.
  { apply setters_expected. intros name item Hin Hw.
    apply (Hcomp name item Hin). unfold written in Hw. rewrite Hclean in Hw.
    destruct (is_simple item); [|done]. simpl in Hw.
    by rewrite bool_decide_eq_false_2 in Hw by apply not_elem_of_empty. }
  pose proof (unchanged_sets obj (fields obj_schema) table Hclean) as Hnames.
  set (sets := expected_sets is_simple to_sql table (fields obj_schema) obj)
    in *.
  assert (forall b item_b, (b, item_b) ∈ fields obj_schema ->
            is_simple item_b = true -> b ∉ sets.*1) as Hsimple.
  { intros b item_b Hin Hs Hb. apply Hnames in Hb as (item & Hin' & Hns).
    rewrite (fields_functional _ b item item_b Hnd Hin' Hin) in Hns.
    congruence. }
  assert (exists d',
            update_obj is_simple validate to_sql (db app) obj = Ok (d', obj)
            /\ (forall b item_b,
                  (b, item_b) ∈ fields obj_schema -> is_simple item_b = true ->
                  exists row', row_of d' table (id obj) = Some row'
                               /\ row' !! b = row !! b)
            /\ ((forall b item_b, (b, item_b) ∈ fields obj_schema ->
                                  is_simple item_b = true) ->
                d' = db app)) as (d' & Hupd & Hrows & Hall).
  { unfold update_obj. rewrite Hschema. fold table. rewrite Hsets.
    cbn [mbind Result_bind]. rewrite (reset_clean obj Hclean).
    destruct sets as [|[k0 v0] sets'] eqn:Esets.
    { exists (db app). split; [done|]. split; [|done].
      intros b item_b _ _. by exists row. }
    destruct (_quitting_from_operational_error (db app)).
    { exists (db app). split; [done|]. split.
      - intros b item_b _ _. by exists row.
      - intros Hs. exfalso.
        destruct (Hnames k0) as (item & Hin & Hns);
          [rewrite fmap_cons; apply list_elem_of_here|].
        rewrite (Hs k0 item Hin) in Hns. congruence. }
    unfold row_of in Hrow. change (table_name obj_schema) with table in Hrow.
    destruct (tables (db app) !! table) as [rows|] eqn:Erows;
      [|by cbn in Hrow].
    simpl in Hrow. cbn -[apply_setters]. rewrite Hrow.
    eexists. split; [done|]. split.
    - intros b item_b Hin Hs. unfold row_of. cbn -[apply_setters].
      rewrite lookup_insert_eq. cbn -[apply_setters]. rewrite lookup_insert_eq.
      eexists. split; [done|]. apply apply_setters_notin.
      by apply (Hsimple b item_b).
    - intros Hs. exfalso.
      destruct (Hnames k0) as (item & Hin & Hns);
          [rewrite fmap_cons; apply list_elem_of_here|].
      rewrite (Hs k0 item Hin) in Hns. congruence. }
  exists d'. split; [|split; [exact Hrows|exact Hall]].
  unfold signal_change. rewrite Hlive, Hex. simpl. rewrite Hhook, Hcheck.
  simpl. rewrite Hnp, Hupd. done.
Qed.

(** X15.  A removed object can no longer be saved.  Outside a bulk
    transaction, in a storage that is not quitting after an operational
    error and with handlers that leave the storage alone, [remove] deletes
    the row of the object and forgets it; a later [signal_change] on the
    object writes nothing: it raises [DatabaseConstraintError], except on
    an object still inside its constructor ([in_db_init] set: it was
    removed by [setup_new] or [setup_restored], and [__init__] returned
    early), where it returns at once, leaving everything as it is. *)
Theorem signal_change_after_remove_raises
    (obj : DDBObject Value) (app app' : App')
    (obj_schema : ObjectSchema SchemaItem) (needs_save : bool) :
  active (bulk_sql_manager app) = false ->
  _quitting_from_operational_error (db app) = false ->
  _schema_map (db app) !! klass obj = Some obj_schema ->
  (forall o a1 a2, removed_from_db o a1 = Ok a2 -> db a2 = db a1) ->
  (forall o a1 a2, remove_from_view_trackers o a1 = Ok a2 -> db a2 = db a1) ->
  remove removed_from_db remove_from_view_trackers obj app = Ok app' ->
  row_of (db app') (table_name obj_schema) (id obj) = None
  /\ ((id obj, table_name obj_schema) ∉ _object_map (db app'))
  /\ signal needs_save obj app'
     = if in_db_init obj then Ok (app', obj)
       else Raise DatabaseConstraintError.
Proof.
  intros Hact Hq Hschema Hrm Hvt Hremove.
  unfold remove in Hremove. rewrite Hact in Hremove. simpl in Hremove.
  unfold remove_obj in Hremove. rewrite Hschema in Hremove.
  unfold forget_object, db_table_name in Hremove.
  destruct (execute_delete_facts (db app) (table_name obj_schema) [id obj] Hq)
    as (E1 & E2 & _ & _ & E5).
  rewrite E1, Hschema in Hremove. cbn [mbind Result_bind] in Hremove.
  destruct (removed_from_db obj _) as [a1|e] eqn:Ea1; [|done].
  cbn [mbind Result_bind] in Hremove.
  apply Hrm in Ea1. apply Hvt in Hremove. rewrite Hremove, Ea1. simpl.
  assert (row_of
            (with_object_map
               (_object_map
                  (execute_delete (db app) (table_name obj_schema) [id obj])
                ∖ {[(id obj, table_name obj_schema)]})
               (execute_delete (db app) (table_name obj_schema) [id obj]))
            (table_name obj_schema) (id obj) = None) as Hrow.
  { unfold row_of. simpl. specialize (E5 (id obj)). unfold row_of in E5.
    rewrite E5. by rewrite bool_decide_eq_true_2 by apply list_elem_of_here. }
  split; [exact Hrow|]. split; [set_solver|].
  unfold signal_change. destruct (in_db_init obj); [done|].
  assert (id_exists app'.(db) obj = false) as ->; [|done].
  unfold id_exists. rewrite Hremove, Ea1. simpl. rewrite E1, Hschema.
  apply orb_false_iff. split.
  - apply bool_decide_eq_false. set_solver.
  - apply bool_decide_eq_false. intros [r Hr].
    unfold row_of in Hrow. simpl in Hrow.
    destruct (tables _ !! table_name obj_schema) as [rows|]; simpl in *.
    + by rewrite Hrow in Hr.
    + by rewrite lookup_empty in Hr.
Qed.

End facts.

Lemma pending_insert_is_cancelled_by_remove_witness :
  exists app1 app2,
    add_insert (sample_object false) (sample_app false) = Ok app1
    /\ add_remove (sample_object false) app1 = Ok app2
    /\ to_insert (bulk_sql_manager app2) !! "item" = Some []
    /\ will_insert (bulk_sql_manager app2) 1 = false.
Proof.
  destruct (pending_insert_is_cancelled_by_remove (sample_object false)
              (sample_app false) "item" eq_refl)
    as (app1 & app2 & queue' & H1 & H2 & H3 & _ & H4 & _ & H5 & _).
  exists app1, app2. split; [exact H1|]. split; [exact H2|].
  split; [|exact H5]. rewrite H3, H4; [reflexivity|]. apply not_elem_of_nil.
Defined.

Lemma unchanged_assignment_writes_nothing_witness :
  sample_set_attr "a" (sample_object false) 10 = sample_object false
  /\ sample_signal_change true (sample_set_attr "a" (sample_object false) 10)
       (sample_app false)
     = Ok (sample_app false, sample_object false).
Proof.
  destruct (unchanged_assignment_writes_nothing (World := unit)
              (fun simple : bool => simple) (fun _ (_ : Z) => true)
              (fun _ _ _ (v : Z) => v) (-1)%Z (fun _ => true)
              (fun obj app => (obj, app)) (fun _ app => Ok app)
              (sample_app false) (sample_object false) sample_schema
              {["a" := 10%Z; "b" := 20%Z]} "a" 10%Z)
    as (Hset & d' & Hsig & _ & Hall).
  - exact sample_saved.
  - reflexivity.
  - reflexivity.
  - reflexivity.
  - split; [exact Hset|]. unfold sample_signal_change, sample_set_attr.
    rewrite Hsig.
    rewrite Hall; [reflexivity|]. intros b item_b Hin.
    apply elem_of_cons in Hin as [Hin|Hin]; [by injection Hin as -> ->|].
    apply elem_of_cons in Hin as [Hin|Hin]; [by injection Hin as -> ->|].
    by apply elem_of_nil in Hin.
Defined.

Lemma signal_change_after_remove_raises_witness :
  (exists app',
     remove (fun _ app => Ok app) (fun _ app => Ok app) (sample_object false)
       (sample_app false) = Ok app'
     /\ sample_signal_change true (sample_object false) app'
        = Raise DatabaseConstraintError)
  /\ (exists app',
        remove (fun _ app => Ok app) (fun _ app => Ok app) (sample_object true)
          (sample_app false) = Ok app'
        /\ sample_signal_change true (sample_object true) app'
           = Ok (app', sample_object true)).
Proof.
  split.
  - eexists. split; [reflexivity|].
    eapply proj2, proj2, (signal_change_after_remove_raises (World := unit)
             (fun simple : bool => simple) (fun _ (_ : Z) => true)
             (fun _ _ _ (v : Z) => v) (fun _ => true)
             (fun obj app => (obj, app)) (fun _ app => Ok app)
             (fun _ app => Ok app) (fun _ app => Ok app)
             (sample_object false) (sample_app false) _ sample_schema true).
    + reflexivity.
    + reflexivity.
    + reflexivity.
    + by intros o a1 a2 [= ->].
    + by intros o a1 a2 [= ->].
    + reflexivity.
  - eexists. split; [reflexivity|].
    eapply proj2, proj2, (signal_change_after_remove_raises (World := unit)
             (fun simple : bool => simple) (fun _ (_ : Z) => true)
             (fun _ _ _ (v : Z) => v) (fun _ => true)
             (fun obj app => (obj, app)) (fun _ app => Ok app)
             (fun _ app => Ok app) (fun _ app => Ok app)
             (sample_object true) (sample_app false) _ sample_schema true).
    + reflexivity.
    + reflexivity.
    + reflexivity.
    + by intros o a1 a2 [= ->].
    + by intros o a1 a2 [= ->].
    + reflexivity.
Defined.

End DDBObjectsFacts.

(** * HTTP downloads: pause, stop, start again, failures *)

Module HTTPControlFacts.
Import Download DownloadFacts HTTPControl.

Open Scope Z_scope.

Lemma update_stats_spec h w :
  let '(h', w') := update_stats h w in
  url (base h') = url (base h) /\ filename (base h') = filename (base h)
  /\ state (base h') = state (base h) /\ dlid (base h') = dlid (base h)
  /\ retryCount (base h') = retryCount (base h)
  /\ retryDC (base h') = retryDC (base h)
  /\ totalSize (base h') = totalSize (base h)
  /\ client h' = client h /\ restartOnError h' = restartOnError h
  /\ files w' = files w /\ http_calls w' = http_calls w
  /\ (forall dc c, timeouts w !! dc = Some c -> timeouts w' !! dc = Some c)
  /\ (client h = None -> h' = h /\ w' = w).
Proof.
  unfold update_stats. destruct (client h) eqn:Hc; simpl;
    [|by rewrite Hc].
  case_bool_decide; simpl; [by rewrite Hc|].
  case_bool_decide; simpl; repeat split; try done;
    intros dc c' Hdc; by apply lookup_app_l_Some.
Qed.

Lemma cancel_timeout_keeps dc w :
  files (cancel_timeout dc w) = files w
  /\ http_calls (cancel_timeout dc w) = http_calls w
  /\ to_update (cancel_timeout dc w) = to_update w.
Proof. done. Qed.

Lemma cancel_request_spec remove_file h w :
  let '(h', w') := cancel_request remove_file h w in
  client h' = None /\ retryDC (base h') = None
  /\ url (base h') = url (base h) /\ filename (base h') = filename (base h)
  /\ state (base h') = state (base h) /\ dlid (base h') = dlid (base h)
  /\ retryCount (base h') = retryCount (base h)
  /\ totalSize (base h') = totalSize (base h)
  /\ restartOnError h' = restartOnError h
  /\ files w' = files w
  /\ http_calls w'
     = http_calls w
       ++ match client h with
          | Some _ => [CancelTransfer (url (base h)) remove_file]
          | None => []
          end.
Proof.
  unfold cancel_request. destruct (client h) as [c|] eqn:Hc.
  - unfold destroy_client.
    pose proof (update_stats_spec h
      (with_http_calls
         (http_calls w ++ [CancelTransfer (url (base h)) remove_file]) w)) as H.
    destruct (update_stats h _) as [h1 w1].
    destruct H as (H1 & H2 & H3 & H4 & H5 & H6 & H7 & H8 & H9 & H10 & H11 & _).
    simpl in *. destruct (retryDC (base h1)) eqn:Hdc; simpl;
      rewrite ?Hdc; done.
  - destruct (retryDC (base h)) eqn:Hdc; simpl;
      by rewrite ?Hc, ?Hdc, ?app_nil_r.
Qed.

Lemma resume_sanity_check_spec h w :
  0 <= currentSize (base h) ->
  exists w',
    _resume_sanity_check h w
    = Ok (match files w !! filename (base h) with
          | Some n => bool_decide (currentSize (base h) <= n)
          | None => false
          end, w')
    /\ http_calls w' = http_calls w /\ timeouts w' = timeouts w
    /\ to_update w' = to_update w
    /\ (forall p, p <> filename (base h) -> files w' !! p = files w !! p)
    /\ (forall n, files w !! filename (base h) = Some n ->
                  currentSize (base h) <= n ->
                  files w' !! filename (base h) = Some (currentSize (base h)))
    /\ (files w !! filename (base h) = None -> files w' = files w).
Proof.
  intros Hpos. unfold _resume_sanity_check.
  destruct (files w !! filename (base h)) as [n|] eqn:Hn.
  - destruct (Z.ltb_spec (currentSize (base h)) n) as [Hlt|Hge].
    + unfold truncate_file.
      destruct (Z.ltb_spec (currentSize (base h)) 0) as [?|_]; [lia|].
      simpl. eexists. split.
      { by rewrite bool_decide_eq_true_2 by lia. }
      simpl. repeat split; try done.
      * intros p Hp. by rewrite lookup_insert_ne.
      * intros ? _ _. by rewrite lookup_insert_eq.
    + destruct (Z.ltb_spec n (currentSize (base h))) as [Hlt|Hge'].
      * exists w. rewrite bool_decide_eq_false_2 by lia.
        repeat split; try done. intros n' [= <-] ?. lia.
      * exists w. rewrite bool_decide_eq_true_2 by lia.
        repeat split; try done. intros n' [= <-] ?. rewrite Hn. f_equal. lia.
  - exists w. repeat split; done.
Qed.

(** [start] on a downloader that is paused, stopped or offline and has no
    pending retry. *)
Lemma start_spec cl h w :
  state (base h) = paused \/ state (base h) = stopped
  \/ state (base h) = offline ->
  retryDC (base h) = None ->
  0 <= currentSize (base h) ->
  let flag := match files w !! filename (base h) with
              | Some n => bool_decide (currentSize (base h) <= n)
              | None => false
              end in
  exists h2 w2,
    start true cl h w = Ok (h2, w2)
    /\ state (base h2) = downloading /\ client h2 = Some cl
    /\ restartOnError h2 = restartOnError h
    /\ http_calls w2
       = http_calls w ++ [GrabUrl (url (base h)) (filename (base h)) flag]
    /\ (forall n, files w !! filename (base h) = Some n ->
                  currentSize (base h) <= n ->
                  files w2 !! filename (base h) = Some (currentSize (base h)))
    /\ (files w !! filename (base h) = None -> files w2 = files w).
Proof.
  intros Hst Hdc Hpos flag. unfold start.
  rewrite bool_decide_eq_true_2 by done.
  unfold start_download. simpl. rewrite Hdc.
  destruct (resume_sanity_check_spec
              (with_base (with_state downloading (base h)) h) w Hpos)
    as (w' & -> & Hc & Ht & Hu & Hother & Hsame & Hnone).
  simpl in *. fold flag.
  match goal with |- context [update_stats ?a ?b] =>
    pose proof (update_stats_spec a b) as Hs;
    destruct (update_stats a b) as [h2 w2] end.
  destruct Hs as (H1 & H2 & H3 & H4 & H5 & H6 & H7 & H8 & H9 & H10 & H11 & _).
  simpl in *. exists h2, w2. split; [done|].
  rewrite H3, H8, H9, H11, Hc. repeat split; try done.
  - intros n Hn Hle. rewrite H10. simpl. by apply (Hsame n).
  - intros Hn. rewrite H10. simpl. by apply Hnone.
Qed.

(** X16.  A paused download resumes where it stopped.  [pause] on a
    download that is not stopped cancels the transfer without asking for
    the file to be removed, cancels a pending retry, leaves the files
    alone and ends in the state paused.  A following [start] asks for the
    URL again, resuming exactly when the partial file holds at least the
    bytes counted so far, and then the file has been cut to that count;
    the download is in the state downloading with the new client. *)
Theorem pause_then_start_resumes (cl : HTTPClient) (h : HTTPDownloader)
    (w : World) :
  let hp := (pause h w).1 in
  let wp := (pause h w).2 in
  let path := filename (base h) in
  let size := currentSize (base hp) in
  let resume := match files w !! path with
                | Some n => bool_decide (size <= n)
                | None => false
                end in
  state (base h) <> stopped ->
  0 <= size ->
  state (base hp) = paused /\ client hp = None /\ retryDC (base hp) = None
  /\ files wp = files w
  /\ http_calls wp
     = http_calls w ++ match client h with
                       | Some _ => [CancelTransfer (url (base h)) false]
                       | None => []
                       end
  /\ dlid (base h) ∈ to_update wp
  /\ exists h2 w2,
       start true cl hp wp = Ok (h2, w2)
       /\ state (base h2) = downloading /\ client h2 = Some cl
       /\ http_calls w2 = http_calls wp ++ [GrabUrl (url (base h)) path resume]
       /\ (resume = true -> files w2 !! path = Some size).
Proof.
  intros hp wp path size resume. subst resume size path wp hp.
  intros Hst Hpos.
  unfold pause in *. rewrite bool_decide_eq_true_2 in * by done.
  pose proof (cancel_request_spec false h w) as Hc.
  destruct (cancel_request false h w) as [h1 w1].
  destruct Hc as (C1 & C2 & C3 & C4 & C5 & C6 & C7 & C8 & C9 & C10 & C11).
  simpl in *. split; [done|]. split; [done|]. split; [done|].
  split; [done|]. split; [done|]. split; [set_solver|].
  destruct (start_spec cl (with_base (with_state paused (base h1)) h1)
              (update_client (with_state paused (base h1)) w1))
    as (h2 & w2 & E & S1 & S2 & _ & S4 & S5 & _); simpl; try done.
  { by left. }
  simpl in *. exists h2, w2. rewrite C3, C4, C10 in *.
  split; [done|]. split; [done|]. split; [done|]. split; [done|].
  destruct (files w !! filename (base h)) as [n|] eqn:Hn; [|done].
  intros Hle%bool_decide_eq_true. by apply (S5 n).
Qed.

Lemma pause_then_start_resumes_witness :
  exists h2 w2,
    start true sample_client (pause running_http sample_world).1
      (pause running_http sample_world).2 = Ok (h2, w2)
    /\ last (http_calls w2)
       = Some (GrabUrl "http://example.com/movie.mp4"
                 "/movies/Incomplete Downloads/movie.mp4.part" true)
    /\ files w2 !! "/movies/Incomplete Downloads/movie.mp4.part" = Some 300.
Proof.
  destruct (pause_then_start_resumes sample_client running_http sample_world)
    as (_ & _ & _ & _ & _ & _ & h2 & w2 & E & _ & _ & Hc & Hf).
  - discriminate.
  - vm_compute. discriminate.
  - exists h2, w2. split; [exact E|]. split.
    + rewrite Hc. apply last_snoc.
    + apply Hf. reflexivity.
Defined.

(** X17.  A stopped download never resumes into old data.  [stop] on a
    download that has not finished cancels the transfer asking for the
    partial file to be removed, and ends in the state stopped with
    [currentSize] 0.  A following [start] asks for the URL again, and it
    asks to resume only when the file is there, in which case the file has
    been cut to 0 bytes. *)
Theorem stop_then_start_restarts (isdir : World -> string -> bool)
    (rmtree : string -> World -> Result World) (delete : bool)
    (cl : HTTPClient) (h : HTTPDownloader) (w : World) :
  state (base h) <> finished ->
  exists hs ws,
    stop isdir rmtree delete h w = Ok (hs, ws)
    /\ state (base hs) = stopped /\ currentSize (base hs) = 0
    /\ client hs = None /\ retryDC (base hs) = None
    /\ http_calls ws
       = http_calls w ++ match client h with
                         | Some _ => [CancelTransfer (url (base h)) true]
                         | None => []
                         end
    /\ dlid (base h) ∈ to_update ws
    /\ exists h2 w2 resume,
         start true cl hs ws = Ok (h2, w2)
         /\ state (base h2) = downloading /\ client h2 = Some cl
         /\ http_calls w2
            = http_calls ws
              ++ [GrabUrl (url (base h)) (filename (base h)) resume]
         /\ (resume = true -> files w2 !! filename (base h) = Some 0)
         /\ (files w !! filename (base h) = None -> resume = false).
Proof.
  intros Hst. unfold stop. rewrite bool_decide_eq_false_2 by done.
  pose proof (cancel_request_spec true h w) as Hc.
  destruct (cancel_request true h w) as [h1 w1].
  destruct Hc as (C1 & C2 & C3 & C4 & C5 & C6 & C7 & C8 & C9 & C10 & C11).
  cbn [mbind Result_bind]. eexists _, _. split; [reflexivity|]. simpl.
  split; [done|]. split; [done|]. split; [done|]. split; [done|].
  split; [done|]. split; [set_solver|].
  match goal with |- context [start true cl ?a ?b] =>
    destruct (start_spec cl a b) as (h2 & w2 & E & S1 & S2 & _ & S4 & S5 & S6)
  end; simpl; try done.
  { right. by left. }
  simpl in *. rewrite C3, C4, C10 in *. exists h2, w2. eexists.
  split; [exact E|]. split; [done|]. split; [done|]. split; [exact S4|].
  destruct (files w !! filename (base h)) as [n|] eqn:Hn; [|done].
  split; [|done]. intros Hle%bool_decide_eq_true. by apply (S5 n).
Qed.

Lemma stop_then_start_restarts_witness :
  exists hs ws h2 w2,
    stop (fun _ _ => false) (fun _ w => Ok w) false running_http sample_world
    = Ok (hs, ws)
    /\ start true sample_client hs ws = Ok (h2, w2)
    /\ files w2 !! "/movies/Incomplete Downloads/movie.mp4.part" = Some 0.
Proof.
  destruct (stop_then_start_restarts (fun _ _ => false) (fun _ w => Ok w)
              false sample_client running_http sample_world)
    as (hs & ws & E1 & _ & _ & _ & _ & _ & _ & h2 & w2 & resume & E2 & _ & _
        & Hc & Hf & _).
  - discriminate.
  - exists hs, ws, h2, w2. split; [exact E1|]. split; [exact E2|].
    injection E1 as <- <-. apply Hf.
    vm_compute in E2. injection E2 as _ E2. rewrite <- E2 in Hc.
    vm_compute in Hc. by injection Hc as <-.
Defined.

Lemma handle_temporary_error_ok now short reason b w :
  -1 <= retryCount b ->
  exists b' w' delay,
    handle_temporary_error now short reason b w = Ok (b', w')
    /\ state b' = offline /\ dlid b' = dlid b
    /\ retryDC b' = Some (length (timeouts w))
    /\ timeouts w' !! length (timeouts w)
       = Some {| dc_delay := delay; dc_callback := retry_download_of (dlid b);
                 dc_name := "Logarithmic retry"; dc_cancelled := false |}
    /\ dlid b ∈ to_update w'.
Proof.
  intros Hrc. unfold handle_temporary_error.
  set (count2 := if len RETRY_TIMES <=? retryCount b + 1
                 then len RETRY_TIMES - 1 else retryCount b + 1).
  assert (0 <= count2 < 8) as Hc2.
  { unfold count2. change (len RETRY_TIMES) with 8.
    destruct (Z.leb_spec 8 (retryCount b + 1)); lia. }
  assert (exists delay, getitem RETRY_TIMES count2 = Ok delay) as [delay ->].
  { unfold getitem. destruct (Z.ltb_spec count2 0) as [?|_]; [lia|].
    destruct (Z.ltb_spec count2 0) as [?|_]; [lia|].
    destruct (RETRY_TIMES !! Z.to_nat count2) as [x|] eqn:E; [by exists x|].
    apply lookup_ge_None in E. simpl in E. lia. }
  cbn [mbind Result_bind]. unfold add_timeout. simpl.
  eexists _, _, delay. split; [reflexivity|]. simpl.
  split; [done|]. split; [done|]. split; [done|]. split; [|set_solver].
  by rewrite lookup_app_r, Nat.sub_diag by lia.
Qed.

Lemma destroy_client_spec h w :
  let '(h', w') := destroy_client h w in
  client h' = None /\ dlid (base h') = dlid (base h)
  /\ retryCount (base h') = retryCount (base h)
  /\ state (base h') = state (base h)
  /\ restartOnError h' = restartOnError h.
Proof.
  unfold destroy_client. pose proof (update_stats_spec h w) as H.
  destruct (update_stats h w) as [h1 w1].
  by destruct H as (_ & _ & H3 & H4 & H5 & _ & _ & _ & H9 & _).
Qed.

Lemma handle_network_error_ends now error h w :
  -1 <= retryCount (base h) ->
  exists h' w',
    HTTP_handle_network_error now error h w = Ok (h', w')
    /\ dlid (base h') = dlid (base h)
    /\ (state (base h') = offline \/ state (base h') = failed)
    /\ (error_class error = OtherNetworkError ->
        state (base h') = offline
        /\ exists dc delay,
             retryDC (base h') = Some dc
             /\ timeouts w' !! dc
                = Some {| dc_delay := delay;
                          dc_callback := retry_download_of (dlid (base h));
                          dc_name := "Logarithmic retry";
                          dc_cancelled := false |}).
Proof.
  intros Hrc. unfold HTTP_handle_network_error.
  destruct (error_class error) eqn:Hclass;
    try (destruct (HTTP_handle_error_spec (getFriendlyDescription error)
                     (getLongDescription error) h w)
           as (h' & w' & -> & Hst & _ & _ & _ & Hid & _);
         cbn [mbind Result_bind]; eexists _, _; split; [reflexivity|];
         simpl; split; [done|]; split; [by right|done]).
  - unfold HTTP_handle_temporary_error.
    pose proof (cancel_request_spec false h w) as Hc.
    destruct (cancel_request false h w) as [h1 w1].
    destruct Hc as (_ & _ & _ & _ & _ & C6 & C7 & _).
    destruct (handle_temporary_error_ok now (getFriendlyDescription error)
                (getLongDescription error) (base h1) w1)
      as (b' & w' & delay & -> & Hst & Hid & Hdc & Ht & _); [lia|].
    cbn [mbind Result_bind]. eexists _, _. split; [reflexivity|]. simpl.
    split; [congruence|]. split; [by left|]. intros _. split; [done|].
    exists (length (timeouts w1)), delay. split; [done|]. by rewrite Ht, C6.
  - destruct (HTTP_handle_error_spec (error_str error) (error_str error) h w)
      as (h' & w' & -> & Hst & _ & _ & _ & Hid & _).
    eexists _, _. split; [reflexivity|]. split; [done|]. split; [by right|done].
Qed.

(** X18.  A transfer that ends without a single byte is not reported
    finished.  When the client reports success and [currentSize] is 0 once
    the last statistics are in, [on_download_finished] hands the case to
    [handle_network_error]: the download ends offline or failed, never
    finished; with a temporary error class it is offline with a retry
    scheduled.  The file is not moved to the movies directory, whatever
    that method would do, and a status update is queued. *)
Theorem empty_download_is_not_finished
    (move_to_movies_directory :
       BGDownloader -> World -> Result (BGDownloader * World))
    (clock_ now : Z) (no_content : Error) (h : HTTPDownloader) (w : World) :
  currentSize (base (destroy_client h w).1) = 0 ->
  -1 <= retryCount (base h) ->
  exists h' w',
    on_download_finished move_to_movies_directory clock_ now no_content h w
    = Ok (h', w')
    /\ (state (base h') = offline \/ state (base h') = failed)
    /\ dlid (base h) ∈ to_update w'
    /\ (error_class no_content = OtherNetworkError ->
        state (base h') = offline
        /\ exists dc delay,
             retryDC (base h') = Some dc
             /\ timeouts w' !! dc
                = Some {| dc_delay := delay;
                          dc_callback := retry_download_of (dlid (base h));
                          dc_name := "Logarithmic retry";
                          dc_cancelled := false |})
    /\ forall move,
         on_download_finished move clock_ now no_content h w = Ok (h', w').
Proof.
  intros Hsize Hrc. unfold on_download_finished.
  pose proof (destroy_client_spec h w) as Hd.
  destruct (destroy_client h w) as [h1 w1]. simpl in Hsize.
  destruct Hd as (_ & Hid & Hrc1 & _).
  cbn [base with_base currentSize with_endTime with_state].
  rewrite Hsize. cbn [Z.eqb].
  match goal with |- context [HTTP_handle_network_error now no_content ?a w1] =>
    destruct (handle_network_error_ends now no_content a w1)
      as (h' & w' & -> & Hid' & Hst & Htemp) end.
  { simpl. lia. }
  simpl in Hid', Htemp. cbn [mbind Result_bind].
  eexists _, _. split; [reflexivity|]. simpl.
  split; [done|]. split; [rewrite Hid', Hid; set_solver|].
  split; [|done]. rewrite <- Hid. exact Htemp.
Qed.

Lemma empty_download_is_not_finished_witness :
  exists h' w',
    on_download_finished (fun b w => Ok (b, w)) 50 1000 no_content_error
      {| base := sample_base; client := Some empty_client;
         restartOnError := false; expectedContentType := None |}
      sample_world = Ok (h', w')
    /\ state (base h') = offline.
Proof.
  destruct (empty_download_is_not_finished (fun b w => Ok (b, w)) 50 1000
              no_content_error
              {| base := sample_base; client := Some empty_client;
                 restartOnError := false; expectedContentType := None |}
              sample_world)
    as (h' & w' & E & _ & _ & Hoff & _).
  - reflexivity.
  - vm_compute. discriminate.
  - exists h', w'. split; [exact E|]. by apply Hoff.
Defined.

(** X19.  [restartOnError] buys exactly one restart.  When a transfer of a
    download with [restartOnError] set fails with an error that is neither
    a failed resume nor a cancelled authorization, [on_download_error]
    asks for the URL again, clears the flag and leaves the state alone; the
    next such error goes to [handle_network_error].  Headers that
    [on_headers] accepts clear the flag as well: after them the download
    is either failed for lack of disk space or no longer restarted. *)
Theorem restart_on_error_is_one_shot (isdir : World -> string -> bool)
    (rmtree : string -> World -> Result World)
    (clean_filename : string -> string)
    (check_filename_extension : string -> option string -> string)
    (cfg : Config) (now : Z) (cl : HTTPClient) (e : Error)
    (h : HTTPDownloader) (w : World) :
  restartOnError h = true ->
  0 <= currentSize (base h) ->
  (exists h1 w1 resume,
     on_download_error isdir rmtree now cl (OtherError e) h w = Ok (h1, w1)
     /\ restartOnError h1 = false
     /\ state (base h1) = state (base h)
     /\ client h1 = Some cl
     /\ http_calls w1
        = http_calls w ++ [GrabUrl (url (base h)) (filename (base h)) resume]
     /\ forall e' cl',
          on_download_error isdir rmtree now cl' (OtherError e') h1 w1
          = HTTP_handle_network_error now e' (destroy_client h1 w1).1
              (destroy_client h1 w1).2)
  /\ (forall info h' w',
        on_headers clean_filename check_filename_extension cfg info h w
        = Ok (h', w') ->
        state (base h') = failed \/ restartOnError h' = false).
Proof.
  intros Hflag Hpos. split.
  - unfold on_download_error at 1. rewrite Hflag.
    unfold start_download.
    set (hw := match retryDC (base (with_restartOnError false h)) with
               | Some dc => _ | None => _ end).
    assert (restartOnError hw.1 = false /\ base hw.1 = base hw.1
            /\ currentSize (base hw.1) = currentSize (base h)
            /\ state (base hw.1) = state (base h)
            /\ url (base hw.1) = url (base h)
            /\ filename (base hw.1) = filename (base h)
            /\ http_calls hw.2 = http_calls w) as (F1 & _ & F3 & F4 & F5 & F6 & F7).
    { unfold hw. simpl. by destruct (retryDC (base h)). }
    destruct hw as [h0 w0]. simpl in *.
    destruct (resume_sanity_check_spec h0 w0) as (w' & -> & Hc & _); [lia|].
    cbn [mbind Result_bind].
    match goal with |- context [update_stats ?a ?b] =>
      pose proof (update_stats_spec a b) as Hs;
      destruct (update_stats a b) as [h1 w1] end.
    destruct Hs as (H1 & H2 & H3 & H4 & H5 & H6 & H7 & H8 & H9 & H10 & H11 & _).
    simpl in *. exists h1, w1. eexists. split; [reflexivity|].
    split; [congruence|]. split; [congruence|]. split; [done|].
    split; [by rewrite H11, Hc, F7, F5, F6|].
    intros e' cl'. unfold on_download_error.
    assert (restartOnError h1 = false) as -> by congruence.
    by destruct (destroy_client h1 w1).
  - intros info h' w'. unfold on_headers.
    set (h0 := match hdr_total_size info with Some _ => _ | None => _ end).
    destruct (accept_download_size cfg (totalSize (base h0))); simpl.
    + destruct (hdr_filename info); [|done]. intros [= <- <-]. by right.
    + destruct (HTTP_handle_error_spec "Not enough disk space"
                  (not_enough_disk_space (totalSize (base h0))) h0 w)
        as (h2 & w2 & -> & Hst & _). intros [= <- <-]. by left.
Qed.

Lemma restart_on_error_is_one_shot_witness :
  exists h1 w1,
    on_download_error (fun _ _ => false) (fun _ w => Ok w) 1000 sample_client
      (OtherError no_content_error) running_http sample_world = Ok (h1, w1)
    /\ restartOnError h1 = false.
Proof.
  destruct (restart_on_error_is_one_shot (fun _ _ => false) (fun _ w => Ok w)
              (fun name => name) (fun name _ => name) sample_config 1000
              sample_client no_content_error running_http sample_world)
    as [(h1 & w1 & resume & E & Hflag & _) _].
  - reflexivity.
  - vm_compute. discriminate.
  - exists h1, w1. split; [exact E|exact Hflag].
Defined.


End HTTPControlFacts.

(** * The torrent registry *)

Module TorrentSessionFacts.
Import Download DownloadFacts.

Open Scope Z_scope.

Lemma bytes_value_snoc l b :
  bytes_value (l ++ [b]) = 256 * bytes_value l + code b.
Proof. unfold bytes_value. by rewrite fold_left_app. Qed.

Lemma code_inj c1 c2 : code c1 = code c2 -> c1 = c2.
Proof. intros H. by rewrite <- (chr_code c1), <- (chr_code c2), H. Qed.

Lemma bytes_value_inj l1 l2 :
  length l1 = length l2 -> bytes_value l1 = bytes_value l2 -> l1 = l2.
Proof.
  revert l2. induction l1 as [|b1 l1 IH] using rev_ind; intros l2 Hlen Hv.
  - destruct l2; [done|discriminate].
  - destruct l2 as [|b2 l2 _] using rev_ind.
    { rewrite length_app in Hlen. simpl in Hlen. lia. }
    rewrite !length_app in Hlen. simpl in Hlen.
    rewrite !bytes_value_snoc in Hv.
    pose proof (code_range b1). pose proof (code_range b2).
    assert (bytes_value l1 = bytes_value l2 /\ code b1 = code b2)
      as [Hv' Hc] by lia.
    rewrite (IH l2), (code_inj b1 b2); [done|done|lia|done].
Qed.

Lemma list_ascii_inj s1 s2 :
  String.list_ascii_of_string s1 = String.list_ascii_of_string s2 -> s1 = s2.
Proof.
  intros H.
  by rewrite <- (String.string_of_list_ascii_of_string s1),
    <- (String.string_of_list_ascii_of_string s2), H.
Qed.

Lemma nonempty_same_length (h1 h2 : string) :
  h1 <> "" -> String.length h2 = String.length h1 -> h2 <> "".
Proof. intros Hne Hlen ->. by destruct h1. Qed.

(** X20.  No false duplicates among hashes of one length.  Registering a
    torrent with [add_torrent] does not change what
    [find_duplicate_torrent] answers for a torrent whose info hash has
    the same length and differs: two distinct info hashes never share a
    key of the registry. *)
Theorem registering_keeps_other_hashes (ses : TorrentSession) (dlid_ : Z)
    (th : TorrentHandle) (torrent_info : TorrentInfo) :
  th_info_hash th <> "" ->
  String.length (ti_info_hash torrent_info) = String.length (th_info_hash th) ->
  ti_info_hash torrent_info <> th_info_hash th ->
  exists ses1,
    add_torrent ses dlid_ th = Ok ses1
    /\ find_duplicate_torrent ses1 torrent_info
       = find_duplicate_torrent ses torrent_info.
Proof.
  intros Hne Hlen Hdiff.
  pose proof (nonempty_same_length _ _ Hne Hlen) as Hne'.
  unfold add_torrent, find_duplicate_torrent.
  rewrite !info_hash_to_long_big_number by done.
  cbn [mbind Result_bind]. eexists. split; [reflexivity|]. simpl.
  rewrite lookup_insert_ne; [done|]. intros Heq. apply Hdiff. symmetry.
  apply list_ascii_inj, bytes_value_inj; [|done].
  by rewrite <- !string_length_list.
Qed.

Lemma registering_keeps_other_hashes_witness :
  exists ses1,
    add_torrent sample_session 2 {| th_info_hash := "ABCDEFGHIJKLMNOPQRST" |}
    = Ok ses1
    /\ find_duplicate_torrent ses1
         {| ti_info_hash := sample_hash; total_size := 1000 |}
       = find_duplicate_torrent sample_session
           {| ti_info_hash := sample_hash; total_size := 1000 |}.
Proof.
  apply (registering_keeps_other_hashes sample_session 2
           {| th_info_hash := "ABCDEFGHIJKLMNOPQRST" |}
           {| ti_info_hash := sample_hash; total_size := 1000 |}).
  - discriminate.
  - reflexivity.
  - discriminate.
Defined.

(** X21.  A torrent that was shut down is no duplicate any more.  After
    [add_torrent] registered a downloader, [_shutdown_torrent] on it
    takes it out of the session and deletes the key of its info hash
    (even when the key belonged to another downloader before), and drops
    the handle; [find_duplicate_torrent] then finds nothing for that info
    hash, so the torrent can be started again. *)
Theorem shutdown_unregisters (ses ses1 : TorrentSession) (d : BTDownloader)
    (th : TorrentHandle) :
  th_info_hash th <> "" ->
  torrent d = Some th ->
  add_torrent ses (dlid (bt_base d)) th = Ok ses1 ->
  let key := bytes_value (String.list_ascii_of_string (th_info_hash th)) in
  exists ses2,
    _shutdown_torrent d ses1 = (bt_with_torrent None (info_hash d) d, ses2)
    /\ torrents ses2 = torrents ses ∖ {[dlid (bt_base d)]}
    /\ info_hash_to_downloader ses2 = delete key (info_hash_to_downloader ses)
    /\ forall torrent_info,
         ti_info_hash torrent_info = th_info_hash th ->
         find_duplicate_torrent ses2 torrent_info = Ok None.
Proof.
  intros Hne Ht Hadd key. unfold add_torrent in Hadd.
  rewrite info_hash_to_long_big_number in Hadd by done.
  cbn [mbind Result_bind] in Hadd. injection Hadd as <-.
  unfold _shutdown_torrent, remove_torrent. simpl.
  rewrite bool_decide_eq_true_2 by set_solver. rewrite Ht.
  rewrite info_hash_to_long_big_number by done. fold key.
  rewrite lookup_insert_eq. eexists. split; [reflexivity|]. simpl.
  split; [set_solver|]. split; [by rewrite delete_insert_eq|].
  intros ti Hti. unfold find_duplicate_torrent. rewrite Hti.
  rewrite info_hash_to_long_big_number by done. simpl. fold key.
  by rewrite lookup_delete_eq.
Qed.

Lemma shutdown_unregisters_witness :
  exists ses2 d',
    _shutdown_torrent
      (bt_with_torrent (Some {| th_info_hash := sample_hash |}) None
         sample_torrent)
      {| torrents := {[2]} ∪ ∅;
         info_hash_to_downloader :=
           <[bytes_value (String.list_ascii_of_string sample_hash) := 2]> ∅ |}
    = (d', ses2)
    /\ find_duplicate_torrent ses2
         {| ti_info_hash := sample_hash; total_size := 1000 |} = Ok None.
Proof.
  destruct (shutdown_unregisters
              {| torrents := ∅; info_hash_to_downloader := ∅ |}
              {| torrents := {[2]} ∪ ∅;
                 info_hash_to_downloader :=
                   <[bytes_value (String.list_ascii_of_string sample_hash)
                     := 2]> ∅ |}
              (bt_with_torrent (Some {| th_info_hash := sample_hash |}) None
                 sample_torrent)
              {| th_info_hash := sample_hash |})
    as (ses2 & E & _ & _ & Hdup).
  - discriminate.
  - reflexivity.
  - vm_compute. reflexivity.
  - exists ses2. eexists. split; [exact E|]. by apply Hdup.
Defined.

End TorrentSessionFacts.

(** * The extractor's answers *)

Module MovieDataCallbacksFacts.
Import MovieData MovieDataCallbacks.

Open Scope Z_scope.

(** X22.  Every request is answered once.  After [request_update] has
    started the extractor for an item, the answer, be it [callback] or
    [errback], returns, takes the item out of the set in progress, which
    is then what it was before the request, and reports the path as
    processed when the application has a progress updater; the item can
    be requested again.  An answer for an item that is not in progress
    raises [KeyError], so a second answer to the same request does. *)
Theorem extraction_round_trip (env : Env) (w : World) (u : MovieDataUpdater)
    (it : Item) (m : Media) (result : option string * option Z * bool) :
  in_unit_tests env && negb (testing_mdp env) = false ->
  in_shutdown u = false ->
  item_id it ∉ in_progress u ->
  _should_process_item it = true ->
  item_id (item m) = item_id it ->
  let u1 := (request_update env u it).1.1 in
  let mdi := new_info env it in
  let reported :=
    if metadata_progress_updater w then [PathProcessed (get_filename it)]
    else [] in
  item_id it ∈ in_progress u1
  /\ (exists m' out, callback w u1 result mdi m = Ok (u, m', out ++ reported))
  /\ (exists m' out, errback w u1 mdi m = Ok (u, m', out ++ reported))
  /\ callback w u result mdi m = Raise KeyError
  /\ errback w u mdi m = Raise KeyError.
Proof.
  intros Htest Hshut Hprog Hproc Hid u1 mdi reported.
  assert (u1 = with_in_progress ({[item_id it]} ∪ in_progress u) u) as ->.
  { unfold u1, request_update. rewrite Htest, Hshut.
    rewrite bool_decide_eq_false_2 by done. rewrite Hproc.
    unfold with_in_progress. by rewrite Hshut. }
  assert (with_in_progress
            (({[item_id it]} ∪ in_progress u) ∖ {[item_id it]})
            (with_in_progress ({[item_id it]} ∪ in_progress u) u) = u) as Hback.
  { destruct u as [sh prog]. unfold with_in_progress. simpl in *. f_equal.
    apply set_eq. intros x. set_solver. }
  destruct result as [[mediatype duration_] got].
  split; [simpl; set_solver|]. split; [|split; [|split]].
  - unfold callback, update_finished. rewrite Hid. simpl.
    rewrite bool_decide_eq_true_2 by set_solver.
    fold (with_in_progress (({[item_id it]} ∪ in_progress u) ∖ {[item_id it]})
            (with_in_progress ({[item_id it]} ∪ in_progress u) u)).
    rewrite Hback. destruct (id_exists w (item_id it)); by eexists _, _.
  - unfold errback, update_failed. rewrite Hid. simpl.
    rewrite bool_decide_eq_true_2 by set_solver.
    fold (with_in_progress (({[item_id it]} ∪ in_progress u) ∖ {[item_id it]})
            (with_in_progress ({[item_id it]} ∪ in_progress u) u)).
    rewrite Hback. destruct (id_exists w (item_id it)); by eexists _, _.
  - unfold callback, update_finished. rewrite Hid.
    by rewrite bool_decide_eq_false_2.
  - unfold errback, update_failed. rewrite Hid.
    by rewrite bool_decide_eq_false_2.
Qed.

Lemma extraction_round_trip_witness :
  exists m' out,
    callback sample_world (request_update sample_env new_updater sample_video).1.1
      (Some "audio", Some 120, true) (new_info sample_env sample_video)
      {| item := sample_video; screenshot := None |}
    = Ok (new_updater, m', out ++ [PathProcessed "/movies/clip.avi"]).
Proof.
  destruct (extraction_round_trip sample_env sample_world new_updater
              sample_video {| item := sample_video; screenshot := None |}
              (Some "audio", Some 120, true))
    as (_ & (m' & out & E) & _).
  - reflexivity.
  - reflexivity.
  - apply not_elem_of_empty.
  - reflexivity.
  - reflexivity.
  - exists m', out. exact E.
Defined.

(** X23.  What an answer stores.  When [callback] returns for an item
    that is in progress and still exists, the item is marked as run and
    its kind is never left unset: it is [other] when the item is still
    flagged as possibly DRM-protected, else [video] when the path ends in
    [.flv], else the kind the extractor reported, and the text [None]
    when it reported none.  The flag is cleared exactly when a duration
    other than -1 arrived; the screenshot is the thumbnail path when a
    screenshot was taken and the file exists, else it is unset. *)
Theorem callback_stores_kind (w : World) (u u' : MovieDataUpdater)
    (mediatype : option string) (duration_ : option Z) (got_screenshot : bool)
    (mdi : MovieDataInfo) (m m' : Media) (out : list Effect) :
  id_exists w (item_id (item m)) = true ->
  callback w u (mediatype, duration_, got_screenshot) mdi m
  = Ok (u', m', out) ->
  let measured := match duration_ with
                  | Some d => bool_decide (d <> -1)
                  | None => false
                  end in
  mdp_state (item m') = RAN
  /\ has_drm (item m') = (if measured then Some false else has_drm (item m))
  /\ file_type (item m')
     = Some (if truth (has_drm (item m')) then "other"
             else if bool_decide
                       (CommandLine.splitext_ext (video_path mdi) = ".flv")
                  then "video"
                  else default "None" mediatype)
  /\ screenshot m'
     = (if file_exists w (thumbnail_path mdi) && got_screenshot
        then Some (thumbnail_path mdi) else None)
  /\ SignalChange (item_id (item m)) ∈ out
  /\ in_progress u' = in_progress u ∖ {[item_id (item m)]}.
Proof.
  intros Hex Hcb measured. unfold callback, update_finished in Hcb.
  rewrite Hex in Hcb.
  case_bool_decide as Hin; [|done]. cbn [mbind Result_bind] in Hcb.
  injection Hcb as <- <- <-. unfold measured. simpl.
  split; [done|]. split; [by destruct duration_ as [d|]; [case_bool_decide|]|].
  split; [|split; [done|split; [set_solver|done]]].
  unfold unicode.
  by destruct (truth _); [|case_bool_decide].
Qed.

Lemma callback_stores_kind_witness :
  exists u' m' out,
    callback sample_world {| in_shutdown := false; in_progress := {[5]} |}
      (None, None, false)
      {| mdi_item := 5; video_path := "/movies/clip.avi";
         thumbnail_path := "/icons/clip.png" |}
      {| item := sample_video; screenshot := None |} = Ok (u', m', out)
    /\ file_type (item m') = Some "None".
Proof.
  eexists _, _, _. split; [reflexivity|].
  eapply proj1, proj2, proj2,
    (callback_stores_kind sample_world
       {| in_shutdown := false; in_progress := {[5]} |} _ None None false
       {| mdi_item := 5; video_path := "/movies/clip.avi";
          thumbnail_path := "/icons/clip.png" |}
       {| item := sample_video; screenshot := None |}).
  - reflexivity.
  - reflexivity.
Defined.

End MovieDataCallbacksFacts.

(** * The command line: prefixes, playback, the queue *)

Module CommandLineQueueFacts.
Import CommandLine CommandLineFacts CommandLineQueue.

Lemma substring_all (s : string) : String.substring 0 (String.length s) s = s.
Proof. induction s as [|c s IH]; simpl; [done|by rewrite IH]. Qed.

Lemma strip_file_prefix (p : string) :
  startswith ("file://" +:+ p) "file://" = true
  /\ strip_prefix "file://" ("file://" +:+ p) = p.
Proof.
  change ("file://" +:+ p)
    with (String "f" (String "i" (String "l" (String "e" (String ":"
            (String "/" (String "/" p))))))).
  split; [unfold startswith; simpl; by destruct p|].
  unfold strip_prefix. simpl.
  rewrite Nat.sub_0_r. apply substring_all.
Qed.

Lemma add_torrent_in_actions items path hash a :
  a ∈ add_torrent_in items path hash ->
  is_add_video a = false /\ is_play_movie a = false
  /\ a <> ResetCommandLineView.
Proof.
  induction items as [|i items IH]; simpl.
  - intros ->%list_elem_of_singleton. done.
  - destruct (downloader i) as [dl|]; [|done].
    case_bool_decide; [|done].
    intros [->|Hin]%elem_of_cons; [done|].
    case_bool_decide; [|by apply elem_of_nil in Hin].
    by apply list_elem_of_singleton in Hin as ->.
Qed.

Lemma classify_actions env arg out v :
  classify env arg = Ok (out, v) ->
  v = existsb is_add_video out
  /\ existsb is_play_movie out = false
  /\ ResetCommandLineView ∉ out.
Proof.
  unfold classify.
  repeat (match goal with
          | |- context [if ?b then _ else _] => destruct b
          | |- context [match get_torrent_info_hash ?e ?a with _ => _ end] =>
              destruct (get_torrent_info_hash e a) as [h|[]]
          end;
          try (intros [= <- <-]; split; [done|]; split; [done|];
               intros Hin; repeat (apply elem_of_cons in Hin as [Hin|Hin];
                                   [discriminate Hin|]);
               by apply elem_of_nil in Hin);
          try done).
  intros [= <- <-].
  assert (forall a, a ∈ add_torrent env arg h ->
            is_add_video a = false /\ is_play_movie a = false
            /\ a <> ResetCommandLineView) as Hall
    by (intros a; apply add_torrent_in_actions).
  induction (add_torrent env arg h) as [|a l IH]; [by split; [|split; [|set_solver]]|].
  destruct (Hall a) as (H1 & H2 & H3); [left|].
  destruct IH as (I1 & I2 & I3); [intros b Hb; apply Hall; by right|].
  simpl. rewrite H1, H2. simpl. split; [done|]. split; [done|].
  intros [Heq|Hin]%elem_of_cons; [by apply H3|by apply I3].
Qed.

Lemma classify_all_actions env args out v :
  classify_all env args = Ok (out, v) ->
  v = existsb is_add_video out
  /\ existsb is_play_movie out = false
  /\ ResetCommandLineView ∉ out.
Proof.
  revert out v. induction args as [|arg args IH]; intros out v; simpl.
  - intros [= <- <-]. split; [done|]. split; [done|]. apply not_elem_of_nil.
  - destruct (classify env arg) as [[out1 v1]|] eqn:E1; [|done]. simpl.
    destruct (classify_all env args) as [[out2 v2]|] eqn:E2; [|done]. simpl.
    intros [= <- <-].
    destruct (classify_actions _ _ _ _ E1) as (-> & H2 & H3).
    destruct (IH _ _ eq_refl) as (-> & I2 & I3).
    rewrite !existsb_app, H2, I2. split; [done|]. split; [done|].
    intros [?|?]%elem_of_app; auto.
Qed.

(** X24.  A [file://] prefix is dropped before the arguments are looked
    at.  Once the application has started, arguments given as
    [file://path] are handled exactly like the bare paths (none of which
    starts with [file://]); an argument that still starts with [file://]
    after one prefix was dropped is ignored without a warning. *)
Theorem file_prefix_is_transparent (env : Env) (m : Module_)
    (args : list string) :
  _started_up m = true ->
  Forall (fun arg => startswith arg "file://" = false) args ->
  parse_command_line_args env m ((fun arg => "file://" +:+ arg) <$> args)
  = parse_command_line_args env m args
  /\ forall rest,
       parse_command_line_args env m ["file://file://" +:+ rest]
       = Ok (m, [ResetCommandLineView]).
Proof.
  intros Hs Hargs. unfold parse_command_line_args. rewrite Hs.
  cbn [negb]. split.
  - match goal with |- context [?f <$> (?g <$> args)] =>
      assert (f <$> (g <$> args) = f <$> args) as ->; [|done] end.
    rewrite <- list_fmap_compose.
    apply Forall_fmap_ext, Forall_forall. intros arg Harg.
    unfold compose.
    destruct (strip_file_prefix arg) as [-> ->].
    rewrite Forall_forall in Hargs. by rewrite (Hargs arg Harg).
  - intros rest.
    change ("file://file://" +:+ rest) with ("file://" +:+ ("file://" +:+ rest)).
    rewrite list_fmap_singleton.
    destruct (strip_file_prefix ("file://" +:+ rest)) as [-> ->].
    cbn [classify_all]. unfold classify.
    by destruct (strip_file_prefix rest) as [-> _].
Qed.

Lemma file_prefix_is_transparent_witness :
  parse_command_line_args sample_env started ["file:///tmp/clip.avi"]
  = parse_command_line_args sample_env started ["/tmp/clip.avi"].
Proof.
  apply (file_prefix_is_transparent sample_env started ["/tmp/clip.avi"]).
  - reflexivity.
  - repeat constructor.
Defined.

Lemma no_play_movie (acts : list Action) :
  existsb is_play_movie acts = false ->
  filter (fun a => is_play_movie a) acts = [] /\ PlayMovie ∉ acts.
Proof.
  induction acts as [|a acts IH]; simpl.
  - intros _. split; [done|apply not_elem_of_nil].
  - intros [Ha Hrest]%orb_false_iff. destruct (IH Hrest) as [Hf Hn].
    rewrite filter_cons_False by (rewrite Ha; apply Is_true_false; done).
    split; [done|].
    intros [<-|Hin]%elem_of_cons; [done|by apply Hn].
Qed.

(** X25.  Playback is asked for once, at the end, and only for videos.
    When [parse_command_line_args] returns after startup, the view is
    reset first; [PlayMovie] is sent exactly when some argument was added
    as a video and videos are played in Miro, and then it is the last
    action and is sent once. *)
Theorem play_movie_only_for_added_videos (env : Env) (m m' : Module_)
    (args : list string) (out : list Action) :
  _started_up m = true ->
  parse_command_line_args env m args = Ok (m', out) ->
  m' = m
  /\ head out = Some ResetCommandLineView
  /\ (PlayMovie ∈ out
      <-> PLAY_IN_MIRO env = true /\ exists path, AddVideo path ∈ out)
  /\ (PlayMovie ∈ out -> last out = Some PlayMovie)
  /\ (length (filter (fun a => is_play_movie a) out) <= 1)%nat.
Proof.
  intros Hs. unfold parse_command_line_args. rewrite Hs. simpl.
  destruct (classify_all env _) as [[acts v]|] eqn:E; [|done]. simpl.
  intros [= <- <-]. split; [done|]. split; [done|].
  destruct (classify_all_actions _ _ _ _ E) as (-> & Hplay & _).
  destruct (no_play_movie acts Hplay) as [Hfil Hnot].
  assert (existsb is_add_video acts = true
          <-> exists path, AddVideo path ∈ acts) as Hvid.
  { rewrite existsb_exists. split.
    - intros ([] & Hin & Hv); try done. eexists. by apply list_elem_of_In.
    - intros (path & Hin). exists (AddVideo path).
      split; [by apply list_elem_of_In|done]. }
  destruct (existsb is_add_video acts) eqn:Hv; simpl.
  - destruct (PLAY_IN_MIRO env); simpl.
    + split; [|split].
      * split; [intros _|set_solver]. split; [done|].
        destruct Hvid as [(path & Hin) _]; [done|]. exists path. set_solver.
      * intros _. rewrite app_comm_cons. apply last_snoc.
      * rewrite filter_cons_False by (by apply Is_true_false).
        rewrite filter_app, Hfil, app_nil_l.
        rewrite filter_cons_True by done. rewrite filter_nil. simpl. lia.
    + rewrite app_nil_r. split; [|split].
      * split; [set_solver|]. by intros [? _].
      * set_solver.
      * rewrite filter_cons_False by (by apply Is_true_false). rewrite Hfil. simpl. lia.
  - rewrite app_nil_r. split; [|split].
    + split; [set_solver|]. intros [_ (path & Hin)].
      apply elem_of_cons in Hin as [?|Hin]; [done|].
      assert (false = true) by (apply Hvid; eauto). done.
    + set_solver.
    + rewrite filter_cons_False by (by apply Is_true_false). rewrite Hfil. simpl. lia.
Qed.

Lemma play_movie_only_for_added_videos_witness :
  exists out,
    parse_command_line_args sample_env started
      ["/tmp/clip.avi"; "/tmp/list.opml"] = Ok (started, out)
    /\ last out = Some PlayMovie.
Proof.
  eexists. split; [reflexivity|].
  eapply (play_movie_only_for_added_videos sample_env started started
            ["/tmp/clip.avi"; "/tmp/list.opml"]).
  - reflexivity.
  - reflexivity.
  - vm_compute. apply list_elem_of_further, list_elem_of_further,
      list_elem_of_further, list_elem_of_here.
Defined.

(** X26.  Arguments that arrive before startup are run once.  Whatever
    [set_command_line_args] and [parse_command_line_args] are given
    before the application has started is only queued, in the order
    given; [startup] runs the whole queue as one call of
    [parse_command_line_args] would after startup, and empties it: a
    second [startup] does nothing but reset the view. *)
Theorem queued_arguments_run_once (env : Env) (m : Module_)
    (args1 args2 : list string) :
  _started_up m = false ->
  let m1 := set_command_line_args args1 m in
  exists m2,
    parse_command_line_args env m1 args2 = Ok (m2, [])
    /\ _started_up m2 = false
    /\ _command_line_args m2 = _command_line_args m ++ args1 ++ args2
    /\ startup env m2
       = ('(_, out) ← parse_command_line_args env started
                        (_command_line_args m ++ args1 ++ args2);
          Ok (started, out))
    /\ forall m3 out,
         startup env m2 = Ok (m3, out) ->
         m3 = started
         /\ startup env m3 = Ok (started, [ResetCommandLineView]).
Proof.
  intros Hs m1.
  destruct (startup_replays env m1 args2) as (m2 & E & Hargs & Hstart);
    [done|].
  exists m2. split; [done|].
  assert (_started_up m2 = false) as Hs2.
  { unfold parse_command_line_args in E. simpl in E. rewrite Hs in E.
    simpl in E. by injection E as <-. }
  split; [done|]. simpl in Hargs, Hstart.
  rewrite <- app_assoc in Hargs, Hstart.
  split; [done|]. rewrite Hstart. split; [done|].
  intros m3 out. destruct (parse_command_line_args env started _)
    as [[m' out']|]; [|done].
  simpl. by intros [= <- <-].
Qed.

Lemma queued_arguments_run_once_witness :
  exists m2,
    parse_command_line_args sample_env
      (set_command_line_args ["/tmp/clip.avi"]
         {| _started_up := false; _command_line_args := [] |})
      ["/tmp/list.opml"] = Ok (m2, [])
    /\ startup sample_env m2
       = Ok (started, [ResetCommandLineView; AddVideo "/tmp/clip.avi";
                       ImportSubscriptions "/tmp/list.opml" false;
                       PlayMovie]).
Proof.
  destruct (queued_arguments_run_once sample_env
              {| _started_up := false; _command_line_args := [] |}
              ["/tmp/clip.avi"] ["/tmp/list.opml"] eq_refl)
    as (m2 & E & _ & _ & Hstart & _).
  exists m2. split; [exact E|]. rewrite Hstart. reflexivity.
Defined.

End CommandLineQueueFacts.

(** * The first list of a hand-picked tracker *)

Module ItemTrackersFacts.
Import MessageHandler ViewTrackerFacts SignalStreams ViewTrackerFlush
  ItemTrackers.

Section facts.
Context {Fields : Type} `{!EqDecision Fields}.
Variable fetch_all : list Z -> list Obj.
Implicit Types (h : Heap Fields) (lsi : gmap Z (Info Fields)).

Lemma make_changed_list_nil h lsi objs :
  (_make_changed_list h lsi objs).2 = []
  <-> forall o, o ∈ objs -> lsi !! obj_id o = Some (info_factory h o).
Proof.
  revert lsi. induction objs as [|o objs IH]; intros lsi; simpl.
  - split; [by intros _ o ?%elem_of_nil|done].
  - case_bool_decide as Hd.
    + destruct (_make_changed_list h _ objs) as [l2 is2]. simpl.
      split; [done|]. intros Hall. exfalso.
      specialize (Hall o (list_elem_of_here _ _)).
      destruct Hd as [Hd|Hd]; congruence.
    + rewrite IH. split.
      * intros Hall o' [->|Ho']%elem_of_cons; [|by apply Hall].
        destruct (lsi !! obj_id o) as [x|] eqn:E.
        -- destruct (decide (x = info_factory h o)) as [->|Hne]; [done|].
           exfalso. apply Hd. right. congruence.
        -- exfalso. apply Hd. by left.
      * intros Hall o' Ho'. apply Hall. by right.
Qed.

Lemma elem_of_concat {A} (x : A) (ls : list (list A)) :
  x ∈ concat ls <-> exists l, x ∈ l /\ l ∈ ls.
Proof.
  induction ls as [|l ls IH]; simpl.
  - split; [by intros ?%elem_of_nil|by intros (? & _ & ?%elem_of_nil)].
  - rewrite elem_of_app, IH. split.
    + intros [?|(l' & ? & ?)]; [exists l; split; [done|left]|].
      exists l'. split; [done|by right].
    + intros (l' & Hx & [->|?]%elem_of_cons); [by left|right; eauto].
Qed.

Lemma chunk_members {A} size (l : list A) (c : list A) (x : A) :
  (0 < size)%nat -> c ∈ Storage.chunks size l -> x ∈ c -> x ∈ l.
Proof.
  intros Hs Hc Hx.
  destruct (StorageFacts.chunks_spec size l Hs) as [<- _].
  apply elem_of_concat. by exists c.
Qed.

(** X27.  The first list of a hand-picked tracker.  A
    [ManualItemTracker] built from the infos it was handed asks the
    database in chunks of at most 950 ids; if every view returns only
    items whose id is in its chunk, [send_initial_list] never raises (each
    id it deletes from [_last_sent_info] is there), and afterwards
    [_last_sent_info] holds exactly the ids of the items fetched.  Nothing
    is sent exactly when every item fetched equals the info handed over
    for its id and every id handed over was fetched; otherwise one message
    lists the changed infos and the ids that are gone, and no added
    ones. *)
Theorem manual_tracker_initial_list (h : Heap Fields) (info_list : list Obj) :
  let t := manual_init h info_list in
  let infos := fetched fetch_all t in
  (forall ids o, o ∈ fetch_all ids -> obj_id o ∈ ids) ->
  exists t' out,
    manual_send_initial_list fetch_all h t = Ok (t', out)
    /\ sent_initial_list t' = true
    /\ (forall i, is_Some (_last_sent_info (tracker t') !! i)
                  <-> i ∈ (obj_id <$> infos))
    /\ (out = []
        <-> (forall o, o ∈ infos ->
               _last_sent_info (tracker t) !! obj_id o
               = Some (info_factory h o))
            /\ (forall i, i ∈ id_list t -> i ∈ (obj_id <$> infos)))
    /\ (forall m, SendToFrontend m ∈ out ->
          out = [SendToFrontend m] /\ msg_added m = []
          /\ (forall i, i ∈ msg_removed m
                        <-> i ∈ id_list t /\ i ∉ (obj_id <$> infos))
          /\ (forall x, x ∈ msg_changed m ->
                        exists o, o ∈ infos /\ x = info_factory h o)).
Proof.
  intros t infos Hview.
  assert (forall i, i ∈ (obj_id <$> infos) -> i ∈ id_list t) as Hsub.
  { intros i (o & -> & Ho)%list_elem_of_fmap.
    apply elem_of_concat in Ho as (l & Ho & Hl).
    apply list_elem_of_fmap in Hl as (ids & -> & Hids).
    eapply (chunk_members 950); [lia|exact Hids|]. by apply Hview. }
  assert (forall i, is_Some (_last_sent_info (tracker t) !! i)
                    <-> i ∈ id_list t) as Hdom0.
  { intros i. simpl. rewrite make_added_list_dom, lookup_empty.
    split; [intros [[? ?]|?]; done|by right]. }
  clearbody t. unfold manual_send_initial_list. fold infos.
  pose proof (make_changed_list_dom h (_last_sent_info (tracker t)) infos)
    as Hdom1.
  pose proof (make_changed_list_nil h (_last_sent_info (tracker t)) infos)
    as Hnil.
  pose proof (make_changed_list_from h (_last_sent_info (tracker t)) infos)
    as Hfrom.
  destruct (_make_changed_list h (_last_sent_info (tracker t)) infos)
    as [lsi1 changed_]. simpl in Hdom1, Hnil, Hfrom.
  set (removed_set := list_to_set (id_list t) ∖ list_to_set (obj_id <$> infos)
                      : gset Z).
  assert (forall i, i ∈ removed_set
                    <-> i ∈ id_list t /\ i ∉ (obj_id <$> infos)) as Hrem.
  { intros i. unfold removed_set.
    by rewrite elem_of_difference, !elem_of_list_to_set. }
  unfold _make_removed_list.
  destruct (del_all_ok lsi1 (elements removed_set)) as [lsi2 Hdel].
  { apply NoDup_elements. }
  { intros i Hi%elem_of_elements%Hrem. apply Hdom1. left.
    apply Hdom0. tauto. }
  rewrite Hdel. cbn [mbind Result_bind]. eexists _, _.
  split; [reflexivity|]. cbn [sent_initial_list tracker]. split; [done|].
  split; [|split].
  - intros i. simpl. destruct (decide (i ∈ elements removed_set)) as [Hi|Hi].
    + rewrite (del_all_gone _ _ _ _ Hdel Hi).
      apply elem_of_elements, Hrem in Hi. split; [by intros [? ?]|tauto].
    + rewrite (del_all_lookup _ _ _ _ Hdel Hi), Hdom1, Hdom0.
      rewrite elem_of_elements, Hrem in Hi. split; [|by right].
      intros [Hin|Hin]; [|done].
      destruct (decide (i ∈ obj_id <$> infos)); tauto.
  - rewrite <- Hnil. case_bool_decide as Hne.
    + split; [done|]. intros [Hc Hall]. exfalso.
      destruct Hne as [Hne|Hne]; [done|]. apply Hne.
      apply elements_empty_iff, elem_of_equiv_empty.
      intros i Hi%Hrem. destruct Hi as [Hi Hni]. by apply Hni, Hall.
    + split; [|done]. intros _.
      split; [by destruct changed_; [|exfalso; apply Hne; left]|].
      intros i Hi. destruct (decide (i ∈ obj_id <$> infos)) as [|Hni]; [done|].
      exfalso. apply Hne. right. intros Hnil'.
      assert (i ∈ elements removed_set) as Hin
        by (apply elem_of_elements, Hrem; tauto).
      rewrite Hnil' in Hin. by apply elem_of_nil in Hin.
  - intros m Hm. case_bool_decide; [|by apply elem_of_nil in Hm].
    apply list_elem_of_singleton in Hm. injection Hm as ->.
    split; [done|]. split; [done|]. simpl. split.
    + intros i. by rewrite elem_of_elements.
    + done.
Qed.

End facts.

Lemma manual_tracker_initial_list_witness :
  exists t' out,
    manual_send_initial_list (fun ids => filter (fun o => obj_id o ∈ ids) [o1])
      heap0 (manual_init heap0 [o1; o2]) = Ok (t', out)
    /\ (forall i, is_Some (_last_sent_info (tracker t') !! i)
                  <-> i ∈ (obj_id <$> fetched
                             (fun ids => filter (fun o => obj_id o ∈ ids) [o1])
                             (manual_init heap0 [o1; o2]))).
Proof.
  destruct (manual_tracker_initial_list
              (fun ids => filter (fun o => obj_id o ∈ ids) [o1]) heap0 [o1; o2])
    as (t' & out & E & _ & Hdom & _).
  - intros ids o Ho. by apply list_elem_of_filter in Ho as [? _].
  - exists t', out. split; [exact E|exact Hdom].
Defined.

End ItemTrackersFacts.

(** * String sets: joining and splitting *)

Module StringSetsFacts.
Import StringSets.

Lemma list_ascii_app (s1 s2 : string) :
  String.list_ascii_of_string (s1 +:+ s2)
  = String.list_ascii_of_string s1 ++ String.list_ascii_of_string s2.
Proof.
  induction s1 as [|c s1 IH]; [done|].
  change (String c s1 +:+ s2) with (String c (s1 +:+ s2)). simpl.
  by rewrite IH.
Qed.

Lemma join_chars (d : ascii) (value : list string) :
  String.list_ascii_of_string (join (String d "") value)
  = joinl d (String.list_ascii_of_string <$> value).
Proof.
  induction value as [|x value IH]; [done|].
  destruct value as [|y value]; [done|].
  change (join (String d "") (x :: y :: value))
    with (x +:+ String d "" +:+ join (String d "") (y :: value)).
  rewrite !list_ascii_app, IH. done.
Qed.

Lemma split_from_piece (d : ascii) (x t cur : list ascii) :
  d ∉ x ->
  split_from [d] 0 (x ++ t) cur = split_from [d] 0 t (reverse x ++ cur).
Proof.
  revert cur. induction x as [|c x IH]; intros cur Hd; [done|].
  apply not_elem_of_cons in Hd as [Hne Hd]. simpl.
  destruct (Ascii.eqb_spec d c) as [->|_]; [done|]. simpl.
  rewrite IH by done. by rewrite reverse_cons, <- app_assoc.
Qed.

Lemma split_from_delimiter (d : ascii) (t cur : list ascii) :
  split_from [d] 0 (d :: t) cur = reverse cur :: split_from [d] 0 t [].
Proof. simpl. by rewrite Ascii.eqb_refl. Qed.

Lemma split_joinl (d : ascii) (ls : list (list ascii)) :
  ls <> [] -> Forall (fun x => d ∉ x) ls ->
  split_from [d] 0 (joinl d ls) [] = ls.
Proof.
  intros Hne Hall. induction Hall as [|x ls Hx Hall IH]; [done|].
  destruct ls as [|y ls].
  - simpl. rewrite <- (app_nil_r x) at 1. rewrite split_from_piece by done.
    simpl. by rewrite app_nil_r, reverse_involutive.
  - change (joinl d (x :: y :: ls)) with (x ++ d :: joinl d (y :: ls)).
    rewrite split_from_piece by done. rewrite split_from_delimiter.
    rewrite app_nil_r, reverse_involutive. f_equal. by apply IH.
Qed.

(** X28.  A string set survives the storage unless it is empty.  With a
    delimiter of one character that occurs in none of the strings,
    [_string_set_from_sql] gives back the set [_string_set_to_sql] was
    given, in whatever order the set was joined; the empty set does not
    come back: it is stored as the empty text, which is read as the set
    holding the empty string. *)
Theorem string_set_round_trip (d : ascii) (value : list string) :
  let delimiter := String d "" in
  (forall s, s ∈ value -> ~ contains d s) ->
  _string_set_from_sql delimiter (_string_set_to_sql delimiter value)
  = Ok (match value with
        | [] => {[""]}
        | _ => list_to_set value
        end).
Proof.
  intros delimiter Hd. unfold _string_set_from_sql, _string_set_to_sql, split.
  rewrite bool_decide_eq_false_2 by done. cbn [mbind Result_bind].
  unfold delimiter. rewrite join_chars. simpl String.list_ascii_of_string.
  destruct value as [|x value].
  - simpl. f_equal; apply set_eq; intros s; set_solver.
  - rewrite split_joinl.
    + rewrite <- list_fmap_compose. f_equal. f_equal.
      rewrite <- (list_fmap_id (x :: value)) at 2.
      apply list_fmap_ext. intros _ s _. simpl.
      apply String.string_of_list_ascii_of_string.
    + done.
    + apply Forall_fmap, Forall_forall. intros s Hs. by apply Hd.
Qed.

Lemma string_set_round_trip_witness :
  _string_set_from_sql ":" (_string_set_to_sql ":" ["rock"; "jazz"])
  = Ok ({["rock"; "jazz"]} : gset string).
Proof.
  rewrite (string_set_round_trip ":"%char ["rock"; "jazz"]).
  - f_equal; apply set_eq; intros s; set_solver.
  - intros s Hs Hc. unfold contains in Hc.
    apply elem_of_cons in Hs as [->|Hs]; [vm_compute in Hc|].
    + repeat (apply elem_of_cons in Hc as [Hc|Hc]; [discriminate Hc|]).
      by apply elem_of_nil in Hc.
    + apply list_elem_of_singleton in Hs as ->.
      repeat (apply elem_of_cons in Hc as [Hc|Hc]; [discriminate Hc|]).
      by apply elem_of_nil in Hc.
Defined.

End StringSetsFacts.

(** * The whole tab list *)

Module TabTrackersFacts.
Import MessageHandler ViewTrackerFacts TabTrackers.

Section facts.
Context {Fields : Type} `{!EqDecision Fields}.
Implicit Types (h : Heap Fields) (lsi : gmap Z (Info Fields)).

Lemma ordered_top current (t : Tab) rest :
  get_folder t = None ->
  ordered_from current (t :: rest)
  <-> ordered_from
        (if is_folder t then Some (obj_id (tab_obj t)) else None) rest.
Proof.
  intros Htop. split.
  - intros Hord pre c post f -> Hc.
    destruct (Hord (t :: pre) c post f eq_refl Hc)
      as [[Hall _]|(pre' & folder & kids & Hpre & Hf1 & Hf2 & Hf3 & Hkids)].
    { apply Forall_cons in Hall as [Hch _]. by destruct Hch. }
    destruct pre' as [|t' pre'].
    + simpl in Hpre. injection Hpre as <- <-. left. split; [done|].
      by rewrite Hf2, Hf3.
    + simpl in Hpre. injection Hpre as <- ->. right.
      by exists pre', folder, kids.
  - intros Hord pre c post f Heq Hc.
    destruct pre as [|t' pre].
    { simpl in Heq. injection Heq as <- <-. congruence. }
    simpl in Heq. injection Heq as <- ->.
    destruct (Hord pre c post f eq_refl Hc)
      as [[Hall Hcur]|(pre' & folder & kids & -> & Hf1 & Hf2 & Hf3 & Hkids)].
    + right. exists [], t, pre. split; [done|]. split; [done|].
      destruct (is_folder t); [|done]. by injection Hcur as ->.
    + right. by exists (t :: pre'), folder, kids.
Qed.

Lemma ordered_child current (t : Tab) rest f :
  get_folder t = Some f ->
  ordered_from current (t :: rest)
  <-> current = Some f /\ ordered_from current rest.
Proof.
  intros Hch. split.
  - intros Hord. split.
    + destruct (Hord [] t rest f eq_refl Hch)
        as [[_ ?]|(pre' & ? & ? & Hpre & _)]; [done|].
      by destruct pre'.
    + intros pre c post g -> Hc.
      destruct (Hord (t :: pre) c post g eq_refl Hc)
        as [[Hall Hcur]|(pre' & folder & kids & Hpre & Hf1 & Hf2 & Hf3 & Hkids)].
      * left. by apply Forall_cons in Hall as [_ Hall].
      * destruct pre' as [|t' pre'].
        -- simpl in Hpre. injection Hpre as <- <-.
           unfold top_level in Hf1. congruence.
        -- simpl in Hpre. injection Hpre as <- ->. right.
           by exists pre', folder, kids.
  - intros [Hcur Hord] pre c post g Heq Hc.
    destruct pre as [|t' pre].
    { simpl in Heq. injection Heq as <- <-. left. split; [done|]. congruence. }
    simpl in Heq. injection Heq as <- ->.
    destruct (Hord pre c post g eq_refl Hc)
      as [[Hall Hcur']|(pre' & folder & kids & -> & Hf1 & Hf2 & Hf3 & Hkids)].
    + left. split; [|done]. apply Forall_cons. split; [|done].
      unfold child. by rewrite Hch.
    + right. by exists (t :: pre'), folder, kids.
Qed.

Lemma tab_list_loop_spec h lsi current tabs :
  (ordered_from current tabs ->
   exists calls,
     tab_list_loop h lsi current tabs
     = Ok ((_make_added_list h lsi (tab_obj <$> tabs)).1, calls)
     /\ omap call_info calls = info_factory h <$> (tab_obj <$> tabs))
  /\ (~ ordered_from current tabs ->
      tab_list_loop h lsi current tabs = Raise AssertionError).
Proof.
  revert lsi current. induction tabs as [|t tabs IH]; intros lsi current.
  { split; [by exists []|]. intros Hn. exfalso. apply Hn.
    intros pre c post f Heq. by destruct pre. }
  cbn [tab_list_loop _make_new_info].
  rewrite fmap_cons. cbn [_make_added_list _make_new_info].
  destruct (get_folder t) as [f|] eqn:Hf.
  - pose proof (ordered_child current t tabs f Hf) as Hiff.
    destruct current as [cur|].
    + case_bool_decide as Hne.
      * split; [|done]. intros [[= ->] _]%Hiff. done.
      * assert (f = cur) as -> by (by destruct (decide (f = cur)); [|destruct Hne]).
        destruct (IH (<[obj_id (tab_obj t) := info_factory h (tab_obj t)]> lsi)
                    (Some cur)) as [Hok Hbad].
        destruct (_make_added_list h _ (tab_obj <$> tabs)) as [l2 is2] eqn:E.
        simpl in *. split.
        -- intros [_ Hord]%Hiff. destruct (Hok Hord) as (calls & -> & Hinfo).
           cbn [mbind Result_bind]. eexists. split; [reflexivity|].
           change (list_fmap Obj (Info Fields) (info_factory h) ?l)
             with (info_factory h <$> l).
           rewrite <- Hinfo. reflexivity.
        -- intros Hn. rewrite Hbad; [done|]. intros Hord. apply Hn, Hiff.
           by split.
    + split; [|done]. by intros [[=] _]%Hiff.
  - pose proof (ordered_top current t tabs Hf) as Hiff.
    destruct (IH (<[obj_id (tab_obj t) := info_factory h (tab_obj t)]> lsi)
                (if is_folder t then Some (obj_id (tab_obj t)) else None))
      as [Hok Hbad].
    destruct (_make_added_list h _ (tab_obj <$> tabs)) as [l2 is2] eqn:E.
    simpl in *. split.
    + intros Hord%Hiff. destruct (Hok Hord) as (calls & -> & Hinfo).
      cbn [mbind Result_bind]. eexists. split; [reflexivity|].
      change (list_fmap Obj (Info Fields) (info_factory h) ?l)
        with (info_factory h <$> l).
      rewrite <- Hinfo. by destruct (is_folder t && get_expanded t).
    + intros Hn. rewrite Hbad; [done|]. intros Hord. by apply Hn, Hiff.
Qed.

(** X29.  The whole tab list is sent only in a sound order.  When every
    tab of a folder comes after that folder with nothing but tabs of
    folders in between, [send_initial_list] returns and its response names
    every tab once, in the order of the tab list, and [_last_sent_info]
    holds the info of each of them; in any other order it raises
    [AssertionError] and nothing is sent.  [send_messages] with
    [send_whole_list] set sends that list, clears the flag and empties the
    buffers. *)
Theorem tab_list_needs_sound_order (h : Heap Fields) (root_expanded : bool)
    (tabs : list Tab) (t : TabTracker Fields) :
  let objs := tab_obj <$> tabs in
  (ordered_from None tabs ->
   exists calls,
     tab_send_initial_list h root_expanded tabs t
     = Ok ({| tracker :=
                set_last_sent_info
                  (_make_added_list h (_last_sent_info (tracker t)) objs).1
                  (tracker t);
              send_whole_list := send_whole_list t |},
           [SendTabList root_expanded calls])
     /\ omap call_info calls = info_factory h <$> objs
     /\ (send_whole_list t = true ->
         exists t',
           tab_send_messages h root_expanded tabs t
           = Ok (t', [SendTabList root_expanded calls])
           /\ send_whole_list t' = false
           /\ SignalStreams.nothing_buffered (tracker t')))
  /\ (~ ordered_from None tabs ->
      tab_send_initial_list h root_expanded tabs t = Raise AssertionError
      /\ (send_whole_list t = true ->
          tab_send_messages h root_expanded tabs t = Raise AssertionError)).
Proof.
  intros objs.
  destruct (tab_list_loop_spec h (_last_sent_info (tracker t)) None tabs)
    as [Hok Hbad].
  split.
  - intros Hord. destruct (Hok Hord) as (calls & Hloop & Hinfo).
    exists calls. unfold tab_send_initial_list. rewrite Hloop.
    cbn [mbind Result_bind]. split; [done|]. split; [done|].
    intros Hflag. unfold tab_send_messages, tab_send_initial_list.
    rewrite Hflag, Hloop. cbn [mbind Result_bind].
    eexists. split; [reflexivity|]. split; [done|]. by split.
  - intros Hn. unfold tab_send_messages, tab_send_initial_list.
    rewrite (Hbad Hn). split; [done|]. by intros ->.
Qed.

Lemma ordered_nil current : ordered_from current [].
Proof. intros pre c post f Heq. by destruct pre. Qed.

End facts.

Lemma tab_list_needs_sound_order_witness :
  exists t' calls,
    tab_send_messages heap0 true sample_tabs
      {| tracker := init; send_whole_list := true |}
    = Ok (t', [SendTabList true calls])
    /\ omap call_info calls = info_factory heap0 <$> [o1; o2].
Proof.
  destruct (tab_list_needs_sound_order heap0 true sample_tabs
              {| tracker := init; send_whole_list := true |}) as [Hok _].
  destruct Hok as (calls & _ & Hinfo & Hsend).
  - apply ordered_top; [done|]. simpl.
    apply (ordered_child _ _ _ 1%Z); [done|].
    split; [done|]. apply ordered_nil.
  - destruct (Hsend eq_refl) as (t' & E & _).
    exists t', calls. split; [exact E|exact Hinfo].
Defined.

End TabTrackersFacts.

(** * A torrent paused and resumed *)

Module BTControlFacts.
Import Download DownloadFacts BTControl.

Open Scope Z_scope.

(** X30.  Pausing a torrent takes it out of the session, resuming puts it
    back.  [pause] on a running torrent that is registered under its info
    hash ends in the state paused, keeps the handle, queues a status
    update, and removes the downloader from the torrents and its key from
    the registry, so that the info hash is no duplicate meanwhile;
    [_resume_torrent] then restores the session exactly as it was. *)
Theorem pause_resume_keeps_registration (eng : Engine) (cfg : Config)
    (c : BTControlled) (ses : TorrentSession) (w : World)
    (th : TorrentHandle) :
  let id_ := dlid (bt_base (bt c)) in
  let key := bytes_value (String.list_ascii_of_string (th_info_hash th)) in
  torrent (bt c) = Some th ->
  th_info_hash th <> "" ->
  id_ ∈ torrents ses ->
  registered ses (th_info_hash th) id_ ->
  exists c1 ses1 w1,
    BT_pause c ses w = (c1, ses1, w1)
    /\ state (bt_base (bt c1)) = paused /\ restarting c1 = true
    /\ torrent (bt c1) = Some th
    /\ (id_ ∉ torrents ses1)
    /\ info_hash_to_downloader ses1 !! key = None
    /\ id_ ∈ to_update w1
    /\ _resume_torrent eng cfg (bt c1) ses1 w1 = Ok (bt c1, ses, w1).
Proof.
  intros id_ key Ht Hne Hin Hreg. unfold registered in Hreg. fold key in Hreg.
  unfold BT_pause, _pause_torrent, remove_torrent. cbn [bt_with_base bt_base
    torrent dlid with_state].
  fold id_. rewrite bool_decide_eq_true_2 by done. rewrite Ht.
  rewrite info_hash_to_long_big_number by done. fold key. rewrite Hreg.
  eexists _, _, _. split; [reflexivity|]. cbn [fst snd bt restarting bt_base
    torrent state torrents info_hash_to_downloader].
  split; [done|]. split; [done|]. split; [done|]. split; [set_solver|].
  split; [apply lookup_delete_eq|]. split; [simpl; set_solver|].
  unfold _resume_torrent.
  assert (torrent (bt_with_base (with_state paused (bt_base (bt c))) (bt c))
          = Some th) as -> by done.
  unfold add_torrent.
  rewrite info_hash_to_long_big_number by done. fold key.
  cbn [mbind Result_bind torrents info_hash_to_downloader].
  change (dlid (bt_base (bt_with_base (with_state paused (bt_base (bt c)))
                           (bt c)))) with id_.
  f_equal. f_equal. f_equal. destruct ses as [T M]. simpl in *. f_equal.
  - apply set_eq. intros x. rewrite elem_of_union, elem_of_difference,
      elem_of_singleton. destruct (decide (x = id_)) as [->|]; tauto.
  - rewrite insert_delete_eq. by apply insert_id.
Qed.

Lemma pause_resume_keeps_registration_witness :
  exists c1 ses1 w1,
    BT_pause
      {| bt := bt_with_torrent (Some {| th_info_hash := sample_hash |}) None
                 (bt_with_base (with_retry (-1) None
                                  (bt_base sample_torrent)) sample_torrent);
         restarting := false |}
      {| torrents := {[2]};
         info_hash_to_downloader :=
           {[bytes_value (String.list_ascii_of_string sample_hash) := 2]} |}
      sample_world = (c1, ses1, w1)
    /\ (2 ∉ torrents ses1)
    /\ _resume_torrent sample_engine sample_config (bt c1) ses1 w1
       = Ok (bt c1,
             {| torrents := {[2]};
                info_hash_to_downloader :=
                  {[bytes_value (String.list_ascii_of_string sample_hash)
                    := 2]} |}, w1).
Proof.
  destruct (pause_resume_keeps_registration sample_engine sample_config
              {| bt := bt_with_torrent (Some {| th_info_hash := sample_hash |})
                         None
                         (bt_with_base (with_retry (-1) None
                                          (bt_base sample_torrent))
                            sample_torrent);
                 restarting := false |}
              {| torrents := {[2]};
                 info_hash_to_downloader :=
                   {[bytes_value (String.list_ascii_of_string sample_hash)
                     := 2]} |}
              sample_world {| th_info_hash := sample_hash |})
    as (c1 & ses1 & w1 & E & _ & _ & _ & Hout & _ & _ & Hres).
  - reflexivity.
  - discriminate.
  - simpl. set_solver.
  - apply lookup_singleton_eq.
  - exists c1, ses1, w1. split; [exact E|]. split; [exact Hout|exact Hres].
Defined.

End BTControlFacts.
